(* ===== verification/_CoqProject ===== *)
-Q . S2P
Prelude.v
CharConv.v
Environment.v
Resp.v
StreamTypes.v
Database.v
DatabaseFacts.v
DatabaseStreams.v
DatabaseSpec.v
TimeUtils.v
Commands.v
Dispatch.v
DispatchFacts.v
Replay.v
Config.v
Hexadecimal.v
Sessions.v
Aof.v
TornAppend.v
AofHandle.v
Rdb.v
StateMonad.v
ProcessorState.v
Processor.v
ProcessorRun.v
Deadlines.v
ProcessorWalk.v
WorkerWalk.v
ProcessorFacts.v
Transactions.v
Access.v
Blocking.v
Promises.v
Framing.v
Sockets.v
Journal.v
WriteLog.v
Durability.v
ReplicationStream.v
PubSub.v
Connection.v
ProcessorService.v
ReplicationLink.v
Convergence.v
Identity.v
Server.v
Lifecycle.v
Shutdown.v
Exit.v
Main.v
