(* ===== verification/Prelude.v ===== *)
(** * A verification library for the Redis server under src/

    ** The program

    src/ holds a Redis-compatible server.  [main] (src/main.cpp) parses the
    command line, starts a [TcpServer] (src/server.cpp) and loads persisted
    data.  A thread per connection cuts received bytes into commands with the
    RESP parser (src/resp.cpp) and hands them to the single worker thread of the
    [CommandProcessor] (src/command_processor.cpp) through a queue of tasks with
    promises.  The worker owns the [Database] (src/database.cpp), executes the
    command handlers (src/commands.cpp, src/rlist.cpp, src/rstream.cpp), keeps
    transactions, watched keys, access control, blocked clients and
    subscriptions, appends writes to the append-only file (src/aof.cpp) and
    queues them for replicas (src/replication.cpp), and answers through the
    promises.  Pub/sub messages travel through session queues with an eventfd
    (src/pubsub.cpp).  At the start data come from the append-only file or from
    an RDB snapshot (src/rdb.cpp).  A replica connects to its master and applies
    the master's stream of commands.

    ** Conventions

    A [std::expected] is [expected]; [option] around a result is used for runs
    that have no meaning in C++ or never return: signed overflow, an inverted
    iterator range, a loop out of fuel.  Integers are [Z] with their width written out
    ([wrap_u64], [checked_i64], [from_chars lo hi]); strings are sequences of
    8-bit characters.  What the program reads from its surroundings is a
    parameter: the clocks, the order of an unordered container, the outcomes of
    system calls, the file system, OpenSSL's digest, the random device, the
    memory of a vector (Environment.v, Config.v, Hexadecimal.v, Aof.v, Rdb.v).
    Their documented behaviour is a class of laws ([MonotonicClock],
    [PostEpochClock], [KernelLaws], [OpenSSLLaws], [ReliableWrites],
    [ReliableSend], [ReliableFile]) with a concrete instance; that a call is
    interrupted only so often in a row ([KernelLaws]) is an assumption of
    fairness.  A [send] whose pipe broke ([sys_pipe_broken]) raises SIGPIPE, which
    nothing ignores: the process is killed and the call does not return, and the
    theorems that need it to return assume [ReliableSend].  What clients, the
    master and signals do to the sockets are events of a step relation.
    Definitions keep the names of the source.

    ** Files

    - Prelude.v, CharConv.v, Environment.v, StateMonad.v: results, machine
      integers, strings, [std::from_chars] with the numerals it reads stated on
      their own, [std::to_string], the surroundings, and a state monad with the
      relational rules ([steps]) the processor's proofs use.
    - Resp.v: [parse_command] and the two serializers (src/resp.cpp).  Round
      trip, stable verdicts, prefixes, termination.
    - StreamTypes.v, Database.v: the data and every member function of
      [Database], with lazy expiry and key revisions.  DatabaseFacts.v:
      well-formedness and revisions.  DatabaseStreams.v: XRANGE and XREAD
      against their meaning.  DatabaseSpec.v: an abstract store of the live keys and
      the refinement of each of its 14 public operations.
    - TimeUtils.v, Commands.v, Dispatch.v: timeouts, the command handlers, the
      command table, and the form of a command in the log.  DispatchFacts.v:
      what a handler may change.  Replay.v: replaying the log rebuilds the data,
      and the expiry for which it does not.
    - Config.v: the command line.  Hexadecimal.v: password hashes
      (src/utils/sha256.cpp) and replication identifiers.  Sessions.v: the two
      session queues.  Aof.v: manifest, reading back, appending through partial
      and interrupted writes.  TornAppend.v: what an append that failed halfway
      leaves behind.  AofHandle.v: which object owns the descriptor.
      Rdb.v: the snapshot reader, equal to a grammar of the format.
    - ProcessorState.v, Processor.v, ProcessorRun.v: the state of the processor, one
      definition per member function, the loop of the worker, and
      [processor_step], which interleaves worker, callers and sessions.
      ProcessorWalk.v: automation over these definitions; WorkerWalk.v: rules
      for what the worker does to the replicas.  Deadlines.v: the arithmetic of
      expiries and timeouts.  ProcessorFacts.v, Transactions.v, Access.v,
      Blocking.v, Promises.v: theorems on every reachable state.  Journal.v:
      logs and their replay.  WriteLog.v: the invariant that the append-only
      file, and the backlog, are logs of the writes.  Durability.v: the file
      rebuilds the data.
      ReplicationStream.v: the backlog and the queues of the replicas.
      PubSub.v: the two maps of subscriptions.
    - Framing.v: the loop that takes commands off a buffer, shared by three
      threads.  Sockets.v: [send_bytes], and [CommandService], the processor as
      its callers see it.  Connection.v: [handle_connection].
      ReplicationLink.v: both sides of the replication link.  Convergence.v: both
      sides with their processors.
      ProcessorService.v: the processor implements [CommandService] and its
      laws.  Identity.v: identifiers and offsets from the random digits to the
      replica that reads them.  Server.v: the start from persisted data, and
      the parts running on each other.
    - Lifecycle.v: the main thread, the waiter for signals, the threads of the
      connections and of the link to the master, one function per thread that
      makes its next step.  Shutdown.v: the invariants of their interleavings.
      Exit.v: what they say of the end of the process.  Main.v: [setup_server],
      [setup_replication] and [main].

    ** What the theorems show

    - Protocol: a serialized command is parsed back, a verdict never changes
      when bytes arrive, a proper prefix is incomplete, and the parser ends.  For the
      server: the cut of the bytes by the network does not matter, pipelined
      commands are answered in order.
    - Data: every database operation refines the abstract store; streams stay
      sorted; XRANGE and XREAD return what they should, and exactly when XRANGE has
      undefined behaviour.
    - Persistence: an appended command is read back, a torn file is refused at
      the right byte, an append that failed halfway spoils the file for those
      that follow unless it stopped inside an argument, the log rebuilds the
      data, the RDB reader accepts exactly its format and always ends.
    - Processor, over all interleavings: the database stays well formed, a
      changed watched key aborts EXEC, a client without the password gets
      nothing done, a replica rejects writes, a client is not left blocked on data and
      blocked clients are served in order, every call is answered exactly once,
      and the file of a running server rebuilds its data after a restart.
    - Transactions run all or nothing.  The two maps of subscriptions agree.
    - Replication: a replica's queue holds exactly the backlog it has not been
      sent; the handshake and the resynchronization are understood by the
      other side, the stream is applied once and in order with the right
      offset, and a replica that starts with the data of its master ends with
      them whatever clients write; acknowledgements reach the processor; every identity a server
      hands out is one that a replica can read.
    - Limits: exactly which expiries and timeouts leave the range of the clock.
    - Process: a start that fails closes what it opened, one that does not
      reaches the loop of connections; every socket is closed once and by its
      owner; once a stop has begun the threads make a bounded number of steps
      whatever happens around them, and always have one to make until the process
      has ended cleanly, unless SIGPIPE kills it in a [send].  The signal must not
      come before the thread of a replica is started, and the stream of the master
      must not hold a command that waits for data: in such surroundings ([unruly])
      a stop may hang.

    ** Fuel

    Loops of the code that are not structural take fuel computed from their
    input: one unit per byte for the parsers and the readers of files and
    buffers (every iteration takes a byte), and one per byte times the bound on
    interrupted calls for writes.  For each there is a lemma that this fuel
    is enough.  Threads have no fuel: they are steps, and the shutdown ends by a
    measure of the work left ([work_left], Exit.v).

    ** Not modelled

    What the operating system answers ([socket], [bind], [getaddrinfo],
    [connect], [accept]) is an argument of the definitions or an event, and
    SHA-256 itself is OpenSSL's.  Only the sends are taken to raise a signal
    other than SIGINT and SIGTERM.  Lifecycle.v follows the sockets and the
    control of the threads and leaves their data to Connection.v,
    ReplicationLink.v and Processor.v; its steps are the calls between which
    threads interleave, so the memory model of C++ is not part of it.  The
    numbers of connections do not wrap around after 2^64 of them.  The text
    written to the terminal and the calls of [std::filesystem] that only build
    a path are left out. *)

From stdpp Require Import base option list gmap strings.
From Stdlib Require Import ZArith Lia.

(** ** Results

    [expected A E] is [std::expected<A, E>]; [option] around a result stands
    for the code whose C++ meaning is undefined ([None] = undefined
    behaviour, for instance signed overflow or an inverted iterator range). *)

Inductive expected (A E : Type) : Type :=
| Expected (a : A)
| Unexpected (e : E).
Arguments Expected {A E} a.
Arguments Unexpected {A E} e.

Definition expected_ok {A E} (x : expected A E) : bool :=
  match x with Expected _ => true | Unexpected _ => false end.

(** ** Machine integers *)

Open Scope Z_scope.

Definition u64_max : Z := 2 ^ 64 - 1.
Definition u16_max : Z := 2 ^ 16 - 1.
Definition i64_max : Z := 2 ^ 63 - 1.
Definition i64_min : Z := - 2 ^ 63.
Definition i32_max : Z := 2 ^ 31 - 1.
Definition i32_min : Z := - 2 ^ 31.

(** Unsigned arithmetic wraps. *)
Definition wrap_u64 (z : Z) : Z := z mod 2 ^ 64.

(** Signed arithmetic that leaves the range has no meaning in C++. *)
Definition checked_i64 (z : Z) : option Z :=
  if (i64_min <=? z) && (z <=? i64_max) then Some z else None.

Lemma wrap_u64_small z : 0 <= z <= u64_max -> wrap_u64 z = z.
Proof. unfold wrap_u64, u64_max. intros. apply Z.mod_small. lia. Qed.

Lemma wrap_u64_range z : 0 <= wrap_u64 z <= u64_max.
Proof.
  unfold wrap_u64, u64_max. pose proof (Z.mod_pos_bound z (2 ^ 64)). lia.
Qed.

Lemma wrap_u64_add a b : wrap_u64 (wrap_u64 a + b) = wrap_u64 (a + b).
Proof. unfold wrap_u64. by rewrite Z.add_mod_idemp_l. Qed.

Lemma checked_i64_Some z z' :
  checked_i64 z = Some z' <-> z' = z /\ i64_min <= z <= i64_max.
Proof.
  unfold checked_i64.
  destruct (Z.leb_spec i64_min z), (Z.leb_spec z i64_max); simpl;
    (split; [intros [=]; subst; lia|intros [-> ?]; first [done|lia]]).
Qed.

(** [size_t] of a C++ container or string. *)
Definition size_of (s : string) : Z := Z.of_nat (String.length s).

(** ** Strings as byte sequences

    A [std::string] is a [string]: a list of 8-bit characters.  Positions are
    [nat]; [substr] and [find] are [String.substring] and [String.index]. *)

Definition CR : Ascii.ascii := Ascii.ascii_of_nat 13.
Definition LF : Ascii.ascii := Ascii.ascii_of_nat 10.
Definition crlf : string := String CR (String LF EmptyString).

(** The first byte, [s.front()] of a non-empty string. *)
Definition front (s : string) : option Ascii.ascii := String.get 0 s.

(** [s.substr(n)], and [s.erase(0, n)] *)
Definition drop_string (n : nat) (s : string) : string :=
  String.substring n (String.length s - n) s.

Fixpoint all_chars (p : Ascii.ascii -> bool) (s : string) : bool :=
  match s with
  | EmptyString => true
  | String c s' => p c && all_chars p s'
  end.

Lemma string_app_cons c s t : String c s +:+ t = String c (s +:+ t).
Proof. reflexivity. Qed.

Lemma string_app_nil_l s : EmptyString +:+ s = s.
Proof. reflexivity. Qed.

Lemma string_app_nil_r s : s +:+ EmptyString = s.
Proof. induction s as [|c s IH]; [done|]. rewrite string_app_cons. by f_equal. Qed.

Lemma string_app_assoc s t u : (s +:+ t) +:+ u = s +:+ (t +:+ u).
Proof.
  induction s as [|c s IH]; [done|]. rewrite !string_app_cons. by f_equal.
Qed.

Lemma string_length_app s t :
  String.length (s +:+ t) = (String.length s + String.length t)%nat.
Proof.
  induction s as [|c s IH]; [done|]. rewrite string_app_cons. simpl. by rewrite IH.
Qed.

Lemma string_app_inj_l s t u : s +:+ t = s +:+ u -> t = u.
Proof.
  induction s as [|c s IH]; [done|]. rewrite !string_app_cons. naive_solver.
Qed.

Lemma substring_full s : String.substring 0 (String.length s) s = s.
Proof. induction s as [|c s IH]; simpl; [done|]. by f_equal. Qed.

Lemma substring_app_l s t : String.substring 0 (String.length s) (s +:+ t) = s.
Proof.
  induction s as [|c s IH]; [by destruct t|].
  rewrite string_app_cons. simpl. by f_equal.
Qed.

(** The middle part of a string, by its position. *)
Lemma substring_app_mid p s t :
  String.substring (String.length p) (String.length s) (p +:+ s +:+ t) = s.
Proof.
  induction p as [|c p IH]; [exact (substring_app_l s t)|].
  rewrite string_app_cons. exact IH.
Qed.

Lemma substring_extend n m s t :
  (n + m <= String.length s)%nat ->
  String.substring n m (s +:+ t) = String.substring n m s.
Proof.
  revert n m. induction s as [|c s IH]; intros n m Hle; simpl in Hle.
  - assert (n = 0 /\ m = 0)%nat as [-> ->] by lia. by destruct t.
  - rewrite string_app_cons. destruct n as [|n], m as [|m]; simpl; try done.
    + f_equal. apply IH. lia.
    + apply IH. lia.
    + apply IH. lia.
Qed.

Lemma substring_length n m s :
  (n + m <= String.length s)%nat ->
  String.length (String.substring n m s) = m.
Proof.
  revert n m. induction s as [|c s IH]; intros n m Hle; simpl in Hle.
  - assert (n = 0 /\ m = 0)%nat as [-> ->] by lia. done.
  - destruct n as [|n], m as [|m]; simpl; try done.
    + f_equal. apply IH. lia.
    + apply IH. lia.
    + apply IH. lia.
Qed.

Lemma drop_string_app s t : drop_string (String.length s) (s +:+ t) = t.
Proof.
  unfold drop_string. rewrite string_length_app.
  replace (String.length s + String.length t - String.length s)%nat
    with (String.length t) by lia.
  rewrite <- (string_app_nil_r t) at 2. apply substring_app_mid.
Qed.

Lemma drop_string_0 s : drop_string 0 s = s.
Proof. unfold drop_string. rewrite Nat.sub_0_r. apply substring_full. Qed.

Lemma get_app_l n s t :
  (n < String.length s)%nat -> String.get n (s +:+ t) = String.get n s.
Proof.
  revert n. induction s as [|c s IH]; intros n Hn; simpl in Hn; [lia|].
  rewrite string_app_cons. destruct n as [|n]; simpl; [done|]. apply IH. lia.
Qed.

Lemma get_app_r n s t :
  String.get (String.length s + n) (s +:+ t) = String.get n t.
Proof. induction s as [|c s IH]; [done|]. rewrite string_app_cons. exact IH. Qed.

Lemma get_lt_Some n s :
  (n < String.length s)%nat -> exists c, String.get n s = Some c.
Proof.
  revert n. induction s as [|c s IH]; simpl; intros n Hn; [lia|].
  destruct n as [|n]; simpl; [by eexists|]. apply IH. lia.
Qed.

Lemma get_Some_lt n s c :
  String.get n s = Some c -> (n < String.length s)%nat.
Proof.
  revert n. induction s as [|d s IH]; simpl; intros n Hn; [done|].
  destruct n as [|n]; [lia|]. apply IH in Hn. lia.
Qed.

(** *** Searching for CRLF *)

Lemma prefix_app s t : String.prefix s (s +:+ t) = true.
Proof.
  induction s as [|c s IH]; [by destruct t|]. rewrite string_app_cons. simpl.
  by destruct (Ascii.ascii_dec c c).
Qed.

Lemma prefix_extend p s t :
  String.prefix p s = true -> String.prefix p (s +:+ t) = true.
Proof.
  revert s. induction p as [|c p IH]; intros s; [by destruct (s +:+ t)|].
  destruct s as [|d s]; [done|].
  rewrite string_app_cons. simpl. destruct (Ascii.ascii_dec c d); [apply IH|done].
Qed.

Lemma prefix_exists p s : String.prefix p s = true -> exists t, s = p +:+ t.
Proof.
  revert s. induction p as [|c p IH]; intros [|d s]; simpl; try done.
  - by exists EmptyString.
  - by exists (String d s).
  - destruct (Ascii.ascii_dec c d) as [->|]; [|done].
    intros [t ->]%IH. by exists t.
Qed.

Definition not_cr (c : Ascii.ascii) : bool := negb (Ascii.eqb c CR).

(** The first CRLF after a prefix [p] and a CR-free line. *)
Lemma index_crlf_after p line rest :
  all_chars not_cr line = true ->
  String.index (String.length p) crlf (p +:+ line +:+ crlf +:+ rest)
  = Some (String.length p + String.length line)%nat.
Proof.
  intros Hline. induction p as [|c p IH].
  - rewrite string_app_nil_l. induction line as [|c line IH].
    + unfold crlf. rewrite !string_app_cons, !string_app_nil_l. simpl. by destruct rest.
    + simpl in Hline. apply andb_true_iff in Hline as [Hc Hline].
      rewrite string_app_cons. specialize (IH Hline).
      cbn [String.index String.length] in *. rewrite IH.
      destruct (String.prefix crlf _) eqn:Hp; [|done].
      unfold crlf in Hp. cbn [String.prefix] in Hp.
      destruct (Ascii.ascii_dec CR c) as [<-|]; [|done].
      unfold not_cr in Hc. by rewrite Ascii.eqb_refl in Hc.
  - rewrite string_app_cons. cbn [String.index String.length]. by rewrite IH.
Qed.

(** Appending to a string long enough does not change what it starts with. *)
Lemma prefix_app_ge p s t :
  (String.length p <= String.length s)%nat ->
  String.prefix p (s +:+ t) = String.prefix p s.
Proof.
  revert s. induction p as [|e p IHp]; intros s Hlen; [by destruct s, t|].
  destruct s as [|x s]; simpl in Hlen; [lia|]. rewrite string_app_cons. simpl.
  destruct (Ascii.ascii_dec e x); [apply IHp; lia|done].
Qed.

Lemma index_bound n p s m :
  String.index n p s = Some m ->
  (n <= m)%nat /\ (m + String.length p <= String.length s)%nat.
Proof.
  revert n m. induction s as [|c s IH]; intros n m.
  - simpl. destruct n as [|n]; [|done]. destruct p as [|d p]; [|done].
    intros [= <-]. simpl. lia.
  - destruct n as [|n]; cbn [String.index].
    + destruct (String.prefix p (String c s)) eqn:Hp.
      * intros [= <-]. apply prefix_exists in Hp as [u Hu].
        apply (f_equal String.length) in Hu. rewrite string_length_app in Hu.
        split; [lia|]. rewrite Hu. lia.
      * destruct (String.index 0 p s) as [k|] eqn:Hk; [|done]. intros [= <-].
        apply IH in Hk. simpl. lia.
    + destruct (String.index n p s) as [k|] eqn:Hk; [|done]. intros [= <-].
      apply IH in Hk. simpl. lia.
Qed.

(** A match already found stays the first match when bytes are appended. *)
Lemma index_extend n p s t m :
  String.index n p s = Some m -> String.index n p (s +:+ t) = Some m.
Proof.
  revert n m. induction s as [|c s IH]; intros n m.
  - simpl. destruct n as [|n]; [|done]. destruct p as [|d p]; [|done].
    intros [= <-]. rewrite string_app_nil_l. by destruct t.
  - intros Hidx. apply index_bound in Hidx as Hb. revert Hidx.
    rewrite string_app_cons. destruct n as [|n]; cbn [String.index].
    + rewrite <- string_app_cons, prefix_app_ge by lia.
      destruct (String.prefix p (String c s)); [done|].
      destruct (String.index 0 p s) as [k|] eqn:Hk; [|done].
      intros [= <-]. by rewrite (IH _ _ Hk).
    + destruct (String.index n p s) as [k|] eqn:Hk; [|done].
      intros [= <-]. by rewrite (IH _ _ Hk).
Qed.

(** ** Lists *)

Lemma filter_none {A} (P : A -> Prop) `{!forall x, Decision (P x)} (l : list A) :
  Forall (fun x => ~ P x) l -> filter P l = [].
Proof.
  induction 1 as [|x l Hx _ IH]; [done|]. rewrite filter_cons.
  by destruct (decide (P x)).
Qed.

Lemma filter_all {A} (P : A -> Prop) `{!forall x, Decision (P x)} (l : list A) :
  Forall P l -> filter P l = l.
Proof.
  induction 1 as [|x l Hx _ IH]; [done|]. rewrite filter_cons.
  destruct (decide (P x)); [by rewrite IH|done].
Qed.

(** ** Automation *)

Create HintDb redis.
Create Rewrite HintDb strings.

(** Case analysis on the conditions and matches the code branches on. *)
Ltac branch :=
  repeat match goal with
  | |- context [if ?b then _ else _] => destruct b eqn:?
  | |- context [match ?x with _ => _ end] => destruct x eqn:?
  | H : context [if ?b then _ else _] |- _ => destruct b eqn:?
  | H : context [match ?x with _ => _ end] |- _ => destruct x eqn:?
  end; simplify_eq/=.

#[export] Hint Rewrite string_length_app string_app_nil_l string_app_nil_r
  string_app_assoc string_app_cons : strings.
