(* ===== verification/CharConv.v ===== *)
(** * Number and character conversions of the C++ standard library

    The program reads every number with [std::from_chars] on an integer type
    and prints with [std::to_string].  This file models the two, and proves
    the facts the parsers of the program rely on: printing then reading gives
    the number back and consumes the whole text, and a successful read is in
    the range of its type. *)

From stdpp Require Import base option list strings.
From Stdlib Require Import ZArith Lia.
From S2P Require Import Prelude.

Definition minus_sign : Ascii.ascii := Ascii.ascii_of_nat 45.

(** ** [std::from_chars] for integer types *)

Inductive errc := errc_ok | invalid_argument | result_out_of_range.

#[export] Instance errc_eq_dec : EqDecision errc.
Proof. solve_decision. Defined.

Record from_chars_result := mk_from_chars_result {
  fc_ptr : nat;
  fc_ec : errc;
  fc_value : Z;
}.

Definition digit_value (c : Ascii.ascii) : option Z :=
  let n := Z.of_N (Ascii.N_of_ascii c) in
  if (48 <=? n) && (n <=? 57) then Some (n - 48) else None.

(** The value of the longest prefix of decimal digits, and its length. *)
Fixpoint scan_digits (s : string) (acc : Z) : Z * nat :=
  match s with
  | EmptyString => (acc, 0%nat)
  | String c s' =>
      match digit_value c with
      | Some d => let '(v, n) := scan_digits s' (10 * acc + d) in (v, S n)
      | None => (acc, 0%nat)
      end
  end.

(** [std::from_chars(first, last, value)] on an integer type with range
    [lo .. hi]: a minus sign is read for a signed type only, no plus sign and
    no blanks; out of range, the value is left as it was and the pointer is
    after the digits. *)
Definition from_chars (lo hi : Z) (text : string) (init : Z) : from_chars_result :=
  let negative :=
    match text with
    | String c _ => (lo <? 0) && Ascii.eqb c minus_sign
    | EmptyString => false
    end in
  let body := if negative then drop_string 1 text else text in
  let '(v, n) := scan_digits body 0 in
  match n with
  | O => mk_from_chars_result 0 invalid_argument init
  | S _ =>
      let z := if negative then - v else v in
      let ptr := if negative then S n else n in
      if (lo <=? z) && (z <=? hi)
      then mk_from_chars_result ptr errc_ok z
      else mk_from_chars_result ptr result_out_of_range init
  end.

(** [error != std::errc{} || end != text.data() + text.size()] *)
Definition conversion_failed (r : from_chars_result) (text : string) : bool :=
  negb (bool_decide (fc_ec r = errc_ok)) ||
  negb (Nat.eqb (fc_ptr r) (String.length text)).

(** ** [std::to_string] *)

Definition digit_char (d : Z) : Ascii.ascii := Ascii.ascii_of_N (Z.to_N (48 + d)).

Fixpoint print_digits (fuel : nat) (n : Z) : string :=
  match fuel with
  | O => EmptyString
  | S fuel' =>
      let last := String (digit_char (n mod 10)) EmptyString in
      if n <? 10 then last else print_digits fuel' (n / 10) +:+ last
  end.

Definition to_string (z : Z) : string :=
  let digits n := print_digits (S (Z.to_nat (Z.log2 n))) n in
  if z <? 0 then String minus_sign (digits (- z)) else digits z.

(** [std::toupper] in the C locale *)
Definition toupper (c : Ascii.ascii) : Ascii.ascii :=
  let n := Ascii.N_of_ascii c in
  if (97 <=? n)%N && (n <=? 122)%N then Ascii.ascii_of_N (n - 32)%N else c.

(** ** Digits *)

Definition is_digit (c : Ascii.ascii) : bool :=
  match digit_value c with Some _ => true | None => false end.

Lemma digit_value_char d : 0 <= d <= 9 -> digit_value (digit_char d) = Some d.
Proof.
  intros Hd. unfold digit_value, digit_char.
  rewrite Ascii.N_ascii_embedding by lia. rewrite Z2N.id by lia.
  destruct (Z.leb_spec 48 (48 + d)), (Z.leb_spec (48 + d) 57); simpl; try lia.
  f_equal. lia.
Qed.

Lemma digit_value_range c d : digit_value c = Some d -> 0 <= d <= 9.
Proof.
  unfold digit_value. destruct (Z.leb_spec 48 (Z.of_N (Ascii.N_of_ascii c))),
    (Z.leb_spec (Z.of_N (Ascii.N_of_ascii c)) 57); simpl; try done.
  intros [= <-]. lia.
Qed.

Lemma digit_not_minus c : is_digit c = true -> Ascii.eqb c minus_sign = false.
Proof.
  intros Hd. destruct (Ascii.eqb_spec c minus_sign) as [->|]; [|done].
  by vm_compute in Hd.
Qed.

Lemma digit_not_cr c : is_digit c = true -> not_cr c = true.
Proof.
  intros Hd. unfold not_cr. destruct (Ascii.eqb_spec c CR) as [->|]; [|done].
  by vm_compute in Hd.
Qed.

Lemma scan_digits_app s t acc :
  all_chars is_digit s = true ->
  scan_digits (s +:+ t) acc =
  let '(v, n) := scan_digits t (scan_digits s acc).1 in
  (v, (String.length s + n)%nat).
Proof.
  revert acc. induction s as [|c s IH]; intros acc Hs.
  - rewrite string_app_nil_l. simpl. by destruct (scan_digits t acc).
  - simpl in Hs. apply andb_true_iff in Hs as [Hc Hs]. rewrite string_app_cons.
    cbn [scan_digits]. unfold is_digit in Hc.
    destruct (digit_value c) as [d|]; [|done]. rewrite (IH _ Hs).
    destruct (scan_digits s _) as [v n]. simpl. by destruct (scan_digits t v).
Qed.

Lemma scan_digits_all s acc :
  all_chars is_digit s = true -> (scan_digits s acc).2 = String.length s.
Proof.
  intros Hs. pose proof (scan_digits_app s EmptyString acc Hs) as H.
  rewrite string_app_nil_r in H. rewrite H. simpl. lia.
Qed.

Lemma scan_digits_acc s acc : 0 <= acc -> acc <= (scan_digits s acc).1.
Proof.
  revert acc. induction s as [|c s IH]; intros acc Hacc; simpl; [lia|].
  destruct (digit_value c) as [d|] eqn:Hd; [|simpl; lia].
  apply digit_value_range in Hd. specialize (IH (10 * acc + d)).
  destruct (scan_digits s _) as [v n]; simpl in *. lia.
Qed.

(** A read that stops at the end of the text read digits only. *)
Lemma scan_digits_full s acc :
  (scan_digits s acc).2 = String.length s -> all_chars is_digit s = true.
Proof.
  revert acc. induction s as [|c s IH]; intros acc; [done|]. simpl.
  unfold is_digit at 1. destruct (digit_value c) as [d|] eqn:Hd; [|done].
  specialize (IH (10 * acc + d)). destruct (scan_digits s _) as [v n].
  simpl in *. intros ?. apply IH. lia.
Qed.

Lemma all_chars_app p s t :
  all_chars p (s +:+ t) = all_chars p s && all_chars p t.
Proof.
  induction s as [|c s IH]; [done|]. rewrite string_app_cons. simpl.
  by rewrite IH, andb_assoc.
Qed.

Lemma all_chars_impl (p q : Ascii.ascii -> bool) s :
  (forall c, p c = true -> q c = true) ->
  all_chars p s = true -> all_chars q s = true.
Proof.
  intros Hpq. induction s as [|c s IH]; [done|]. simpl.
  intros [Hc Hs]%andb_true_iff. by rewrite (Hpq _ Hc), IH.
Qed.

(** Enough fuel prints every digit. *)
Lemma print_digits_spec fuel n :
  0 <= n < 2 ^ Z.of_nat fuel -> (0 < fuel)%nat ->
  all_chars is_digit (print_digits fuel n) = true /\
  (0 < String.length (print_digits fuel n))%nat /\
  (scan_digits (print_digits fuel n) 0).1 = n.
Proof.
  revert n. induction fuel as [|fuel IH]; intros n Hn Hf; [lia|].
  assert (0 <= n mod 10 <= 9) as Hm by (pose proof (Z.mod_pos_bound n 10); lia).
  assert (is_digit (digit_char (n mod 10)) = true) as Hlast.
  { unfold is_digit. by rewrite digit_value_char. }
  cbn [print_digits]. destruct (Z.ltb_spec n 10) as [Hlt|Hge].
  - cbn [all_chars scan_digits String.length]. rewrite Hlast, digit_value_char by done.
    rewrite Z.mod_small by lia. simpl. split_and!; [done|lia|lia].
  - assert (0 <= n / 10 < 2 ^ Z.of_nat fuel) as Hd.
    { split; [apply Z.div_pos; lia|]. apply Z.div_lt_upper_bound; [lia|].
      rewrite Nat2Z.inj_succ, Z.pow_succ_r in Hn by lia. lia. }
    assert (0 < fuel)%nat by (destruct fuel; simpl in Hd; [|lia];
      pose proof (Z.div_le_lower_bound n 10 1); lia).
    destruct (IH _ Hd) as (Hall & Hlen & Hval); [done|].
    rewrite all_chars_app, scan_digits_app, Hval, string_length_app by done.
    cbn [all_chars scan_digits String.length]. rewrite Hall, Hlast.
    rewrite digit_value_char by done. simpl. split_and!; [done|lia|].
    pose proof (Z.div_mod n 10). lia.
Qed.

(** What [to_string] prints: digits, after a minus sign for a negative number. *)
Lemma to_string_nonneg_spec z :
  0 <= z ->
  all_chars is_digit (to_string z) = true /\
  (0 < String.length (to_string z))%nat /\
  (scan_digits (to_string z) 0).1 = z.
Proof.
  intros Hz. unfold to_string. destruct (Z.ltb_spec z 0); [lia|].
  apply print_digits_spec; [|lia]. split; [done|].
  rewrite Nat2Z.inj_succ, Z2Nat.id by apply Z.log2_nonneg.
  destruct (decide (z = 0)) as [->|]; [done|]. apply Z.log2_spec. lia.
Qed.

Lemma to_string_neg z : z < 0 -> to_string z = String minus_sign (to_string (- z)).
Proof.
  intros Hz. unfold to_string. destruct (Z.ltb_spec z 0); [|lia].
  destruct (Z.ltb_spec (- z) 0); [lia|done].
Qed.

(** A printed number holds no CR, so it is a line of the protocol. *)
Lemma to_string_no_cr z : all_chars not_cr (to_string z) = true.
Proof.
  assert (forall y, 0 <= y -> all_chars not_cr (to_string y) = true) as Hpos.
  { intros y Hy. destruct (to_string_nonneg_spec y Hy) as (Hall & _ & _).
    eapply all_chars_impl; [apply digit_not_cr|done]. }
  destruct (Z.ltb_spec z 0); [|by apply Hpos].
  rewrite to_string_neg by done. simpl. apply Hpos. lia.
Qed.

Lemma print_digits_length fuel n : (String.length (print_digits fuel n) <= fuel)%nat.
Proof.
  revert n. induction fuel as [|fuel IH]; intros n; simpl; [lia|].
  destruct (n <? 10); simpl; [lia|].
  rewrite string_length_app. simpl. specialize (IH (n / 10)). lia.
Qed.

(** The text of a 64-bit value is short. *)
Lemma to_string_length_bound z :
  0 <= z <= u64_max -> (String.length (to_string z) <= 64)%nat.
Proof.
  intros Hz. unfold to_string. destruct (Z.ltb_spec z 0); [lia|].
  etransitivity; [apply print_digits_length|].
  assert (Z.log2 z < 64); [|lia].
  destruct (Z.eq_dec z 0) as [->|]; [done|]. apply Z.log2_lt_pow2; unfold u64_max in *; lia.
Qed.

Lemma to_string_length_pos z : (0 < String.length (to_string z))%nat.
Proof.
  destruct (Z.ltb_spec z 0).
  - rewrite to_string_neg by done. simpl. lia.
  - by apply to_string_nonneg_spec.
Qed.

(** ** Printing and reading back *)

Lemma from_chars_to_string lo hi z init :
  lo <= z <= hi ->
  from_chars lo hi (to_string z) init =
  mk_from_chars_result (String.length (to_string z)) errc_ok z.
Proof.
  intros Hz.
  assert (forall y, 0 <= y -> scan_digits (to_string y) 0
            = (y, String.length (to_string y))) as Hscan.
  { intros y Hy. destruct (to_string_nonneg_spec y Hy) as (Hall & _ & Hval).
    pose proof (scan_digits_all _ 0 Hall) as Hn.
    destruct (scan_digits _ 0) as [v n]. simpl in *. congruence. }
  unfold from_chars. destruct (Z.ltb_spec z 0) as [Hneg|Hpos].
  - rewrite (to_string_neg z) by done.
    destruct (Z.ltb_spec lo 0); [|lia]. rewrite Ascii.eqb_refl. cbn [andb].
    change (drop_string 1 (String minus_sign (to_string (- z))))
      with (drop_string (String.length (String minus_sign EmptyString))
             (String minus_sign EmptyString +:+ to_string (- z))).
    rewrite drop_string_app, Hscan by lia.
    pose proof (to_string_length_pos (- z)).
    destruct (String.length (to_string (- z))) as [|n] eqn:Hlen; [lia|].
    cbn [String.length]. rewrite Hlen.
    destruct (Z.leb_spec lo (- - z)), (Z.leb_spec (- - z) hi); simpl; try lia.
    f_equal. lia.
  - destruct (to_string_nonneg_spec z Hpos) as (Hall & Hlen & _).
    specialize (Hscan z Hpos).
    destruct (to_string z) as [|c s] eqn:Hs; [simpl in Hlen; lia|].
    simpl in Hall. apply andb_true_iff in Hall as [Hc _].
    rewrite (digit_not_minus _ Hc), andb_false_r, Hscan. cbn [String.length].
    destruct (Z.leb_spec lo z), (Z.leb_spec z hi); simpl; try lia. done.
Qed.

(** A successful read is in range. *)
Lemma from_chars_range lo hi text init :
  fc_ec (from_chars lo hi text init) = errc_ok ->
  lo <= fc_value (from_chars lo hi text init) <= hi.
Proof.
  unfold from_chars. intros H. branch; lia.
Qed.

Lemma conversion_failed_false r text :
  conversion_failed r text = false <->
  fc_ec r = errc_ok /\ fc_ptr r = String.length text.
Proof.
  unfold conversion_failed. rewrite orb_false_iff, !negb_false_iff,
    bool_decide_eq_true, Nat.eqb_eq. done.
Qed.

Lemma conversion_to_string lo hi z init :
  lo <= z <= hi ->
  conversion_failed (from_chars lo hi (to_string z) init) (to_string z) = false.
Proof.
  intros Hz. rewrite from_chars_to_string by done. by apply conversion_failed_false.
Qed.

(** A whole-text read of an unsigned type read decimal digits only. *)
Lemma from_chars_unsigned_digits hi text init :
  conversion_failed (from_chars 0 hi text init) text = false ->
  all_chars is_digit text = true.
Proof.
  rewrite conversion_failed_false. unfold from_chars.
  replace (match text with
           | EmptyString => false
           | String c _ => (0 <? 0) && Ascii.eqb c minus_sign end) with false
    by (by destruct text).
  destruct (scan_digits text 0) as [v n] eqn:Hs. intros [Hec Hptr].
  apply (scan_digits_full text 0). rewrite Hs. simpl.
  destruct n as [|n]; [done|]. by destruct (_ && _).
Qed.

Lemma to_string_inj x y : to_string x = to_string y -> x = y.
Proof.
  intros H. set (lo := Z.min x y). set (hi := Z.max x y).
  pose proof (from_chars_to_string lo hi x 0) as Hx.
  pose proof (from_chars_to_string lo hi y 0) as Hy.
  rewrite H in Hx. rewrite Hx in Hy by lia. specialize (Hy ltac:(lia)). congruence.
Qed.

(** ** What a decimal text denotes

    Said without the scanner: digits are written one after the other, and one
    more digit at the end counts ten times what was there plus itself. *)

Definition digit_text (d : Z) : string := String.substring (Z.to_nat d) 1 "0123456789".

Inductive numeral : string -> Z -> Prop :=
| numeral_digit d : 0 <= d <= 9 -> numeral (digit_text d) d
| numeral_snoc s n d :
    numeral s n -> 0 <= d <= 9 -> numeral (s +:+ digit_text d) (10 * n + d).

(** A numeral, or a minus sign and a numeral. *)
Definition integer_text (s : string) (z : Z) : Prop :=
  numeral s z \/ exists s', s = String minus_sign s' /\ numeral s' (- z).

Lemma digit_cases d : 0 <= d <= 9 -> d ∈ [0; 1; 2; 3; 4; 5; 6; 7; 8; 9].
Proof.
  intros Hd. rewrite !elem_of_cons.
  destruct (decide (d = 0)), (decide (d = 1)), (decide (d = 2)), (decide (d = 3)),
    (decide (d = 4)), (decide (d = 5)), (decide (d = 6)), (decide (d = 7)),
    (decide (d = 8)); try tauto. assert (d = 9) by lia. tauto.
Qed.

Lemma digit_text_char d : 0 <= d <= 9 -> digit_text d = String (digit_char d) EmptyString.
Proof.
  intros Hd%digit_cases. revert d Hd. by apply Forall_forall; repeat constructor.
Qed.

Lemma digit_value_inv c d : digit_value c = Some d -> c = digit_char d.
Proof.
  unfold digit_value, digit_char.
  destruct (Z.leb_spec 48 (Z.of_N (Ascii.N_of_ascii c))),
    (Z.leb_spec (Z.of_N (Ascii.N_of_ascii c)) 57); simpl; try done.
  intros [= <-]. replace (48 + (Z.of_N (Ascii.N_of_ascii c) - 48))
    with (Z.of_N (Ascii.N_of_ascii c)) by lia.
  by rewrite N2Z.id, Ascii.ascii_N_embedding.
Qed.

(** The scanner reads a text of digits as the numeral it is. *)
Lemma scan_digits_numeral s s0 acc :
  numeral s0 acc -> all_chars is_digit s = true ->
  numeral (s0 +:+ s) (scan_digits s acc).1.
Proof.
  revert s0 acc. induction s as [|c s IH]; intros s0 acc H0 Hs.
  - by rewrite string_app_nil_r.
  - simpl in Hs. apply andb_true_iff in Hs as [Hc Hs]. unfold is_digit in Hc.
    cbn [scan_digits]. destruct (digit_value c) as [d|] eqn:Hd; [|done].
    pose proof (digit_value_range _ _ Hd) as Hr. apply digit_value_inv in Hd as ->.
    specialize (IH _ _ (numeral_snoc _ _ _ H0 Hr) Hs).
    rewrite digit_text_char, string_app_assoc, string_app_cons, string_app_nil_l in IH
      by done.
    by destruct (scan_digits s _).
Qed.

Lemma numeral_scan s n :
  numeral s n <->
  all_chars is_digit s = true /\ (0 < String.length s)%nat /\ (scan_digits s 0).1 = n.
Proof.
  split.
  - induction 1 as [d Hd|s n d _ (Hall & Hlen & Hval) Hd].
    + rewrite digit_text_char by done. cbn [all_chars scan_digits String.length].
      unfold is_digit. rewrite digit_value_char by done. simpl. auto with lia.
    + rewrite digit_text_char, all_chars_app, scan_digits_app, Hval, Hall, string_length_app
        by done.
      cbn [all_chars scan_digits String.length]. unfold is_digit.
      rewrite digit_value_char by done. simpl. auto with lia.
  - destruct s as [|c s]; intros (Hall & Hlen & <-); [simpl in Hlen; lia|].
    simpl in Hall. apply andb_true_iff in Hall as [Hc Hs]. unfold is_digit in Hc.
    cbn [scan_digits]. destruct (digit_value c) as [d|] eqn:Hd; [|done].
    pose proof (digit_value_range _ _ Hd) as Hr. apply digit_value_inv in Hd as ->.
    pose proof (scan_digits_numeral s _ _ (numeral_digit d Hr) Hs) as Hn.
    rewrite digit_text_char, string_app_cons, string_app_nil_l in Hn by done.
    replace (10 * 0 + d) with d by lia. by destruct (scan_digits s d).
Qed.

Lemma numeral_nonneg s n : numeral s n -> 0 <= n.
Proof. induction 1; lia. Qed.

Lemma numeral_unique s n n' : numeral s n -> numeral s n' -> n = n'.
Proof. rewrite !numeral_scan. by intros (_ & _ & <-) (_ & _ & <-). Qed.

Lemma numeral_not_minus s z : ~ numeral (String minus_sign s) z.
Proof. rewrite numeral_scan. intros (Hall & _). simpl in Hall. by vm_compute in Hall. Qed.

Lemma numeral_scanned s v n z :
  scan_digits s 0 = (v, n) ->
  (numeral s z <-> n = String.length s /\ (0 < n)%nat /\ v = z).
Proof.
  intros Hs. rewrite numeral_scan, Hs. simpl. split.
  - intros (Hall%(fun H => scan_digits_all s 0 H) & Hlen & <-). rewrite Hs in Hall.
    simpl in Hall. subst n. done.
  - intros (-> & Hlen & <-). split_and!; [|done|done]. apply (scan_digits_full s 0).
    by rewrite Hs.
Qed.

Lemma integer_text_minus s z : integer_text (String minus_sign s) z <-> numeral s (- z).
Proof.
  unfold integer_text. split; [|by eauto].
  intros [Hn|(s' & [= <-] & Hn)]; [by apply numeral_not_minus in Hn|done].
Qed.

(** A whole-text read of a signed type succeeds with [z] exactly when the text
    denotes [z] and [z] is in range. *)
Lemma from_chars_signed lo hi text init z :
  lo < 0 ->
  conversion_failed (from_chars lo hi text init) text = false /\
  fc_value (from_chars lo hi text init) = z <->
  integer_text text z /\ lo <= z <= hi.
Proof.
  intros Hlo. rewrite conversion_failed_false. unfold from_chars.
  destruct (Z.ltb_spec lo 0); [clear H|lia].
  destruct (match text with
            | EmptyString => false
            | String c _ => true && Ascii.eqb c minus_sign
            end) eqn:Hneg.
  - destruct text as [|c s]; [done|]. simpl in Hneg. apply Ascii.eqb_eq in Hneg as ->.
    rewrite integer_text_minus.
    change (drop_string 1 (String minus_sign s))
      with (drop_string (String.length (String minus_sign EmptyString))
             (String minus_sign EmptyString +:+ s)).
    rewrite drop_string_app. destruct (scan_digits s 0) as [v n] eqn:Hs.
    rewrite (numeral_scanned _ _ _ _ Hs). cbn [String.length].
    destruct n as [|n]; [split; [by intros [[??] _]|intros [(_ & ? & _) _]; lia]|].
    destruct (Z.leb_spec lo (- v)), (Z.leb_spec (- v) hi); cbn [andb fc_ec fc_ptr fc_value];
      (split; [intros [[Hok Hl] Hz]; try discriminate Hok; split_and!; lia
              |intros [(Hl & _ & Hz) Hr]; first [lia|split_and!; [done|lia|lia]]]).
  - assert (integer_text text z <-> numeral text z) as ->.
    { unfold integer_text. split; [|by left]. intros [?|(s' & -> & _)]; [done|].
      by rewrite Ascii.eqb_refl in Hneg. }
    destruct (scan_digits text 0) as [v n] eqn:Hs.
    rewrite (numeral_scanned _ _ _ _ Hs).
    destruct n as [|n]; [split; [by intros [[??] _]|intros [(_ & ? & _) _]; lia]|].
    destruct (Z.leb_spec lo v), (Z.leb_spec v hi); cbn [andb fc_ec fc_ptr fc_value];
      (split; [intros [[Hok Hl] Hz]; try discriminate Hok; split_and!; lia
              |intros [(Hl & _ & Hz) Hr]; first [lia|split_and!; [done|lia|lia]]]).
Qed.

#[export] Hint Resolve to_string_no_cr to_string_length_pos : redis.

Example from_chars_ex1 :
  from_chars 0 u64_max "120x" 7 = mk_from_chars_result 3 errc_ok 120.
Proof. reflexivity. Qed.

Example from_chars_ex2 :
  from_chars i64_min i64_max "-9223372036854775809" 7
  = mk_from_chars_result 20 result_out_of_range 7.
Proof. reflexivity. Qed.
