(* ===== verification/Environment.v ===== *)
(** * What the program reads from its surroundings

    Interfaces of the C++ runtime and of the kernel that the components share.

    - [Clock]: the [n]-th reading of the clocks.  [steady_clock_now] is
      [std::chrono::steady_clock::now()] as the count of nanoseconds of its
      time point, [system_clock_ms] the Unix time of
      [std::chrono::system_clock::now()] in milliseconds.  A component counts
      its readings in its state, so two readings of one command may differ.
    - [HashOrder]: the order in which an unordered container is traversed.
      It is some permutation of its keys, and no theorem depends on which.
    - [Kernel]: the outcomes of the system calls, in the order of the calls.

    [MonotonicClock] is the documented behaviour of a steady clock;
    [PostEpochClock] says that the wall clock is past the Unix epoch and within
    a 64-bit count of milliseconds. *)

From stdpp Require Import base option list strings.
From Stdlib Require Import ZArith Lia.
From S2P Require Import Prelude.

Class Clock := {
  steady_clock_now : nat -> Z;
  system_clock_ms : nat -> Z;
}.

Class MonotonicClock `{Clock} :=
  steady_mono : forall i j, (i <= j)%nat -> steady_clock_now i <= steady_clock_now j.

Class PostEpochClock `{Clock} :=
  post_epoch : forall i, 0 < system_clock_ms i <= i64_max.

Class HashOrder := {
  hash_order : list string -> list string;
  hash_order_ids : list Z -> list Z;
  hash_order_perm : forall l, hash_order l ≡ₚ l;
  hash_order_ids_perm : forall l, hash_order_ids l ≡ₚ l;
}.

(** [std::chrono::milliseconds] converted to nanoseconds and added to a time
    point: both operations are on signed 64-bit counts. *)
Definition deadline_after (now ms : Z) : option Z :=
  ns ← checked_i64 (ms * 1000000);
  checked_i64 (now + ns).

Lemma deadline_after_Some now ms t :
  deadline_after now ms = Some t <->
  t = now + ms * 1000000 /\
  i64_min <= ms * 1000000 <= i64_max /\ i64_min <= now + ms * 1000000 <= i64_max.
Proof.
  unfold deadline_after. destruct (checked_i64 (ms * 1000000)) as [ns|] eqn:Hns; simpl.
  - apply checked_i64_Some in Hns as [-> Hr]. rewrite checked_i64_Some. tauto.
  - split; [done|]. intros (_ & Hr & _).
    rewrite (proj2 (checked_i64_Some _ _) (conj eq_refl Hr)) in Hns. done.
Qed.

(** ** System calls *)

(** What one [write] or [send] does: it takes some bytes, or fails with
    [EINTR], with [EAGAIN], or with another error and its [strerror] text. *)
Inductive io_outcome :=
| Completed (n : nat)
| Interrupted
| WouldBlock
| IoError (message : string).

(** [sys_write i n] is the outcome of the [i]-th write when [n] bytes are
    offered, [sys_pipe_broken i] whether the [i]-th call, when it is a [send],
    finds its socket shut down for sending or its connection gone (the program
    sends with no flags and leaves [SIGPIPE] at its default action, so it is
    killed then), [sys_read i] of the [i]-th call when it reads the eight bytes of an
    [eventfd], [sys_fsync i] the error of the [i]-th call when it is an [fsync].
    [stale_errno] is the text of an [errno] no failing call has set, and
    [eintr_limit] bounds how often a call is interrupted in a row. *)
Class Kernel := {
  sys_write : nat -> nat -> io_outcome;
  sys_pipe_broken : nat -> bool;
  sys_read : nat -> io_outcome;
  sys_fsync : nat -> option string;
  stale_errno : string;
  eintr_limit : nat;
}.

(** A write takes no more than it is offered, as documented.  [eintr_bounded]
    is an assumption of fairness: signals do not interrupt one call for ever
    (the loops of the code repeat an interrupted call without a limit). *)
Class KernelLaws `{Kernel} := {
  sys_write_bound : forall i n m, sys_write i n = Completed m -> (m <= n)%nat;
  eintr_bounded : forall i, exists k, (k <= eintr_limit)%nat /\
    sys_read (i + k) <> Interrupted /\ forall n, sys_write (i + k) n <> Interrupted;
}.

Definition eagain_message : string := "Resource temporarily unavailable".

(** ** Concrete surroundings, for the examples *)

(** A steady clock that starts at one second and advances a millisecond per
    reading, and a wall clock that stands still. *)
Definition millisecond_clock : Clock := {|
  steady_clock_now i := 1000000000 + 1000000 * Z.of_nat i;
  system_clock_ms i := 1700000000000;
|}.

Lemma millisecond_clock_mono : @MonotonicClock millisecond_clock.
Proof. intros i j Hij. simpl. lia. Qed.

Lemma millisecond_clock_post_epoch : @PostEpochClock millisecond_clock.
Proof. intros i. vm_compute. split; [done|discriminate]. Qed.

Definition insertion_order : HashOrder := {|
  hash_order l := l;
  hash_order_ids l := l;
  hash_order_perm l := Permutation_refl l;
  hash_order_ids_perm l := Permutation_refl l;
|}.

(** A kernel that takes every byte offered. *)
Definition perfect_kernel : Kernel := {|
  sys_write i n := Completed n;
  sys_pipe_broken i := false;
  sys_read i := Completed 8;
  sys_fsync i := None;
  stale_errno := "Success";
  eintr_limit := 0;
|}.

Lemma perfect_kernel_laws : @KernelLaws perfect_kernel.
Proof.
  split.
  - by intros i n m [= ->].
  - intros i. exists 0%nat. split; [lia|done].
Qed.
