(* ===== verification/Resp.v ===== *)
(** * The RESP layer (src/resp.hpp, src/resp.cpp)

    Parsing of commands (arrays of bulk strings) out of a byte buffer and
    serialization of commands and responses.  The parser keeps the position
    arithmetic of the code; the argument loop is a fuelled recursion whose
    fuel, one unit per byte of the input and one more, is proved to be always
    enough. *)

From stdpp Require Import base option list strings.
From Stdlib Require Import ZArith Lia.
From S2P Require Import Prelude CharConv.

Set Warnings "-register-all".

(** ** Data *)

Abbreviation Command := (list string).

Record ParseResult := mkParseResult {
  command : Command;
  bytes_consumed : nat;
}.

Inductive ParseErrorCode := INVALID_FORMAT | INVALID_LENGTH.

Record ParseError := mkParseError {
  code : ParseErrorCode;
  message : string;
}.

Inductive ParseOutcome :=
| Parsed (result : ParseResult)
| Incomplete
| Failed (error : ParseError).

Inductive Response :=
| SimpleString (value : string)
| SimpleError (value : string)
| BulkString (value : string)
| Integer (value : Z)
| NullBulkString
| NullArray
| EmptyArray
| NoResponse
| Array (values : list string)
| ResponseArray (values : list Response).

(** ** Parsing *)

Definition read_line (input : string) (position : nat) : option (string * nat) :=
  match String.index position crlf input with
  | None => None
  | Some e => Some (String.substring position (e - position) input, (e + 2)%nat)
  end.

Definition parse_length (text : string) : expected Z ParseError :=
  let r := from_chars 0 u64_max text 0 in
  if String.eqb text EmptyString || conversion_failed r text
  then Unexpected (mkParseError INVALID_LENGTH "Invalid RESP length")
  else Expected (fc_value r).

(** [input[position] == c] *)
Definition char_at (input : string) (position : nat) (c : Ascii.ascii) : bool :=
  match String.get position input with
  | Some d => Ascii.eqb d c
  | None => false
  end.

Definition asterisk : Ascii.ascii := Ascii.ascii_of_nat 42.
Definition dollar : Ascii.ascii := Ascii.ascii_of_nat 36.

Inductive ArgumentOutcome :=
| ArgumentParsed (argument : string) (position : nat)
| ArgumentIncomplete
| ArgumentFailed (error : ParseError).

(** The body of the loop of [parse_command]: one bulk string. *)
Definition parse_argument (input : string) (position : nat) : ArgumentOutcome :=
  if (String.length input <=? position)%nat then ArgumentIncomplete else
  if negb (char_at input position dollar)
  then ArgumentFailed (mkParseError INVALID_FORMAT "Expected RESP bulk string") else
  let position := S position in
  match read_line input position with
  | None => ArgumentIncomplete
  | Some (bulk_length_text, position) =>
    match parse_length bulk_length_text with
    | Unexpected error => ArgumentFailed error
    | Expected bulk_length =>
      if Z.of_nat (String.length input - position) <? bulk_length
      then ArgumentIncomplete else
      let argument := String.substring position (Z.to_nat bulk_length) input in
      let position := (position + Z.to_nat bulk_length)%nat in
      if (String.length input - position <? 2)%nat then ArgumentIncomplete else
      if negb (char_at input position CR) || negb (char_at input (S position) LF)
      then ArgumentFailed (mkParseError INVALID_FORMAT "Bulk string must end with CRLF")
      else ArgumentParsed argument (position + 2)
    end
  end.

Fixpoint parse_arguments (fuel : nat) (input : string) (array_length i : Z)
    (position : nat) (cmd : Command) : option ParseOutcome :=
  match fuel with
  | O => None
  | S fuel' =>
    if i <? array_length then
      match parse_argument input position with
      | ArgumentIncomplete => Some Incomplete
      | ArgumentFailed error => Some (Failed error)
      | ArgumentParsed argument position' =>
          parse_arguments fuel' input array_length (i + 1) position'
            (cmd ++ [argument])
      end
    else Some (Parsed (mkParseResult cmd position))
  end.

Definition parse_command_loop (input : string) : option ParseOutcome :=
  if String.eqb input EmptyString then Some Incomplete else
  if negb (char_at input 0 asterisk)
  then Some (Failed (mkParseError INVALID_FORMAT "Expected RESP array")) else
  match read_line input 1 with
  | None => Some Incomplete
  | Some (array_length_text, position) =>
    match parse_length array_length_text with
    | Unexpected error => Some (Failed error)
    | Expected array_length =>
        parse_arguments (S (String.length input)) input array_length 0 position []
    end
  end.

(** [None] does not occur: [parse_command_total]. *)
Definition parse_command (input : string) : ParseOutcome :=
  default Incomplete (parse_command_loop input).

(** ** Serialization *)

Definition append_bulk_string (output value : string) : string :=
  output +:+ "$" +:+ to_string (size_of value) +:+ crlf +:+ value +:+ crlf.

Definition append_array_header (output : string) (size : nat) : string :=
  output +:+ "*" +:+ to_string (Z.of_nat size) +:+ crlf.

Fixpoint append_response (output : string) (response : Response) : string :=
  match response with
  | SimpleString value => output +:+ "+" +:+ value +:+ crlf
  | SimpleError value => output +:+ "-" +:+ value +:+ crlf
  | BulkString value => append_bulk_string output value
  | Integer value => output +:+ ":" +:+ to_string value +:+ crlf
  | NullBulkString => output +:+ "$-1" +:+ crlf
  | NullArray => output +:+ "*-1" +:+ crlf
  | EmptyArray => output +:+ "*0" +:+ crlf
  | NoResponse => output
  | Array values =>
      fold_left append_bulk_string values (append_array_header output (length values))
  | ResponseArray values =>
      (fix append_all (output : string) (values : list Response) : string :=
         match values with
         | [] => output
         | v :: vs => append_all (append_response output v) vs
         end) (append_array_header output (length values)) values
  end.

Definition serialize_response (response : Response) : string :=
  append_response EmptyString response.

Definition serialize_command (cmd : Command) : string :=
  fold_left append_bulk_string cmd (append_array_header EmptyString (length cmd)).

Example parse_ping :
  parse_command (serialize_command ["PING"; ""] +:+ "*1") =
  Parsed (mkParseResult ["PING"; ""] 20).
Proof. reflexivity. Qed.

Example serialize_nested :
  serialize_response (ResponseArray [Integer (-2); NullBulkString; Array ["ab"]])
  = "*3" +:+ crlf +:+ ":-2" +:+ crlf +:+ "$-1" +:+ crlf
    +:+ "*1" +:+ crlf +:+ "$2" +:+ crlf +:+ "ab" +:+ crlf.
Proof. reflexivity. Qed.

(** ** Lengths that fit [size_t] *)

Definition argument_fits (a : string) : Prop := size_of a <= u64_max.

Definition command_fits (c : Command) : Prop :=
  Z.of_nat (length c) <= u64_max /\ Forall argument_fits c.

(** ** Facts on lines and lengths *)

Lemma read_line_bound input position line position' :
  read_line input position = Some (line, position') ->
  (position + 2 <= position' <= String.length input)%nat.
Proof.
  unfold read_line. destruct (String.index position crlf input) as [e|] eqn:He; [|done].
  intros [= <- <-]. apply index_bound in He. simpl in He. lia.
Qed.

Lemma read_line_extend input ext position r :
  read_line input position = Some r -> read_line (input +:+ ext) position = Some r.
Proof.
  unfold read_line. destruct (String.index position crlf input) as [e|] eqn:He; [|done].
  intros [= <-]. apply index_bound in He as Hb. simpl in Hb.
  rewrite (index_extend _ _ _ _ _ He), substring_extend by lia. done.
Qed.

Lemma read_line_after p line rest :
  all_chars not_cr line = true ->
  read_line (p +:+ line +:+ crlf +:+ rest) (String.length p) =
  Some (line, (String.length p + String.length line + 2)%nat).
Proof.
  intros Hl. unfold read_line. rewrite index_crlf_after by done.
  replace (String.length p + String.length line - String.length p)%nat
    with (String.length line) by lia.
  by rewrite substring_app_mid.
Qed.

Lemma parse_length_range text n :
  parse_length text = Expected n -> 0 <= n <= u64_max.
Proof.
  unfold parse_length. destruct (String.eqb text EmptyString); [done|]. simpl.
  destruct (conversion_failed _ _) eqn:Hc; [done|]. intros [= <-].
  apply conversion_failed_false in Hc as [Hc _]. by apply from_chars_range.
Qed.

Lemma parse_length_to_string n :
  0 <= n <= u64_max -> parse_length (to_string n) = Expected n.
Proof.
  intros Hn. unfold parse_length. rewrite conversion_to_string by done.
  destruct (String.eqb_spec (to_string n) EmptyString) as [He|_].
  - pose proof (to_string_length_pos n). rewrite He in *. simpl in *. lia.
  - simpl. by rewrite from_chars_to_string.
Qed.

Lemma char_at_lt input position c :
  char_at input position c = true -> (position < String.length input)%nat.
Proof.
  unfold char_at. destruct (String.get position input) eqn:Hg; [|done].
  intros _. by eapply get_Some_lt.
Qed.

Lemma char_at_extend input ext position c :
  (position < String.length input)%nat ->
  char_at (input +:+ ext) position c = char_at input position c.
Proof. intros. unfold char_at. by rewrite get_app_l. Qed.

Lemma char_at_after p c s : char_at (p +:+ String c s) (String.length p) c = true.
Proof.
  unfold char_at. rewrite <- (Nat.add_0_r (String.length p)), get_app_r.
  simpl. apply Ascii.eqb_refl.
Qed.

(** ** One argument *)

Lemma parse_argument_bound input position a position' :
  parse_argument input position = ArgumentParsed a position' ->
  (position < position' <= String.length input)%nat /\ argument_fits a.
Proof.
  unfold parse_argument. destruct (Nat.leb_spec (String.length input) position); [done|].
  destruct (negb _); [done|].
  destruct (read_line input (S position)) as [[t q]|] eqn:Hr; [|done].
  apply read_line_bound in Hr.
  destruct (parse_length t) as [n|] eqn:Hn; [|done]. apply parse_length_range in Hn.
  destruct (Z.ltb_spec (Z.of_nat (String.length input - q)) n); [done|].
  destruct (Nat.ltb_spec (String.length input - (q + Z.to_nat n)) 2); [done|].
  destruct (_ || _); [done|]. intros [= <- <-]. split; [lia|].
  unfold argument_fits, size_of. rewrite substring_length by lia. lia.
Qed.

(** More input never changes a verdict already given. *)
Lemma parse_argument_extend input ext position :
  parse_argument input position <> ArgumentIncomplete ->
  parse_argument (input +:+ ext) position = parse_argument input position.
Proof.
  unfold parse_argument. rewrite string_length_app.
  destruct (Nat.leb_spec (String.length input) position); [done|].
  destruct (Nat.leb_spec (String.length input + String.length ext) position); [lia|].
  rewrite char_at_extend by lia. destruct (negb _); [done|].
  destruct (read_line input (S position)) as [[t q]|] eqn:Hr; [|done].
  rewrite (read_line_extend _ _ _ _ Hr). apply read_line_bound in Hr.
  destruct (parse_length t) as [n|] eqn:Hn; [|done]. apply parse_length_range in Hn.
  destruct (Z.ltb_spec (Z.of_nat (String.length input - q)) n); [done|].
  destruct (Z.ltb_spec (Z.of_nat (String.length input + String.length ext - q)) n);
    [lia|].
  destruct (Nat.ltb_spec (String.length input - (q + Z.to_nat n)) 2); [done|].
  destruct (Nat.ltb_spec (String.length input + String.length ext
                            - (q + Z.to_nat n)) 2); [lia|].
  by rewrite !char_at_extend, substring_extend by lia.
Qed.

(** The bytes [append_bulk_string] adds. *)
Definition bulk_frame (value : string) : string :=
  append_bulk_string EmptyString value.

Lemma append_bulk_string_frame output value :
  append_bulk_string output value = output +:+ bulk_frame value.
Proof. reflexivity. Qed.

Lemma bulk_frame_unfold value :
  bulk_frame value =
  String dollar (to_string (size_of value) +:+ crlf +:+ value +:+ crlf).
Proof. reflexivity. Qed.

Lemma bulk_frame_length value :
  String.length (bulk_frame value) =
  (1 + String.length (to_string (size_of value)) + 2 + String.length value + 2)%nat.
Proof.
  rewrite bulk_frame_unfold. cbn [String.length]. rewrite !string_length_app.
  simpl. lia.
Qed.

(** The successful path of [parse_argument], by the facts it tests. *)
Lemma parse_argument_steps input position text q n :
  char_at input position dollar = true ->
  read_line input (S position) = Some (text, q) ->
  parse_length text = Expected n ->
  (q + Z.to_nat n + 2 <= String.length input)%nat ->
  char_at input (q + Z.to_nat n) CR = true ->
  char_at input (S (q + Z.to_nat n)) LF = true ->
  parse_argument input position =
  ArgumentParsed (String.substring q (Z.to_nat n) input) (q + Z.to_nat n + 2).
Proof.
  intros Hd Hr Hn Hlen Hcr Hlf. unfold parse_argument.
  apply char_at_lt in Hd as Hlt. apply parse_length_range in Hn as Hrange.
  rewrite (proj2 (Nat.leb_gt _ _) Hlt), Hd, Hr, Hn, Hcr, Hlf.
  destruct (Z.ltb_spec (Z.of_nat (String.length input - q)) n); [lia|].
  destruct (Nat.ltb_spec (String.length input - (q + Z.to_nat n)) 2); [lia|done].
Qed.

Lemma parse_argument_frame p value rest :
  argument_fits value ->
  parse_argument (p +:+ bulk_frame value +:+ rest) (String.length p) =
  ArgumentParsed value (String.length p + String.length (bulk_frame value)).
Proof.
  unfold argument_fits. intros Hfit. rewrite bulk_frame_length, bulk_frame_unfold.
  set (digits := to_string (size_of value)).
  set (head := p +:+ String dollar EmptyString).
  set (body := head +:+ digits +:+ crlf).
  assert (String.length body = String.length p + 1 + String.length digits + 2)%nat
    as Hbody by (unfold body, head; rewrite !string_length_app; simpl; lia).
  assert (p +:+ String dollar (digits +:+ crlf +:+ value +:+ crlf) +:+ rest
          = head +:+ digits +:+ crlf +:+ value +:+ crlf +:+ rest) as Hhead.
  { unfold head. by rewrite !string_app_assoc, !string_app_cons, !string_app_assoc. }
  assert (head +:+ digits +:+ crlf +:+ value +:+ crlf +:+ rest
          = body +:+ value +:+ crlf +:+ rest) as Hb.
  { unfold body. by rewrite !string_app_assoc. }
  assert (Z.to_nat (size_of value) = String.length value) as Hn by (unfold size_of; lia).
  erewrite (parse_argument_steps _ _ digits (String.length body) (size_of value)).
  - rewrite Hn, Hhead, Hb, substring_app_mid, Hbody. f_equal. lia.
  - apply char_at_after.
  - rewrite Hhead, Hbody. replace (S (String.length p)) with (String.length head)
      by (unfold head; rewrite string_length_app; simpl; lia).
    rewrite read_line_after by apply to_string_no_cr. do 2 f_equal.
    unfold head. rewrite string_length_app. simpl. lia.
  - apply parse_length_to_string. unfold size_of in *. lia.
  - rewrite Hn, Hhead, Hb, !string_length_app. simpl. lia.
  - rewrite Hn, Hhead, Hb, <- string_length_app, <- string_app_assoc.
    apply char_at_after.
  - rewrite Hn, Hhead, Hb, <- string_length_app, <- string_app_assoc.
    change (crlf +:+ rest) with (String CR EmptyString +:+ String LF rest).
    rewrite <- string_app_assoc.
    replace (S _) with (String.length ((body +:+ value) +:+ String CR EmptyString))
      by (rewrite (string_length_app (body +:+ value)); simpl; lia).
    apply char_at_after.
Qed.

(** ** The argument loop *)

Lemma parse_arguments_total fuel input array_length i position cmd :
  (position <= String.length input)%nat ->
  (String.length input - position < fuel)%nat ->
  exists o, parse_arguments fuel input array_length i position cmd = Some o.
Proof.
  revert i position cmd. induction fuel as [|fuel IH]; intros i position cmd Hp Hf; [lia|].
  simpl. destruct (i <? array_length); [|by eexists].
  destruct (parse_argument input position) as [a q| |e] eqn:Ha; [|by eexists..].
  apply parse_argument_bound in Ha as [? _]. apply IH; lia.
Qed.

Lemma parse_arguments_extend fuel fuel' input ext array_length i position cmd o :
  parse_arguments fuel input array_length i position cmd = Some o ->
  o <> Incomplete -> (fuel <= fuel')%nat ->
  parse_arguments fuel' (input +:+ ext) array_length i position cmd = Some o.
Proof.
  revert fuel' i position cmd.
  induction fuel as [|fuel IH]; intros fuel' i position cmd Ho Hne Hle; [done|].
  destruct fuel' as [|fuel']; [lia|]. simpl in *.
  destruct (i <? array_length); [|done].
  rewrite parse_argument_extend by (destruct (parse_argument input position); congruence).
  destruct (parse_argument input position) as [a q| |e]; [|done..].
  apply IH; [done..|lia].
Qed.

Lemma parse_arguments_bound fuel input array_length i position cmd r :
  parse_arguments fuel input array_length i position cmd = Some (Parsed r) ->
  (position <= String.length input)%nat ->
  Forall argument_fits cmd ->
  (position <= bytes_consumed r <= String.length input)%nat /\
  Forall argument_fits (command r).
Proof.
  revert i position cmd. induction fuel as [|fuel IH]; intros i position cmd Ho Hp Hc; [done|].
  simpl in Ho. destruct (i <? array_length).
  - destruct (parse_argument input position) as [a q| |e] eqn:Ha; [|done..].
    apply parse_argument_bound in Ha as [Hq Hfit].
    apply IH in Ho as [? ?]; [|lia|by apply Forall_app; auto]. split; [lia|done].
  - simplify_eq. simpl. split; [lia|done].
Qed.

Lemma parse_arguments_length fuel input array_length i position cmd r :
  parse_arguments fuel input array_length i position cmd = Some (Parsed r) ->
  Z.of_nat (length (command r)) = Z.of_nat (length cmd) + Z.max 0 (array_length - i).
Proof.
  revert i position cmd. induction fuel as [|fuel IH]; intros i position cmd Ho; [done|].
  simpl in Ho. destruct (Z.ltb_spec i array_length).
  - destruct (parse_argument input position) as [a q| |e]; [|done..].
    apply IH in Ho. rewrite Ho, length_app. simpl. lia.
  - simplify_eq. simpl. lia.
Qed.

(** Frames of the arguments of a command, one after the other. *)
Definition argument_frames (args : Command) : string :=
  foldr (fun a s => bulk_frame a +:+ s) EmptyString args.

Lemma fold_append_frames args output :
  fold_left append_bulk_string args output = output +:+ argument_frames args.
Proof.
  revert output. induction args as [|a args IH]; intros output; simpl.
  - by rewrite string_app_nil_r.
  - by rewrite IH, append_bulk_string_frame, string_app_assoc.
Qed.

Lemma parse_arguments_frames fuel args p rest i cmd :
  Forall argument_fits args -> (length args < fuel)%nat ->
  parse_arguments fuel (p +:+ argument_frames args +:+ rest)
    (i + Z.of_nat (length args)) i (String.length p) cmd =
  Some (Parsed (mkParseResult (cmd ++ args)
    (String.length p + String.length (argument_frames args)))).
Proof.
  revert fuel p i cmd. induction args as [|a args IH]; intros fuel p i cmd Hfit Hf.
  - destruct fuel as [|fuel]; [lia|]. simpl. rewrite Z.add_0_r.
    rewrite (proj2 (Z.ltb_ge i i)) by lia. by rewrite app_nil_r, Nat.add_0_r.
  - inversion_clear Hfit as [|? ? Ha Hargs]. destruct fuel as [|fuel]; simpl in Hf; [lia|].
    cbn [parse_arguments]. rewrite (proj2 (Z.ltb_lt _ _)) by (simpl; lia).
    cbn [argument_frames foldr]. rewrite !string_app_assoc.
    rewrite parse_argument_frame by done.
    rewrite <- string_length_app, <- string_app_assoc.
    replace (i + Z.of_nat (length (a :: args)))
      with (i + 1 + Z.of_nat (length args)) by (simpl; lia).
    fold (argument_frames args). rewrite IH by (done || lia).
    rewrite <- app_assoc. do 2 f_equal. f_equal.
    rewrite !string_length_app. lia.
Qed.

(** ** The whole parser *)

Lemma serialize_command_layout c :
  serialize_command c =
  String asterisk (to_string (Z.of_nat (length c)) +:+ crlf) +:+ argument_frames c.
Proof.
  unfold serialize_command. rewrite fold_append_frames.
  unfold append_array_header. done.
Qed.

Lemma parse_command_loop_total input : exists o, parse_command_loop input = Some o.
Proof.
  unfold parse_command_loop. destruct (String.eqb input EmptyString); [by eexists|].
  destruct (negb _); [by eexists|].
  destruct (read_line input 1) as [[t p]|] eqn:Hr; [|by eexists].
  destruct (parse_length t) as [n|]; [|by eexists].
  apply read_line_bound in Hr. apply parse_arguments_total; lia.
Qed.

Lemma parse_command_spec input o :
  parse_command input = o <-> parse_command_loop input = Some o.
Proof.
  unfold parse_command. destruct (parse_command_loop_total input) as [o' ->].
  naive_solver.
Qed.

Lemma parse_command_extend input ext :
  parse_command input <> Incomplete ->
  parse_command (input +:+ ext) = parse_command input.
Proof.
  intros Hne. apply parse_command_spec.
  remember (parse_command input) as o eqn:Ho. symmetry in Ho.
  apply parse_command_spec in Ho. revert Ho. unfold parse_command_loop.
  destruct input as [|c input]; [naive_solver|].
  rewrite char_at_extend by (simpl; lia).
  rewrite string_app_cons. cbn [String.eqb]. rewrite <- string_app_cons.
  destruct (negb _); [done|].
  destruct (read_line (String c input) 1) as [[t p]|] eqn:Hr; [|naive_solver].
  rewrite (read_line_extend _ _ _ _ Hr).
  destruct (parse_length t) as [n|]; [|done].
  intros Ho. eapply parse_arguments_extend; [done..|].
  rewrite string_length_app. lia.
Qed.

Lemma parse_command_bound input r :
  parse_command input = Parsed r ->
  (0 < bytes_consumed r <= String.length input)%nat /\ command_fits (command r).
Proof.
  intros Ho%parse_command_spec. revert Ho. unfold parse_command_loop.
  destruct (String.eqb input EmptyString); [done|]. destruct (negb _); [done|].
  destruct (read_line input 1) as [[t p]|] eqn:Hr; [|done].
  destruct (parse_length t) as [n|] eqn:Hn; [|done].
  apply parse_length_range in Hn. apply read_line_bound in Hr. intros Ho.
  pose proof (parse_arguments_length _ _ _ _ _ _ _ Ho) as Hl. simpl in Hl.
  apply parse_arguments_bound in Ho as [? ?]; [|lia|done].
  split; [lia|]. split; [lia|done].
Qed.

Lemma parse_command_frame c rest :
  command_fits c ->
  parse_command (serialize_command c +:+ rest) =
  Parsed (mkParseResult c (String.length (serialize_command c))).
Proof.
  intros [Hlen Hfit]. apply parse_command_spec. unfold parse_command_loop.
  set (digits := to_string (Z.of_nat (length c))).
  set (head := String asterisk (digits +:+ crlf)).
  assert (serialize_command c +:+ rest = head +:+ argument_frames c +:+ rest) as Hin.
  { rewrite serialize_command_layout. apply string_app_assoc. }
  rewrite Hin. unfold head at 1. rewrite string_app_cons. cbn [String.eqb].
  assert (char_at (head +:+ argument_frames c +:+ rest) 0 asterisk = true) as -> by done.
  assert (read_line (head +:+ argument_frames c +:+ rest) 1
          = Some (digits, String.length head)) as ->.
  { unfold head. rewrite string_app_cons, string_app_assoc.
    change (read_line (String asterisk EmptyString +:+ digits +:+ crlf
              +:+ argument_frames c +:+ rest)
              (String.length (String asterisk EmptyString)) =
            Some (digits, String.length (String asterisk (digits +:+ crlf)))).
    rewrite read_line_after by apply to_string_no_cr.
    cbn [String.length]. rewrite string_length_app. simpl. done. }
  cbn [negb]. unfold digits. rewrite parse_length_to_string by lia.
  rewrite <- (Z.add_0_l (Z.of_nat (length c))).
  rewrite parse_arguments_frames; [|done|].
  - simpl app. rewrite serialize_command_layout. fold digits. fold head.
    by rewrite <- string_length_app.
  - rewrite !string_length_app. cut (length c <= String.length (argument_frames c))%nat;
      [lia|]. clear. induction c as [|a c IH]; [simpl; lia|].
    cbn [argument_frames foldr length]. fold (argument_frames c).
    rewrite string_length_app, bulk_frame_length. lia.
Qed.

Lemma serialize_command_nonempty c : (0 < String.length (serialize_command c))%nat.
Proof. rewrite serialize_command_layout, string_length_app. simpl. lia. Qed.

(** The bytes of a sequence of commands, as a log or a stream holds them. *)
Definition log_bytes (commands : list Command) : string :=
  foldr (fun c bytes => serialize_command c +:+ bytes) EmptyString commands.

Lemma log_bytes_app cs cs' : log_bytes (cs ++ cs') = log_bytes cs +:+ log_bytes cs'.
Proof.
  induction cs as [|c cs IH]; simpl; [done|]. by rewrite IH, string_app_assoc.
Qed.

Lemma log_bytes_length cs : (length cs <= String.length (log_bytes cs))%nat.
Proof.
  induction cs as [|c cs IH]; simpl; [done|]. rewrite string_length_app.
  pose proof (serialize_command_nonempty c). lia.
Qed.

(** A proper prefix of a frame is never parsed nor rejected: the verdict would
    have to stay when the rest arrives. *)
Lemma parse_prefix_incomplete (c : Command) (input ext : string) :
  command_fits c -> serialize_command c = input +:+ ext -> ext <> EmptyString ->
  parse_command input = Incomplete.
Proof.
  intros Hfit Hsplit Hext.
  destruct (parse_command input) as [r| |e] eqn:Ho; [exfalso|done|exfalso].
  all: pose proof (parse_command_frame c EmptyString Hfit) as Hc;
    rewrite string_app_nil_r, Hsplit, parse_command_extend, Ho in Hc by congruence.
  - injection Hc as ->. apply parse_command_bound in Ho as [Hb _]. simpl in Hb.
    rewrite string_length_app in Hb.
    destruct ext as [|x ext]; [done|]. simpl in Hb. lia.
  - discriminate.
Qed.

(** ** Properties *)

(** C1: a serialized command, followed by any bytes (the next pipelined
    commands), is parsed back to the same command, and the parser reports
    exactly the bytes of its frame as consumed. *)
Theorem serialize_parse_roundtrip (c : Command) (rest : string) :
  command_fits c ->
  parse_command (serialize_command c +:+ rest) =
  Parsed (mkParseResult c (String.length (serialize_command c))).
Proof. apply parse_command_frame. Qed.

Lemma serialize_parse_roundtrip_witness :
  parse_command (serialize_command ["SET"; "k"; "v"] +:+ "*1") =
  Parsed (mkParseResult ["SET"; "k"; "v"] 27).
Proof.
  apply (serialize_parse_roundtrip ["SET"; "k"; "v"] "*1").
  split; [vm_compute; discriminate|].
  repeat constructor; vm_compute; discriminate.
Defined.

(** C26: the verdict of the parser is stable: once a buffer is parsed or
    rejected, bytes that arrive later change neither the command, nor the
    count of consumed bytes, nor the error. *)
Theorem parse_verdict_stable (input ext : string) :
  parse_command input <> Incomplete ->
  parse_command (input +:+ ext) = parse_command input.
Proof. apply parse_command_extend. Qed.

Lemma parse_verdict_stable_witness :
  parse_command ("+OK" +:+ "junk") = parse_command "+OK".
Proof. apply (parse_verdict_stable "+OK" "junk"). vm_compute. discriminate. Defined.

(** Every proper prefix of the frame of a command is reported as
    incomplete, never as an error and never as a shorter command. *)
Theorem parse_proper_prefix (c : Command) (input ext : string) :
  command_fits c -> serialize_command c = input +:+ ext -> ext <> EmptyString ->
  parse_command input = Incomplete.
Proof. apply parse_prefix_incomplete. Qed.

Lemma parse_proper_prefix_witness :
  parse_command (String.substring 0 9 (serialize_command ["ECHO"; "hi"])) = Incomplete.
Proof.
  apply (parse_proper_prefix ["ECHO"; "hi"] _
           (String.substring 9 30 (serialize_command ["ECHO"; "hi"]))).
  - split; [vm_compute; discriminate|].
    repeat constructor; vm_compute; discriminate.
  - reflexivity.
  - discriminate.
Defined.

(** C36: the argument loop always ends with a verdict within the fuel of one
    unit per byte, and a parsed command consumed at least one byte and no
    more than the buffer holds, so the callers' [erase] and [position +=]
    stay in range and make progress. *)
Theorem parse_command_total_bounded (input : string) :
  (exists o, parse_command_loop input = Some o /\ parse_command input = o) /\
  (forall r, parse_command input = Parsed r ->
     (0 < bytes_consumed r <= String.length input)%nat /\ command_fits (command r)).
Proof.
  split; [|intros r; apply parse_command_bound].
  destruct (parse_command_loop_total input) as [o Ho]. exists o.
  split; [done|]. by apply parse_command_spec.
Qed.
