(* ===== verification/StreamTypes.v ===== *)
(** * Stream data (src/rstream_types.hpp)

    Stream identifiers with their order, entries, requests and results, and
    the theory of streams sorted by identifier that the database relies on. *)

From stdpp Require Import base option list strings.
From Stdlib Require Import ZArith Lia.
From S2P Require Import Prelude CharConv.

Record StreamId := mkStreamId {
  milliseconds : Z;
  sequence : Z;
}.

#[export] Instance StreamId_eq_dec : EqDecision StreamId.
Proof. solve_decision. Defined.

(** The defaulted [operator<=>]: lexicographic on the members. *)
Definition id_compare (a b : StreamId) : comparison :=
  match milliseconds a ?= milliseconds b with
  | Eq => sequence a ?= sequence b
  | c => c
  end.

Definition id_ltb (a b : StreamId) : bool :=
  match id_compare a b with Lt => true | _ => false end.

Definition id_leb (a b : StreamId) : bool :=
  match id_compare a b with Gt => false | _ => true end.

Definition id_to_string (id : StreamId) : string :=
  to_string (milliseconds id) +:+ "-" +:+ to_string (sequence id).

(** [StreamId{}] *)
Definition zero_id : StreamId := mkStreamId 0 0.

Record StreamEntry := mkStreamEntry {
  id : StreamId;
  values : list (string * string);
}.

Inductive IdMode := AUTOMATIC | AUTOMATIC_SEQUENCE | EXPLICIT.

Record IdRequest := mkIdRequest {
  mode : IdMode;
  request_milliseconds : Z;
  request_sequence : Z;
}.

Inductive ReadMode := IMMEDIATE | BLOCK_INDEFINITELY | BLOCK_WITH_TIMEOUT.

Record ReadOptions := mkReadOptions {
  read_mode : ReadMode;
  timeout : Z;
}.

Inductive ReadStartMode := AFTER_ID | LATEST.

Record ReadRequest := mkReadRequest {
  request_key : string;
  start_mode : ReadStartMode;
  after_id : StreamId;
}.

Record ReadCommand := mkReadCommand {
  requests : list ReadRequest;
  options : ReadOptions;
}.

Record ReadResult := mkReadResult {
  result_key : string;
  result_entries : list StreamEntry;
}.

#[export] Instance IdMode_eq_dec : EqDecision IdMode.
Proof. solve_decision. Defined.
#[export] Instance ReadMode_eq_dec : EqDecision ReadMode.
Proof. solve_decision. Defined.
#[export] Instance ReadStartMode_eq_dec : EqDecision ReadStartMode.
Proof. solve_decision. Defined.
#[export] Instance StreamEntry_eq_dec : EqDecision StreamEntry.
Proof. solve_decision. Defined.

(** ** The order on identifiers *)

Definition id_lt (a b : StreamId) : Prop :=
  milliseconds a < milliseconds b \/
  milliseconds a = milliseconds b /\ sequence a < sequence b.

Lemma id_compare_spec a b :
  CompareSpec (a = b) (id_lt a b) (id_lt b a) (id_compare a b).
Proof.
  unfold id_compare, id_lt. destruct a as [m s], b as [m' s']; simpl.
  destruct (Z.compare_spec m m') as [->|Hlt|Hlt]; [|constructor; lia..].
  destruct (Z.compare_spec s s') as [->|Hlt|Hlt]; constructor; (done || lia).
Qed.

Lemma id_ltb_spec a b : id_ltb a b = true <-> id_lt a b.
Proof.
  unfold id_ltb. destruct (id_compare_spec a b) as [->|H|H]; unfold id_lt in *;
    split; first [done|lia].
Qed.

Lemma id_leb_spec a b : id_leb a b = true <-> ~ id_lt b a.
Proof.
  unfold id_leb. destruct (id_compare_spec a b) as [->|H|H]; unfold id_lt in *;
    split; first [done|lia|intros; lia].
Qed.

#[export] Instance id_lt_strict : StrictOrder id_lt.
Proof.
  split.
  - intros a. unfold complement, id_lt. lia.
  - intros a b c. unfold id_lt. lia.
Qed.

Lemma id_lt_total a b : id_lt a b \/ a = b \/ id_lt b a.
Proof. destruct (id_compare_spec a b); auto. Qed.

#[export] Instance id_lt_dec a b : Decision (id_lt a b).
Proof.
  refine (cast_if (decide (id_ltb a b = true))); abstract (by rewrite <- id_ltb_spec).
Defined.

(** Identifiers of two 64-bit numbers. *)
Definition id_fits (i : StreamId) : Prop :=
  0 <= milliseconds i <= u64_max /\ 0 <= sequence i <= u64_max.

(** ** Sorted streams *)

Fixpoint stream_sorted (s : list StreamEntry) : Prop :=
  match s with
  | [] => True
  | e :: s' => Forall (fun e' => id_lt (id e) (id e')) s' /\ stream_sorted s'
  end.

Lemma stream_sorted_snoc s e :
  stream_sorted s ->
  Forall (fun e' => id_lt (id e') (id e)) s ->
  stream_sorted (s ++ [e]).
Proof.
  induction s as [|x s IH]; simpl; [auto|]. intros [Hx Hs] Hall.
  inversion_clear Hall. split; [|by apply IH]. apply Forall_app; auto.
Qed.

(** Every entry but the last is below the last. *)
Lemma stream_sorted_last s e :
  stream_sorted s -> last s = Some e ->
  Forall (fun e' => id e' = id e \/ id_lt (id e') (id e)) s.
Proof.
  induction s as [|x s IH]; [done|]. intros [Hx Hs] Hl.
  destruct s as [|y s].
  - simpl in Hl. injection Hl as ->. auto.
  - specialize (IH Hs Hl). constructor; [|done]. right.
    rewrite Forall_forall in Hx. apply Hx.
    apply last_Some_elem_of. exact Hl.
Qed.

Lemma stream_append_sorted s e :
  stream_sorted s ->
  (forall l, last s = Some l -> id_lt (id l) (id e)) ->
  stream_sorted (s ++ [e]).
Proof.
  intros Hs Hlast. apply stream_sorted_snoc; [done|].
  destruct (last s) as [l|] eqn:Hl.
  - specialize (Hlast l eq_refl).
    eapply Forall_impl; [by apply (stream_sorted_last s l)|].
    intros x [->|Hx]; [done|]. by etrans.
  - apply last_None in Hl as ->. constructor.
Qed.

(** In a sorted stream, a test that is downward closed on identifiers holds
    on a prefix exactly: the number of its entries that pass is the position
    where it stops. *)
Lemma filter_prefix (p : StreamId -> bool) s :
  (forall a b, id_lt a b -> p b = true -> p a = true) ->
  stream_sorted s ->
  filter (fun e => p (id e) = true) s
  = take (length (filter (fun e => p (id e) = true) s)) s /\
  filter (fun e => p (id e) = false) s
  = drop (length (filter (fun e => p (id e) = true) s)) s.
Proof.
  intros Hp. induction s as [|e s IH]; [done|]. intros [He Hs].
  destruct (IH Hs) as [IH1 IH2]. rewrite !filter_cons.
  destruct (p (id e)) eqn:Hpe.
  - destruct (decide (true = true)) as [_|]; [|done].
    destruct (decide (true = false)) as [|_]; [done|].
    simpl. by rewrite <- IH1, <- IH2.
  - destruct (decide (false = true)) as [|_]; [done|].
    destruct (decide (false = false)) as [_|]; [|done].
    assert (filter (fun e => p (id e) = true) s = []) as Hnil.
    { apply filter_none. eapply Forall_impl; [exact He|].
      intros x Hx Hpx. apply (Hp _ _ Hx) in Hpx. congruence. }
    rewrite Hnil in *. simpl in *. by rewrite IH2, drop_0.
Qed.
