(* ===== verification/Database.v ===== *)
(** * The database (src/database.hpp, src/database.cpp)

    One map from keys to typed entries with an optional expiry, and the key
    revisions that WATCH relies on.

    - [next_revision] counts without bound: the code's [_next_revision] is its
      value modulo 2^64, and a revision is stored modulo 2^64.
    - [clock_reads] is the number of clock readings so far.
    - An operation that can leave the defined behaviour of C++ (a signed
      overflow, an inverted iterator range) returns an [option], [None] being
      that case. *)

From stdpp Require Import base option list gmap strings.
From Stdlib Require Import ZArith Lia.
From S2P Require Import Prelude CharConv Environment StreamTypes.

(** ** Data *)

Inductive ListAddMode := APPEND | PREPEND.

Inductive Error :=
| KEY_NOT_FOUND
| WRONG_TYPE
| INVALID_STREAM_ID_MODE
| INVALID_STREAM_ID_VALUE
| VALUE_NOT_INTEGER.

Inductive ValueType := NONE | STRING | LIST | STREAM.

Inductive Value :=
| StringValue (s : string)
| ListValue (l : list string)
| StreamValue (s : list StreamEntry).

Record Entry := mkEntry {
  value : Value;
  expires_at : option Z;
}.

Record Database := mkDatabase {
  entries : gmap string Entry;
  key_revisions : gmap string Z;
  next_revision : Z;
  clock_reads : nat;
}.

#[export] Instance Error_eq_dec : EqDecision Error.
Proof. solve_decision. Defined.
#[export] Instance Value_eq_dec : EqDecision Value.
Proof. solve_decision. Defined.
#[export] Instance Entry_eq_dec : EqDecision Entry.
Proof. solve_decision. Defined.

Definition empty_database : Database := mkDatabase ∅ ∅ 1 0.

Definition set_entries (m : gmap string Entry) (db : Database) : Database :=
  mkDatabase m (key_revisions db) (next_revision db) (clock_reads db).

(** ** Operations *)

Section Operations.
Context `{Clock, HashOrder}.

(** A reading of the steady clock. *)
Definition steady_now (db : Database) : Z * Database :=
  (steady_clock_now (clock_reads db),
   mkDatabase (entries db) (key_revisions db) (next_revision db) (S (clock_reads db))).

Definition system_now_ms (db : Database) : Z * Database :=
  (system_clock_ms (clock_reads db),
   mkDatabase (entries db) (key_revisions db) (next_revision db) (S (clock_reads db))).

Definition parse_value_to_increment (text : string) : option Z :=
  let r := from_chars i64_min i64_max text 0 in
  if String.eqb text EmptyString || conversion_failed r text
  then None else Some (fc_value r).

Definition mark_key_modified (key : string) (db : Database) : Database :=
  mkDatabase (entries db) (<[key := wrap_u64 (next_revision db)]> (key_revisions db))
    (next_revision db + 1) (clock_reads db).

Definition find_active_entry (key : string) (db : Database) : option Entry * Database :=
  match entries db !! key with
  | None => (None, db)
  | Some entry =>
      match expires_at entry with
      | None => (Some entry, db)
      | Some deadline =>
          let '(now, db) := steady_now db in
          if deadline <=? now
          then (None, mark_key_modified key (set_entries (delete key (entries db)) db))
          else (Some entry, db)
      end
  end.

Definition set (key v : string) (expiry : option Z) (db : Database) : option Database :=
  '(deadline, db) ← match expiry with
                    | None => Some (None, db)
                    | Some ms =>
                        let '(now, db) := steady_now db in
                        t ← deadline_after now ms;
                        Some (Some t, db)
                    end;
  Some (mark_key_modified key
          (set_entries (<[key := mkEntry (StringValue v) deadline]> (entries db)) db)).

Definition get (key : string) (db : Database) : expected string Error * Database :=
  let '(entry, db) := find_active_entry key db in
  match entry with
  | None => (Unexpected KEY_NOT_FOUND, db)
  | Some e =>
      match value e with
      | StringValue s => (Expected s, db)
      | _ => (Unexpected WRONG_TYPE, db)
      end
  end.

Definition get_type (key : string) (db : Database) : ValueType * Database :=
  let '(entry, db) := find_active_entry key db in
  match entry with
  | None => (NONE, db)
  | Some e =>
      match value e with
      | StringValue _ => (STRING, db)
      | ListValue _ => (LIST, db)
      | StreamValue _ => (STREAM, db)
      end
  end.

(** One iteration of the loop of [keys]: an expired entry is marked and
    erased, any other key is collected. *)
Definition keys_step (now : Z) (acc : list string * Database) (key : string)
    : list string * Database :=
  let '(result, db) := acc in
  match entries db !! key with
  | None => acc
  | Some e =>
      match expires_at e with
      | Some deadline =>
          if deadline <=? now then
            let db := mark_key_modified key db in
            (result, set_entries (delete key (entries db)) db)
          else (result ++ [key], db)
      | None => (result ++ [key], db)
      end
  end.

Definition keys (db : Database) : list string * Database :=
  let '(now, db) := steady_now db in
  fold_left (keys_step now) (hash_order (map_to_list (entries db)).*1) ([], db).

Definition add_list_elements (key : string) (vs : list string) (m : ListAddMode)
    (db : Database) : expected nat Error * Database :=
  let '(entry, db) := find_active_entry key db in
  let '(entry, db) :=
    match entry with
    | Some e => (e, db)
    | None =>
        let e := mkEntry (ListValue []) None in
        (e, set_entries (<[key := e]> (entries db)) db)
    end in
  match value entry with
  | ListValue l =>
      let l' := match m with APPEND => l ++ vs | PREPEND => rev vs ++ l end in
      let db := set_entries (<[key := mkEntry (ListValue l') (expires_at entry)]>
                               (entries db)) db in
      (Expected (length l'), mark_key_modified key db)
  | _ => (Unexpected WRONG_TYPE, db)
  end.

(** The index arithmetic of [list_elements] on a non-empty list: the half-open
    range to copy, or nothing. *)
Definition list_range (size start stop : Z) : option (Z * Z) :=
  let start := if start <? 0 then start + size else start in
  let stop := if stop <? 0 then stop + size else stop in
  let start := if start <? 0 then 0 else start in
  let stop := if size <=? stop then size - 1 else stop in
  if (stop <? 0) || (size <=? start) || (stop <? start)
  then None else Some (start, stop + 1).

Definition list_elements (key : string) (start stop : Z) (db : Database)
    : expected (list string) Error * Database :=
  let '(entry, db) := find_active_entry key db in
  match entry with
  | None => (Expected [], db)
  | Some e =>
      match value e with
      | ListValue l =>
          let size := Z.of_nat (length l) in
          if size =? 0 then (Expected [], db) else
          match list_range size start stop with
          | None => (Expected [], db)
          | Some (first, last) =>
              (Expected (take (Z.to_nat (last - first)) (drop (Z.to_nat first) l)), db)
          end
      | _ => (Unexpected WRONG_TYPE, db)
      end
  end.

Definition get_list_length (key : string) (db : Database) : expected nat Error * Database :=
  let '(entry, db) := find_active_entry key db in
  match entry with
  | None => (Expected 0%nat, db)
  | Some e =>
      match value e with
      | ListValue l => (Expected (length l), db)
      | _ => (Unexpected WRONG_TYPE, db)
      end
  end.

(** Store back a list after elements were taken from its front; an empty list
    is erased. *)
Definition store_popped (key : string) (l : list string) (deadline : option Z)
    (db : Database) : Database :=
  mark_key_modified key
    (match l with
     | [] => set_entries (delete key (entries db)) db
     | _ => set_entries (<[key := mkEntry (ListValue l) deadline]> (entries db)) db
     end).

Definition pop_list_element (key : string) (db : Database)
    : expected string Error * Database :=
  let '(entry, db) := find_active_entry key db in
  match entry with
  | None => (Unexpected KEY_NOT_FOUND, db)
  | Some e =>
      match value e with
      | ListValue [] => (Unexpected KEY_NOT_FOUND, db)
      | ListValue (x :: l) => (Expected x, store_popped key l (expires_at e) db)
      | _ => (Unexpected WRONG_TYPE, db)
      end
  end.

Definition pop_list_elements (key : string) (number_of_items : Z) (db : Database)
    : expected (list string) Error * Database :=
  let '(entry, db) := find_active_entry key db in
  match entry with
  | None => (Unexpected KEY_NOT_FOUND, db)
  | Some e =>
      match value e with
      | ListValue [] => (Unexpected KEY_NOT_FOUND, db)
      | ListValue l =>
          if number_of_items <=? 0 then (Expected [], db) else
          let count := Nat.min (Z.to_nat number_of_items) (length l) in
          (Expected (take count l), store_popped key (drop count l) (expires_at e) db)
      | _ => (Unexpected WRONG_TYPE, db)
      end
  end.

(** The identifier [add_stream] gives a new entry, from the last entry of the
    stream if there is one. *)
Definition new_stream_id (request : IdRequest) (last_id : option StreamId)
    (db : Database) : StreamId * Database :=
  let has_entries := match last_id with Some _ => true | None => false end in
  let last := default zero_id last_id in
  match mode request with
  | EXPLICIT =>
      (mkStreamId (request_milliseconds request) (request_sequence request), db)
  | AUTOMATIC_SEQUENCE =>
      let sequence0 := if request_milliseconds request =? 0 then 1 else 0 in
      let sequence :=
        if has_entries && (request_milliseconds request =? milliseconds last)
        then wrap_u64 (sequence last + 1) else sequence0 in
      (mkStreamId (request_milliseconds request) sequence, db)
  | AUTOMATIC =>
      let '(ms, db) := system_now_ms db in
      let current_time := wrap_u64 ms in
      if has_entries && (current_time <=? milliseconds last)
      then (mkStreamId (milliseconds last) (wrap_u64 (sequence last + 1)), db)
      else (mkStreamId current_time 0, db)
  end.

(** The rest of [add_stream], on the stream found or freshly emplaced. *)
Definition push_stream (key : string) (request : IdRequest)
    (vs : list (string * string)) (stream : list StreamEntry) (deadline : option Z)
    (db : Database) : expected StreamId Error * Database :=
  let last_id := id <$> last stream in
  let '(new_id, db) := new_stream_id request last_id db in
  let rejected := match last_id with Some l => id_leb new_id l | None => false end in
  if rejected then (Unexpected INVALID_STREAM_ID_VALUE, db) else
  let stream := stream ++ [mkStreamEntry new_id vs] in
  (Expected new_id,
   mark_key_modified key
     (set_entries (<[key := mkEntry (StreamValue stream) deadline]> (entries db)) db)).

Definition add_stream (key : string) (request : IdRequest)
    (vs : list (string * string)) (db : Database) : expected StreamId Error * Database :=
  let '(entry, db) := find_active_entry key db in
  let '(entry, db) :=
    match entry with
    | Some e => (e, db)
    | None =>
        let e := mkEntry (StreamValue []) None in
        (e, set_entries (<[key := e]> (entries db)) db)
    end in
  match value entry with
  | StreamValue stream => push_stream key request vs stream (expires_at entry) db
  | _ => (Unexpected WRONG_TYPE, db)
  end.

(** The binary search of [std::ranges::lower_bound] and [upper_bound]: the
    position after the entries whose identifier passes [p]. *)
Fixpoint partition_search (fuel : nat) (p : StreamId -> bool) (s : list StreamEntry)
    (first len : nat) : nat :=
  match fuel with
  | O => first
  | S fuel' =>
      match len with
      | O => first
      | S _ =>
          let half := Nat.div2 len in
          let middle := (first + half)%nat in
          match s !! middle with
          | Some e =>
              if p (id e) then partition_search fuel' p s (S middle) (len - half - 1)
              else partition_search fuel' p s first half
          | None => first
          end
      end
  end.

Definition lower_bound (s : list StreamEntry) (i : StreamId) : nat :=
  partition_search (length s) (fun x => id_ltb x i) s 0 (length s).

Definition upper_bound (s : list StreamEntry) (i : StreamId) : nat :=
  partition_search (length s) (fun x => negb (id_ltb i x)) s 0 (length s).

(** [std::vector(first, last)] of two iterators into one stream. *)
Definition vector_of_range (s : list StreamEntry) (first last : nat)
    : option (list StreamEntry) :=
  if (last <? first)%nat then None else Some (take (last - first) (drop first s)).

Definition stream_range (key : string) (start stop : StreamId) (db : Database)
    : option (expected (list StreamEntry) Error * Database) :=
  let '(entry, db) := find_active_entry key db in
  match entry with
  | None => Some (Unexpected KEY_NOT_FOUND, db)
  | Some e =>
      match value e with
      | StreamValue s =>
          v ← vector_of_range s (lower_bound s start) (upper_bound s stop);
          Some (Expected v, db)
      | _ => Some (Unexpected WRONG_TYPE, db)
      end
  end.

(** The first loop of [read_streams]: positions given as LATEST are resolved
    in place; [false] when a key holds another type. *)
Fixpoint resolve_latest (rs : list ReadRequest) (db : Database)
    : bool * list ReadRequest * Database :=
  match rs with
  | [] => (true, [], db)
  | r :: rs' =>
      let '(entry, db) := find_active_entry (request_key r) db in
      let resolved i :=
        match start_mode r with
        | LATEST => mkReadRequest (request_key r) AFTER_ID i
        | AFTER_ID => r
        end in
      match entry with
      | None =>
          let '(ok, rs'', db) := resolve_latest rs' db in
          (ok, resolved zero_id :: rs'', db)
      | Some e =>
          match value e with
          | StreamValue s =>
              let '(ok, rs'', db) := resolve_latest rs' db in
              (ok, resolved (default zero_id (id <$> last s)) :: rs'', db)
          | _ => (false, r :: rs', db)
          end
      end
  end.

(** The second loop of [read_streams]. *)
Fixpoint collect_reads (rs : list ReadRequest) (db : Database)
    : option (list ReadResult) * Database :=
  match rs with
  | [] => (Some [], db)
  | r :: rs' =>
      let '(entry, db) := find_active_entry (request_key r) db in
      match entry with
      | None => collect_reads rs' db
      | Some e =>
          match value e with
          | StreamValue s =>
              let first_entry := upper_bound s (after_id r) in
              let '(results, db) := collect_reads rs' db in
              if (first_entry =? length s)%nat then (results, db) else
              (results ← results;
               Some (mkReadResult (request_key r) (drop first_entry s) :: results), db)
          | _ => (None, db)
          end
      end
  end.

Definition read_streams (rs : list ReadRequest) (db : Database)
    : expected (list ReadResult) Error * list ReadRequest * Database :=
  let '(ok, rs, db) := resolve_latest rs db in
  if ok then
    let '(results, db) := collect_reads rs db in
    match results with
    | Some results => (Expected results, rs, db)
    | None => (Unexpected WRONG_TYPE, rs, db)
    end
  else (Unexpected WRONG_TYPE, rs, db).

Definition increment_key (key : string) (db : Database)
    : option (expected Z Error * Database) :=
  let '(entry, db) := find_active_entry key db in
  match entry with
  | Some e =>
      match value e with
      | StringValue text =>
          match parse_value_to_increment text with
          | None => Some (Unexpected VALUE_NOT_INTEGER, db)
          | Some parsed =>
              result ← checked_i64 (parsed + 1);
              Some (Expected result, mark_key_modified key
                (set_entries (<[key := mkEntry (StringValue (to_string result))
                                         (expires_at e)]> (entries db)) db))
          end
      | _ => Some (Unexpected WRONG_TYPE, db)
      end
  | None =>
      let result := 1 in
      Some (Expected result, mark_key_modified key
        (set_entries (<[key := mkEntry (StringValue (to_string result)) None]>
                        (entries db)) db))
  end.

Definition key_revision (key : string) (db : Database) : Z * Database :=
  let '(_, db) := find_active_entry key db in
  (default 0 (key_revisions db !! key), db).

End Operations.
