(* ===== verification/DatabaseFacts.v ===== *)
(** * Invariants of the database

    - [rev_step]: what any operation may do to entries and revisions; it is a
      preorder, every operation satisfies it, and it is what makes WATCH sound.
    - [db_wf]: lists are not empty, streams are not empty and strictly sorted
      by 64-bit identifiers, strings any bytes; every operation preserves it. *)

From stdpp Require Import base option list gmap strings.
From Stdlib Require Import ZArith Lia.
From S2P Require Import Prelude CharConv Environment StreamTypes Database.

(** ** Key revisions *)

(** From [db] to [db'] a key is untouched, or was given one of the revisions
    handed out in between. *)
Definition rev_step (db db' : Database) : Prop :=
  next_revision db <= next_revision db' /\
  (clock_reads db <= clock_reads db')%nat /\
  forall k,
    (entries db' !! k = entries db !! k /\
     key_revisions db' !! k = key_revisions db !! k) \/
    exists r, key_revisions db' !! k = Some (wrap_u64 r) /\
              next_revision db <= r < next_revision db'.

#[export] Instance rev_step_preorder : PreOrder rev_step.
Proof.
  split.
  - intros db. split_and!; [lia|lia|]. auto.
  - intros a b c (Hn1 & Hc1 & H1) (Hn2 & Hc2 & H2). split_and!; [lia|lia|].
    intros k. destruct (H2 k) as [[He Hr]|(r & Hr & ?)].
    + destruct (H1 k) as [[He' Hr']|(r & Hr' & ?)].
      * left. split; congruence.
      * right. exists r. split; [congruence|lia].
    + right. exists r. split; [done|lia].
Qed.

(** The step of an operation that touches one key and then marks it. *)
Lemma rev_step_mark db db' key :
  next_revision db' = next_revision db -> (clock_reads db <= clock_reads db')%nat ->
  key_revisions db' = key_revisions db ->
  (forall k, k <> key -> entries db' !! k = entries db !! k) ->
  rev_step db (mark_key_modified key db').
Proof.
  intros Hn Hc Hr He. unfold mark_key_modified. split_and!; simpl; [lia|done|].
  intros k. destruct (decide (k = key)) as [->|Hk].
  - right. exists (next_revision db'). rewrite lookup_insert_eq. split; [done|lia].
  - left. rewrite lookup_insert_ne by done. rewrite Hr. auto.
Qed.

Lemma rev_step_insert db key e :
  rev_step db (mark_key_modified key (set_entries (<[key := e]> (entries db)) db)).
Proof.
  apply rev_step_mark; [done..|]. intros k Hk. simpl. by rewrite lookup_insert_ne.
Qed.

Lemma rev_step_delete db key :
  rev_step db (mark_key_modified key (set_entries (delete key (entries db)) db)).
Proof.
  apply rev_step_mark; [done..|]. intros k Hk. simpl. by rewrite lookup_delete_ne.
Qed.

(** Two writes of one key before the mark: a fresh entry is emplaced, then
    updated. *)
Lemma rev_step_insert2 db key e e' :
  rev_step db (mark_key_modified key
    (set_entries (<[key := e']> (entries (set_entries (<[key := e]> (entries db)) db)))
       (set_entries (<[key := e]> (entries db)) db))).
Proof.
  apply rev_step_mark; [done..|]. intros k Hk. simpl. by rewrite !lookup_insert_ne.
Qed.

#[export] Hint Resolve rev_step_insert rev_step_delete rev_step_insert2 : redis.

(** ** Well-formed values *)

Definition stream_wf (s : list StreamEntry) : Prop :=
  s <> [] /\ stream_sorted s /\ Forall (fun e => id_fits (id e)) s.

Definition value_wf (v : Value) : Prop :=
  match v with
  | StringValue _ => True
  | ListValue l => l <> []
  | StreamValue s => stream_wf s
  end.

(** Only strings carry an expiry: SET alone sets one. *)
Definition entry_wf (e : Entry) : Prop :=
  value_wf (value e) /\
  match value e with StringValue _ => True | _ => expires_at e = None end.

Definition db_wf (db : Database) : Prop :=
  forall k e, entries db !! k = Some e -> entry_wf e.

Lemma empty_database_wf : db_wf empty_database.
Proof. intros k e He. done. Qed.

Lemma db_wf_insert db key e :
  db_wf db -> entry_wf e ->
  db_wf (mark_key_modified key (set_entries (<[key := e]> (entries db)) db)).
Proof.
  intros Hwf He k e'. simpl. destruct (decide (k = key)) as [->|Hk].
  - rewrite lookup_insert_eq. by intros [= <-].
  - rewrite lookup_insert_ne by done. apply Hwf.
Qed.

Lemma db_wf_delete db key :
  db_wf db -> db_wf (mark_key_modified key (set_entries (delete key (entries db)) db)).
Proof.
  intros Hwf k e'. simpl. intros [_ Hk]%lookup_delete_Some. by apply (Hwf k).
Qed.

Lemma db_wf_insert2 db key e e' :
  db_wf db -> entry_wf e' ->
  db_wf (mark_key_modified key
    (set_entries (<[key := e']> (entries (set_entries (<[key := e]> (entries db)) db)))
       (set_entries (<[key := e]> (entries db)) db))).
Proof.
  intros Hwf He k x. simpl. rewrite insert_insert_eq.
  apply (db_wf_insert db key e' Hwf He k x).
Qed.

#[export] Hint Resolve db_wf_insert db_wf_delete db_wf_insert2 : redis.

Section Facts.
Context `{Clock, HashOrder}.

(** ** The lazy expiry of [find_active_entry] *)

Definition expired (now : Z) (e : Entry) : bool :=
  match expires_at e with Some deadline => deadline <=? now | None => false end.

(** The entries a client can see at the instant [now]. *)
Definition live (now : Z) (m : gmap string Entry) : gmap string Entry :=
  omap (fun e => if expired now e then None else Some e) m.

Lemma lookup_live now m k :
  live now m !! k = (e ← m !! k; if expired now e then None else Some e).
Proof. apply lookup_omap. Qed.

(** The instant at which the next clock reading of [db] happens. *)
Definition now_of (db : Database) : Z := steady_clock_now (clock_reads db).

Lemma live_delete now m k : live now (delete k m) = delete k (live now m).
Proof. apply omap_delete. Qed.

Lemma live_insert now m k e :
  expired now e = false -> live now (<[k := e]> m) = <[k := e]> (live now m).
Proof.
  intros He. apply map_eq. intros j. rewrite lookup_live.
  destruct (decide (j = k)) as [->|].
  - rewrite !lookup_insert_eq. simpl. by rewrite He.
  - by rewrite !lookup_insert_ne, lookup_live.
Qed.

(** Finding a key gives what is alive at the instant of the reading, leaves
    exactly that at the key, and changes nothing a client can see. *)
Lemma find_active_spec key db :
  let now := now_of db in
  let r := find_active_entry key db in
  r.1 = live now (entries db) !! key /\
  entries r.2 !! key = r.1 /\
  live now (entries r.2) = live now (entries db) /\
  (forall k, k <> key -> entries r.2 !! k = entries db !! k) /\
  (forall e, r.1 = Some e -> expired now e = false).
Proof.
  unfold find_active_entry. rewrite lookup_live.
  destruct (entries db !! key) as [e|] eqn:Hk; simpl; [|naive_solver].
  unfold expired at 1. destruct (expires_at e) as [t|] eqn:Ht; simpl.
  - fold (now_of db). destruct (t <=? now_of db) eqn:Hle; simpl.
    + rewrite lookup_delete_eq. split_and!; try done.
      * rewrite live_delete. apply delete_id. rewrite lookup_live, Hk. simpl.
        unfold expired. by rewrite Ht, Hle.
      * intros k Hne. by rewrite lookup_delete_ne.
    + split_and!; try done. intros e' [= <-]. unfold expired. by rewrite Ht.
  - split_and!; try done. intros e' [= <-]. unfold expired. by rewrite Ht.
Qed.

Lemma find_active_rev key db : rev_step db (find_active_entry key db).2.
Proof.
  unfold find_active_entry. destruct (entries db !! key) as [e|]; [|done].
  destruct (expires_at e) as [t|]; [|done]. simpl.
  destruct (t <=? _); [|by split_and!; simpl; [lia|lia|auto]].
  apply rev_step_mark; simpl; [done|lia|done|].
  intros k Hk. by rewrite lookup_delete_ne.
Qed.

Lemma live_Some now m k e :
  live now m !! k = Some e <-> m !! k = Some e /\ expired now e = false.
Proof.
  rewrite lookup_live. destruct (m !! k) as [e'|]; simpl; [|by split; [|intros [??]]].
  destruct (expired now e') eqn:He; split;
    [done|intros [[= ->] ?]; congruence|by intros [= ->]|by intros [[= ->] _]].
Qed.

Lemma find_active_Some key db e :
  (find_active_entry key db).1 = Some e -> entries db !! key = Some e.
Proof.
  destruct (find_active_spec key db) as (-> & _). by intros [? _]%live_Some.
Qed.

Lemma find_active_wf key db : db_wf db -> db_wf (find_active_entry key db).2.
Proof.
  intros Hwf k e. destruct (find_active_spec key db) as (_ & Hk & _ & Hother & _).
  destruct (decide (k = key)) as [->|Hne].
  - rewrite Hk. intros He%find_active_Some. by apply (Hwf key).
  - rewrite (Hother k Hne). apply Hwf.
Qed.

(** ** Steps: what every operation guarantees *)

Definition db_step (db db' : Database) : Prop :=
  rev_step db db' /\ (db_wf db -> db_wf db').

#[export] Instance db_step_preorder : PreOrder db_step.
Proof.
  split.
  - intros db. split; [reflexivity|done].
  - intros a b c [H1 W1] [H2 W2]. split; [by etrans|auto].
Qed.

Lemma db_step_find key db : db_step db (find_active_entry key db).2.
Proof. split; [apply find_active_rev|apply find_active_wf]. Qed.

Lemma db_step_insert db key e :
  (db_wf db -> entry_wf e) ->
  db_step db (mark_key_modified key (set_entries (<[key := e]> (entries db)) db)).
Proof. intros He. split; auto with redis. Qed.

Lemma db_step_insert2 db key e e' :
  (db_wf db -> entry_wf e') ->
  db_step db (mark_key_modified key
    (set_entries (<[key := e']> (entries (set_entries (<[key := e]> (entries db)) db)))
       (set_entries (<[key := e]> (entries db)) db))).
Proof. intros He. split; auto with redis. Qed.

Lemma db_step_delete db key :
  db_step db (mark_key_modified key (set_entries (delete key (entries db)) db)).
Proof. split; auto with redis. Qed.

Lemma db_step_tick db : db_step db (steady_now db).2.
Proof. split; [split_and!; simpl; [lia|lia|auto]|done]. Qed.

(** An operation opens with [find_active_entry]: its step, the well-formedness
    of the entry found, and the database after it. *)
Lemma find_active_value key db e :
  (find_active_entry key db).1 = Some e ->
  db_wf (find_active_entry key db).2 -> entry_wf e.
Proof.
  intros He Hwf. apply (Hwf key). destruct (find_active_spec key db) as (_ & -> & _). done.
Qed.

Ltac find_active key db :=
  let Hstep := fresh "Hstep" in
  let Hval := fresh "Hval" in
  pose proof (db_step_find key db) as Hstep;
  pose proof (find_active_value key db) as Hval;
  destruct (find_active_entry key db) as [[entry|] db'];
  cbn [fst snd] in Hstep, Hval |- *;
  [specialize (Hval entry eq_refl)|clear Hval].

Lemma set_step key v expiry db db' : set key v expiry db = Some db' -> db_step db db'.
Proof.
  unfold set. destruct expiry as [ms|]; simpl.
  - destruct (deadline_after _ ms) as [t|]; simpl; [|done]. intros [= <-].
    etrans; [apply (db_step_tick db)|]. by apply (db_step_insert (steady_now db).2).
  - intros [= <-]. by apply db_step_insert.
Qed.

Lemma get_step key db : db_step db (get key db).2.
Proof. unfold get. find_active key db; [|done]. by destruct (value entry). Qed.

Lemma get_type_step key db : db_step db (get_type key db).2.
Proof. unfold get_type. find_active key db; [|done]. by destruct (value entry). Qed.

Lemma keys_step_step now acc key : db_step acc.2 (keys_step now acc key).2.
Proof.
  destruct acc as [result db]. unfold keys_step.
  destruct (entries db !! key) as [e|]; [|done].
  destruct (expires_at e) as [t|]; [|done].
  destruct (t <=? now); [|done].
  exact (db_step_delete db key).
Qed.

Lemma keys_db_step db : db_step db (keys db).2.
Proof.
  unfold keys. etrans; [apply (db_step_tick db)|].
  change (steady_now db) with ((steady_now db).1, (steady_now db).2). cbv beta iota zeta.
  assert (forall now ks acc, db_step acc.2 (fold_left (keys_step now) ks acc).2) as Hfold.
  { intros now ks. induction ks as [|k ks IH]; intros acc; [done|]. simpl.
    etrans; [apply (keys_step_step now acc k)|apply IH]. }
  exact (Hfold _ _ ([], (steady_now db).2)).
Qed.

Lemma add_list_elements_step key vs m db :
  vs <> [] -> db_step db (add_list_elements key vs m db).2.
Proof.
  intros Hvs. unfold add_list_elements. find_active key db.
  - destruct (value entry) as [|l|] eqn:Hv; simpl; [done| |done].
    etrans; [done|]. apply db_step_insert. intros Hwf. apply Hval in Hwf as [Hl Hexp].
    rewrite Hv in Hl, Hexp. split; [|done]. simpl.
    destruct m; intros [? ?]%app_eq_nil; done.
  - etrans; [done|]. apply db_step_insert2. intros _. split; [|done]. simpl.
    destruct m; [done|]. rewrite app_nil_r. intros Hrev. apply Hvs.
    by rewrite <- (rev_involutive vs), Hrev.
Qed.

Lemma list_elements_step key start stop db : db_step db (list_elements key start stop db).2.
Proof.
  unfold list_elements. find_active key db; [|done].
  destruct (value entry) as [|l|]; [done| |done]. destruct (_ =? 0); [done|].
  by destruct (list_range _ _ _) as [[??]|].
Qed.

Lemma get_list_length_step key db : db_step db (get_list_length key db).2.
Proof. unfold get_list_length. find_active key db; [|done]. by destruct (value entry). Qed.

Lemma store_popped_step key l deadline db :
  (db_wf db -> deadline = None) -> db_step db (store_popped key l deadline db).
Proof.
  intros Hd. unfold store_popped. destruct l; [apply db_step_delete|].
  apply db_step_insert. intros Hwf. split; [done|by apply Hd].
Qed.

Lemma pop_list_element_step key db : db_step db (pop_list_element key db).2.
Proof.
  unfold pop_list_element. find_active key db; [|done].
  destruct (value entry) as [|[|x l]|] eqn:Hv; [done..| |done]. simpl.
  etrans; [done|]. apply store_popped_step.
  intros [_ Hexp]%Hval. by rewrite Hv in Hexp.
Qed.

Lemma pop_list_elements_step key n db : db_step db (pop_list_elements key n db).2.
Proof.
  unfold pop_list_elements. find_active key db; [|done].
  destruct (value entry) as [|[|x l]|] eqn:Hv; [done..| |done].
  destruct (n <=? 0); [done|]. etrans; [done|]. apply store_popped_step.
  intros [_ Hexp]%Hval. by rewrite Hv in Hexp.
Qed.

Definition request_fits (r : IdRequest) : Prop :=
  0 <= request_milliseconds r <= u64_max /\ 0 <= request_sequence r <= u64_max.

(** The new identifier is one of two 64-bit numbers, and asking for it reads
    the clock at most. *)
Lemma new_stream_id_fits r l db :
  request_fits r -> (forall i, l = Some i -> id_fits i) ->
  id_fits (new_stream_id r l db).1.
Proof.
  intros [Hm Hs] Hl. unfold new_stream_id, id_fits.
  assert (id_fits (default zero_id l)) as [Hl1 Hl2].
  { destruct l as [i|]; [by apply Hl|]. vm_compute; split; split; discriminate. }
  pose proof (wrap_u64_range (sequence (default zero_id l) + 1)).
  pose proof (wrap_u64_range (system_clock_ms (clock_reads db))).
  destruct (mode r); simpl.
  - destruct (_ && _); simpl; split; (done || (unfold u64_max; lia)).
  - destruct (_ && _); simpl; split; try done.
    destruct (request_milliseconds r =? 0); unfold u64_max; lia.
  - done.
Qed.

Lemma new_stream_id_db r l db :
  exists n, (clock_reads db <= n)%nat /\
  (new_stream_id r l db).2
  = mkDatabase (entries db) (key_revisions db) (next_revision db) n.
Proof.
  unfold new_stream_id. destruct (mode r); simpl.
  - exists (S (clock_reads db)). split; [lia|]. by destruct (_ && _).
  - exists (clock_reads db). split; [lia|]. by destruct db.
  - exists (clock_reads db). split; [lia|]. by destruct db.
Qed.

(** Appending an accepted identifier keeps a stream well formed. *)
Lemma stream_push_wf s i vs :
  (s = [] \/ stream_wf s) -> id_fits i ->
  (forall l, id <$> last s = Some l -> id_leb i l = false) ->
  stream_wf (s ++ [mkStreamEntry i vs]).
Proof.
  intros Hs Hi Hlast.
  assert (stream_sorted s /\ Forall (fun e => id_fits (id e)) s) as [Hsort Hfit].
  { destruct Hs as [->|(_ & ? & ?)]; [split; [done|constructor]|done]. }
  split_and!.
  - by destruct s.
  - apply stream_append_sorted; [done|]. simpl. intros l Hl.
    specialize (Hlast (id l)). rewrite Hl in Hlast. specialize (Hlast eq_refl).
    destruct (id_lt_total (id l) i) as [?|[Heq|Hlt]]; [done|exfalso..].
    + assert (id_leb i (id l) = true) by (apply id_leb_spec; rewrite Heq; apply irreflexivity, _).
      congruence.
    + assert (id_leb i (id l) = true); [|congruence].
      apply id_leb_spec. intros Hlt'. apply (irreflexivity id_lt i). by etrans.
  - apply Forall_app. auto.
Qed.

Lemma push_stream_wf r vs s db :
  request_fits r -> (s = [] \/ stream_wf s) ->
  let new_id := (new_stream_id r (id <$> last s) db).1 in
  (forall l, id <$> last s = Some l -> id_leb new_id l = false) ->
  stream_wf (s ++ [mkStreamEntry new_id vs]).
Proof.
  intros Hr Hs new_id Hlast. apply stream_push_wf; [done| |done].
  apply new_stream_id_fits; [done|]. intros i Hi.
  destruct (last s) as [e|] eqn:Hl; simplify_eq/=.
  destruct Hs as [->|(_ & _ & Hall)]; [done|].
  rewrite Forall_forall in Hall. by apply Hall, last_Some_elem_of.
Qed.

(** The step of [push_stream], from the database in which the key was found
    or was free. *)
Lemma push_stream_step key r vs s deadline db0 db :
  request_fits r -> (db_wf db0 -> (s = [] \/ stream_wf s) /\ deadline = None) ->
  (db = db0 \/ s = [] /\
     exists e, db = set_entries (<[key := e]> (entries db0)) db0) ->
  db_step db0 (push_stream key r vs s deadline db).2.
Proof.
  intros Hr Hs Hdb. unfold push_stream.
  pose proof (push_stream_wf r vs s db Hr) as Hwf. simpl in Hwf.
  destruct (new_stream_id_db r (id <$> last s) db) as (n & Hn & Hnew).
  destruct (new_stream_id r (id <$> last s) db) as [i db1]. simpl in Hnew, Hwf. subst db1.
  assert (forall v, (db_wf db0 -> stream_wf v) -> db_step db0 (mark_key_modified key
    (set_entries (<[key := mkEntry (StreamValue v) deadline]> (entries db))
       (mkDatabase (entries db) (key_revisions db) (next_revision db) n)))) as Hpush.
  { intros v Hv. split.
    - destruct Hdb as [->|[_ [e ->]]]; apply rev_step_mark; simpl; try done;
        intros k Hk; by rewrite ?lookup_insert_ne.
    - intros Hdb0 k x. simpl. destruct (decide (k = key)) as [->|Hk].
      + rewrite lookup_insert_eq. intros [= <-]. split; [by apply Hv|by apply Hs].
      + rewrite lookup_insert_ne by done. destruct Hdb as [->|[_ [e ->]]]; simpl;
          rewrite ?lookup_insert_ne by done; apply Hdb0. }
  destruct (match id <$> last s with Some l => id_leb i l | None => false end) eqn:Hrej.
  - destruct Hdb as [->|[-> _]]; [|done].
    split; [split_and!; simpl; [lia|done|auto]|done].
  - apply Hpush. intros Hdb0. apply Hwf; [by apply Hs|].
    intros l Hl. by rewrite Hl in Hrej.
Qed.

Lemma add_stream_step key r vs db :
  request_fits r -> db_step db (add_stream key r vs db).2.
Proof.
  intros Hr. unfold add_stream. find_active key db.
  - destruct (value entry) as [| |s] eqn:Hv; [done..|]. etrans; [done|].
    apply push_stream_step; [done| |by left]. intros [Hs Hexp]%Hval.
    rewrite Hv in Hs, Hexp. split; [by right|done].
  - etrans; [done|]. apply push_stream_step; [done|split; [by left|done]|]. right. eauto.
Qed.

(** ** Binary search *)

(** On a stream where [p] holds of a prefix exactly, the search returns the
    length of that prefix. *)
Lemma partition_search_spec fuel p s n first len :
  (forall i e, s !! i = Some e -> p (id e) = (i <? n)%nat) ->
  (first <= n <= first + len)%nat -> (first + len <= length s)%nat ->
  (len <= fuel)%nat ->
  partition_search fuel p s first len = n.
Proof.
  intros Hp. revert first len.
  induction fuel as [|fuel IH]; intros first len Hn Hlen Hf; simpl; [lia|].
  destruct len as [|len']; [lia|]. remember (S len') as len.
  assert (Nat.div2 len < len)%nat as Hhalf by (apply Nat.lt_div2; lia).
  generalize dependent (Nat.div2 len). intros half Hhalf.
  destruct (lookup_lt_is_Some_2 s (first + half)) as [e He]; [lia|].
  rewrite He, (Hp _ _ He). destruct (Nat.ltb_spec (first + half) n).
  - apply IH; lia.
  - apply IH; lia.
Qed.

(** The entries that pass a downward closed test, counted. *)
Lemma partition_search_sorted p s :
  (forall a b, id_lt a b -> p b = true -> p a = true) -> stream_sorted s ->
  partition_search (length s) p s 0 (length s)
  = length (filter (fun e => p (id e) = true) s).
Proof.
  intros Hp Hs. destruct (filter_prefix p s Hp Hs) as [Ht Hd].
  set (n := length (filter (fun e => p (id e) = true) s)) in *.
  assert (n <= length s)%nat.
  { unfold n. rewrite Ht, length_take. lia. }
  apply partition_search_spec; [|lia..]. intros i e He.
  destruct (Nat.ltb_spec i n) as [Hi|Hi].
  - assert (e ∈ filter (fun e => p (id e) = true) s) as Hin.
    { rewrite Ht. apply list_elem_of_lookup. exists i. by rewrite lookup_take_lt. }
    by apply list_elem_of_filter in Hin as [? _].
  - assert (e ∈ filter (fun e => p (id e) = false) s) as Hin.
    { rewrite Hd. apply list_elem_of_lookup. exists (i - n)%nat. rewrite lookup_drop.
      by replace (n + (i - n))%nat with i by lia. }
    by apply list_elem_of_filter in Hin as [? _].
Qed.

(** ** The remaining steps *)

Lemma stream_range_step key start stop db r dbx :
  stream_range key start stop db = Some (r, dbx) -> db_step db dbx.
Proof.
  unfold stream_range. find_active key db; [|by intros [= _ <-]].
  destruct (value entry) as [| |s]; [by intros [= _ <-]..|].
  destruct (vector_of_range _ _ _); simpl; [by intros [= _ <-]|done].
Qed.

Lemma resolve_latest_step rs db : db_step db (resolve_latest rs db).2.
Proof.
  revert db. induction rs as [|r rs IH]; intros db; [done|]. simpl.
  find_active (request_key r) db.
  - destruct (value entry) as [| |s]; [done..|].
    specialize (IH db'). destruct (resolve_latest rs db') as [[ok rs'] db2].
    simpl in *. by etrans.
  - specialize (IH db'). destruct (resolve_latest rs db') as [[ok rs'] db2].
    simpl in *. by etrans.
Qed.

Lemma collect_reads_step rs db : db_step db (collect_reads rs db).2.
Proof.
  revert db. induction rs as [|r rs IH]; intros db; [done|]. simpl.
  find_active (request_key r) db; [|etrans; [done|apply IH]].
  destruct (value entry) as [| |s]; [done..|].
  specialize (IH db'). destruct (collect_reads rs db') as [results db2]. simpl in *.
  destruct (_ =? _)%nat; simpl; by etrans.
Qed.

Lemma read_streams_step rs db : db_step db (read_streams rs db).2.
Proof.
  unfold read_streams. pose proof (resolve_latest_step rs db) as H1.
  destruct (resolve_latest rs db) as [[ok rs'] db1]. simpl in H1.
  destruct ok; [|done]. pose proof (collect_reads_step rs' db1) as H2.
  destruct (collect_reads rs' db1) as [[results|] db2]; simpl in *; by etrans.
Qed.

Lemma increment_key_step key db r dbx :
  increment_key key db = Some (r, dbx) -> db_step db dbx.
Proof.
  unfold increment_key. find_active key db.
  - destruct (value entry) as [text| |]; [|by intros [= _ <-]..].
    destruct (parse_value_to_increment text) as [z|]; [|by intros [= _ <-]].
    destruct (checked_i64 (z + 1)); simpl; [|done]. intros [= _ <-].
    etrans; [done|]. by apply db_step_insert.
  - intros [= _ <-]. etrans; [done|]. by apply db_step_insert.
Qed.

Lemma key_revision_step key db : db_step db (key_revision key db).2.
Proof. unfold key_revision. find_active key db; done. Qed.

(** ** Reading a revision *)

(** The revision reported is the stored one of the database in which the key
    is present only if it is alive. *)
Lemma key_revision_spec key db :
  let r := key_revision key db in
  r.1 = default 0 (key_revisions r.2 !! key) /\
  entries r.2 !! key = live (now_of db) (entries db) !! key.
Proof.
  unfold key_revision. destruct (find_active_spec key db) as (H1 & H2 & _).
  destruct (find_active_entry key db) as [o db']. simpl in *. by rewrite H2.
Qed.

(** The soundness of WATCH at the level of the database: between two states
    connected by operations, an equal revision means an untouched key, as long
    as fewer than 2^64 revisions were handed out. *)
Lemma revision_unchanged db db' key :
  rev_step db db' -> 1 <= next_revision db -> next_revision db' <= 2 ^ 64 ->
  (forall r, key_revisions db !! key = Some r -> 1 <= r < next_revision db) ->
  default 0 (key_revisions db' !! key) = default 0 (key_revisions db !! key) ->
  entries db' !! key = entries db !! key.
Proof.
  intros (Hn & _ & Hk) H1 Hmax Hrev Heq.
  destruct (Hk key) as [[He _]|(r & Hr & Hrange)]; [done|exfalso].
  rewrite Hr in Heq. simpl in Heq. rewrite wrap_u64_small in Heq by (unfold u64_max; lia).
  destruct (key_revisions db !! key) as [r0|]; simpl in Heq; [|lia].
  specialize (Hrev r0 eq_refl). lia.
Qed.

(** Stored revisions are positive and below the next one. *)
Definition revisions_wf (db : Database) : Prop :=
  1 <= next_revision db /\
  forall k r, key_revisions db !! k = Some r -> 1 <= r < next_revision db.

Lemma revisions_wf_step db db' :
  rev_step db db' -> next_revision db' <= 2 ^ 64 -> revisions_wf db -> revisions_wf db'.
Proof.
  intros (Hn & _ & Hk) Hmax [H1 Hr]. split; [lia|]. intros k r Hr'.
  destruct (Hk k) as [[_ He]|(r0 & Hr0 & Hrange)].
  - rewrite He in Hr'. apply Hr in Hr'. lia.
  - rewrite Hr0 in Hr'. injection Hr' as <-.
    rewrite wrap_u64_small by (unfold u64_max; lia). lia.
Qed.
End Facts.

#[export] Hint Resolve set_step get_step get_type_step keys_db_step
  add_list_elements_step list_elements_step get_list_length_step
  pop_list_element_step pop_list_elements_step add_stream_step stream_range_step
  read_streams_step increment_key_step key_revision_step : redis.
