(* ===== verification/DatabaseStreams.v ===== *)
(** * Stream reads return what their specification says

    The binary searches of XRANGE and XREAD against plain filters over the
    stream, and the case in which [stream_range] builds a vector from an
    inverted iterator range. *)

From stdpp Require Import base option list gmap strings.
From Stdlib Require Import ZArith Lia.
From S2P Require Import Prelude CharConv Environment StreamTypes Database DatabaseFacts.

Lemma id_lt_irrefl a : ~ id_lt a a.
Proof. apply (irreflexivity id_lt). Qed.

Lemma id_ltb_false a b : id_ltb a b = false <-> ~ id_lt a b.
Proof. rewrite <- id_ltb_spec. by destruct (id_ltb a b). Qed.

(** Downward closed tests: below [i], and not above [i]. *)
Lemma below_closed i a b : id_lt a b -> id_ltb b i = true -> id_ltb a i = true.
Proof. rewrite !id_ltb_spec. intros. by etrans. Qed.

Lemma not_above_closed i a b :
  id_lt a b -> negb (id_ltb i b) = true -> negb (id_ltb i a) = true.
Proof.
  rewrite !negb_true_iff, !id_ltb_false. intros Hab Hib Hia. apply Hib. by etrans.
Qed.

Section Bounds.
Context (s : list StreamEntry) (Hs : stream_sorted s).

Lemma lower_bound_sorted i :
  lower_bound s i = length (filter (fun e => id_ltb (id e) i = true) s).
Proof.
  apply (partition_search_sorted (fun x => id_ltb x i)); [apply below_closed|done].
Qed.

Lemma upper_bound_sorted i :
  upper_bound s i = length (filter (fun e => negb (id_ltb i (id e)) = true) s).
Proof.
  apply (partition_search_sorted (fun x => negb (id_ltb i x)));
    [apply not_above_closed|done].
Qed.

(** What follows the upper bound is what comes after the identifier. *)
Lemma drop_upper_bound i :
  drop (upper_bound s i) s = filter (fun e => id_lt i (id e)) s.
Proof.
  rewrite upper_bound_sorted.
  destruct (filter_prefix (fun x => negb (id_ltb i x)) s (not_above_closed i) Hs) as [_ <-].
  apply list_filter_iff. intros e. by rewrite negb_false_iff, id_ltb_spec.
Qed.

Lemma upper_bound_end i :
  upper_bound s i = length s <-> filter (fun e => id_lt i (id e)) s = [].
Proof.
  rewrite <- drop_upper_bound.
  assert (upper_bound s i <= length s)%nat.
  { rewrite upper_bound_sorted. apply length_filter. }
  split.
  - intros ->. apply drop_all.
  - intros Hd%(f_equal length). rewrite length_drop in Hd. simpl in Hd. lia.
Qed.
End Bounds.

(** ** XRANGE *)

Definition in_range (start stop : StreamId) (e : StreamEntry) : Prop :=
  ~ id_lt (id e) start /\ ~ id_lt stop (id e).

#[export] Instance in_range_dec start stop e : Decision (in_range start stop e).
Proof. unfold in_range. apply _. Defined.

(** An entry strictly between a stop and a later start. *)
Definition between (start stop : StreamId) (e : StreamEntry) : Prop :=
  id_lt stop (id e) /\ id_lt (id e) start.

#[export] Instance between_dec start stop e : Decision (between start stop e).
Proof. unfold between. apply _. Defined.

Lemma filter_length_le {A} (P Q : A -> Prop) `{!forall x, Decision (P x)}
    `{!forall x, Decision (Q x)} (l : list A) :
  (forall x, x ∈ l -> P x -> Q x) -> (length (filter P l) <= length (filter Q l))%nat.
Proof.
  induction l as [|x l IH]; intros HPQ; [done|]. rewrite !filter_cons.
  assert (length (filter P l) <= length (filter Q l))%nat as Hl.
  { apply IH. intros y Hy. apply HPQ. by right. }
  assert (P x -> Q x) by (apply HPQ; left).
  destruct (decide (P x)), (decide (Q x)); simpl; first [lia|tauto].
Qed.

Lemma filter_length_lt {A} (P Q : A -> Prop) `{!forall x, Decision (P x)}
    `{!forall x, Decision (Q x)} (l : list A) (x : A) :
  (forall x, x ∈ l -> P x -> Q x) -> x ∈ l -> Q x -> ~ P x ->
  (length (filter P l) < length (filter Q l))%nat.
Proof.
  intros HPQ Hx HQ HP. apply list_elem_of_split in Hx as (l1 & l2 & ->).
  rewrite !filter_app, !filter_cons, !length_app.
  assert (length (filter P l1) <= length (filter Q l1))%nat.
  { apply filter_length_le. intros y Hy. apply HPQ. set_solver. }
  assert (length (filter P l2) <= length (filter Q l2))%nat.
  { apply filter_length_le. intros y Hy. apply HPQ. set_solver. }
  destruct (decide (P x)), (decide (Q x)); simpl; first [lia|tauto].
Qed.

Lemma stream_sorted_filter (P : StreamEntry -> Prop) `{!forall x, Decision (P x)} s :
  stream_sorted s -> stream_sorted (filter P s).
Proof.
  induction s as [|e s IH]; [done|]. intros [He Hs]. rewrite filter_cons.
  destruct (decide (P e)); [|by apply IH]. split; [|by apply IH].
  rewrite Forall_forall in He |- *. intros x [_ Hx]%list_elem_of_filter. by apply He.
Qed.

Lemma filter_filter_sub {A} (P Q : A -> Prop) `{!forall x, Decision (P x)}
    `{!forall x, Decision (Q x)} (l : list A) :
  (forall x, x ∈ l -> P x -> Q x) -> filter P (filter Q l) = filter P l.
Proof.
  induction l as [|x l IH]; intros HPQ; [done|].
  assert (P x -> Q x) by (apply HPQ; left).
  assert (filter P (filter Q l) = filter P l) as IHl.
  { apply IH. intros y Hy. apply HPQ. by right. }
  rewrite (filter_cons Q), (filter_cons P x l).
  destruct (decide (Q x)); [rewrite filter_cons|]; destruct (decide (P x));
    first [congruence|tauto].
Qed.

Section Range.
Context (s : list StreamEntry) (Hs : stream_sorted s) (start stop : StreamId).

#[local] Abbreviation below_start := (fun e => id_ltb (id e) start = true).
#[local] Abbreviation upto_stop := (fun e => negb (id_ltb stop (id e)) = true).

Lemma range_defined :
  Forall (fun e => ~ between start stop e) s ->
  vector_of_range s (lower_bound s start) (upper_bound s stop) =
  Some (filter (in_range start stop) s).
Proof.
  intros Hb. rewrite Forall_forall in Hb.
  assert (forall e, e ∈ s -> below_start e -> upto_stop e) as Hsub.
  { intros e He. rewrite negb_true_iff, id_ltb_false, id_ltb_spec. intros H1 H2.
    by apply (Hb e). }
  rewrite lower_bound_sorted, upper_bound_sorted by done.
  unfold vector_of_range.
  rewrite (proj2 (Nat.ltb_ge _ _)) by (by apply filter_length_le). f_equal.
  rewrite <- skipn_firstn_comm.
  destruct (filter_prefix _ s (not_above_closed stop) Hs) as [<- _].
  rewrite <- (filter_filter_sub below_start upto_stop s Hsub).
  destruct (filter_prefix _ (filter upto_stop s) (below_closed start)) as [_ <-];
    [by apply stream_sorted_filter|].
  rewrite list_filter_filter. apply list_filter_iff. intros e. unfold in_range.
  by rewrite negb_true_iff, !id_ltb_false.
Qed.

Lemma range_inverted e :
  e ∈ s -> between start stop e ->
  vector_of_range s (lower_bound s start) (upper_bound s stop) = None.
Proof.
  intros He [H1 H2]. rewrite lower_bound_sorted, upper_bound_sorted by done.
  unfold vector_of_range. rewrite (proj2 (Nat.ltb_lt _ _)); [done|].
  apply (filter_length_lt _ _ _ e); [|done|by apply id_ltb_spec|].
  - intros x _. rewrite negb_true_iff, id_ltb_false, id_ltb_spec. intros Hx.
    assert (id_lt stop start) by (by etrans).
    destruct (id_lt_total (id x) stop) as [?|[->|?]]; [by etrans|done|tauto].
  - rewrite negb_true_iff, id_ltb_false. tauto.
Qed.
End Range.

Section Reads.
Context `{Clock}.

(** The stream a client sees under a key. *)
Definition live_stream (db : Database) (key : string) : option (list StreamEntry) :=
  match live (now_of db) (entries db) !! key with
  | Some (mkEntry (StreamValue s) _) => Some s
  | _ => None
  end.

Lemma find_live_stream db key s :
  live_stream db key = Some s ->
  exists e, (find_active_entry key db).1 = Some e /\ value e = StreamValue s.
Proof.
  unfold live_stream. destruct (find_active_spec key db) as (-> & _).
  destruct (live _ _ !! key) as [[v t]|]; [|done]. destruct v; [done..|].
  intros [= <-]. eexists. split; [done|done].
Qed.

Lemma live_stream_wf db key s :
  db_wf db -> live_stream db key = Some s -> stream_wf s.
Proof.
  intros Hwf (e & He & Hv)%find_live_stream. apply find_active_Some, Hwf in He as [He _].
  by rewrite Hv in He.
Qed.

(** C30: XRANGE on a stream returns exactly the entries whose identifier lies
    between the bounds, in order (the two binary searches agree with a filter
    of the stream), provided no entry lies strictly between a stop and a later
    start; when one does, the vector is built from an inverted iterator range,
    which C++ leaves undefined. *)
Theorem stream_range_correct db key start stop s :
  db_wf db -> live_stream db key = Some s ->
  (Forall (fun e => ~ between start stop e) s ->
   exists db', stream_range key start stop db =
     Some (Expected (filter (in_range start stop) s), db') /\ db_wf db') /\
  (Exists (between start stop) s -> stream_range key start stop db = None).
Proof.
  intros Hwf Hlive. destruct (live_stream_wf _ _ _ Hwf Hlive) as (_ & Hs & _).
  apply find_live_stream in Hlive as (e & He & Hv).
  pose proof (find_active_wf key db Hwf) as Hwf'.
  unfold stream_range. destruct (find_active_entry key db) as [o db']. simpl in *.
  subst o. rewrite Hv. split.
  - intros Hb. exists db'. rewrite range_defined by done. done.
  - intros (x & Hx & Hb)%Exists_exists. by rewrite (range_inverted s Hs _ _ x).
Qed.

(** ** XREAD *)

(** A key that is free or holds a stream: nothing there can expire. *)
Definition plain (db : Database) (k : string) : Prop :=
  entries db !! k = None \/
  exists s, stream_sorted s /\ entries db !! k = Some (mkEntry (StreamValue s) None).

Lemma find_active_plain k db :
  plain db k -> find_active_entry k db = (entries db !! k, db).
Proof. unfold find_active_entry. by intros [->|(s & _ & ->)]. Qed.

(** Looking up any key leaves the plain ones as they are. *)
Lemma find_active_keeps_plain k k' db :
  plain db k -> entries (find_active_entry k' db).2 !! k = entries db !! k.
Proof.
  intros Hp. destruct (decide (k = k')) as [->|Hne].
  - by rewrite find_active_plain.
  - destruct (find_active_spec k' db) as (_ & _ & _ & Ho & _). by apply Ho.
Qed.

Lemma plain_transfer db db' k :
  plain db k -> entries db' !! k = entries db !! k -> plain db' k.
Proof. unfold plain. by intros Hp ->. Qed.

Definition last_id_of (db : Database) (k : string) : StreamId :=
  match entries db !! k with
  | Some (mkEntry (StreamValue s) _) => default zero_id (id <$> last s)
  | _ => zero_id
  end.

(** What the first loop leaves of a request. *)
Definition resolved_request (db : Database) (r : ReadRequest) : ReadRequest :=
  match start_mode r with
  | LATEST => mkReadRequest (request_key r) AFTER_ID (last_id_of db (request_key r))
  | AFTER_ID => r
  end.

(** What the second loop returns for a request. *)
Definition read_after (db : Database) (r : ReadRequest) : option ReadResult :=
  match entries db !! request_key r with
  | Some (mkEntry (StreamValue s) _) =>
      match filter (fun e => id_lt (after_id r) (id e)) s with
      | [] => None
      | es => Some (mkReadResult (request_key r) es)
      end
  | _ => None
  end.

(** After a lookup that finds nothing or a stream, the key is plain. *)
Lemma find_active_makes_plain k db :
  db_wf db ->
  match (find_active_entry k db).1 with
  | None => True
  | Some e => exists s, value e = StreamValue s
  end ->
  plain (find_active_entry k db).2 k.
Proof.
  intros Hwf Hfind. pose proof (find_active_wf k db Hwf) as Hwf'.
  destruct (find_active_spec k db) as (_ & Hk & _).
  destruct (find_active_entry k db) as [[[v t]|] db']; simpl in *; [|by left].
  destruct Hfind as [s ->]. destruct (Hwf' k _ Hk) as [(_ & Hs & _) Ht].
  simpl in Ht. subst t. right. eauto.
Qed.

Lemma resolve_latest_spec rs db rs' db' :
  db_wf db -> resolve_latest rs db = (true, rs', db') ->
  (forall k, plain db k -> entries db' !! k = entries db !! k) /\
  Forall (fun r => plain db' (request_key r)) rs /\
  rs' = resolved_request db' <$> rs.
Proof.
  revert db rs'. induction rs as [|r rs IH]; intros db rs' Hwf; simpl.
  - intros [= <- <-]. auto.
  - pose proof (find_active_wf (request_key r) db Hwf) as Hwf1.
    pose proof (find_active_makes_plain (request_key r) db Hwf) as Hplain.
    pose proof (fun k => find_active_keeps_plain k (request_key r) db) as Hkeep.
    destruct (find_active_spec (request_key r) db) as (_ & Hent & _).
    destruct (find_active_entry (request_key r) db) as [o db1]. simpl in *.
    intros Hres.
    assert (exists i rs1, resolve_latest rs db1 = (true, rs1, db') /\
      plain db1 (request_key r) /\ last_id_of db1 (request_key r) = i /\
      rs' = match start_mode r with
            | LATEST => mkReadRequest (request_key r) AFTER_ID i
            | AFTER_ID => r
            end :: rs1) as (i & rs1 & Hrs1 & Hpl & Hlast & ->).
    { unfold last_id_of. rewrite Hent. destruct o as [[v t]|]; simpl in Hres.
      - destruct v as [| |s]; simpl in Hres; [done..|].
        destruct (resolve_latest rs db1) as [[ok rs1] db2]. simplify_eq/=.
        eexists _, rs1. split_and!; eauto.
      - destruct (resolve_latest rs db1) as [[ok rs1] db2]. simplify_eq/=.
        eexists _, rs1. split_and!; eauto. }
    destruct (IH _ _ Hwf1 Hrs1) as (Hk & Hall & ->). split_and!.
    + intros k Hp. rewrite Hk; [by apply Hkeep|]. eapply plain_transfer; [done|auto].
    + constructor; [|done]. eapply plain_transfer; [done|auto].
    + simpl. f_equal. unfold resolved_request, last_id_of in *. rewrite Hk by done.
      by rewrite Hlast.
Qed.

Lemma collect_reads_spec rs db :
  Forall (fun r => plain db (request_key r)) rs ->
  collect_reads rs db = (Some (omap (read_after db) rs), db).
Proof.
  induction 1 as [|r rs Hr _ IH]; [done|]. simpl.
  rewrite (find_active_plain _ _ Hr). unfold read_after at 1.
  destruct Hr as [->|(s & Hs & ->)]; simpl; [done|]. rewrite IH.
  rewrite drop_upper_bound by done. pose proof (upper_bound_end s Hs (after_id r)) as Hend.
  destruct (Nat.eqb_spec (upper_bound s (after_id r)) (length s)) as [He|He].
  - by rewrite (proj1 Hend He).
  - destruct (filter _ s); [by destruct (He (proj2 Hend eq_refl))|done].
Qed.

(** C29: a successful XREAD first resolves every [$] to the last identifier of
    its stream (or 0-0 for a free key) and leaves explicit positions alone,
    then returns, in the order of the requests, exactly the entries after each
    position, leaving out the streams with nothing new.  Keys that are free or
    hold a stream are unchanged, and the resolved requests are left for the
    retries of a blocked read, which do not move them again. *)
Theorem read_streams_correct rs db results rs' db' :
  db_wf db -> read_streams rs db = (Expected results, rs', db') ->
  rs' = resolved_request db' <$> rs /\
  results = omap (read_after db') rs' /\
  (forall k, plain db k -> entries db' !! k = entries db !! k) /\
  resolved_request db' <$> rs' = rs'.
Proof.
  intros Hwf. unfold read_streams.
  destruct (resolve_latest rs db) as [[ok rs1] db1] eqn:Hres.
  destruct ok; [|done].
  destruct (resolve_latest_spec _ _ _ _ Hwf Hres) as (Hk & Hall & ->).
  rewrite collect_reads_spec.
  - intros [= <- <- <-]. split_and!; [done|done|done|].
    rewrite <- list_fmap_compose. apply list_fmap_ext. intros i r _. simpl.
    unfold resolved_request. by destruct (start_mode r) eqn:Hm; simpl; rewrite ?Hm.
  - apply Forall_fmap. eapply Forall_impl; [done|]. intros r Hr. simpl.
    unfold resolved_request. by destruct (start_mode r).
Qed.
End Reads.

(** ** Witnesses *)

Definition sample_stream : list StreamEntry :=
  [mkStreamEntry (mkStreamId 1 1) [("a", "1")]; mkStreamEntry (mkStreamId 3 0) [("b", "2")];
   mkStreamEntry (mkStreamId 3 7) [("c", "3")]].

Definition sample_stream_db : Database :=
  mkDatabase {[ "s" := mkEntry (StreamValue sample_stream) None ]} {[ "s" := 3 ]} 4 0.

Lemma sample_stream_db_wf : db_wf sample_stream_db.
Proof.
  intros k e. unfold sample_stream_db. simpl. rewrite lookup_singleton_Some.
  intros [_ <-]. split; [|done]. split_and!; [done| |].
  - simpl. repeat constructor; unfold id_lt; simpl; lia.
  - repeat constructor; simpl; unfold u64_max; lia.
Qed.

Lemma stream_range_correct_witness :
  (exists db', @stream_range millisecond_clock "s" (mkStreamId 2 0) (mkStreamId 3 5)
     sample_stream_db
   = Some (Expected [mkStreamEntry (mkStreamId 3 0) [("b", "2")]], db')) /\
  @stream_range millisecond_clock "s" (mkStreamId 4 0) (mkStreamId 2 0) sample_stream_db
  = None.
Proof.
  split.
  - destruct (@stream_range_correct millisecond_clock sample_stream_db "s"
      (mkStreamId 2 0) (mkStreamId 3 5) sample_stream sample_stream_db_wf eq_refl)
      as [Hok _].
    destruct Hok as (db' & Hr & _).
    + unfold sample_stream. repeat constructor; unfold between, id_lt; simpl; lia.
    + exists db'. exact Hr.
  - apply (@stream_range_correct millisecond_clock sample_stream_db "s"
      (mkStreamId 4 0) (mkStreamId 2 0) sample_stream sample_stream_db_wf eq_refl).
    unfold sample_stream. apply Exists_cons_tl, Exists_cons_hd.
    unfold between, id_lt. simpl. lia.
Defined.

Lemma read_streams_correct_witness :
  let rs := [mkReadRequest "s" AFTER_ID (mkStreamId 1 1); mkReadRequest "s" LATEST zero_id;
             mkReadRequest "t" LATEST zero_id] in
  let r := @read_streams millisecond_clock rs sample_stream_db in
  r.1.1 = Expected [mkReadResult "s" (drop 1 sample_stream)] /\
  r.1.2 = resolved_request r.2 <$> rs.
Proof.
  split; [reflexivity|].
  apply (@read_streams_correct millisecond_clock _ _ [mkReadResult "s" (drop 1 sample_stream)]
           _ _ sample_stream_db_wf). reflexivity.
Defined.
