(* ===== verification/DatabaseSpec.v ===== *)
(** * What the database promises

    The abstract store is a map of entries without clocks, revisions or
    leftovers of expired keys, in which every operation of the public interface
    of [Database] is written from its documented meaning: as a function of the
    store where the interface determines the outcome, as a relation where it
    leaves a choice (the order of KEYS, the wall clock of a generated stream
    identifier, the instants at which an XREAD of several keys finds them
    expired).  The database refines it: at the instant of the reading, what
    clients can see of the concrete map is the abstract map, and every operation
    commutes with that view. *)

From stdpp Require Import base option list gmap strings.
From Stdlib Require Import ZArith Lia.
From S2P Require Import Prelude CharConv Environment StreamTypes Database DatabaseFacts.
From S2P Require Import DatabaseStreams.

Inductive Operation :=
| SetString (key v : string) (expiry : option Z)
| Get (key : string)
| GetType (key : string)
| Keys
| AddListElements (key : string) (vs : list string) (m : ListAddMode)
| ListElements (key : string) (start stop : Z)
| GetListLength (key : string)
| PopListElement (key : string)
| PopListElements (key : string) (number_of_items : Z)
| AddStream (key : string) (request : IdRequest) (vs : list (string * string))
| StreamRange (key : string) (start stop : StreamId)
| ReadStreams (rs : list ReadRequest)
| IncrementKey (key : string)
| KeyRevision (key : string).

Inductive Result :=
| UnitResult
| StringResult (r : expected string Error)
| TypeResult (t : ValueType)
| KeysResult (ks : list string)
| SizeResult (r : expected nat Error)
| StringsResult (r : expected (list string) Error)
| IdResult (r : expected StreamId Error)
| EntriesResult (r : expected (list StreamEntry) Error)
| ReadsResult (r : expected (list ReadResult) Error) (resolved : list ReadRequest)
| IntegerResult (r : expected Z Error)
| RevisionResult (revision : Z).

(** The numbers of a request are 64-bit numbers, as its type says. *)
Definition operation_fits (op : Operation) : Prop :=
  match op with AddStream _ request _ => request_fits request | _ => True end.

(** ** The abstract store *)

Abbreviation store := (gmap string Entry).

(** The elements of a list with indexes from [start] to [stop] inclusive,
    negative indexes counting from the end: one element at a time. *)
Definition slice (start stop : Z) (l : list string) : list string :=
  let size := Z.of_nat (length l) in
  let index i := if i <? 0 then i + size else i in
  (filter (fun p => index start <= Z.of_nat p.1 <= index stop)
     (zip (seq 0 (length l)) l)).*2.

(** Elements pushed one by one at the front of a list. *)
Definition push_front (vs l : list string) : list string :=
  fold_left (fun acc v => v :: acc) vs l.

Definition store_list (key : string) (l : list string) (deadline : option Z) (m : store)
    : store :=
  if decide (l = []) then delete key m else <[key := mkEntry (ListValue l) deadline]> m.

(** The identifier of the next entry of a stream that ends with [l]: over the
    integers, without a width. *)
Definition next_id (request : IdRequest) (l : option StreamId) (wall : Z) : StreamId :=
  match mode request, l with
  | EXPLICIT, _ => mkStreamId (request_milliseconds request) (request_sequence request)
  | AUTOMATIC_SEQUENCE, Some l =>
      if decide (milliseconds l = request_milliseconds request)
      then mkStreamId (milliseconds l) (sequence l + 1)
      else mkStreamId (request_milliseconds request)
             (if decide (request_milliseconds request = 0) then 1 else 0)
  | AUTOMATIC_SEQUENCE, None =>
      mkStreamId (request_milliseconds request)
        (if decide (request_milliseconds request = 0) then 1 else 0)
  | AUTOMATIC, Some l =>
      if decide (milliseconds l < wall) then mkStreamId wall 0
      else mkStreamId (milliseconds l) (sequence l + 1)
  | AUTOMATIC, None => mkStreamId wall 0
  end.

(** An entry is appended when its identifier is a new maximum and consists of
    two 64-bit numbers. *)
Definition acceptable (l : option StreamId) (i : StreamId) : Prop :=
  (forall l', l = Some l' -> id_lt l' i) /\ id_fits i.

(** The instant [d] as a deadline set at [now]: what clients see afterwards. *)
Definition store_string (now : Z) (key v : string) (d : Z) (m : store) : store :=
  if decide (d <= now) then delete key m
  else <[key := mkEntry (StringValue v) (Some d)]> m.

Definition is_stream (e : Entry) : Prop := exists s, value e = StreamValue s.

Definition last_in (m : store) (k : string) : StreamId :=
  match value <$> m !! k with
  | Some (StreamValue s) => default zero_id (id <$> last s)
  | _ => zero_id
  end.

(** XREAD of the store [m]: positions given as [$] become the last identifiers,
    and every stream with later entries contributes them. *)
Definition position_in (m : store) (r : ReadRequest) : ReadRequest :=
  match start_mode r with
  | LATEST => mkReadRequest (request_key r) AFTER_ID (last_in m (request_key r))
  | AFTER_ID => r
  end.

Definition later_entries (m : store) (r : ReadRequest) : option ReadResult :=
  match value <$> m !! request_key r with
  | Some (StreamValue s) =>
      match filter (fun e => id_lt (after_id r) (id e)) s with
      | [] => None
      | es => Some (mkReadResult (request_key r) es)
      end
  | _ => None
  end.

Definition reads (m : store) (rs : list ReadRequest) (r : Result) : Prop :=
  (Forall (fun q => forall e, m !! request_key q = Some e -> is_stream e) rs /\
   let resolved := position_in m <$> rs in
   r = ReadsResult (Expected (omap (later_entries m) resolved)) resolved) \/
  (Exists (fun q => exists e, m !! request_key q = Some e /\ ~ is_stream e) rs /\
   exists rs', r = ReadsResult (Unexpected WRONG_TYPE) rs').

(** From [m] to [m'] only entries went whose deadline had passed at [later]. *)
Definition wilted (later : Z) (m m' : store) : Prop :=
  forall k, m' !! k = m !! k \/
    m' !! k = None /\
    exists e d, m !! k = Some e /\ expires_at e = Some d /\ d <= later.

(** The text of a signed 64-bit integer. *)
Definition counter (s : string) (z : Z) : Prop :=
  integer_text s z /\ i64_min <= z <= i64_max.

(** The outcomes [op] may have on the store [m]: [None] where C++ leaves the
    behaviour undefined, a result and the store afterwards otherwise.  [now] and
    [later] are the instants at which the call begins and ends, [wall] the
    possible wall clock times (Unix milliseconds as a 64-bit number) and
    [revision] the revisions of the keys when the call returns. *)
Definition spec (now later : Z) (wall : Z -> Prop) (revision : string -> Z)
    (op : Operation) (m : store) (outcome : option (Result * store)) : Prop :=
  match op with
  | SetString key v None =>
      outcome = Some (UnitResult, <[key := mkEntry (StringValue v) None]> m)
  | SetString key v (Some ms) =>
      let ns := ms * 1000000 in
      outcome =
        (if decide (i64_min <= ns <= i64_max /\ i64_min <= now + ns <= i64_max)
         then Some (UnitResult, store_string now key v (now + ns) m) else None)
  | Get key =>
      outcome = Some (StringResult match value <$> m !! key with
                         | None => Unexpected KEY_NOT_FOUND
                         | Some (StringValue s) => Expected s
                         | Some _ => Unexpected WRONG_TYPE
                         end, m)
  | GetType key =>
      outcome = Some (TypeResult match value <$> m !! key with
                       | None => NONE
                       | Some (StringValue _) => STRING
                       | Some (ListValue _) => LIST
                       | Some (StreamValue _) => STREAM
                       end, m)
  | Keys =>
      exists ks, outcome = Some (KeysResult ks, m) /\ NoDup ks /\
      forall k, k ∈ ks <-> is_Some (m !! k)
  | AddListElements key vs mode =>
      let add l := match mode with APPEND => l ++ vs | PREPEND => push_front vs l end in
      outcome =
      Some match m !! key with
           | None => (SizeResult (Expected (length vs)),
                      <[key := mkEntry (ListValue (add [])) None]> m)
           | Some (mkEntry (ListValue l) t) =>
               (SizeResult (Expected (length l + length vs)%nat),
                <[key := mkEntry (ListValue (add l)) t]> m)
           | Some _ => (SizeResult (Unexpected WRONG_TYPE), m)
           end
  | ListElements key start stop =>
      outcome = Some (StringsResult match value <$> m !! key with
                          | None => Expected []
                          | Some (ListValue l) => Expected (slice start stop l)
                          | Some _ => Unexpected WRONG_TYPE
                          end, m)
  | GetListLength key =>
      outcome = Some (SizeResult match value <$> m !! key with
                       | None => Expected 0%nat
                       | Some (ListValue l) => Expected (length l)
                       | Some _ => Unexpected WRONG_TYPE
                       end, m)
  | PopListElement key =>
      outcome =
      Some match m !! key with
           | Some (mkEntry (ListValue l) t) =>
               match l with
               | [] => (StringResult (Unexpected KEY_NOT_FOUND), m)
               | x :: l' => (StringResult (Expected x), store_list key l' t m)
               end
           | Some _ => (StringResult (Unexpected WRONG_TYPE), m)
           | None => (StringResult (Unexpected KEY_NOT_FOUND), m)
           end
  | PopListElements key n =>
      outcome =
      Some match m !! key with
           | Some (mkEntry (ListValue l) t) =>
               if decide (l = []) then (StringsResult (Unexpected KEY_NOT_FOUND), m) else
               if decide (n <= 0) then (StringsResult (Expected []), m) else
               (StringsResult (Expected (take (Z.to_nat n) l)),
                store_list key (drop (Z.to_nat n) l) t m)
           | Some _ => (StringsResult (Unexpected WRONG_TYPE), m)
           | None => (StringsResult (Unexpected KEY_NOT_FOUND), m)
           end
  | AddStream key request vs =>
      exists w, wall w /\
      match value <$> m !! key with
      | None =>
          let i := next_id request None w in
          outcome = Some (IdResult (Expected i),
                          <[key := mkEntry (StreamValue [mkStreamEntry i vs]) None]> m)
      | Some (StreamValue s) =>
          let i := next_id request (id <$> last s) w in
          acceptable (id <$> last s) i /\
          outcome = Some (IdResult (Expected i),
                          <[key := mkEntry (StreamValue (s ++ [mkStreamEntry i vs])) None]> m)
          \/ ~ acceptable (id <$> last s) i /\
          outcome = Some (IdResult (Unexpected INVALID_STREAM_ID_VALUE), m)
      | Some _ => outcome = Some (IdResult (Unexpected WRONG_TYPE), m)
      end
  | StreamRange key start stop =>
      match value <$> m !! key with
      | None => outcome = Some (EntriesResult (Unexpected KEY_NOT_FOUND), m)
      | Some (StreamValue s) =>
          Exists (between start stop) s /\ outcome = None \/
          ~ Exists (between start stop) s /\
          outcome = Some (EntriesResult (Expected (filter (in_range start stop) s)), m)
      | Some _ => outcome = Some (EntriesResult (Unexpected WRONG_TYPE), m)
      end
  | ReadStreams rs =>
      exists r m', outcome = Some (r, m') /\ wilted later m m' /\ reads m' rs r
  | IncrementKey key =>
      match m !! key with
      | None => outcome = Some (IntegerResult (Expected 1),
                      <[key := mkEntry (StringValue (to_string 1)) None]> m)
      | Some (mkEntry (StringValue s) t) =>
          (exists z, counter s z /\
             outcome = if decide (z = i64_max) then None else
               Some (IntegerResult (Expected (z + 1)),
                     <[key := mkEntry (StringValue (to_string (z + 1))) t]> m)) \/
          (forall z, ~ counter s z) /\
          outcome = Some (IntegerResult (Unexpected VALUE_NOT_INTEGER), m)
      | Some _ => outcome = Some (IntegerResult (Unexpected WRONG_TYPE), m)
      end
  | KeyRevision key => outcome = Some (RevisionResult (revision key), m)
  end.

(** ** The code *)

Section Refinement.
Context `{Clock, HashOrder}.

Definition run (op : Operation) (db : Database) : option (Result * Database) :=
  match op with
  | SetString key v expiry => db ← set key v expiry db; Some (UnitResult, db)
  | Get key => let '(r, db) := get key db in Some (StringResult r, db)
  | GetType key => let '(r, db) := get_type key db in Some (TypeResult r, db)
  | Keys => let '(ks, db) := keys db in Some (KeysResult ks, db)
  | AddListElements key vs m =>
      let '(r, db) := add_list_elements key vs m db in Some (SizeResult r, db)
  | ListElements key start stop =>
      let '(r, db) := list_elements key start stop db in Some (StringsResult r, db)
  | GetListLength key => let '(r, db) := get_list_length key db in Some (SizeResult r, db)
  | PopListElement key =>
      let '(r, db) := pop_list_element key db in Some (StringResult r, db)
  | PopListElements key n =>
      let '(r, db) := pop_list_elements key n db in Some (StringsResult r, db)
  | AddStream key request vs =>
      let '(r, db) := add_stream key request vs db in Some (IdResult r, db)
  | StreamRange key start stop =>
      '(r, db) ← stream_range key start stop db; Some (EntriesResult r, db)
  | ReadStreams rs =>
      let '(r, rs, db) := read_streams rs db in Some (ReadsResult r rs, db)
  | IncrementKey key => '(r, db) ← increment_key key db; Some (IntegerResult r, db)
  | KeyRevision key => let '(n, db) := key_revision key db in Some (RevisionResult n, db)
  end.

(** ** Reference definitions agree with the code's arithmetic *)

Lemma push_front_rev vs l : push_front vs l = rev vs ++ l.
Proof.
  unfold push_front. revert l. induction vs as [|v vs IH]; intros l; simpl; [done|].
  by rewrite IH, <- app_assoc.
Qed.

Lemma filter_zip_range (a b : Z) (n : nat) (l : list string) :
  (filter (fun p => a <= Z.of_nat p.1 <= b) (zip (seq n (length l)) l)).*2 =
  take (Z.to_nat (b + 1 - Z.max a (Z.of_nat n)))
    (drop (Z.to_nat (a - Z.of_nat n)) l).
Proof.
  revert n. induction l as [|x l IH]; intros n; simpl; [by rewrite drop_nil, take_nil|].
  rewrite filter_cons. simpl. destruct (decide (a <= Z.of_nat n <= b)) as [Hin|Hout].
  - simpl. rewrite IH. replace (Z.to_nat (a - Z.of_nat n)) with 0%nat by lia.
    replace (Z.to_nat (a - Z.of_nat (S n))) with 0%nat by lia.
    rewrite !drop_0.
    replace (Z.to_nat (b + 1 - Z.max a (Z.of_nat n)))
      with (S (Z.to_nat (b + 1 - Z.max a (Z.of_nat (S n))))) by lia. done.
  - rewrite IH. destruct (Z.le_gt_cases a (Z.of_nat n)).
    + replace (Z.to_nat (b + 1 - Z.max a (Z.of_nat n))) with 0%nat by lia.
      replace (Z.to_nat (b + 1 - Z.max a (Z.of_nat (S n)))) with 0%nat by lia.
      by rewrite !take_0.
    + replace (Z.to_nat (a - Z.of_nat n)) with (S (Z.to_nat (a - Z.of_nat (S n)))) by lia.
      replace (Z.max a (Z.of_nat (S n))) with (Z.max a (Z.of_nat n)) by lia. done.
Qed.

Lemma slice_spec start stop l :
  slice start stop l =
  match list_range (Z.of_nat (length l)) start stop with
  | None => []
  | Some (first, last) => take (Z.to_nat (last - first)) (drop (Z.to_nat first) l)
  end.
Proof.
  unfold slice. rewrite filter_zip_range. change (Z.of_nat 0) with 0.
  rewrite Z.sub_0_r. unfold list_range.
  set (size := Z.of_nat (length l)).
  set (a := if start <? 0 then start + size else start).
  set (b := if stop <? 0 then stop + size else stop).
  assert (0 <= size) by lia. clearbody a b.
  set (a' := if a <? 0 then 0 else a). set (b' := if size <=? b then size - 1 else b).
  assert (a' = Z.max a 0) as Ha by (unfold a'; destruct (Z.ltb_spec a 0); lia).
  assert (b' = Z.min b (size - 1)) as Hb by (unfold b'; destruct (Z.leb_spec size b); lia).
  rewrite Ha, Hb. clear a' b' Ha Hb.
  destruct ((_ <? 0) || _ || _) eqn:Hc.
  - destruct (Z.leb_spec size (Z.max a 0)).
    + rewrite (drop_ge l) by lia. by rewrite take_nil.
    + replace (Z.to_nat (b + 1 - Z.max a 0)) with 0%nat by lia. apply take_0.
  - apply orb_false_iff in Hc as [[Hc1 Hc2]%orb_false_iff Hc3].
    replace (Z.to_nat a) with (Z.to_nat (Z.max a 0)) by lia.
    destruct (Z.le_gt_cases size b).
    + rewrite !take_ge; [done|rewrite length_drop; lia..].
    + by replace (Z.min b (size - 1) + 1 - Z.max a 0) with (b + 1 - Z.max a 0) by lia.
Qed.

(** ** Refinement *)

Lemma live_store_popped now key l t m :
  (forall d, t = Some d -> (d <=? now) = false) ->
  live now (match l with
            | [] => delete key m
            | _ => <[key := mkEntry (ListValue l) t]> m
            end) = store_list key l t (live now m).
Proof.
  intros Ht. unfold store_list. destruct l as [|x l].
  - rewrite decide_True by done. apply live_delete.
  - rewrite decide_False by done. apply live_insert. unfold expired. simpl.
    destruct t as [d|]; [by apply Ht|done].
Qed.

Lemma store_popped_entries key l t db :
  entries (store_popped key l t db) =
  match l with
  | [] => delete key (entries db)
  | _ => <[key := mkEntry (ListValue l) t]> (entries db)
  end.
Proof. by destruct l. Qed.

#[local] Arguments store_popped : simpl never.

(** The outcome of a concrete step, as clients see it at [now]. *)
Definition seen (now : Z) (o : option (Result * Database)) : option (Result * store) :=
  '(r, db') ← o; Some (r, live now (entries db')).

Lemma seen_Some now r db : seen now (Some (r, db)) = Some (r, live now (entries db)).
Proof. done. Qed.

Definition wall_of (db : Database) (w : Z) : Prop :=
  exists i, (clock_reads db <= i <= S (clock_reads db))%nat /\
    w = wrap_u64 (system_clock_ms i).

Definition revision_in (db : Database) (k : string) : Z :=
  default 0 (key_revisions db !! k).

(** One concrete step against one abstract step. *)
Definition refines (op : Operation) (db : Database) : Prop :=
  let db' := match run op db with Some (_, db') => db' | None => db end in
  spec (now_of db) (now_of db') (wall_of db) (revision_in db') op
    (live (now_of db) (entries db)) (seen (now_of db) (run op db)).

Lemma outcome_eq (r r' : Result) (m m' : store) :
  r = r' -> m = m' -> Some (r, m) = Some (r', m').
Proof. by intros -> ->. Qed.

Ltac open_find key db :=
  let H1 := fresh "Hr" in let H2 := fresh "Hk" in let H3 := fresh "Hlive" in
  let H4 := fresh "Hexp" in
  destruct (find_active_spec key db) as (H1 & H2 & H3 & _ & H4);
  destruct (find_active_entry key db) as [o db'];
  simpl in H1, H2, H3, H4; rewrite <- H1, <- H3; clear H1 H2 H3;
  destruct o as [[v t]|]; simpl;
  [specialize (H4 _ eq_refl); unfold expired in H4; simpl in H4|clear H4].

Lemma refine_reads op db :
  match op with
  | Get _ | GetType _ | ListElements _ _ _ | GetListLength _ | KeyRevision _ => True
  | _ => False
  end ->
  refines op db.
Proof.
  unfold refines, revision_in. destruct op; try done; intros _; simpl.
  - unfold get. open_find key db; [destruct v; done|done].
  - unfold get_type. open_find key db; [destruct v; done|done].
  - unfold list_elements. open_find key db; [|done].
    destruct v as [|l|]; [done| |done]. rewrite slice_spec.
    destruct (Z.eqb_spec (Z.of_nat (length l)) 0) as [Hz|Hz].
    + simpl. destruct l; [|done]. apply outcome_eq; [|done]. do 2 f_equal.
      destruct (list_range _ _ _) as [[??]|]; [by rewrite drop_nil, take_nil|done].
    + destruct (list_range _ _ _) as [[??]|]; done.
  - unfold get_list_length. open_find key db; [destruct v; done|done].
  - unfold key_revision. destruct (find_active_spec key db) as (_ & _ & Hlive & _).
    destruct (find_active_entry key db) as [o db']. simpl in *. by rewrite <- Hlive.
Qed.

Lemma not_expired now v t :
  match t with Some deadline => deadline <=? now | None => false end = false ->
  expired now (mkEntry v t) = false.
Proof. done. Qed.

Lemma refine_add_list key vs m db :
  refines (AddListElements key vs m) db.
Proof.
  unfold refines. simpl. unfold add_list_elements. open_find key db.
  - destruct v as [|l|]; [done| |done]. simpl. apply outcome_eq.
    + do 2 f_equal. destruct m; rewrite ?length_app, ?length_rev; lia.
    + rewrite live_insert by done. do 2 f_equal. destruct m; [done|].
      by rewrite push_front_rev.
  - apply outcome_eq.
    + do 2 f_equal. destruct m; rewrite ?length_app, ?length_rev; simpl; lia.
    + rewrite !live_insert, insert_insert_eq by done. do 2 f_equal. destruct m; [done|].
      by rewrite push_front_rev.
Qed.

Lemma refine_pop key db :
  refines (PopListElement key) db.
Proof.
  unfold refines. simpl. unfold pop_list_element. open_find key db; [|done].
  destruct v as [|l|]; [done| |done]. destruct l as [|x l]; [done|].
  apply outcome_eq; [done|]. rewrite store_popped_entries. apply live_store_popped.
  by intros d ->.
Qed.

Lemma refine_pop_many key n db :
  refines (PopListElements key n) db.
Proof.
  unfold refines. simpl. unfold pop_list_elements. open_find key db; [|done].
  destruct v as [|l|]; [done| |done]. destruct l as [|x l]; [done|].
  rewrite decide_False by done. set (l' := x :: l).
  destruct (Z.leb_spec n 0) as [Hn|Hn]; [by rewrite decide_True|].
  rewrite decide_False, seen_Some, store_popped_entries by lia.
  destruct (Nat.min_spec (Z.to_nat n) (length l')) as [[_ ->]|[Hle ->]].
  - apply outcome_eq; [done|]. apply live_store_popped. by intros d ->.
  - rewrite (take_ge l' (Z.to_nat n)), (drop_ge l' (Z.to_nat n)) by done.
    rewrite take_ge, drop_ge by done. apply outcome_eq; [done|].
    apply (live_store_popped _ _ []). by intros d ->.
Qed.

Lemma parse_value_to_increment_spec s z :
  parse_value_to_increment s = Some z <-> counter s z.
Proof.
  unfold parse_value_to_increment, counter.
  rewrite <- (from_chars_signed i64_min i64_max s 0 z) by done.
  destruct s as [|c s]; [by split; [|intros [? _]]|].
  cbn [String.eqb orb]. destruct (conversion_failed _ _); simpl.
  - by split; [|intros [? _]].
  - split; [by intros [= ->]|by intros [_ ->]].
Qed.

Lemma refine_increment key db :
  refines (IncrementKey key) db.
Proof.
  unfold refines. simpl. unfold increment_key. open_find key db.
  - destruct v as [s| |]; [|done..]. simpl.
    destruct (parse_value_to_increment s) as [z|] eqn:Hz.
    2: { right. split; [|done]. intros z Hs%parse_value_to_increment_spec. congruence. }
    apply parse_value_to_increment_spec in Hz. left. exists z. split; [done|].
    destruct Hz as [_ Hz]. unfold checked_i64.
    destruct (Z.leb_spec i64_min (z + 1)); [|lia].
    destruct (Z.leb_spec (z + 1) i64_max); simpl.
    + rewrite decide_False by lia. apply outcome_eq; [done|]. by apply live_insert.
    + rewrite decide_True by lia. done.
  - apply outcome_eq; [done|]. by apply live_insert.
Qed.

(** *** SET and KEYS *)

Lemma live_insert_expired now m k e :
  expired now e = true -> live now (<[k := e]> m) = delete k (live now m).
Proof.
  intros He. apply map_eq. intros j. rewrite lookup_live.
  destruct (decide (j = k)) as [->|].
  - rewrite lookup_insert_eq, lookup_delete_eq. simpl. by rewrite He.
  - by rewrite lookup_insert_ne, lookup_delete_ne, lookup_live.
Qed.

Lemma refine_set key v expiry db : refines (SetString key v expiry) db.
Proof.
  unfold refines. destruct expiry as [ms|]; simpl.
  - unfold set. simpl. fold (now_of db).
    destruct (deadline_after (now_of db) ms) as [t|] eqn:Ht; simpl.
    + apply deadline_after_Some in Ht as (-> & ? & ?). rewrite decide_True by done.
      apply outcome_eq; [done|]. unfold store_string.
      destruct (decide (now_of db + ms * 1000000 <= now_of db)).
      * apply live_insert_expired. unfold expired. simpl. by apply Z.leb_le.
      * apply live_insert. unfold expired. simpl. apply Z.leb_gt. lia.
    + rewrite decide_False; [done|]. intros [? ?].
      assert (deadline_after (now_of db) ms = Some (now_of db + ms * 1000000)) as Hd.
      { by apply deadline_after_Some. }
      congruence.
  - apply outcome_eq; [done|]. by apply live_insert.
Qed.

Definition alive (now : Z) (m : gmap string Entry) (k : string) : Prop :=
  is_Some (live now m !! k).

#[local] Instance alive_dec now m k : Decision (alive now m k).
Proof. unfold alive. apply _. Defined.

(** The loop of KEYS collects the keys that are alive and erases the others. *)
Lemma keys_loop now ks acc db :
  NoDup ks -> Forall (fun k => is_Some (entries db !! k)) ks ->
  let '(result, db') := fold_left (keys_step now) ks (acc, db) in
  result = acc ++ filter (alive now (entries db)) ks /\
  live now (entries db') = live now (entries db).
Proof.
  revert acc db. induction ks as [|k ks IH]; intros acc db Hnd Hin.
  - simpl. by rewrite app_nil_r.
  - apply NoDup_cons in Hnd as [Hk Hnd]. apply Forall_cons in Hin as [[e He] Hin].
    cbn [fold_left]. unfold keys_step at 2. rewrite He.
    assert (alive now (entries db) k <-> expired now e = false) as Hal.
    { unfold alive. rewrite lookup_live, He. simpl. destruct (expired now e).
      - split; [by intros [? ?]|done].
      - by split; [|eauto]. }
    rewrite filter_cons. unfold expired in Hal.
    destruct (expires_at e) as [d|] eqn:Hd.
    + destruct (d <=? now) eqn:Hle.
      * rewrite decide_False by (rewrite Hal; done).
        set (db1 := set_entries _ _).
        assert (live now (entries db1) = live now (entries db)) as Hl.
        { unfold db1. simpl. rewrite live_delete. apply delete_id. rewrite lookup_live, He.
          simpl. unfold expired. by rewrite Hd, Hle. }
        specialize (IH acc db1 Hnd). destruct (fold_left _ ks _) as [result db'].
        destruct IH as [-> Hl'].
        { rewrite Forall_forall in Hin |- *. intros j Hj. unfold db1. simpl.
          rewrite lookup_delete_ne by (intros ->; done). by apply Hin. }
        split; [|by rewrite Hl']. f_equal. apply list_filter_iff. intros j.
        unfold alive. by rewrite Hl.
      * rewrite decide_True by (by apply Hal). specialize (IH (acc ++ [k]) db Hnd Hin).
        destruct (fold_left _ ks _) as [result db']. destruct IH as [-> Hl'].
        by rewrite <- app_assoc.
    + rewrite decide_True by (by apply Hal). specialize (IH (acc ++ [k]) db Hnd Hin).
      destruct (fold_left _ ks _) as [result db']. destruct IH as [-> Hl'].
      by rewrite <- app_assoc.
Qed.

Lemma refine_keys db : refines Keys db.
Proof.
  unfold refines. simpl. unfold keys. cbn [steady_now]. fold (now_of db).
  set (ks := hash_order _). cbn [entries] in ks.
  assert (ks ≡ₚ (map_to_list (entries db)).*1) as Hperm by apply hash_order_perm.
  assert (forall k, k ∈ ks <-> is_Some (entries db !! k)) as Hdom.
  { intros k. rewrite Hperm, list_elem_of_fmap. split.
    - intros ([k' e] & -> & He%elem_of_map_to_list). by exists e.
    - intros [e He]. exists (k, e). by rewrite elem_of_map_to_list. }
  pose proof (keys_loop (now_of db) ks [] (steady_now db).2) as Hloop.
  cbn [steady_now snd] in Hloop. destruct (fold_left _ ks _) as [result db'].
  destruct Hloop as [-> Hl].
  { rewrite Hperm. apply NoDup_fst_map_to_list. }
  { apply Forall_forall. intros k. apply Hdom. }
  rewrite seen_Some, Hl. cbn [entries]. eexists. split; [done|]. split.
  - simpl. apply NoDup_filter. rewrite Hperm. apply NoDup_fst_map_to_list.
  - intros k. simpl. rewrite list_elem_of_filter, Hdom. unfold alive. rewrite lookup_live.
    split; [by intros [? _]|]. intros Hal. split; [done|].
    destruct (entries db !! k); [eauto|by destruct Hal].
Qed.

(** *** XADD and XRANGE *)

Lemma find_active_clock key db :
  (clock_reads db <= clock_reads (find_active_entry key db).2 <= S (clock_reads db))%nat.
Proof.
  unfold find_active_entry. destruct (entries db !! key) as [e|]; [|simpl; lia].
  destruct (expires_at e) as [d|]; [|simpl; lia]. simpl.
  destruct (d <=? _); simpl; lia.
Qed.

Lemma wrap_succ z :
  0 <= z <= u64_max -> wrap_u64 (z + 1) = z + 1 \/ z = u64_max /\ wrap_u64 (z + 1) = 0.
Proof.
  intros Hz. destruct (decide (z = u64_max)) as [->|]; [by right|]. left.
  apply wrap_u64_small. lia.
Qed.

(** The identifier given to an entry, against the one over the integers: they
    agree, or the sequence number wrapped and the identifier is not above the
    last one. *)
Lemma new_stream_id_next r l db :
  (forall i, l = Some i -> id_fits i) ->
  let i := (new_stream_id r l db).1 in
  let i' := next_id r l (wrap_u64 (system_clock_ms (clock_reads db))) in
  i = i' \/ ~ id_fits i' /\ exists l', l = Some l' /\ ~ id_lt l' i.
Proof.
  intros Hl. cbn zeta.
  assert (forall l' m, l = Some l' -> m = milliseconds l' ->
    let i := mkStreamId m (wrap_u64 (sequence l' + 1)) in
    let i' := mkStreamId m (sequence l' + 1) in
    i = i' \/ ~ id_fits i' /\ exists l', l = Some l' /\ ~ id_lt l' i) as Hwrap.
  { intros l' m -> ->. destruct (Hl l' eq_refl) as [_ Hs]. cbn zeta.
    destruct (wrap_succ _ Hs) as [->|[Hmax ->]]; [by left|]. right.
    unfold id_fits, id_lt. simpl. split; [lia|]. exists l'. split; [done|]. lia. }
  unfold new_stream_id, next_id. destruct (mode r); cbn [system_now_ms].
  - destruct l as [l'|]; simpl; [|by left].
    destruct (Z.leb_spec (wrap_u64 (system_clock_ms (clock_reads db))) (milliseconds l')).
    + rewrite decide_False by lia. by apply Hwrap.
    + rewrite decide_True by lia. by left.
  - destruct l as [l'|]; simpl.
    + destruct (Z.eqb_spec (request_milliseconds r) (milliseconds l')) as [He|He].
      * rewrite decide_True by done. rewrite He. by apply Hwrap.
      * rewrite decide_False by congruence. left.
        by destruct (Z.eqb_spec (request_milliseconds r) 0), (decide (request_milliseconds r = 0)).
    + left. by destruct (Z.eqb_spec (request_milliseconds r) 0), (decide (request_milliseconds r = 0)).
  - by left.
Qed.

(** What is pushed is acceptable, what is rejected is not. *)
Lemma new_stream_id_verdict r l db :
  request_fits r -> (forall i, l = Some i -> id_fits i) ->
  let i := (new_stream_id r l db).1 in
  let i' := next_id r l (wrap_u64 (system_clock_ms (clock_reads db))) in
  if match l with Some l' => id_leb i l' | None => false end
  then ~ acceptable l i' else i = i' /\ acceptable l i.
Proof.
  intros Hr Hl. pose proof (new_stream_id_fits r l db Hr Hl) as Hfits.
  pose proof (new_stream_id_next r l db Hl) as Hnext. cbn zeta in *.
  destruct (new_stream_id r l db) as [i db']. simpl in *.
  set (i' := next_id _ _ _) in *. clearbody i'. clear Hl.
  destruct (match l with Some l' => id_leb i l' | None => false end) eqn:Hrej.
  - destruct l as [l'|]; [|done]. apply id_leb_spec in Hrej. intros [Hlt Hf].
    destruct Hnext as [->|[? _]]; [|done]. by apply Hrej, Hlt.
  - assert (forall l', l = Some l' -> id_lt l' i) as Hlt.
    { intros l' ->. assert (~ ~ id_lt l' i) as Hnn; [|by apply dec_stable].
      rewrite <- id_leb_spec. by rewrite Hrej. }
    destruct Hnext as [->|(_ & l' & -> & Hn)]; [|by destruct Hn; apply Hlt].
    done.
Qed.

Lemma refine_add_stream key r vs db :
  db_wf db -> request_fits r -> refines (AddStream key r vs) db.
Proof.
  intros Hwf Hr. unfold refines. simpl. unfold add_stream.
  pose proof (find_active_clock key db) as Hclock.
  pose proof (find_active_wf key db Hwf) as Hwf1.
  destruct (find_active_spec key db) as (Hf & Hk & Hlive & _ & _).
  destruct (find_active_entry key db) as [o db1]. cbn [fst snd] in *.
  rewrite <- Hf, <- Hlive. clear Hf Hlive.
  exists (wrap_u64 (system_clock_ms (clock_reads db1))). split; [by exists (clock_reads db1)|].
  destruct o as [[v t]|]; cbn [fmap option_fmap option_map value].
  - destruct v as [| |s]; [done..|].
    destruct (Hwf1 key _ Hk) as [(_ & _ & Hfits) Ht]. simpl in Ht. subst t.
    unfold push_stream. cbn [expires_at].
    pose proof (new_stream_id_verdict r (id <$> last s) db1 Hr) as Hv. cbn zeta in Hv.
    destruct (new_stream_id_db r (id <$> last s) db1) as (n & _ & Hnew).
    destruct (new_stream_id r (id <$> last s) db1) as [i db2]. cbn [fst snd] in *. subst db2.
    assert (forall i, id <$> last s = Some i -> id_fits i) as Hl.
    { intros j. destruct (last s) as [e|] eqn:He; [|done]. intros [= <-].
      rewrite Forall_forall in Hfits. by apply Hfits, last_Some_elem_of. }
    specialize (Hv Hl).
    destruct (match id <$> last s with Some l => id_leb i l | None => false end).
    + by right.
    + destruct Hv as [<- Hacc]. left. split; [done|]. apply outcome_eq; [done|].
      by apply live_insert.
  - unfold push_stream. cbn [last fmap option_fmap option_map expires_at app].
    set (db2 := set_entries _ _).
    pose proof (new_stream_id_verdict r None db2 Hr) as Hv. cbn zeta in Hv.
    destruct (new_stream_id_db r None db2) as (n & _ & Hnew).
    destruct (new_stream_id r None db2) as [i db3]. cbn [fst snd] in *. subst db3.
    destruct Hv as [-> Hacc]; [done|]. apply outcome_eq; [done|].
    simpl. rewrite !live_insert, insert_insert_eq by done. done.
Qed.

Lemma refine_stream_range key start stop db :
  db_wf db -> refines (StreamRange key start stop) db.
Proof.
  intros Hwf. unfold refines. simpl. unfold stream_range.
  pose proof (find_active_wf key db Hwf) as Hwf1.
  destruct (find_active_spec key db) as (Hf & Hk & Hlive & _ & _).
  destruct (find_active_entry key db) as [o db1]. cbn [fst snd] in *.
  rewrite <- Hf, <- Hlive. clear Hf Hlive.
  destruct o as [[v t]|]; cbn [fmap option_fmap option_map value]; [|done].
  destruct v as [| |s]; [done..|].
  destruct (Hwf1 key _ Hk) as [(_ & Hs & _) _].
  destruct (decide (Exists (between start stop) s)) as [Hex|Hno].
  - left. split; [done|]. apply Exists_exists in Hex as (e & He & Hb).
    by rewrite (range_inverted s Hs _ _ e).
  - right. split; [done|]. rewrite range_defined; [done|done|].
    by apply Forall_Exists_neg.
Qed.

(** *** Reads: only expired keys go *)

(** From [db] to [db'] a key and its revision are as they were, or the key was
    found past its deadline at one of the clock readings in between. *)
Definition fades (db db' : Database) : Prop :=
  (clock_reads db <= clock_reads db')%nat /\
  forall k,
    (entries db' !! k = entries db !! k /\ key_revisions db' !! k = key_revisions db !! k) \/
    entries db' !! k = None /\
    exists e d i, entries db !! k = Some e /\ expires_at e = Some d /\
      (clock_reads db <= i < clock_reads db')%nat /\ d <= steady_clock_now i.

#[export] Instance fades_preorder : PreOrder fades.
Proof.
  split; [by split; auto|]. intros a b c [Hc1 H1] [Hc2 H2]. split; [lia|]. intros k.
  destruct (H1 k) as [[He1 Hr1]|(Hn1 & e & d & i & ? & ? & ? & ?)].
  - destruct (H2 k) as [[He2 Hr2]|(Hn2 & e & d & i & He & ? & ? & ?)].
    + left. split; congruence.
    + right. split; [done|]. exists e, d, i. split_and!; [congruence|done|lia|lia|done].
  - right. split.
    + destruct (H2 k) as [[-> _]|[? _]]; done.
    + exists e, d, i. split_and!; [done|done|lia|lia|done].
Qed.

Lemma find_active_fades key db : fades db (find_active_entry key db).2.
Proof.
  unfold find_active_entry. destruct (entries db !! key) as [e|] eqn:He; [|done].
  destruct (expires_at e) as [d|] eqn:Hd; [|done]. simpl.
  destruct (Z.leb_spec d (steady_clock_now (clock_reads db))); simpl.
  - split; [simpl; lia|]. intros k. simpl. destruct (decide (k = key)) as [->|Hk].
    + right. rewrite lookup_delete_eq. split; [done|]. exists e, d, (clock_reads db).
      split_and!; [done|done|lia|lia|done].
    + left. by rewrite lookup_delete_ne, lookup_insert_ne.
  - split; [simpl; lia|]. auto.
Qed.

Lemma keys_step_fades now acc key db :
  (exists i, (clock_reads db <= i < clock_reads acc.2)%nat /\ now = steady_clock_now i) ->
  fades db acc.2 ->
  fades db (keys_step now acc key).2 /\
  clock_reads (keys_step now acc key).2 = clock_reads acc.2.
Proof.
  destruct acc as [result db1]. simpl. intros (i & Hi & ->) [Hc Hf].
  destruct (entries db1 !! key) as [e|] eqn:He; [|done].
  destruct (expires_at e) as [d|] eqn:Hd; [|done].
  destruct (Z.leb_spec d (steady_clock_now i)); [|done]. simpl. split; [|done].
  split; [done|]. intros k. simpl. destruct (decide (k = key)) as [->|Hk].
  - right. rewrite lookup_delete_eq. split; [done|].
    destruct (Hf key) as [[He' _]|[He' _]]; [|congruence].
    exists e, d, i. split_and!; [congruence|done|lia|lia|done].
  - rewrite lookup_delete_ne, lookup_insert_ne by done. apply Hf.
Qed.

Lemma keys_fades db : fades db (keys db).2.
Proof.
  unfold keys. cbn [steady_now].
  set (db1 := mkDatabase _ _ _ _). set (ks := hash_order _). clearbody ks.
  assert (fades db db1) as H1.
  { split; [simpl; lia|]. auto. }
  assert (clock_reads db1 = S (clock_reads db)) as Hc by done. clearbody db1.
  change db1 with (@nil string, db1).2 in H1, Hc. generalize dependent (@nil string, db1).
  induction ks as [|k ks IH]; intros acc Hf Hc; [done|]. cbn [fold_left].
  destruct (keys_step_fades (steady_clock_now (clock_reads db)) acc k db) as [Hf' Hc'].
  - exists (clock_reads db). split; [lia|done].
  - done.
  - apply IH; [done|congruence].
Qed.

Lemma resolve_latest_fades rs db : fades db (resolve_latest rs db).2.
Proof.
  revert db. induction rs as [|r rs IH]; intros db; [done|]. simpl.
  pose proof (find_active_fades (request_key r) db) as Hf.
  destruct (find_active_entry (request_key r) db) as [[e|] db1]; simpl in Hf.
  - destruct (value e); [done..|]. specialize (IH db1).
    destruct (resolve_latest rs db1) as [[ok rs'] db2]. simpl in *. by etrans.
  - specialize (IH db1). destruct (resolve_latest rs db1) as [[ok rs'] db2].
    simpl in *. by etrans.
Qed.

Lemma collect_reads_fades rs db : fades db (collect_reads rs db).2.
Proof.
  revert db. induction rs as [|r rs IH]; intros db; [done|]. simpl.
  pose proof (find_active_fades (request_key r) db) as Hf.
  destruct (find_active_entry (request_key r) db) as [[e|] db1]; simpl in Hf.
  - destruct (value e); [done..|]. specialize (IH db1).
    destruct (collect_reads rs db1) as [results db2]. simpl in *.
    destruct (_ =? _)%nat; simpl; by etrans.
  - by etrans.
Qed.

Lemma read_streams_fades rs db : fades db (read_streams rs db).2.
Proof.
  unfold read_streams. pose proof (resolve_latest_fades rs db) as H1.
  destruct (resolve_latest rs db) as [[ok rs'] db1]. simpl in H1.
  destruct ok; [|done]. pose proof (collect_reads_fades rs' db1) as H2.
  destruct (collect_reads rs' db1) as [[results|] db2]; simpl in *; by etrans.
Qed.

(** *** XREAD *)

Lemma fades_wilted `{!MonotonicClock} db db' :
  fades db db' ->
  wilted (now_of db') (live (now_of db) (entries db)) (live (now_of db) (entries db')).
Proof.
  intros [Hc Hf] k. rewrite !lookup_live.
  destruct (Hf k) as [[-> _]|(-> & e & d & i & -> & Hd & Hi & Hle)]; [by left|].
  simpl. destruct (expired (now_of db) e); [by left|]. right. split; [done|].
  exists e, d. split_and!; [done|done|]. etrans; [done|]. apply steady_mono. lia.
Qed.

(** The key at which the first loop gives up. *)
Lemma resolve_latest_fails rs db rs' db' :
  resolve_latest rs db = (false, rs', db') ->
  Exists (fun q => exists e i, entries db' !! request_key q = Some e /\ ~ is_stream e /\
    (clock_reads db <= i)%nat /\ expired (steady_clock_now i) e = false) rs.
Proof.
  revert db rs'. induction rs as [|r rs IH]; intros db rs'; [done|]. simpl.
  pose proof (find_active_clock (request_key r) db) as Hc.
  destruct (find_active_spec (request_key r) db) as (_ & Hk & _ & _ & Hexp).
  destruct (find_active_entry (request_key r) db) as [[e|] db1]; cbn [fst snd] in *.
  - destruct (value e) eqn:Hv.
    1,2: intros [= <- <-]; apply Exists_cons_hd; exists e, (clock_reads db);
      (split_and!; [done|by intros [? Hs]; congruence|lia|by apply Hexp]).
    destruct (resolve_latest rs db1) as [[ok rs1] db2] eqn:Hres. intros [= -> <- <-].
    apply Exists_cons_tl. eapply Exists_impl; [by eapply IH|].
    intros q (e' & i & ? & ? & ? & ?). exists e', i. split_and!; [done|done|lia|done].
  - destruct (resolve_latest rs db1) as [[ok rs1] db2] eqn:Hres. intros [= -> <- <-].
    apply Exists_cons_tl. eapply Exists_impl; [by eapply IH|].
    intros q (e' & i & ? & ? & ? & ?). exists e', i. split_and!; [done|done|lia|done].
Qed.

Lemma expired_mono now now' e : now <= now' -> expired now' e = false -> expired now e = false.
Proof. unfold expired. destruct (expires_at e); [|done]. rewrite !Z.leb_gt. lia. Qed.

(** A plain key is seen as it is. *)
Lemma plain_live now db k : plain db k -> live now (entries db) !! k = entries db !! k.
Proof. rewrite lookup_live. by intros [->|(s & _ & ->)]. Qed.

Lemma position_resolved now db r :
  plain db (request_key r) ->
  position_in (live now (entries db)) r = resolved_request db r.
Proof.
  intros Hp. unfold position_in, resolved_request, last_in, last_id_of.
  rewrite (plain_live now _ _ Hp).
  destruct (start_mode r); [done|]. do 2 f_equal.
  by destruct (entries db !! request_key r) as [[[] ?]|].
Qed.

Lemma later_read now db r :
  plain db (request_key r) ->
  later_entries (live now (entries db)) r = read_after db r.
Proof.
  intros Hp. unfold later_entries, read_after. rewrite (plain_live now _ _ Hp).
  by destruct (entries db !! request_key r) as [[[] ?]|].
Qed.

Lemma refine_read_streams `{!MonotonicClock} rs db :
  db_wf db -> refines (ReadStreams rs) db.
Proof.
  intros Hwf. unfold refines. simpl.
  pose proof (read_streams_fades rs db) as Hfade. unfold read_streams in *.
  destruct (resolve_latest rs db) as [[ok rs1] db1] eqn:Hres. destruct ok.
  - destruct (resolve_latest_spec _ _ _ _ Hwf Hres) as (_ & Hall & ->).
    assert (Forall (fun r => plain db1 (request_key r)) (resolved_request db1 <$> rs)) as Hall'.
    { apply Forall_fmap. eapply Forall_impl; [done|]. intros r Hr. simpl.
      unfold resolved_request. by destruct (start_mode r). }
    rewrite collect_reads_spec in Hfade |- * by done. simpl in Hfade.
    eexists _, _. split; [done|]. split; [by apply fades_wilted|]. left.
    assert (position_in (live (now_of db) (entries db1)) <$> rs = resolved_request db1 <$> rs)
      as Hpos.
    { apply list_fmap_ext. intros i r Hr. apply position_resolved.
      rewrite Forall_forall in Hall. by eapply Hall, list_elem_of_lookup_2. }
    split.
    + eapply Forall_impl; [exact Hall|]. intros r Hp e.
      rewrite (plain_live _ _ _ Hp). destruct Hp as [->|(s & _ & ->)]; [done|].
      intros [= <-]. by eexists.
    + cbn zeta. rewrite Hpos. f_equal. f_equal.
      clear -Hall'. induction Hall' as [|r l Hr _ IH]; [done|]. simpl.
      rewrite (later_read _ _ _ Hr). destruct (read_after db1 r); [by f_equal|exact IH].
  - simpl in Hfade. eexists _, _. split; [done|]. split; [by apply fades_wilted|]. right.
    split; [|by eexists]. apply resolve_latest_fails in Hres.
    eapply Exists_impl; [exact Hres|]. intros q (e & i & He & Hno & Hi & Hexp).
    exists e. split; [|done]. apply live_Some. split; [done|].
    eapply expired_mono; [|exact Hexp]. by apply steady_mono.
Qed.

(** *** Every operation *)

Definition is_read (op : Operation) : bool :=
  match op with
  | Get _ | GetType _ | Keys | ListElements _ _ _ | GetListLength _ | StreamRange _ _ _
  | ReadStreams _ | KeyRevision _ => true
  | _ => false
  end.

Lemma run_read_fades op db r db' :
  is_read op = true -> run op db = Some (r, db') -> fades db db'.
Proof.
  assert (forall key o db1, find_active_entry key db = (o, db1) -> fades db db1) as Hfind.
  { intros key o db1 Hf. pose proof (find_active_fades key db) as H1. by rewrite Hf in H1. }
  destruct op; try done; intros _; simpl.
  - unfold get. destruct (find_active_entry key db) as [[e|] db1] eqn:Hf;
      [destruct (value e)|]; intros [= _ <-]; by eapply Hfind.
  - unfold get_type. destruct (find_active_entry key db) as [[e|] db1] eqn:Hf;
      [destruct (value e)|]; intros [= _ <-]; by eapply Hfind.
  - pose proof (keys_fades db) as Hk. destruct (keys db) as [ks db1]. by intros [= _ <-].
  - unfold list_elements. destruct (find_active_entry key db) as [[e|] db1] eqn:Hf;
      [destruct (value e) as [|l|]; [|destruct (_ =? 0); [|destruct (list_range _ _ _) as [[??]|]]|]|];
      intros [= _ <-]; by eapply Hfind.
  - unfold get_list_length. destruct (find_active_entry key db) as [[e|] db1] eqn:Hf;
      [destruct (value e)|]; intros [= _ <-]; by eapply Hfind.
  - unfold stream_range. destruct (find_active_entry key db) as [[e|] db1] eqn:Hf;
      [destruct (value e) as [| |s]; [| |destruct (vector_of_range _ _ _)]|];
      intros [= _ <-]; by eapply Hfind.
  - pose proof (read_streams_fades rs db) as Hk.
    destruct (read_streams rs db) as [[ks rs'] db1]. by intros [= _ <-].
  - unfold key_revision. destruct (find_active_entry key db) as [o db1] eqn:Hf.
    intros [= _ <-]. by eapply Hfind.
Qed.

Lemma add_list_elements_rev key vs m db : rev_step db (add_list_elements key vs m db).2.
Proof.
  unfold add_list_elements. pose proof (find_active_rev key db) as Hf.
  destruct (find_active_entry key db) as [[e|] db1]; simpl in Hf.
  - destruct (value e); [done| |done]. simpl. etrans; [done|]. apply rev_step_insert.
  - etrans; [done|]. apply rev_step_insert2.
Qed.

Lemma run_rev op db r db' :
  operation_fits op -> run op db = Some (r, db') -> rev_step db db'.
Proof.
  assert (forall {A} (f : A * Database) (g : A -> Result),
    (let '(a, db) := f in Some (g a, db)) = Some (r, db') -> db' = f.2) as Hlet.
  { intros A [a db1] g. by intros [= _ <-]. }
  destruct op; simpl; intros Hfits.
  - destruct (set key v expiry db) as [db1|] eqn:Hs; [|done]. intros [= _ <-].
    by apply set_step in Hs as [? _].
  - intros ->%(Hlet _ _ _). apply get_step.
  - intros ->%(Hlet _ _ _). apply get_type_step.
  - intros ->%(Hlet _ _ _). apply keys_db_step.
  - intros ->%(Hlet _ _ _). apply add_list_elements_rev.
  - intros ->%(Hlet _ _ _). apply list_elements_step.
  - intros ->%(Hlet _ _ _). apply get_list_length_step.
  - intros ->%(Hlet _ _ _). apply pop_list_element_step.
  - intros ->%(Hlet _ _ _). apply pop_list_elements_step.
  - intros ->%(Hlet _ _ _). by apply add_stream_step.
  - destruct (stream_range key start stop db) as [[r1 db1]|] eqn:Hs; [|done].
    intros [= _ <-]. by apply stream_range_step in Hs as [? _].
  - pose proof (read_streams_step rs db) as Hs.
    destruct (read_streams rs db) as [[r1 rs1] db1]. intros [= _ <-]. apply Hs.
  - destruct (increment_key key db) as [[r1 db1]|] eqn:Hs; [|done].
    intros [= _ <-]. by apply increment_key_step in Hs as [? _].
  - intros ->%(Hlet _ _ _). apply key_revision_step.
Qed.

(** C3: the database refines the abstract store, in every operation of its
    public interface.  At the instant of its clock reading, an operation returns
    a result the abstract operation allows on the entries alive then, and leaves
    alive what the abstract operation leaves: lazily kept expired entries are
    invisible, wrong types and missing keys are reported as specified, SET
    stores the deadline, KEYS lists every live key once, LRANGE returns the
    slice, LPUSH pushes one by one, an emptied list disappears, XADD appends a
    new greatest 64-bit identifier or is rejected, XRANGE and XREAD are filters
    of the streams, INCR counts the decimal integer a string denotes, and the
    behaviour is undefined exactly for a deadline out of range, for INCR of the
    largest 64-bit integer and for an XRANGE whose bounds are inverted around an
    entry.  Every operation leaves a key and its revision untouched or gives the
    key a revision not handed out before, and the read operations do the latter
    only to keys they find past their deadline. *)
Theorem database_refines_store `{!MonotonicClock} (op : Operation) (db : Database) :
  db_wf db -> operation_fits op ->
  refines op db /\
  forall r db', run op db = Some (r, db') ->
    rev_step db db' /\ (is_read op = true -> fades db db').
Proof.
  intros Hwf Hfits. split.
  - destruct op; try (apply refine_reads; done).
    + apply refine_set.
    + apply refine_keys.
    + apply refine_add_list.
    + apply refine_pop.
    + apply refine_pop_many.
    + by apply refine_add_stream.
    + by apply refine_stream_range.
    + by apply refine_read_streams.
    + apply refine_increment.
  - intros r db' Hrun. split; [by eapply run_rev|]. intros Hread. by eapply run_read_fades.
Qed.
End Refinement.

(** ** Expiry of SET *)

Section Expiry.
Context `{Clock}.

(** A value SET with an expiry of [ms] milliseconds is read back by GET at
    any later reading before the deadline (in nanoseconds, computed without
    overflow), is gone from the deadline on, and without an expiry never goes,
    whatever happened to other keys in between. *)
Theorem set_then_get key v expiry db db1 db2 :
  set key v expiry db = Some db1 ->
  entries db2 !! key = entries db1 !! key ->
  (get key db2).1 =
  match expiry with
  | None => Expected v
  | Some ms => if now_of db2 <? now_of db + ms * 1000000
               then Expected v else Unexpected KEY_NOT_FOUND
  end.
Proof.
  unfold set, get, find_active_entry. destruct expiry as [ms|]; simpl.
  - destruct (deadline_after _ ms) as [t|] eqn:Ht; simpl; [|done]. intros [= <-].
    simpl. rewrite lookup_insert_eq. intros ->. simpl.
    apply deadline_after_Some in Ht as (-> & _ & _). fold (now_of db2). fold (now_of db).
    destruct (Z.leb_spec (now_of db + ms * 1000000) (now_of db2)),
      (Z.ltb_spec (now_of db2) (now_of db + ms * 1000000)); first [lia|done].
  - intros [= <-]. simpl. rewrite lookup_insert_eq. intros ->. done.
Qed.

(** Every accepted XADD appends one entry at the end of the stream, with an
    identifier strictly greater than all identifiers already there and made of
    two 64-bit numbers, even when the sequence number wraps; a rejected one
    changes nothing a client can see. *)
Theorem add_stream_appends key r vs db :
  db_wf db -> request_fits r ->
  let '(result, db') := add_stream key r vs db in
  match result with
  | Expected i =>
      exists s, entries db' !! key
        = Some (mkEntry (StreamValue (s ++ [mkStreamEntry i vs])) None) /\
      value <$> live (now_of db) (entries db) !! key
        = (if decide (s = []) then None else Some (StreamValue s)) /\
      Forall (fun e => id_lt (id e) i) s /\ id_fits i
  | Unexpected _ => live (now_of db) (entries db') = live (now_of db) (entries db)
  end.
Proof.
  intros Hwf Hr. unfold add_stream.
  pose proof (find_active_wf key db Hwf) as Hwf1.
  destruct (find_active_spec key db) as (Hf & Hk & Hlive & _ & _).
  destruct (find_active_entry key db) as [o db1]. cbn [fst snd] in *.
  rewrite <- Hf, <- Hlive. clear Hf Hlive. destruct o as [[v t]|].
  - destruct v as [| |s]; cbn [value]; [done..|].
    destruct (Hwf1 key _ Hk) as [(Hne & Hsort & Hfits) Ht]. simpl in Ht. subst t.
    unfold push_stream.
    pose proof (push_stream_wf r vs s db1 Hr) as Hpush. cbn zeta in Hpush.
    destruct (new_stream_id_db r (id <$> last s) db1) as (n & _ & Hnew).
    destruct (new_stream_id r (id <$> last s) db1) as [i db2]. cbn [fst snd] in *.
    subst db2.
    destruct (match id <$> last s with Some l => id_leb i l | None => false end) eqn:Hrej;
      [done|].
    destruct Hpush as (_ & Hs' & Hfit').
    { right. by split_and!. }
    { intros l Hl. by rewrite Hl in Hrej. }
    exists s. simpl. rewrite lookup_insert_eq, decide_False by done. split_and!; try done.
    + clear -Hs'. induction s as [|x s IH]; [constructor|]. destruct Hs' as [Hx Hs].
      constructor; [|by apply IH]. rewrite Forall_app in Hx. destruct Hx as [_ Hx].
      by inversion Hx.
    + apply Forall_app in Hfit' as [_ Hi]. by inversion Hi.
  - cbn [value]. unfold push_stream. simpl.
    set (db2 := set_entries _ _).
    pose proof (push_stream_wf r vs [] db2 Hr (or_introl eq_refl)) as Hpush.
    destruct (new_stream_id_db r None db2) as (n & _ & Hnew). simpl in Hpush.
    destruct (new_stream_id r None db2) as [i db3]. cbn [fst snd] in *. subst db3.
    exists []. simpl. rewrite lookup_insert_eq. split_and!; [done|done|constructor|].
    destruct Hpush as (_ & _ & Hi); [done|]. by inversion Hi.
Qed.
End Expiry.

(** ** Witnesses *)

Definition sample_db : Database :=
  mkDatabase {[ "l" := mkEntry (ListValue ["x"; "y"; "z"]) None;
                "t" := mkEntry (StringValue "5") (Some 1005000000) ]} ∅ 1 0.

Example lrange_ex :
  @run millisecond_clock insertion_order (ListElements "l" (-2) 9) sample_db =
  Some (StringsResult (Expected ["y"; "z"]), sample_db).
Proof. reflexivity. Qed.

Lemma set_then_get_witness :
  exists db1, @set millisecond_clock "k" "v" (Some 3) sample_db = Some db1 /\
  (@get millisecond_clock "k" db1).1 = Expected "v" /\
  (@get millisecond_clock "k" (mkDatabase (entries db1) ∅ 1 3)).1
  = Unexpected KEY_NOT_FOUND.
Proof.
  eexists. split; [reflexivity|]. split.
  - eapply (@set_then_get millisecond_clock "k" "v" (Some 3) sample_db); reflexivity.
  - eapply (@set_then_get millisecond_clock "k" "v" (Some 3) sample_db); reflexivity.
Defined.

Lemma add_stream_appends_witness :
  let r := @add_stream millisecond_clock "s" (mkIdRequest AUTOMATIC_SEQUENCE 5 0)
             [("f", "1")] empty_database in
  r.1 = Expected (mkStreamId 5 0) /\
  exists s, entries r.2 !! "s"
    = Some (mkEntry (StreamValue (s ++ [mkStreamEntry (mkStreamId 5 0) [("f", "1")]])) None).
Proof.
  split; [reflexivity|].
  destruct (@add_stream_appends millisecond_clock "s" (mkIdRequest AUTOMATIC_SEQUENCE 5 0)
              [("f", "1")] empty_database empty_database_wf) as (s & Hs & _).
  - split; simpl; unfold u64_max; lia.
  - exists s. exact Hs.
Defined.

(** XADD of an identifier without a sequence number takes the next one, and XREAD
    of a stream and of a key past its deadline reports the stream alone. *)
Lemma database_refines_store_witness :
  let xadd := AddStream "s" (mkIdRequest AUTOMATIC_SEQUENCE 3 0) [("d", "4")] in
  let xread := ReadStreams [mkReadRequest "s" AFTER_ID (mkStreamId 1 1);
                            mkReadRequest "t" LATEST zero_id] in
  let db := mkDatabase (<["t" := mkEntry (StringValue "5") (Some 7)]>
                          (entries sample_stream_db)) ∅ 4 0 in
  @refines millisecond_clock insertion_order xadd sample_stream_db /\
  fst <$> @run millisecond_clock insertion_order xadd sample_stream_db
  = Some (IdResult (Expected (mkStreamId 3 8))) /\
  @refines millisecond_clock insertion_order xread db /\
  fst <$> @run millisecond_clock insertion_order xread db
  = Some (ReadsResult (Expected [mkReadResult "s" (drop 1 sample_stream)])
            [mkReadRequest "s" AFTER_ID (mkStreamId 1 1);
             mkReadRequest "t" AFTER_ID zero_id]).
Proof.
  cbn zeta. split; [|split; [reflexivity|split; [|reflexivity]]].
  - apply (@database_refines_store millisecond_clock insertion_order
             millisecond_clock_mono _ _ sample_stream_db_wf).
    split; simpl; unfold u64_max; lia.
  - apply (@database_refines_store millisecond_clock insertion_order
             millisecond_clock_mono); [|done].
    intros k e. cbn [entries]. rewrite lookup_insert_Some.
    intros [[_ <-]|[_ He]]; [done|]. by apply (sample_stream_db_wf k).
Defined.
