(* ===== verification/TimeUtils.v ===== *)
(** * Time arguments (src/utils/time.cpp)

    Integer expiries and timeouts, and the fractional timeout of BLPOP, which
    the code reads as a [double].  A [double] is a [spec_float] of precision
    53 and exponent bound 1024; [std::from_chars] in the general format reads
    a decimal number and rounds it to nearest, once. *)

From stdpp Require Import base option list strings.
From Stdlib Require Import ZArith Lia SpecFloat.
From S2P Require Import Prelude CharConv.

Definition parse_expiry (text : string) : option Z :=
  let r := from_chars i64_min i64_max text 0 in
  if conversion_failed r text || (fc_value r <=? 0) then None else Some (fc_value r).

Definition parse_stream_blocking_timeout (text : string) : option Z :=
  let r := from_chars i64_min i64_max text 0 in
  if conversion_failed r text || (fc_value r <? 0) then None else Some (fc_value r).

(** ** Doubles *)

Definition double_prec : Z := 53.
Definition double_emax : Z := 1024.

(** [n / d] rounded to nearest. *)
Definition round_quotient (negative : bool) (n d : positive) : spec_float :=
  let '(m, e, l) := SFdiv_core_binary double_prec double_emax (Zpos n) 0 (Zpos d) 0 in
  binary_round_aux double_prec double_emax negative m e l.

(** [m * 10^e] rounded to nearest; [digits] bounds the number of digits of
    [m].  Beyond 10^400 the result is infinite, below 10^-400 it is zero. *)
Definition round_decimal (negative : bool) (m : Z) (digits : nat) (e : Z) : spec_float :=
  match m with
  | Zpos p =>
      if 400 <? e then S754_infinity negative else
      if e <? - 400 - Z.of_nat digits then S754_zero negative else
      if 0 <=? e
      then round_quotient negative (Z.to_pos (Zpos p * 10 ^ e)) 1
      else round_quotient negative p (Z.to_pos (10 ^ (- e)))
  | _ => S754_zero negative
  end.

Definition is_finite (x : spec_float) : bool :=
  match x with S754_zero _ | S754_finite _ _ _ => true | _ => false end.

(** [x < 0.0], [x > 0.0] *)
Definition is_negative (x : spec_float) : bool :=
  match x with S754_finite s _ _ => s | S754_infinity s => s | _ => false end.

Definition is_positive (x : spec_float) : bool :=
  match x with S754_finite s _ _ => negb s | S754_infinity s => negb s | _ => false end.

(** The conversion to an integer type truncates; out of the 64-bit range it is
    undefined. *)
Definition double_to_i64 (x : spec_float) : option Z :=
  match x with
  | S754_zero _ => Some 0
  | S754_finite s m e =>
      let magnitude :=
        if 0 <=? e then Zpos m * 2 ^ e else Zpos m / 2 ^ (- e) in
      checked_i64 (if s then - magnitude else magnitude)
  | _ => None
  end.

Definition thousand : spec_float := round_decimal false 1000 4 0.

(** [duration_cast<milliseconds>(duration<double>{seconds})] *)
Definition seconds_to_ms (seconds : spec_float) : option Z :=
  double_to_i64 (SFmul double_prec double_emax seconds thousand).

(** ** Reading a double *)

Definition starts_with_ignore_case (p s : string) : bool :=
  let fix go p s :=
    match p, s with
    | EmptyString, _ => true
    | String a p', String b s' => Ascii.eqb (toupper a) (toupper b) && go p' s'
    | String _ _, EmptyString => false
    end in
  go p s.

Definition is_char (code : nat) (s : string) : bool :=
  match s with
  | String c _ => Ascii.eqb c (Ascii.ascii_of_nat code)
  | EmptyString => false
  end.

(** An exponent part ([e] or [E], a sign, digits) and its length; nothing when
    it is not complete. *)
Definition scan_exponent (s : string) : Z * nat :=
  if is_char 101 s || is_char 69 s then
    let rest := drop_string 1 s in
    let negative := is_char 45 rest in
    let signed := negative || is_char 43 rest in
    let '(v, n) := scan_digits (if signed then drop_string 1 rest else rest) 0 in
    match n with
    | O => (0, 0%nat)
    | S _ => (if negative then - v else v, (n + (if signed then 2 else 1))%nat)
    end
  else (0, 0%nat).

Record double_result := mk_double_result {
  double_ptr : nat;
  double_ec : errc;
  double_value : spec_float;
}.

Definition from_chars_double (text : string) : double_result :=
  let negative := is_char 45 text in
  let sign_length := if negative then 1%nat else 0%nat in
  let body := drop_string sign_length text in
  if starts_with_ignore_case "infinity" body
  then mk_double_result (sign_length + 8) errc_ok (S754_infinity negative) else
  if starts_with_ignore_case "inf" body
  then mk_double_result (sign_length + 3) errc_ok (S754_infinity negative) else
  if starts_with_ignore_case "nan" body
  then mk_double_result (sign_length + 3) errc_ok S754_nan else
  let '(whole, n1) := scan_digits body 0 in
  let after := drop_string n1 body in
  let '(mantissa, n2, point) :=
    if is_char 46 after then
      let '(v, n) := scan_digits (drop_string 1 after) whole in (v, n, 1%nat)
    else (whole, 0%nat, 0%nat) in
  if ((n1 + n2 =? 0)%nat) then mk_double_result 0 invalid_argument (S754_zero false) else
  let '(e, n3) := scan_exponent (drop_string (point + n2) after) in
  let ptr := (sign_length + n1 + point + n2 + n3)%nat in
  let x := round_decimal negative mantissa (n1 + n2) (e - Z.of_nat n2) in
  if negb (is_finite x) || ((0 <? mantissa) && negb (is_positive x || is_negative x))
  then mk_double_result ptr result_out_of_range (S754_zero false)
  else mk_double_result ptr errc_ok x.

Definition parse_blocking_timeout (text : string) : option spec_float :=
  let r := from_chars_double text in
  if String.eqb text EmptyString || negb (bool_decide (double_ec r = errc_ok)) ||
     negb (double_ptr r =? String.length text)%nat ||
     negb (is_finite (double_value r)) || is_negative (double_value r)
  then None else Some (double_value r).

(** ** Facts *)

Lemma parse_expiry_range text n : parse_expiry text = Some n -> 1 <= n <= i64_max.
Proof.
  unfold parse_expiry. destruct (conversion_failed _ _) eqn:Hc; [done|]. simpl.
  destruct (Z.leb_spec (fc_value (from_chars i64_min i64_max text 0)) 0); [done|].
  intros [= <-]. apply conversion_failed_false in Hc as [Hc _].
  apply from_chars_range in Hc. lia.
Qed.

(** The numbers an expiry may be: positive, and within 64 bits with a sign. *)
Definition positive_number (text : string) (n : Z) : Prop :=
  numeral text n /\ 1 <= n <= i64_max.

(** The reader accepts exactly the texts of the positive numbers: any leading
    zeros, but no sign, no blanks and nothing after the digits. *)
Lemma parse_expiry_spec text n : parse_expiry text = Some n <-> positive_number text n.
Proof.
  unfold positive_number. pose proof (from_chars_signed i64_min i64_max text 0 n eq_refl) as Hs.
  assert (integer_text text n /\ i64_min <= n <= i64_max /\ 1 <= n <->
          numeral text n /\ 1 <= n <= i64_max) as <-.
  { unfold integer_text, i64_min. split.
    - intros ([Hn|(s' & _ & Hn%numeral_nonneg)] & ? & ?); [split; [done|lia]|lia].
    - intros [Hn ?]. split_and!; [by left|lia..]. }
  unfold parse_expiry.
  destruct (conversion_failed (from_chars i64_min i64_max text 0) text) eqn:Hc; simpl.
  - split; [done|]. intros (Ht & Hr & _). destruct (proj2 Hs (conj Ht Hr)) as [? _]. done.
  - destruct (Z.leb_spec (fc_value (from_chars i64_min i64_max text 0)) 0) as [Hle|Hgt].
    + split; [done|]. intros (Ht & Hr & Hn). destruct (proj2 Hs (conj Ht Hr)) as [_ Hv]. lia.
    + split.
      * intros [= Hv]. destruct (proj1 Hs (conj eq_refl Hv)) as [Ht Hr]. split_and!; [done|lia..].
      * intros (Ht & Hr & Hn). destruct (proj2 Hs (conj Ht Hr)) as [_ Hv]. by rewrite Hv.
Qed.

Lemma parse_expiry_to_string n :
  1 <= n <= i64_max -> parse_expiry (to_string n) = Some n.
Proof.
  intros Hn. assert (i64_min <= n <= i64_max) by (unfold i64_min in *; lia).
  unfold parse_expiry. rewrite conversion_to_string, from_chars_to_string by done.
  simpl. by destruct (Z.leb_spec n 0); [lia|].
Qed.

Example timeout_half : (x ← parse_blocking_timeout "0.5"; seconds_to_ms x) = Some 500.
Proof. vm_compute. reflexivity. Qed.

Example timeout_tenth : (x ← parse_blocking_timeout "0.1"; seconds_to_ms x) = Some 100.
Proof. vm_compute. reflexivity. Qed.

Example timeout_exp : (x ← parse_blocking_timeout "2.5e-1"; seconds_to_ms x) = Some 250.
Proof. vm_compute. reflexivity. Qed.

Example timeout_inf : parse_blocking_timeout "inf" = None.
Proof. vm_compute. reflexivity. Qed.

Example timeout_junk : parse_blocking_timeout "1s" = None.
Proof. vm_compute. reflexivity. Qed.

Example timeout_negative_zero :
  is_positive <$> parse_blocking_timeout "-0" = Some false.
Proof. vm_compute. reflexivity. Qed.

Example timeout_huge : (x ← parse_blocking_timeout "1e300"; seconds_to_ms x) = None.
Proof. vm_compute. reflexivity. Qed.
