(* ===== verification/Commands.v ===== *)
(** * Command handlers (src/commands.cpp, src/rlist.cpp, src/rstream.cpp)

    A handler takes the database and the command and gives a response and the
    new database; [None] is the case where its C++ code has no defined
    behaviour. *)

From stdpp Require Import base option list gmap strings.
From Stdlib Require Import ZArith Lia SpecFloat.
From S2P Require Import Prelude CharConv Environment Resp StreamTypes TimeUtils.
From S2P Require Import Database DatabaseFacts.

Definition wrong_type_message : string :=
  "WRONGTYPE Operation against a key holding the wrong kind of value".

Definition wrong_type_error : Response := SimpleError wrong_type_message.

(** [command[i]] *)
Abbreviation arg command i := (nth i command EmptyString).

Section Handlers.
Context `{Clock, HashOrder}.

(** ** src/commands.cpp *)

Definition ping (command : Command) : Response := SimpleString "PONG".

Definition echo (command : Command) : Response :=
  if negb (length command =? 2)%nat
  then SimpleError "ERR expected format ECHO <text>"
  else BulkString (arg command 1).

(** [duration_cast<milliseconds>(seconds{n})] *)
Definition seconds_as_ms (n : Z) : option Z := checked_i64 (n * 1000).

Definition set_command (db : Database) (command : Command) : option (Response * Database) :=
  if (length command =? 3)%nat then
    db ← set (arg command 1) (arg command 2) None db;
    Some (SimpleString "OK", db)
  else if (length command =? 5)%nat then
    match parse_expiry (arg command 4) with
    | None => Some (SimpleError "ERR invalid expire time in set command", db)
    | Some parsed =>
        if String.eqb (arg command 3) "PX" then
          db ← set (arg command 1) (arg command 2) (Some parsed) db;
          Some (SimpleString "OK", db)
        else if String.eqb (arg command 3) "EX" then
          expiry ← seconds_as_ms parsed;
          db ← set (arg command 1) (arg command 2) (Some expiry) db;
          Some (SimpleString "OK", db)
        else Some (SimpleError "ERR syntax error", db)
    end
  else Some (SimpleError
    "ERR invalid syntax. Expected usage SET <key> <value> <EX/PX> <time>", db).

Definition get_command (db : Database) (command : Command) : Response * Database :=
  if negb (length command =? 2)%nat
  then (SimpleError "ERR invalid syntax. Expected usage GET <key>", db) else
  let '(result, db) := get (arg command 1) db in
  match result with
  | Expected v => (BulkString v, db)
  | Unexpected WRONG_TYPE => (wrong_type_error, db)
  | Unexpected _ => (NullBulkString, db)
  end.

Definition keys_command (db : Database) (command : Command) : Response * Database :=
  if negb (length command =? 2)%nat
  then (SimpleError "ERR wrong number of arguments for 'keys' command", db) else
  if negb (String.eqb (arg command 1) "*")
  then (SimpleError "ERR only the '*' key pattern is supported", db) else
  let '(ks, db) := keys db in (Array ks, db).

Definition type_command (db : Database) (command : Command) : Response * Database :=
  if negb (length command =? 2)%nat
  then (SimpleError "ERR invalid syntax. Expected usage TYPE <key>", db) else
  let '(t, db) := get_type (arg command 1) db in
  match t with
  | NONE => (SimpleString "none", db)
  | STRING => (SimpleString "string", db)
  | LIST => (SimpleString "list", db)
  | STREAM => (SimpleString "stream", db)
  end.

Definition incr_command (db : Database) (command : Command) : option (Response * Database) :=
  if negb (length command =? 2)%nat
  then Some (SimpleError "ERR invalid syntax. Expected usage INCR <key>", db) else
  '(result, db) ← increment_key (arg command 1) db;
  match result with
  | Expected z => Some (Integer z, db)
  | Unexpected WRONG_TYPE => Some (wrong_type_error, db)
  | Unexpected VALUE_NOT_INTEGER =>
      Some (SimpleError "ERR value is not an integer or out of range", db)
  | Unexpected _ => None
  end.

(** ** src/rlist.cpp *)

Definition get_range_index (text : string) : option Z :=
  let r := from_chars i64_min i64_max text 0 in
  if conversion_failed r text then None else Some (fc_value r).

Definition parse_number_of_elements (text : string) : expected Z Response :=
  let r := from_chars i32_min i32_max text 0 in
  if String.eqb text EmptyString || conversion_failed r text || (fc_value r <=? 0)
  then Unexpected (SimpleError "ERR Invalid number of items format")
  else Expected (fc_value r).

Record BlockingPopRequest := mkBlockingPopRequest {
  pop_key : string;
  pop_timeout : option Z;
}.

(** [None]: the timeout does not fit a 64-bit count of milliseconds. *)
Definition parse_blpop (command : Command) : option (expected BlockingPopRequest Response) :=
  if negb (length command =? 3)%nat
  then Some (Unexpected (SimpleError
    "ERR invalid syntax. Expected usage BLPOP <list_name> <timeout>")) else
  match parse_blocking_timeout (arg command 2) with
  | None => Some (Unexpected (SimpleError "ERR Invalid timeout value"))
  | Some parsed =>
      timeout ← (if is_positive parsed
                 then ms ← seconds_to_ms parsed; Some (Some ms)
                 else Some None);
      Some (Expected (mkBlockingPopRequest (arg command 1) timeout))
  end.

Definition rpush (db : Database) (command : Command) : Response * Database :=
  if (length command <? 3)%nat
  then (SimpleError "ERR invalid syntax. Expected usage RPUSH <list_name> <values...>", db)
  else
  let '(size, db) := add_list_elements (arg command 1) (drop 2 command) APPEND db in
  match size with
  | Unexpected _ => (wrong_type_error, db)
  | Expected n => (Integer (Z.of_nat n), db)
  end.

Definition lpush (db : Database) (command : Command) : Response * Database :=
  if (length command <? 3)%nat
  then (SimpleError "ERR invalid syntax. Expected usage LPUSH <list_name> <values...>", db)
  else
  let '(size, db) := add_list_elements (arg command 1) (drop 2 command) PREPEND db in
  match size with
  | Unexpected _ => (wrong_type_error, db)
  | Expected n => (Integer (Z.of_nat n), db)
  end.

Definition lrange (db : Database) (command : Command) : Response * Database :=
  if negb (length command =? 4)%nat
  then (SimpleError
    "ERR invalid syntax. Expected usage LRANGE <list_name> <start_index> <stop_index>", db)
  else
  match get_range_index (arg command 2), get_range_index (arg command 3) with
  | Some start, Some stop =>
      let '(result, db) := list_elements (arg command 1) start stop db in
      match result with
      | Unexpected _ => (wrong_type_error, db)
      | Expected [] => (EmptyArray, db)
      | Expected vs => (Array vs, db)
      end
  | _, _ => (SimpleError "ERR invalid index value", db)
  end.

Definition llen (db : Database) (command : Command) : Response * Database :=
  if negb (length command =? 2)%nat
  then (SimpleError "ERR invalid syntax. Expected usage LLEN <list_name>", db) else
  let '(size, db) := get_list_length (arg command 1) db in
  match size with
  | Unexpected _ => (wrong_type_error, db)
  | Expected n => (Integer (Z.of_nat n), db)
  end.

Definition lpop (db : Database) (command : Command) : Response * Database :=
  if negb (length command =? 2)%nat && negb (length command =? 3)%nat
  then (SimpleError
    "ERR invalid syntax. Expected usage LPOP <list_name> <number_of_items?>", db) else
  if (length command =? 2)%nat then
    let '(result, db) := pop_list_element (arg command 1) db in
    match result with
    | Expected v => (BulkString v, db)
    | Unexpected WRONG_TYPE => (wrong_type_error, db)
    | Unexpected _ => (NullBulkString, db)
    end
  else
    match parse_number_of_elements (arg command 2) with
    | Unexpected e => (e, db)
    | Expected n =>
        let '(result, db) := pop_list_elements (arg command 1) n db in
        match result with
        | Expected vs => (Array vs, db)
        | Unexpected WRONG_TYPE => (wrong_type_error, db)
        | Unexpected _ => (NullBulkString, db)
        end
    end.

(** The non-blocking form, used inside transactions. *)
Definition blpop (db : Database) (command : Command) : option (Response * Database) :=
  request ← parse_blpop command;
  match request with
  | Unexpected e => Some (e, db)
  | Expected r =>
      let '(result, db) := pop_list_element (pop_key r) db in
      match result with
      | Expected v => Some (Array [pop_key r; v], db)
      | Unexpected WRONG_TYPE => Some (wrong_type_error, db)
      | Unexpected _ => Some (NullArray, db)
      end
  end.

(** ** src/rstream.cpp *)

Fixpoint equal_ignore_case (left right : string) : bool :=
  match left, right with
  | EmptyString, EmptyString => true
  | String a l, String b r => Ascii.eqb (toupper a) (toupper b) && equal_ignore_case l r
  | _, _ => false
  end.

Definition equals_ignore_case (left right : string) : bool :=
  (String.length left =? String.length right)%nat && equal_ignore_case left right.

Definition parse_text_as_number (text : string) : option Z :=
  let r := from_chars 0 u64_max text 0 in
  if String.eqb text EmptyString || conversion_failed r text || (fc_value r <? 0)
  then None else Some (fc_value r).

Fixpoint pair_up (vs : list string) : list (string * string) :=
  match vs with
  | a :: b :: vs' => (a, b) :: pair_up vs'
  | _ => []
  end.

Definition parse_value_list (vs : list string) : option (list (string * string)) :=
  if (length vs =? 0)%nat || negb (length vs mod 2 =? 0)%nat then None
  else Some (pair_up vs).

(** [text.find('-')] *)
Definition find_dash (text : string) : option nat := String.index 0 "-" text.

(** The two numbers around the first dash. *)
Definition parse_dashed (text : string) (dash : nat) : option StreamId :=
  match parse_text_as_number (String.substring 0 dash text),
        parse_text_as_number (drop_string (dash + 1) text) with
  | Some ms, Some seq => Some (mkStreamId ms seq)
  | _, _ => None
  end.

Definition parse_read_id (text : string) : option StreamId :=
  match find_dash text with
  | None => ms ← parse_text_as_number text; Some (mkStreamId ms 0)
  | Some dash => parse_dashed text dash
  end.

Definition parse_range_start (start : string) : option StreamId :=
  if String.eqb start "-" then Some (mkStreamId 0 0) else
  match find_dash start with
  | None => ms ← parse_text_as_number start; Some (mkStreamId ms 0)
  | Some dash => parse_dashed start dash
  end.

Definition parse_range_stop (stop : string) : option StreamId :=
  if String.eqb stop "+" then Some (mkStreamId u64_max u64_max) else
  match find_dash stop with
  | None => ms ← parse_text_as_number stop; Some (mkStreamId ms u64_max)
  | Some dash => parse_dashed stop dash
  end.

Definition parse_id (text : string) : option IdRequest :=
  if String.eqb text "*" then Some (mkIdRequest AUTOMATIC 0 0) else
  dash ← find_dash text;
  let sequence_text := drop_string (dash + 1) text in
  ms ← parse_text_as_number (String.substring 0 dash text);
  if String.eqb sequence_text "*" then Some (mkIdRequest AUTOMATIC_SEQUENCE ms 0) else
  seq ← parse_text_as_number sequence_text;
  Some (mkIdRequest EXPLICIT ms seq).

Definition xread_usage : Response := SimpleError
  "ERR Invalid usage. Expected usage <XREAD> <BLOCK?> <timeout?> <STREAMS> <name> <id/$>".

(** The option part of XREAD: the options and the position of STREAMS. *)
Definition parse_xread_options (command : Command) : expected (ReadOptions * nat) Response :=
  if equals_ignore_case (arg command 1) "BLOCK" then
    if (length command <=? 2)%nat then Unexpected xread_usage else
    match parse_stream_blocking_timeout (arg command 2) with
    | None => Unexpected (SimpleError "ERR Invalid timeout value")
    | Some t =>
        Expected (if t =? 0 then mkReadOptions BLOCK_INDEFINITELY 0
                  else mkReadOptions BLOCK_WITH_TIMEOUT t, 3%nat)
    end
  else Expected (mkReadOptions IMMEDIATE 0, 1%nat).

Fixpoint parse_read_requests (ks ids : list string) : expected (list ReadRequest) Response :=
  match ks, ids with
  | key :: ks', id_text :: ids' =>
      let request :=
        if String.eqb id_text "$" then Some (mkReadRequest key LATEST zero_id)
        else i ← parse_read_id id_text; Some (mkReadRequest key AFTER_ID i) in
      match request with
      | None => Unexpected (SimpleError "ERR Invalid id format")
      | Some r =>
          match parse_read_requests ks' ids' with
          | Unexpected e => Unexpected e
          | Expected rs => Expected (r :: rs)
          end
      end
  | _, _ => Expected []
  end.

Definition parse_xread (command : Command) : expected ReadCommand Response :=
  if (length command <? 4)%nat then Unexpected xread_usage else
  match parse_xread_options command with
  | Unexpected e => Unexpected e
  | Expected (opts, position) =>
      if (length command <=? position)%nat ||
         negb (equals_ignore_case (arg command position) "STREAMS")
      then Unexpected (SimpleError "ERR STREAMS keyword is required") else
      let keys_and_ids := drop (S position) command in
      if (length keys_and_ids =? 0)%nat || negb (length keys_and_ids mod 2 =? 0)%nat
      then Unexpected (SimpleError "ERR every key must have a corresponding ID") else
      let stream_count := (length keys_and_ids / 2)%nat in
      match parse_read_requests (take stream_count keys_and_ids)
              (drop stream_count keys_and_ids) with
      | Unexpected e => Unexpected e
      | Expected rs => Expected (mkReadCommand rs opts)
      end
  end.

Definition xadd (db : Database) (command : Command) : option (Response * Database) :=
  if (length command <? 5)%nat
  then Some (SimpleError
    "ERR Invalid usage. Expected usage <XADD> <name> <id> <key> <value> pairs...", db) else
  match parse_id (arg command 2) with
  | None => Some (SimpleError "ERR Invalid id format", db)
  | Some parsed_id =>
      if bool_decide (mode parsed_id = EXPLICIT) &&
         (request_milliseconds parsed_id =? 0) && (request_sequence parsed_id =? 0)
      then Some (SimpleError "ERR The ID specified in XADD must be greater than 0-0", db) else
      match parse_value_list (drop 3 command) with
      | None => Some (SimpleError "ERR Invalid value list format", db)
      | Some vs =>
          let '(result, db) := add_stream (arg command 1) parsed_id vs db in
          match result with
          | Expected i => Some (BulkString (id_to_string i), db)
          | Unexpected WRONG_TYPE => Some (wrong_type_error, db)
          | Unexpected INVALID_STREAM_ID_VALUE => Some (SimpleError
              "ERR The ID specified in XADD is equal or smaller than the target stream top item",
              db)
          | Unexpected _ => None
          end
      end
  end.

(** The response form of an entry: its identifier and its field-value list. *)
Definition entry_response (e : StreamEntry) : Response :=
  ResponseArray [BulkString (id_to_string (id e));
                 ResponseArray (concat ((fun '(f, v) => [BulkString f; BulkString v])
                                          <$> values e))].

Definition xrange (db : Database) (command : Command) : option (Response * Database) :=
  if negb (length command =? 4)%nat
  then Some (SimpleError
    "ERR Invalid usage. Expected usage <XRANGE> <name> <start> <stop>", db) else
  match parse_range_start (arg command 2), parse_range_stop (arg command 3) with
  | Some start, Some stop =>
      '(result, db) ← stream_range (arg command 1) start stop db;
      match result with
      | Expected es => Some (ResponseArray (entry_response <$> es), db)
      | Unexpected KEY_NOT_FOUND =>
          Some (SimpleError "ERR stream with given key does not exits", db)
      | Unexpected WRONG_TYPE => Some (SimpleError "ERR wrong type", db)
      | Unexpected _ => None
      end
  | _, _ => Some (SimpleError "ERR Invalid range indexes format", db)
  end.

Definition make_xread_response (results : list ReadResult) : Response :=
  match results with
  | [] => NullArray
  | _ =>
      ResponseArray ((fun r => ResponseArray
        [BulkString (result_key r); ResponseArray (entry_response <$> result_entries r)])
        <$> results)
  end.

Definition xread (db : Database) (command : Command) : Response * Database :=
  match parse_xread command with
  | Unexpected e => (e, db)
  | Expected read_command =>
      let '(result, _, db) := read_streams (requests read_command) db in
      match result with
      | Expected results => (make_xread_response results, db)
      | Unexpected WRONG_TYPE => (wrong_type_error, db)
      | Unexpected _ => (SimpleError "ERR Unable to read streams", db)
      end
  end.

End Handlers.
