(* ===== verification/Dispatch.v ===== *)
(** * The command table and its dispatcher (src/command_processor.cpp, lines 28-249)

    The sixteen data commands with their handlers and access modes, the
    dispatcher, and the two functions that decide what a write looks like in
    the append-only file and in the replication stream. *)

From stdpp Require Import base option list gmap strings.
From Stdlib Require Import ZArith Lia.
From S2P Require Import Prelude CharConv Environment Resp StreamTypes TimeUtils.
From S2P Require Import Database DatabaseFacts Commands.

Inductive CommandAccess := READ_ONLY | WRITE.

#[export] Instance CommandAccess_eq_dec : EqDecision CommandAccess.
Proof. solve_decision. Defined.

Record CommandDefinition := mkCommandDefinition {
  command_name : string;
  handler : Database -> Command -> option (Response * Database);
  access : CommandAccess;
}.

Section Dispatch.
Context `{Clock, HashOrder}.

(** A handler whose code is defined on every input. *)
Definition always {A} (h : Database -> Command -> A) (db : Database) (command : Command)
    : option A := Some (h db command).

Definition command_handlers : list CommandDefinition := [
  mkCommandDefinition "PING" (fun db command => Some (ping command, db)) READ_ONLY;
  mkCommandDefinition "ECHO" (fun db command => Some (echo command, db)) READ_ONLY;
  mkCommandDefinition "SET" set_command WRITE;
  mkCommandDefinition "GET" (always get_command) READ_ONLY;
  mkCommandDefinition "KEYS" (always keys_command) READ_ONLY;
  mkCommandDefinition "TYPE" (always type_command) READ_ONLY;
  mkCommandDefinition "INCR" incr_command WRITE;
  mkCommandDefinition "RPUSH" (always rpush) WRITE;
  mkCommandDefinition "LPUSH" (always lpush) WRITE;
  mkCommandDefinition "LRANGE" (always lrange) READ_ONLY;
  mkCommandDefinition "LLEN" (always llen) READ_ONLY;
  mkCommandDefinition "LPOP" (always lpop) WRITE;
  mkCommandDefinition "BLPOP" blpop WRITE;
  mkCommandDefinition "XADD" xadd WRITE;
  mkCommandDefinition "XRANGE" xrange READ_ONLY;
  mkCommandDefinition "XREAD" (always xread) READ_ONLY].

Definition find_command_definition (name : string) : option CommandDefinition :=
  List.find (fun d => String.eqb (command_name d) name) command_handlers.

Definition is_write_command (command : Command) : bool :=
  match command with
  | [] => false
  | name :: _ =>
      match find_command_definition name with
      | Some d => bool_decide (access d = WRITE)
      | None => false
      end
  end.

Definition dispatch (db : Database) (command : Command) : option (Response * Database) :=
  match command with
  | [] => Some (NullBulkString, db)
  | name :: _ =>
      match find_command_definition name with
      | None => Some (SimpleError "ERR unknown command", db)
      | Some d => handler d db command
      end
  end.

End Dispatch.

Definition response_is_error (response : Response) : bool :=
  match response with SimpleError _ => true | _ => false end.

(** Only called on commands with a name. *)
Definition write_modified_database (command : Command) (response : Response) : bool :=
  if response_is_error response then false else
  if String.eqb (arg command 0) "BLPOP" then
    match response with Array vs => negb (length vs =? 0)%nat | _ => false end
  else if negb (String.eqb (arg command 0) "LPOP") then true else
  match response with
  | NullBulkString => false
  | Array vs => negb (length vs =? 0)%nat
  | _ => true
  end.

Definition normalize_replication_command (command : Command) (response : Response) : Command :=
  let command :=
    if String.eqb (arg command 0) "XADD" then
      match response with BulkString v => <[2%nat := v]> command | _ => command end
    else command in
  if String.eqb (arg command 0) "BLPOP" then ["LPOP"; arg command 1] else command.
