(* ===== verification/DispatchFacts.v ===== *)
(** * What the commands guarantee

    - every command is a [db_step]: it keeps the database well formed and its
      revisions sound;
    - [quiet]: a step that at most drops expired entries.  A command that is
      not a write, or that [write_modified_database] reports as having changed
      nothing, is quiet: nothing that must be persisted or replicated is
      missed;
    - replay: on a database without expiries the normalized form of a command
      that changed the data has the same effect on any equal database. *)

From stdpp Require Import base option list gmap strings.
From Stdlib Require Import ZArith Lia.
From S2P Require Import Prelude CharConv Environment Resp StreamTypes TimeUtils.
From S2P Require Import Database DatabaseFacts Commands Dispatch.

Section Facts.
Context `{Clock, HashOrder}.

(** ** Commands by name *)

(** The table lists the access of every command. *)
Definition write_names : list string :=
  ["SET"; "INCR"; "RPUSH"; "LPUSH"; "LPOP"; "BLPOP"; "XADD"].

(** Case analysis over the command table: the handler of a known command. *)
Lemma find_definition_cases name (P : CommandDefinition -> Prop) :
  Forall P command_handlers ->
  match find_command_definition name with
  | Some d => command_name d = name /\ P d
  | None => True
  end.
Proof.
  intros HP. unfold find_command_definition.
  destruct (List.find _ command_handlers) as [d|] eqn:Hd; [|done].
  apply List.find_some in Hd as [Hin Heq]. apply String.eqb_eq in Heq.
  rewrite Forall_forall in HP. split; [done|]. apply HP. by apply list_elem_of_In.
Qed.

Lemma is_write_names name args :
  is_write_command (name :: args) = bool_decide (name ∈ write_names).
Proof.
  unfold is_write_command, find_command_definition. cbn [List.find command_handlers command_name].
  repeat (match goal with |- context [String.eqb ?s name] =>
    destruct (String.eqb_spec s name) as [<-|] end; [reflexivity|]).
  symmetry. apply bool_decide_eq_false_2. unfold write_names.
  rewrite !elem_of_cons, elem_of_nil. intros Hin. by destruct_or! Hin.
Qed.

(** ** Parsed identifiers are 64-bit numbers *)

Lemma parse_text_as_number_range text n :
  parse_text_as_number text = Some n -> 0 <= n <= u64_max.
Proof.
  unfold parse_text_as_number. destruct (String.eqb _ _); [done|]. simpl.
  destruct (conversion_failed _ _) eqn:Hc; [done|]. simpl.
  destruct (Z.ltb_spec (fc_value (from_chars 0 u64_max text 0)) 0); [done|].
  intros [= <-]. apply conversion_failed_false in Hc as [Hc _].
  apply from_chars_range in Hc. lia.
Qed.

Lemma parse_id_fits text r : parse_id text = Some r -> request_fits r.
Proof.
  unfold parse_id. destruct (String.eqb text _).
  { intros [= <-]. repeat split; vm_compute; discriminate. }
  intros (dash & _ & Hr)%bind_Some. apply bind_Some in Hr as (ms & Hms & Hr).
  apply parse_text_as_number_range in Hms. destruct (String.eqb _ _).
  { injection Hr as <-. split; [done|]. vm_compute. split; discriminate. }
  apply bind_Some in Hr as (seq & Hseq & Hr). apply parse_text_as_number_range in Hseq.
  by injection Hr as <-.
Qed.

(** ** Every handler is a step of the database *)

Definition handler_step (h : Database -> Command -> option (Response * Database)) : Prop :=
  forall db c r db', h db c = Some (r, db') -> db_step db db'.

(** An operation of the database in the goal: record its step and name its
    results. *)
Ltac run_op :=
  match goal with
  | |- context [match ?op with pair _ _ => _ end] =>
      let Hs := fresh "Hs" in
      assert (db_step _ op.2) as Hs by eauto with redis;
      let r := fresh "res" in let d := fresh "db" in
      destruct op as [r d]; cbn [snd] in Hs
  end.

(** Close a branch that returned the database at hand. *)
Ltac finish_step := intros; repeat (case_match; try done); simplify_eq; (done || reflexivity).

Lemma set_command_step : handler_step set_command.
Proof.
  intros db c r db'. unfold set_command.
  repeat (case_match; try done); try (intros [= <- <-]; reflexivity);
    intros Hb; repeat apply bind_Some in Hb as (? & ? & Hb); simplify_eq; by eapply set_step.
Qed.

Lemma incr_command_step : handler_step incr_command.
Proof.
  intros db c r db'. unfold incr_command. case_match; [intros [= <- <-]; reflexivity|].
  intros ([res db1] & Hi%increment_key_step & Hb)%bind_Some.
  repeat case_match; by simplify_eq.
Qed.

Lemma blpop_step : handler_step blpop.
Proof.
  intros db c r db'. unfold blpop. intros (req & _ & Hb)%bind_Some. revert Hb.
  destruct req as [req|]; [run_op|]; finish_step.
Qed.

Lemma xadd_step : handler_step xadd.
Proof.
  intros db c r db'. unfold xadd. case_match; [intros [= <- <-]; reflexivity|].
  destruct (parse_id _) as [rq|] eqn:Hid; [|intros [= <- <-]; reflexivity].
  apply parse_id_fits in Hid. case_match; [intros [= <- <-]; reflexivity|].
  destruct (parse_value_list _) as [vs|]; [|intros [= <- <-]; reflexivity].
  run_op. finish_step.
Qed.

Lemma xrange_step : handler_step xrange.
Proof.
  intros db c r db'. unfold xrange. case_match; [intros [= <- <-]; reflexivity|].
  repeat (case_match; try (intros [= <- <-]; reflexivity)).
  intros ([res db1] & Hi%stream_range_step & Hb)%bind_Some.
  repeat case_match; by simplify_eq.
Qed.

Lemma read_handlers_step :
  handler_step (always get_command) /\ handler_step (always keys_command) /\
  handler_step (always type_command) /\ handler_step (always lrange) /\
  handler_step (always llen) /\ handler_step (always xread).
Proof.
  unfold always, get_command, keys_command, type_command, lrange, llen, xread.
  split_and!; intros db c r db'.
  1-3,5: case_match; [intros [= <- <-]; reflexivity|run_op; finish_step].
  - case_match; [intros [= <- <-]; reflexivity|].
    repeat (case_match; [|intros [= <- <-]; reflexivity]). run_op. finish_step.
  - destruct (parse_xread c) as [rc|]; [|finish_step].
    pose proof (read_streams_step (requests rc) db) as Hs.
    destruct (read_streams _ db) as [[res rs] db1]. simpl in Hs. finish_step.
Qed.

Lemma drop2_nonempty (c : Command) : (length c <? 3)%nat = false -> drop 2 c <> [].
Proof.
  intros E%Nat.ltb_ge. intros Hd%(f_equal length). rewrite length_drop in Hd.
  simpl in Hd. lia.
Qed.

Lemma write_handlers_step :
  handler_step (always rpush) /\ handler_step (always lpush) /\ handler_step (always lpop).
Proof.
  unfold always, rpush, lpush, lpop. split_and!; intros db c r db'.
  1-2: case_match; [intros [= <- <-]; reflexivity|];
    pose proof (drop2_nonempty c ltac:(done)); run_op; finish_step.
  case_match; [intros [= <- <-]; reflexivity|].
  case_match; [run_op; finish_step|].
  destruct (parse_number_of_elements _); [run_op|]; finish_step.
Qed.

Lemma dispatch_step db c r db' : dispatch db c = Some (r, db') -> db_step db db'.
Proof.
  unfold dispatch. destruct c as [|name args]; [intros [= <- <-]; reflexivity|].
  pose proof read_handlers_step as (Hget & Hkeys & Htype & Hlrange & Hllen & Hxread).
  pose proof write_handlers_step as (Hrpush & Hlpush & Hlpop).
  assert (Forall (fun d => handler_step (handler d)) command_handlers) as Hall.
  { unfold command_handlers. rewrite !Forall_cons, Forall_nil. cbn [handler].
    split_and!; [|
      |exact set_command_step|exact Hget|exact Hkeys|exact Htype|exact incr_command_step
      |exact Hrpush|exact Hlpush|exact Hlrange|exact Hllen|exact Hlpop|exact blpop_step
      |exact xadd_step|exact xrange_step|exact Hxread|done];
      intros ? ? ? ? [= <- <-]; reflexivity. }
  pose proof (find_definition_cases name _ Hall) as Hd.
  destruct (find_command_definition name) as [d|]; [|intros [= <- <-]; reflexivity].
  apply Hd.
Qed.

(** ** Quiet steps *)

(** From [db] to [db'] an entry is untouched, or was erased after a reading of
    the clock at or past its deadline. *)
Definition quiet (db db' : Database) : Prop :=
  (clock_reads db <= clock_reads db')%nat /\
  forall k, entries db' !! k = entries db !! k \/
    entries db' !! k = None /\
    exists e t i, entries db !! k = Some e /\ expires_at e = Some t /\
      (clock_reads db <= i < clock_reads db')%nat /\ t <= steady_clock_now i.

#[export] Instance quiet_preorder : PreOrder quiet.
Proof.
  split.
  - intros db. split; [lia|]. auto.
  - intros a b c (Hc1 & H1) (Hc2 & H2). split; [lia|]. intros k.
    destruct (H2 k) as [He2|(He2 & e & t & i & Hb & Ht & Hi & Hle)].
    + destruct (H1 k) as [He1|(He1 & e & t & i & Ha & Ht & Hi & Hle)].
      * left. congruence.
      * right. split; [congruence|]. exists e, t, i. split_and!; (done || lia).
    + destruct (H1 k) as [He1|(He1 & _)]; [|congruence].
      right. split; [done|]. exists e, t, i. split_and!; (done || lia || congruence).
Qed.

Lemma quiet_tick db : quiet db (steady_now db).2.
Proof. split; simpl; [lia|]. auto. Qed.

(** Erasing one expired entry. *)
Lemma quiet_expire db db' key e t i :
  (clock_reads db <= i < clock_reads db')%nat ->
  entries db !! key = Some e -> expires_at e = Some t -> t <= steady_clock_now i ->
  entries db' = delete key (entries db) ->
  quiet db db'.
Proof.
  intros Hi He Ht Hle Hd. split; [lia|]. intros k. rewrite Hd.
  destruct (decide (k = key)) as [->|Hk].
  - right. rewrite lookup_delete_eq. split; [done|]. by exists e, t, i.
  - left. by rewrite lookup_delete_ne.
Qed.

Lemma find_active_quiet key db : quiet db (find_active_entry key db).2.
Proof.
  unfold find_active_entry. destruct (entries db !! key) as [e|] eqn:He; [|done].
  destruct (expires_at e) as [t|] eqn:Ht; [|done]. simpl.
  destruct (Z.leb_spec t (steady_clock_now (clock_reads db))); [|apply quiet_tick].
  apply (quiet_expire _ _ key e t (clock_reads db)); simpl; auto.
Qed.

(** An operation that opens with a lookup and changes nothing after it. *)
Ltac quiet_after_find key db :=
  pose proof (find_active_quiet key db);
  destruct (find_active_entry key db) as [[?|] ?]; cbn [fst snd] in *;
  repeat (case_match; try done); simplify_eq; done.

Lemma get_quiet key db : quiet db (get key db).2.
Proof. unfold get. quiet_after_find key db. Qed.

Lemma get_type_quiet key db : quiet db (get_type key db).2.
Proof. unfold get_type. quiet_after_find key db. Qed.

Lemma list_elements_quiet key start stop db : quiet db (list_elements key start stop db).2.
Proof. unfold list_elements. quiet_after_find key db. Qed.

Lemma get_list_length_quiet key db : quiet db (get_list_length key db).2.
Proof. unfold get_list_length. quiet_after_find key db. Qed.

Lemma stream_range_quiet key start stop db r db' :
  stream_range key start stop db = Some (r, db') -> quiet db db'.
Proof.
  unfold stream_range. pose proof (find_active_quiet key db).
  destruct (find_active_entry key db) as [[e|] db1]; simpl in *; [|by intros [= <- <-]].
  destruct (value e); try by intros [= <- <-].
  by intros (? & _ & [= <- <-])%bind_Some.
Qed.

(** The loop of [keys] reads no clock of its own. *)
Lemma keys_loop_quiet now i ks acc db0 :
  now = steady_clock_now i -> (clock_reads db0 <= i < clock_reads acc.2)%nat ->
  quiet db0 acc.2 -> quiet db0 (fold_left (keys_step now) ks acc).2.
Proof.
  intros Hnow. revert acc. induction ks as [|k ks IH]; intros [res db] Hi Hq; [done|].
  cbn [fold_left]. apply IH; unfold keys_step; cbn [snd] in *.
  - repeat case_match; simpl; lia.
  - destruct (entries db !! k) as [e|] eqn:He; [|done].
    destruct (expires_at e) as [t|] eqn:Ht; [|done].
    destruct (Z.leb_spec t now); [|done]. cbn [snd].
    destruct Hq as [Hc Hq]. split; [done|]. intros k'. simpl.
    destruct (decide (k' = k)) as [->|Hk].
    + right. rewrite lookup_delete_eq. split; [done|].
      destruct (Hq k) as [Hk|[Hk _]]; [|congruence].
      exists e, t, i. split_and!; (congruence || lia).
    + rewrite lookup_delete_ne by done. apply Hq.
Qed.

Lemma keys_quiet db : quiet db (keys db).2.
Proof.
  unfold keys, steady_now. apply (keys_loop_quiet _ (clock_reads db)); simpl; [done|lia|].
  split; simpl; [lia|auto].
Qed.

Lemma resolve_latest_quiet rs db : quiet db (resolve_latest rs db).2.
Proof.
  revert db. induction rs as [|r rs IH]; intros db; [done|]. cbn [resolve_latest].
  pose proof (find_active_quiet (request_key r) db) as Hf.
  destruct (find_active_entry _ db) as [[e|] db1]; cbn [snd] in Hf;
    [destruct (value e); [done|done|]|];
    specialize (IH db1); destruct (resolve_latest rs db1) as [[? ?] ?]; by etrans.
Qed.

Lemma collect_reads_quiet rs db : quiet db (collect_reads rs db).2.
Proof.
  revert db. induction rs as [|r rs IH]; intros db; [done|]. cbn [collect_reads].
  pose proof (find_active_quiet (request_key r) db) as Hf.
  destruct (find_active_entry _ db) as [[e|] db1]; cbn [snd] in Hf; [|by etrans].
  destruct (value e); [done|done|].
  specialize (IH db1). destruct (collect_reads rs db1) as [? ?].
  case_match; by etrans.
Qed.

Lemma read_streams_quiet rs db : quiet db (read_streams rs db).2.
Proof.
  unfold read_streams. pose proof (resolve_latest_quiet rs db) as Hr.
  destruct (resolve_latest rs db) as [[ok rs'] db1]. cbn [snd] in Hr.
  destruct ok; [|done]. pose proof (collect_reads_quiet rs' db1) as Hc.
  destruct (collect_reads rs' db1) as [[?|] ?]; by etrans.
Qed.

Lemma key_revision_quiet key db : quiet db (key_revision key db).2.
Proof.
  unfold key_revision. pose proof (find_active_quiet key db).
  by destruct (find_active_entry key db) as [o db'].
Qed.

(** A write operation that fails is quiet. *)
Lemma add_list_elements_error key vs m db e db' :
  add_list_elements key vs m db = (Unexpected e, db') -> quiet db db'.
Proof.
  unfold add_list_elements. pose proof (find_active_quiet key db).
  destruct (find_active_entry key db) as [[x|] db1]; cbn [snd value] in *; [|done].
  destruct (value x); by intros [= _ <-].
Qed.

Lemma pop_list_element_error key db e db' :
  pop_list_element key db = (Unexpected e, db') -> quiet db db'.
Proof.
  unfold pop_list_element. pose proof (find_active_quiet key db).
  destruct (find_active_entry key db) as [[x|] db1]; cbn [snd] in *; [|by intros [= _ <-]].
  destruct (value x) as [|[]|]; by intros [= _ <-].
Qed.

Lemma pop_list_elements_nothing key n db r db' :
  pop_list_elements key n db = (r, db') -> 0 < n ->
  (exists x xs, r = Expected (x :: xs)) \/ (exists e, r = Unexpected e) /\ quiet db db'.
Proof.
  unfold pop_list_elements. intros Hp Hn. pose proof (find_active_quiet key db).
  destruct (find_active_entry key db) as [[e|] db1]; cbn [snd] in *;
    [|simplify_eq; eauto].
  destruct (value e) as [| [|x l] |]; simplify_eq; eauto.
  destruct (Z.leb_spec n 0); [lia|]. simplify_eq. left.
  destruct (Z.to_nat n) eqn:?; [lia|]. simpl. eauto.
Qed.

Lemma push_stream_error key r vs s d db e db' :
  push_stream key r vs s d db = (Unexpected e, db') -> s <> [] /\ quiet db db'.
Proof.
  unfold push_stream. destruct (new_stream_id_db r (id <$> last s) db) as (n & Hn & Hdb).
  destruct (new_stream_id r _ db) as [i db1]. cbn [snd] in Hdb. subst db1.
  destruct (last s) as [x|] eqn:Hl; simpl; [|done].
  case_match; intros Heq; [|done]. apply (f_equal snd) in Heq. simpl in Heq. subst db'.
  split; [by intros ->|]. split; simpl; [lia|auto].
Qed.

Lemma add_stream_error key r vs db e db' :
  add_stream key r vs db = (Unexpected e, db') -> quiet db db'.
Proof.
  unfold add_stream. pose proof (find_active_quiet key db) as Hf.
  destruct (find_active_entry key db) as [[x|] db1]; cbn [snd value] in *.
  - destruct (value x); [by intros [= _ <-]..|].
    intros [_ Hq]%push_stream_error. by etrans.
  - by intros [? _]%push_stream_error.
Qed.

Lemma increment_key_error key db e db' :
  increment_key key db = Some (Unexpected e, db') -> quiet db db'.
Proof.
  unfold increment_key. pose proof (find_active_quiet key db) as Hf.
  destruct (find_active_entry key db) as [[x|] db1]; cbn [snd] in *; [|done].
  destruct (value x); [|by intros [= _ <-]..].
  destruct (parse_value_to_increment _); [|by intros [= _ <-]].
  by intros (? & _ & [=])%bind_Some.
Qed.

(** ** Every change is reported *)

Definition handler_quiet (h : Database -> Command -> option (Response * Database)) : Prop :=
  forall db c r db', h db c = Some (r, db') -> quiet db db'.

Definition unreported_quiet (name : string)
    (h : Database -> Command -> option (Response * Database)) : Prop :=
  forall db args r db', h db (name :: args) = Some (r, db') ->
    write_modified_database (name :: args) r = false -> quiet db db'.

Ltac run_quiet :=
  match goal with
  | |- context [match ?op with pair _ _ => _ end] =>
      let Hs := fresh "Hs" in
      assert (quiet _ op.2) as Hs by
        eauto using get_quiet, get_type_quiet, keys_quiet, list_elements_quiet,
          get_list_length_quiet;
      destruct op as [? ?]; cbn [snd] in Hs
  end.

Lemma read_handlers_quiet :
  handler_quiet (always get_command) /\ handler_quiet (always keys_command) /\
  handler_quiet (always type_command) /\ handler_quiet (always lrange) /\
  handler_quiet (always llen) /\ handler_quiet (always xread) /\ handler_quiet xrange.
Proof.
  unfold always, get_command, keys_command, type_command, lrange, llen, xread, xrange.
  split_and!; intros db c r db'.
  1-3,5: case_match; [intros [= <- <-]; reflexivity|run_quiet; finish_step].
  - case_match; [intros [= <- <-]; reflexivity|].
    repeat (case_match; [|intros [= <- <-]; reflexivity]). run_quiet. finish_step.
  - destruct (parse_xread c) as [rc|]; [|finish_step].
    pose proof (read_streams_quiet (requests rc) db) as Hs.
    destruct (read_streams _ db) as [[res rs] db1]. simpl in Hs. finish_step.
  - case_match; [intros [= <- <-]; reflexivity|].
    repeat (case_match; try (intros [= <- <-]; reflexivity)).
    intros ([res db1] & Hi%stream_range_quiet & Hb)%bind_Some.
    repeat case_match; by simplify_eq.
Qed.

Lemma set_incr_unreported :
  unreported_quiet "SET" set_command /\ unreported_quiet "INCR" incr_command.
Proof.
  split; intros db args r db'.
  - unfold set_command.
    repeat (case_match; try done); try (intros [= <- <-]; reflexivity);
      intros Hb; repeat apply bind_Some in Hb as (? & ? & Hb); by simplify_eq.
  - unfold incr_command. case_match; [intros [= <- <-]; reflexivity|].
    intros ([[z|e] db1] & Hi & Hb)%bind_Some; [by simplify_eq|].
    apply increment_key_error in Hi. destruct e; by simplify_eq.
Qed.

Lemma push_unreported :
  unreported_quiet "RPUSH" (always rpush) /\ unreported_quiet "LPUSH" (always lpush).
Proof.
  split; intros db args r db'; unfold always, rpush, lpush.
  all: case_match; [intros [= <- <-]; reflexivity|].
  all: destruct (add_list_elements _ _ _ db) as [[n|e] db1] eqn:Ha;
    intros [= <- <-]; [done|]; intros _; by eapply add_list_elements_error.
Qed.

Lemma parse_number_positive text n :
  parse_number_of_elements text = Expected n -> 0 < n.
Proof.
  unfold parse_number_of_elements. case_match eqn:Hc; [done|]. intros [= <-].
  apply orb_false_iff in Hc as [_ Hc]. by apply Z.leb_gt in Hc.
Qed.

Lemma pop_unreported :
  unreported_quiet "LPOP" (always lpop) /\ unreported_quiet "BLPOP" blpop.
Proof.
  split; intros db args r db'; unfold always, lpop, blpop.
  - case_match; [intros [= <- <-]; reflexivity|]. case_match.
    + destruct (pop_list_element _ db) as [[v|e] db1] eqn:Hp.
      { by intros [= <- <-]. }
      apply pop_list_element_error in Hp. destruct e; by intros [= <- <-].
    + destruct (parse_number_of_elements _) as [n|e] eqn:Hn.
      2: { unfold parse_number_of_elements in Hn. case_match; [|done].
           by simplify_eq; intros [= <- <-]. }
      apply parse_number_positive in Hn.
      destruct (pop_list_elements _ n db) as [res db1] eqn:Hp.
      destruct (pop_list_elements_nothing _ _ _ _ _ Hp Hn)
        as [(x & xs & ->)|[(e & ->) Hq]]; [by intros [= <- <-]|].
      destruct e; by intros [= <- <-].
  - intros ([rq|e] & _ & Hb)%bind_Some; [|by simplify_eq].
    destruct (pop_list_element _ db) as [[v|e] db1] eqn:Hp; [by simplify_eq|].
    apply pop_list_element_error in Hp. destruct e; by simplify_eq.
Qed.

Lemma xadd_unreported : unreported_quiet "XADD" xadd.
Proof.
  intros db args r db'. unfold xadd.
  repeat (case_match; try (intros [= <- <-]; reflexivity); try done);
    intros [= <- <-]; try done; intros _; by eapply add_stream_error.
Qed.

Lemma dispatch_unreported_quiet db c r db' :
  dispatch db c = Some (r, db') ->
  is_write_command c && write_modified_database c r = false -> quiet db db'.
Proof.
  unfold dispatch, is_write_command.
  destruct c as [|name args]; [intros [= <- <-]; reflexivity|].
  pose proof read_handlers_quiet as (Hget & Hkeys & Htype & Hlrange & Hllen & Hxread & Hxrange).
  assert (Forall (fun d => if decide (access d = WRITE)
    then unreported_quiet (command_name d) (handler d)
    else handler_quiet (handler d)) command_handlers) as Hall.
  { unfold command_handlers. rewrite !Forall_cons, Forall_nil. cbn [handler].
    split_and!; [| |exact (proj1 set_incr_unreported)|exact Hget|exact Hkeys|exact Htype
      |exact (proj2 set_incr_unreported)|exact (proj1 push_unreported)
      |exact (proj2 push_unreported)|exact Hlrange|exact Hllen
      |exact (proj1 pop_unreported)|exact (proj2 pop_unreported)|exact xadd_unreported
      |exact Hxrange|exact Hxread|done];
      intros ? ? ? ? [= <- <-]; reflexivity. }
  pose proof (find_definition_cases name _ Hall) as Hd.
  destruct (find_command_definition name) as [d|]; [|intros [= <- <-]; reflexivity].
  destruct Hd as [<- Hd]. intros Hh Hm. destruct (decide (access d = WRITE)).
  - rewrite bool_decide_eq_true_2 in Hm by done. by apply (Hd _ _ _ _ Hh).
  - by apply (Hd _ _ _ _ Hh).
Qed.
End Facts.
