(* ===== verification/Replay.v ===== *)
(** * Replaying logged commands

    The append-only file and the replication stream carry the commands that
    changed the data, in the form [normalize_replication_command] gives them.
    On a database without expiries replaying them has the same effect as the
    original execution, whatever the clock reads the second time.  With
    expiries it has not: a deadline is relative to the instant of execution. *)

From stdpp Require Import base option list gmap strings.
From Stdlib Require Import ZArith Lia.
From S2P Require Import Prelude CharConv Environment Resp StreamTypes TimeUtils.
From S2P Require Import Database DatabaseFacts Commands Dispatch DispatchFacts.

(** ** Printed identifiers *)

Lemma find_dash_after s t :
  all_chars is_digit s = true ->
  find_dash (s +:+ String minus_sign t) = Some (String.length s).
Proof.
  unfold find_dash. induction s as [|c s IH]; intros Hs; [by destruct t|].
  simpl in Hs. apply andb_true_iff in Hs as [Hc Hs]. specialize (IH Hs).
  rewrite string_app_cons. cbn [String.index String.length].
  destruct (String.prefix "-" (String c (s +:+ String minus_sign t))) eqn:Hp.
  - cbn [String.prefix] in Hp. by destruct (Ascii.ascii_dec _ c) as [<-|].
  - by rewrite IH.
Qed.

Lemma digits_not_star z : 0 <= z -> to_string z <> "*".
Proof.
  intros Hz Heq. destruct (to_string_nonneg_spec z Hz) as (Hd & _ & _).
  rewrite Heq in Hd. done.
Qed.

Lemma parse_text_to_string n :
  0 <= n <= u64_max -> parse_text_as_number (to_string n) = Some n.
Proof.
  intros Hn. unfold parse_text_as_number.
  rewrite conversion_to_string, from_chars_to_string by done. simpl.
  pose proof (to_string_length_pos n). destruct (to_string n) eqn:?; [simpl in *; lia|].
  simpl. by destruct (Z.ltb_spec n 0); [lia|].
Qed.

(** The parts of a printed identifier around its dash. *)
Lemma id_to_string_parts i :
  id_fits i ->
  find_dash (id_to_string i) = Some (String.length (to_string (milliseconds i))) /\
  String.substring 0 (String.length (to_string (milliseconds i))) (id_to_string i)
    = to_string (milliseconds i) /\
  drop_string (String.length (to_string (milliseconds i)) + 1) (id_to_string i)
    = to_string (sequence i).
Proof.
  intros [Hm _]. unfold id_to_string. split_and!.
  - apply (find_dash_after _ (to_string (sequence i))).
    apply to_string_nonneg_spec. lia.
  - apply substring_app_l.
  - rewrite <- string_app_assoc.
    rewrite <- (drop_string_app (to_string (milliseconds i) +:+ "-") (to_string (sequence i)))
      at 2.
    by rewrite string_length_app.
Qed.

Lemma parse_id_to_string i :
  id_fits i ->
  parse_id (id_to_string i) = Some (mkIdRequest EXPLICIT (milliseconds i) (sequence i)).
Proof.
  intros Hi. destruct (id_to_string_parts i Hi) as (Hd & Hl & Hr). destruct Hi as [Hm Hs].
  unfold parse_id. destruct (String.eqb_spec (id_to_string i) "*") as [Heq|_].
  { rewrite Heq in Hd. discriminate Hd. }
  rewrite Hd. cbn. rewrite Hl, Hr, parse_text_to_string by done. cbn.
  destruct (String.eqb_spec (to_string (sequence i)) "*") as [Heq|_].
  { apply digits_not_star in Heq; [done|lia]. }
  by rewrite parse_text_to_string.
Qed.

Lemma parse_read_id_to_string i : id_fits i -> parse_read_id (id_to_string i) = Some i.
Proof.
  intros Hi. destruct (id_to_string_parts i Hi) as (Hd & Hl & Hr). destruct Hi as [Hm Hs].
  unfold parse_read_id, parse_dashed. rewrite Hd, Hl, Hr, !parse_text_to_string by done.
  by destruct i.
Qed.

Section Replay.
Context `{Clock, HashOrder}.

(** No entry carries an expiry. *)
Definition persistent (db : Database) : Prop :=
  forall k e, entries db !! k = Some e -> expires_at e = None.

(** The commands that create an expiry. *)
Definition sets_expiry (c : Command) : bool :=
  String.eqb (arg c 0) "SET" && (length c =? 5)%nat.

Lemma find_active_persistent key db :
  persistent db -> find_active_entry key db = (entries db !! key, db).
Proof.
  intros Hp. unfold find_active_entry. destruct (entries db !! key) as [e|] eqn:He; [|done].
  by rewrite (Hp key e He).
Qed.

Lemma persistent_same db db2 : persistent db -> entries db2 = entries db -> persistent db2.
Proof. intros Hp Heq k e. rewrite Heq. apply Hp. Qed.

Lemma persistent_insert db db' key e :
  persistent db -> entries db' = <[key := e]> (entries db) -> expires_at e = None ->
  persistent db'.
Proof.
  intros Hp Hdb He k x. rewrite Hdb. destruct (decide (k = key)) as [->|Hk].
  - rewrite lookup_insert_eq. by intros [= <-].
  - rewrite lookup_insert_ne by done. apply Hp.
Qed.

Lemma persistent_delete db key db' :
  persistent db -> entries db' = delete key (entries db) -> persistent db'.
Proof. intros Hp Hd k x. rewrite Hd. intros [_ Hx]%lookup_delete_Some. by apply (Hp k). Qed.

Lemma quiet_persistent db db' : persistent db -> quiet db db' -> entries db' = entries db.
Proof.
  intros Hp [_ Hq]. apply map_eq. intros k.
  destruct (Hq k) as [Hk|(_ & e & t & i & He & Ht & _)]; [done|].
  by rewrite (Hp k e He) in Ht.
Qed.

(** Two databases with the same persistent entries, and an operation on both:
    same result, same entries, still persistent. *)
Definition agree {A} (x y : A * Database) : Prop :=
  x.1 = y.1 /\ entries y.2 = entries x.2 /\ persistent x.2.

Lemma add_list_elements_agree key vs m db db2 :
  persistent db -> entries db2 = entries db ->
  agree (add_list_elements key vs m db) (add_list_elements key vs m db2).
Proof.
  intros Hp Heq. unfold add_list_elements.
  rewrite !find_active_persistent by eauto using persistent_same. rewrite Heq.
  destruct (entries db !! key) as [e|] eqn:He.
  - destruct (value e); split_and!; simpl; try done; [by rewrite ?Heq|].
    eapply persistent_insert; [done|done|]. simpl. by apply (Hp key).
  - simpl. split_and!; simpl; [done|by rewrite ?Heq|].
    by eapply persistent_insert; [done|apply insert_insert_eq|].
Qed.

Lemma store_popped_agree key l db db2 :
  persistent db -> entries db2 = entries db ->
  entries (store_popped key l None db2) = entries (store_popped key l None db) /\
  persistent (store_popped key l None db).
Proof.
  intros Hp Heq. unfold store_popped. destruct l; simpl; rewrite ?Heq; (split; [done|]).
  - by eapply persistent_delete.
  - by eapply persistent_insert.
Qed.

Lemma pop_list_element_agree key db db2 :
  persistent db -> entries db2 = entries db ->
  agree (pop_list_element key db) (pop_list_element key db2).
Proof.
  intros Hp Heq. unfold pop_list_element.
  rewrite !find_active_persistent by eauto using persistent_same. rewrite Heq.
  destruct (entries db !! key) as [e|] eqn:He; [|done].
  destruct (value e) as [|[|x l]|]; try done.
  rewrite (Hp key e He). split; [done|]. by apply store_popped_agree.
Qed.

Lemma pop_list_elements_agree key n db db2 :
  persistent db -> entries db2 = entries db ->
  agree (pop_list_elements key n db) (pop_list_elements key n db2).
Proof.
  intros Hp Heq. unfold pop_list_elements.
  rewrite !find_active_persistent by eauto using persistent_same. rewrite Heq.
  destruct (entries db !! key) as [e|] eqn:He; [|done].
  destruct (value e) as [|[|x l]|]; try done. destruct (n <=? 0); [done|].
  rewrite (Hp key e He). split; [done|]. by apply store_popped_agree.
Qed.

Lemma increment_key_agree key db db2 r db' :
  persistent db -> entries db2 = entries db -> increment_key key db = Some (r, db') ->
  exists db2', increment_key key db2 = Some (r, db2') /\
    entries db2' = entries db' /\ persistent db'.
Proof.
  intros Hp Heq. unfold increment_key.
  rewrite !find_active_persistent by eauto using persistent_same. rewrite Heq.
  destruct (entries db !! key) as [e|] eqn:He.
  - destruct (value e); [|intros [= <- <-]; by eauto..].
    destruct (parse_value_to_increment _) as [z|]; [|intros [= <- <-]; by eauto].
    intros (n & Hn & [= <- <-])%bind_Some. rewrite Hn. simpl.
    eexists. split_and!; [done|done|].
    eapply persistent_insert; [done|done|]. simpl. by apply (Hp key).
  - intros [= <- <-]. eexists. split_and!; [done|done|].
    by eapply persistent_insert.
Qed.

Lemma set_agree key v db db2 db' :
  persistent db -> entries db2 = entries db -> set key v None db = Some db' ->
  exists db2', set key v None db2 = Some db2' /\
    entries db2' = entries db' /\ persistent db'.
Proof.
  intros Hp Heq [= <-]. eexists. split_and!; [done|simpl; by rewrite ?Heq|].
  by eapply persistent_insert.
Qed.

(** ** XADD is replayed with the identifier it was given *)

(** An accepted identifier is never 0-0, so the explicit form is accepted too. *)
Lemma new_stream_id_nonzero `{!PostEpochClock} rq l db :
  (mode rq = EXPLICIT -> mkStreamId (request_milliseconds rq) (request_sequence rq) <> zero_id) ->
  (forall i, l = Some i -> id_fits i) ->
  (forall i, l = Some i -> id_leb (new_stream_id rq l db).1 i = false) ->
  (new_stream_id rq l db).1 <> zero_id.
Proof.
  intros Hexp Hfit Hrej Hz. destruct l as [i|].
  - specialize (Hrej i eq_refl). rewrite Hz in Hrej. destruct (Hfit i eq_refl) as [Hm Hs].
    assert (id_leb zero_id i = true); [|congruence].
    apply id_leb_spec. unfold id_lt. simpl. lia.
  - unfold new_stream_id in Hz. pose proof (post_epoch (clock_reads db)) as Hpost.
    destruct (mode rq) eqn:Hm; simpl in Hz.
    + rewrite wrap_u64_small in Hz by (unfold i64_max, u64_max in *; lia).
      injection Hz. lia.
    + destruct (Z.eqb_spec (request_milliseconds rq) 0); injection Hz; lia.
    + by apply Hexp.
Qed.

Lemma push_stream_replay key rq vs s db db2 i db' :
  entries db2 = entries db ->
  push_stream key rq vs s None db = (Expected i, db') ->
  (exists db2', push_stream key (mkIdRequest EXPLICIT (milliseconds i) (sequence i)) vs s None db2
    = (Expected i, db2') /\ entries db2' = entries db') /\
  entries db' = <[key := mkEntry (StreamValue (s ++ [mkStreamEntry i vs])) None]> (entries db) /\
  i = (new_stream_id rq (id <$> last s) db).1 /\
  (forall l, id <$> last s = Some l -> id_leb i l = false).
Proof.
  intros Heq. unfold push_stream.
  destruct (new_stream_id_db rq (id <$> last s) db) as (n & _ & Hdb).
  destruct (new_stream_id rq _ db) as [j db1]. cbn [snd fst] in *. subst db1.
  case_match eqn:Hrej; [done|]. intros Hres.
  assert (j = i) as -> by (by apply (f_equal fst) in Hres; simplify_eq/=).
  apply (f_equal snd) in Hres. simpl in Hres. subst db'. split_and!.
  - unfold new_stream_id. cbn [mode request_milliseconds request_sequence].
    replace (mkStreamId (milliseconds i) (sequence i)) with i by (by destruct i).
    rewrite Hrej. eexists. split; [done|]. simpl. by rewrite Heq.
  - done.
  - done.
  - intros l Hl. by rewrite Hl in Hrej.
Qed.

(** An XADD on a well-formed persistent database, and its explicit form. *)
Lemma add_stream_replay `{!PostEpochClock} key rq vs db db2 i db' :
  persistent db -> db_wf db -> request_fits rq ->
  (mode rq = EXPLICIT -> mkStreamId (request_milliseconds rq) (request_sequence rq) <> zero_id) ->
  entries db2 = entries db ->
  add_stream key rq vs db = (Expected i, db') ->
  (exists db2', add_stream key (mkIdRequest EXPLICIT (milliseconds i) (sequence i)) vs db2
    = (Expected i, db2') /\ entries db2' = entries db') /\
  persistent db' /\ id_fits i /\ i <> zero_id.
Proof.
  intros Hp Hwf Hrq Hexp Heq. unfold add_stream.
  rewrite !find_active_persistent by eauto using persistent_same. rewrite Heq.
  destruct (entries db !! key) as [e|] eqn:He.
  - destruct (value e) as [| |s] eqn:Hv; [done..|]. rewrite (Hp key e He).
    intros Hpush. destruct (push_stream_replay _ _ _ _ _ db2 _ _ Heq Hpush)
      as ((db2' & H2 & He2) & Hent & Hi & Hrej).
    assert (stream_wf s) as (_ & _ & Hfits)
      by (destruct (Hwf key e He) as [Hs _]; by rewrite Hv in Hs).
    assert (forall j, id <$> last s = Some j -> id_fits j) as Hlast.
    { intros j (x & Hx & ->)%fmap_Some. rewrite Forall_forall in Hfits.
      apply Hfits. by apply last_Some_elem_of. }
    split_and!; [eauto| | |].
    + by eapply persistent_insert.
    + rewrite Hi. by apply new_stream_id_fits.
    + rewrite Hi. apply new_stream_id_nonzero; [done..|]. by rewrite <- Hi.
  - simpl. intros Hpush.
    set (dbe := set_entries (<[key := mkEntry (StreamValue []) None]> (entries db)) db) in *.
    set (dbe2 := set_entries (<[key := mkEntry (StreamValue []) None]> (entries db)) db2).
    destruct (push_stream_replay _ _ _ _ dbe dbe2 _ _ eq_refl Hpush)
      as ((db2' & H2 & He2) & Hent & Hi & Hrej).
    split_and!; [eauto| | |].
    + eapply persistent_insert; [apply Hp|rewrite Hent; apply insert_insert_eq|done].
    + rewrite Hi. by apply new_stream_id_fits.
    + rewrite Hi. apply new_stream_id_nonzero; [done..|]. by rewrite <- Hi.
Qed.

(** ** Commands *)

(** Command [c] on [db2] succeeds and leaves the entries of [db']. *)
Definition replayed (db2 : Database) (c : Command) (db' : Database) : Prop :=
  exists r2 db2', dispatch db2 c = Some (r2, db2') /\ response_is_error r2 = false /\
    entries db2' = entries db'.

(** Command [c] gave [r] and led from [db] to [db']; its logged form has the
    same effect on every database with the entries of [db]. *)
Definition replays (db : Database) (c : Command) (r : Response) (db' : Database) : Prop :=
  persistent db' /\
  forall db2, entries db2 = entries db ->
    replayed db2 (normalize_replication_command c r) db'.

Definition replayable (name : string) : Prop :=
  forall db args r db',
    persistent db -> db_wf db -> sets_expiry (name :: args) = false ->
    dispatch db (name :: args) = Some (r, db') ->
    write_modified_database (name :: args) r = true ->
    replays db (name :: args) r db'.

Lemma set_replayable : replayable "SET".
Proof.
  intros db args r db' Hp _ Hexp Hd Hm.
  change (set_command db ("SET" :: args) = Some (r, db')) in Hd.
  unfold set_command in Hd. unfold sets_expiry in Hexp.
  change (String.eqb (arg ("SET" :: args) 0) "SET") with true in Hexp.
  cbn [andb] in Hexp. rewrite Hexp in Hd.
  destruct (length ("SET" :: args) =? 3)%nat eqn:Hl; [|by simplify_eq].
  apply bind_Some in Hd as (db1 & Hset & Hres). simplify_eq.
  split; [by edestruct set_agree as (? & _ & _ & ?)|].
  intros db2 Heq. destruct (set_agree _ _ db db2 _ Hp Heq Hset) as (db2' & H2 & He2 & _).
  exists (SimpleString "OK"), db2'. split_and!; [|done|done].
  change (set_command db2 ("SET" :: args) = Some (SimpleString "OK", db2')).
  unfold set_command. by rewrite Hl, H2.
Qed.

Lemma incr_replayable : replayable "INCR".
Proof.
  intros db args r db' Hp _ _ Hd Hm.
  change (incr_command db ("INCR" :: args) = Some (r, db')) in Hd.
  unfold incr_command in Hd. case_match eqn:Hl; [by simplify_eq|].
  apply bind_Some in Hd as ([[z|e] db1] & Hi & Hb); [|by destruct e; simplify_eq].
  simplify_eq. split; [by edestruct increment_key_agree as (? & _ & _ & ?)|].
  intros db2 Heq. destruct (increment_key_agree _ db db2 _ _ Hp Heq Hi) as (db2' & H2 & He2 & _).
  exists (Integer z), db2'. split_and!; [|done|done].
  change (incr_command db2 ("INCR" :: args) = Some (Integer z, db2')).
  unfold incr_command. by rewrite Hl, H2.
Qed.

(** RPUSH and LPUSH differ in their name, usage and mode. *)
Lemma push_replayable name usage m :
  (forall db args, dispatch db (name :: args) = Some
    (if (length (name :: args) <? 3)%nat then (SimpleError usage, db) else
     let '(size, db) := add_list_elements (arg (name :: args) 1) (drop 2 (name :: args)) m db in
     match size with
     | Unexpected _ => (wrong_type_error, db)
     | Expected n => (Integer (Z.of_nat n), db)
     end)) ->
  (forall args r, normalize_replication_command (name :: args) r = name :: args) ->
  replayable name.
Proof.
  intros Hdisp Hnorm db args r db' Hp _ _ Hd Hm. rewrite Hdisp in Hd.
  destruct (length (name :: args) <? 3)%nat eqn:Hl; [by simplify_eq|].
  split; [|intros db2 Heq].
  - destruct (add_list_elements_agree (arg (name :: args) 1) (drop 2 (name :: args)) m db db
      Hp eq_refl) as (_ & _ & Hp').
    destruct (add_list_elements _ _ m db) as [[n|e] db1]; by simplify_eq.
  - destruct (add_list_elements_agree (arg (name :: args) 1) (drop 2 (name :: args)) m db db2
      Hp Heq) as (Hr & He & _).
    rewrite Hnorm. unfold replayed. rewrite Hdisp, Hl.
    destruct (add_list_elements _ _ m db) as [[n|e] db1]; [|by simplify_eq].
    destruct (add_list_elements _ _ m db2) as [res db2'].
    simpl in Hr, He. subst res. simplify_eq. by eexists _, _.
Qed.

Lemma rpush_replayable : replayable "RPUSH".
Proof. by eapply (push_replayable _ _ APPEND). Qed.

Lemma lpush_replayable : replayable "LPUSH".
Proof. by eapply (push_replayable _ _ PREPEND). Qed.

Lemma lpop_replayable : replayable "LPOP".
Proof.
  intros db args r db' Hp _ _ Hd Hm.
  change (Some (lpop db ("LPOP" :: args)) = Some (r, db')) in Hd.
  split.
  - unfold lpop in Hd. case_match; [by simplify_eq|]. case_match.
    + destruct (pop_list_element_agree (arg ("LPOP" :: args) 1) db db Hp eq_refl)
        as (_ & _ & Hp').
      destruct (pop_list_element _ db) as [[v|[]] db1]; by simplify_eq.
    + destruct (parse_number_of_elements _) as [n|e]; [|by simplify_eq].
      destruct (pop_list_elements_agree (arg ("LPOP" :: args) 1) n db db Hp eq_refl)
        as (_ & _ & Hp').
      destruct (pop_list_elements _ n db) as [[v|[]] db1]; by simplify_eq.
  - intros db2 Heq.
    enough (exists db2', lpop db2 ("LPOP" :: args) = (r, db2') /\ entries db2' = entries db')
      as (db2' & H2 & He2).
    { exists r, db2'. split_and!; [|by destruct r|done].
      change (Some (lpop db2 ("LPOP" :: args)) = Some (r, db2')). by rewrite H2. }
    injection Hd as Hd. unfold lpop in *. case_match; [simplify_eq; eauto|]. case_match.
    + destruct (pop_list_element_agree (arg ("LPOP" :: args) 1) db db2 Hp Heq) as (Hr & He & _).
      destruct (pop_list_element _ db) as [[v|e] db1], (pop_list_element _ db2) as [res db2'];
        simpl in Hr, He; subst res; [|destruct e]; simplify_eq; eauto.
    + destruct (parse_number_of_elements _) as [n|e]; [|simplify_eq; eauto].
      destruct (pop_list_elements_agree (arg ("LPOP" :: args) 1) n db db2 Hp Heq)
        as (Hr & He & _).
      destruct (pop_list_elements _ n db) as [[v|e] db1], (pop_list_elements _ n db2) as [res db2'];
        simpl in Hr, He; subst res; [|destruct e]; simplify_eq; eauto.
Qed.

Lemma parse_blpop_error c e :
  parse_blpop c = Some (Unexpected e) -> response_is_error e = true.
Proof.
  unfold parse_blpop. case_match; [by intros [= <-]|]. case_match; [|by intros [= <-]].
  by intros (? & _ & [=])%bind_Some.
Qed.

(** BLPOP is logged as the LPOP of the key it served. *)
Lemma blpop_replayable : replayable "BLPOP".
Proof.
  intros db args r db' Hp _ _ Hd Hm.
  change (blpop db ("BLPOP" :: args) = Some (r, db')) in Hd. unfold blpop in Hd.
  apply bind_Some in Hd as ([rq|e] & Hrq & Hb).
  2: { apply parse_blpop_error in Hrq. simplify_eq. unfold write_modified_database in Hm.
       by rewrite Hrq in Hm. }
  assert (pop_key rq = arg ("BLPOP" :: args) 1) as Hkey.
  { clear Hb. unfold parse_blpop in Hrq. case_match; [by simplify_eq|].
    case_match; [|by simplify_eq]. apply bind_Some in Hrq as (? & _ & Hrq). by simplify_eq. }
  destruct (pop_list_element_agree (pop_key rq) db db Hp eq_refl) as (_ & _ & Hp').
  pose proof (fun db2 => pop_list_element_agree (pop_key rq) db db2 Hp) as Hag.
  destruct (pop_list_element _ db) as [[v|e] db1]; [|by destruct e; simplify_eq].
  simplify_eq. split; [done|]. intros db2 Heq.
  destruct (Hag db2 Heq) as (Hr & He & _). rewrite Hkey in Hr, He.
  destruct (pop_list_element _ db2) as [res db2'] eqn:H2. simpl in Hr, He. subst res.
  exists (BulkString v), db2'. split_and!; [|done|done].
  change (Some (lpop db2 ["LPOP"; arg ("BLPOP" :: args) 1]) = Some (BulkString v, db2')).
  unfold lpop. cbn [length Nat.eqb negb andb]. change (arg ["LPOP"; ?x] 1) with x.
  by rewrite H2.
Qed.

Lemma xadd_replayable `{!PostEpochClock} : replayable "XADD".
Proof.
  intros db args r db' Hp Hwf _ Hd Hm.
  change (xadd db ("XADD" :: args) = Some (r, db')) in Hd. unfold xadd in Hd.
  destruct (length ("XADD" :: args) <? 5)%nat eqn:Hlen; [by simplify_eq|].
  destruct args as [|key [|idt rest]]; [done..|]. cbn [nth skipn] in Hd. rewrite drop_0 in Hd.
  destruct (parse_id idt) as [rq|] eqn:Hid; [|by simplify_eq]. apply parse_id_fits in Hid.
  destruct (bool_decide (mode rq = EXPLICIT) && _ && _) eqn:Hzero; [by simplify_eq|].
  destruct (parse_value_list rest) as [vs|] eqn:Hvs; [|by simplify_eq].
  destruct (add_stream key rq vs db) as [[i|e] db1] eqn:Ha; [|by destruct e; simplify_eq].
  simplify_eq.
  assert (mode rq = EXPLICIT ->
    mkStreamId (request_milliseconds rq) (request_sequence rq) <> zero_id) as Hnz.
  { intros He [= Hms Hsq]. by rewrite bool_decide_eq_true_2, Hms, Hsq in Hzero. }
  destruct (add_stream_replay key rq vs db db i db' Hp Hwf Hid Hnz eq_refl Ha)
    as (_ & Hp' & Hfit & Hi0).
  split; [done|]. intros db2 Heq.
  destruct (add_stream_replay key rq vs db db2 i db' Hp Hwf Hid Hnz Heq Ha)
    as ((db2' & H2 & He2) & _).
  exists (BulkString (id_to_string i)), db2'. split_and!; [|done|done].
  change (xadd db2 ("XADD" :: key :: id_to_string i :: rest)
    = Some (BulkString (id_to_string i), db2')).
  unfold xadd.
  change (length ("XADD" :: key :: id_to_string i :: rest))
    with (length ("XADD" :: key :: idt :: rest)).
  rewrite Hlen. cbn [nth skipn]. rewrite drop_0, parse_id_to_string by done.
  cbn [mode request_milliseconds request_sequence]. rewrite bool_decide_eq_true_2 by done.
  replace (true && (milliseconds i =? 0) && (sequence i =? 0)) with false.
  { by rewrite Hvs, H2. }
  symmetry. destruct i as [m s]. simpl.
  destruct (Z.eqb_spec m 0) as [->|], (Z.eqb_spec s 0) as [->|]; done.
Qed.

(** ** Sequences of commands *)

(** Every command that changed the data replays. *)
Lemma dispatch_replays `{!PostEpochClock} db c r db' :
  persistent db -> db_wf db -> sets_expiry c = false ->
  dispatch db c = Some (r, db') ->
  is_write_command c && write_modified_database c r = true -> replays db c r db'.
Proof.
  intros Hp Hwf Hexp Hd [Hw Hm]%andb_true_iff. destruct c as [|name args]; [done|].
  rewrite is_write_names in Hw. apply bool_decide_eq_true in Hw.
  unfold write_names in Hw. rewrite !elem_of_cons, elem_of_nil in Hw.
  destruct_or! Hw; subst name.
  - by apply set_replayable.
  - by apply incr_replayable.
  - by apply rpush_replayable.
  - by apply lpush_replayable.
  - by apply lpop_replayable.
  - by apply blpop_replayable.
  - by apply xadd_replayable.
Qed.

(** Commands dispatched one after the other. *)
Fixpoint dispatch_all (db : Database) (cs : list Command) : option (list Response * Database) :=
  match cs with
  | [] => Some ([], db)
  | c :: cs' =>
      '(r, db) ← dispatch db c;
      '(rs, db) ← dispatch_all db cs';
      Some (r :: rs, db)
  end.

(** What the log gains from a command and its response. *)
Definition logged (c : Command) (r : Response) : list Command :=
  if is_write_command c && write_modified_database c r
  then [normalize_replication_command c r] else [].

Definition log_of (cs : list Command) (rs : list Response) : list Command :=
  concat (zip_with logged cs rs).

Lemma dispatch_all_replay `{!PostEpochClock} cs db rs db' db2 :
  persistent db -> db_wf db -> Forall (fun c => sets_expiry c = false) cs ->
  dispatch_all db cs = Some (rs, db') -> entries db2 = entries db ->
  exists rs2 db2', dispatch_all db2 (log_of cs rs) = Some (rs2, db2') /\
    Forall (fun r => response_is_error r = false) rs2 /\ entries db2' = entries db' /\
    persistent db' /\ db_wf db'.
Proof.
  revert db rs db2. induction cs as [|c cs IH]; intros db rs db2 Hp Hwf Hexp Hrun Heq.
  { simpl in *. simplify_eq. by exists [], db2. }
  apply Forall_cons in Hexp as [Hc Hcs]. simpl in Hrun.
  apply bind_Some in Hrun as ([r db1] & Hd & Hrun).
  apply bind_Some in Hrun as ([rs' dbx] & Hall & Hrun). simplify_eq.
  assert (db_wf db1) as Hwf1 by (eapply dispatch_step; eauto).
  unfold log_of. cbn [zip_with concat]. unfold logged at 1.
  destruct (is_write_command c && write_modified_database c r) eqn:Hlog.
  - destruct (dispatch_replays db c r db1 Hp Hwf Hc Hd Hlog) as [Hp1 Hrep].
    destruct (Hrep db2 Heq) as (r2 & db2' & H2 & Hr2 & He2).
    destruct (IH db1 rs' db2' Hp1 Hwf1 Hcs Hall He2) as (rs2 & db2'' & Hall2 & Hok & ? & ? & ?).
    exists (r2 :: rs2), db2''. split_and!; [|by constructor|done..].
    simpl. unfold log_of in Hall2. by rewrite H2; simpl; rewrite Hall2.
  - assert (entries db1 = entries db) as He1
      by (apply quiet_persistent; [done|]; by eapply dispatch_unreported_quiet).
    apply (IH db1 rs' db2); [|done..|congruence]. by eapply persistent_same.
Qed.
End Replay.

(** ** Properties *)

Section Properties.
Context `{Clock, HashOrder}.

(** The log misses nothing.  A command that is not logged, because it is
    not a write or because [write_modified_database] says that its response
    shows no change, left every entry as it was, except that entries whose
    deadline had passed at one of its clock readings may be gone. *)
Theorem unlogged_command_is_quiet (db db' : Database) (c : Command) (r : Response) :
  dispatch db c = Some (r, db') -> logged c r = [] -> quiet db db'.
Proof.
  intros Hd Hlog. eapply dispatch_unreported_quiet; [done|]. unfold logged in Hlog.
  by destruct (is_write_command c && write_modified_database c r).
Qed.

(** C10: replaying the log rebuilds the data.  Commands that set no expiry, run
    in sequence on a well-formed database without expiries, lead to entries
    that the logged commands, in their normalized form, rebuild exactly on any
    database with the same initial entries, whatever its revisions and whatever
    the clocks read during the replay, and without a single error response:
    generated stream identifiers come back as they were, and a served BLPOP
    pops once. *)
Theorem log_replay `{!PostEpochClock} (cs : list Command) (rs : list Response)
    (db db' db2 : Database) :
  persistent db -> db_wf db -> Forall (fun c => sets_expiry c = false) cs ->
  dispatch_all db cs = Some (rs, db') -> entries db2 = entries db ->
  exists rs2 db2', dispatch_all db2 (log_of cs rs) = Some (rs2, db2') /\
    Forall (fun r => response_is_error r = false) rs2 /\ entries db2' = entries db'.
Proof.
  intros Hp Hwf Hexp Hrun Heq.
  destruct (dispatch_all_replay cs db rs db' db2 Hp Hwf Hexp Hrun Heq)
    as (rs2 & db2' & ? & ? & ? & _). eauto.
Qed.
End Properties.

(** *** With an expiry *)

Section Expiry.
Context `{Clock, HashOrder}.

(** A SET with an expiry and, later, an RPUSH to the same key. *)
Definition list_after_expiry (key v text e : string) (es : list string) : list Command :=
  [["SET"; key; v; "PX"; text]; "RPUSH" :: key :: e :: es].

(** The state after the SET. *)
Definition after_set (key v : string) (deadline : Z) (db : Database) : Database :=
  mark_key_modified key
    (set_entries (<[key := mkEntry (StringValue v) (Some deadline)]> (entries db))
       (steady_now db).2).

Lemma dispatch_set_px db key v text ms :
  positive_number text ms -> 0 <= now_of db -> now_of db + ms * 1000000 <= i64_max ->
  dispatch db ["SET"; key; v; "PX"; text]
  = Some (SimpleString "OK", after_set key v (now_of db + ms * 1000000) db).
Proof.
  intros Hms Hlo Hhi.
  change (dispatch db ["SET"; key; v; "PX"; text])
    with (set_command db ["SET"; key; v; "PX"; text]).
  unfold set_command. cbn [length Nat.eqb nth].
  rewrite (proj2 (parse_expiry_spec text ms) Hms). destruct Hms as [_ Hms].
  cbn [String.eqb Ascii.eqb Bool.eqb]. unfold set. cbn [steady_now mbind option_bind].
  fold (now_of db). assert (deadline_after (now_of db) ms = Some (now_of db + ms * 1000000)) as ->.
  { apply deadline_after_Some. unfold i64_min, i64_max in *. lia. }
  done.
Qed.

(** RPUSH finds the string of the SET expired or alive, by the clock. *)
Lemma dispatch_rpush_after_set db key v e es deadline :
  let db1 := after_set key v deadline db in
  exists db2,
    dispatch db1 ("RPUSH" :: key :: e :: es) =
      Some (if deadline <=? now_of db1 then Integer (Z.of_nat (S (length es)))
            else wrong_type_error, db2) /\
    entries db2 =
      <[key := if deadline <=? now_of db1 then mkEntry (ListValue (e :: es)) None
               else mkEntry (StringValue v) (Some deadline)]> (entries db).
Proof.
  cbn zeta. set (db1 := after_set key v deadline db).
  change (dispatch db1 ("RPUSH" :: key :: e :: es))
    with (Some (rpush db1 ("RPUSH" :: key :: e :: es))).
  unfold rpush, add_list_elements. cbn [length nth drop].
  assert (entries db1 !! key = Some (mkEntry (StringValue v) (Some deadline))) as Hk
    by apply lookup_insert_eq.
  unfold find_active_entry. rewrite Hk. cbn [expires_at steady_now]. fold (now_of db1).
  destruct (deadline <=? now_of db1); eexists; (split; [reflexivity|]); simpl.
  - by rewrite insert_insert_eq, insert_delete_eq, insert_insert_eq.
  - done.
Qed.
End Expiry.

(** C39: with an expiry the log does not rebuild the data.  Take any SET with an
    expiry in milliseconds and a later RPUSH to the same key, on any databases
    and clock readings with deadlines in range.  When the original run finds the
    string expired, both commands succeed, the key is a list and the log carries
    them as they are; a replay whose RPUSH comes before its own deadline answers
    it with an error, on which the start of the server fails, and ends with the
    key holding the string. *)
Theorem expiry_breaks_replay `{Clock, HashOrder} (key v text e : string) (es : list string)
    (ms : Z) (db db2 : Database) :
  positive_number text ms ->
  0 <= now_of db -> now_of db + ms * 1000000 <= i64_max ->
  0 <= now_of db2 -> now_of db2 + ms * 1000000 <= i64_max ->
  now_of db + ms * 1000000 <= steady_clock_now (S (clock_reads db)) ->
  steady_clock_now (S (clock_reads db2)) < now_of db2 + ms * 1000000 ->
  let cs := list_after_expiry key v text e es in
  let rs := [SimpleString "OK"; Integer (Z.of_nat (S (length es)))] in
  (exists db', dispatch_all db cs = Some (rs, db') /\
     entries db' = <[key := mkEntry (ListValue (e :: es)) None]> (entries db)) /\
  log_of cs rs = cs /\
  (exists db2', dispatch_all db2 (log_of cs rs)
       = Some ([SimpleString "OK"; wrong_type_error], db2') /\
     value <$> entries db2' !! key = Some (StringValue v)).
Proof.
  intros Hms Hlo Hhi Hlo2 Hhi2 Hgone Halive cs rs.
  assert (log_of cs rs = cs) as Hlog by done. rewrite Hlog. split_and!; [|done|].
  - destruct (dispatch_rpush_after_set db key v e es (now_of db + ms * 1000000))
      as (db' & Hpush & Hent).
    change (now_of (after_set key v (now_of db + ms * 1000000) db))
      with (steady_clock_now (S (clock_reads db))) in Hpush, Hent.
    rewrite (proj2 (Z.leb_le _ _) Hgone) in Hpush, Hent.
    exists db'. split; [|done]. unfold cs, list_after_expiry. cbn [dispatch_all].
    rewrite (dispatch_set_px db key v text ms) by done. cbn [mbind option_bind].
    by rewrite Hpush.
  - destruct (dispatch_rpush_after_set db2 key v e es (now_of db2 + ms * 1000000))
      as (db' & Hpush & Hent).
    change (now_of (after_set key v (now_of db2 + ms * 1000000) db2))
      with (steady_clock_now (S (clock_reads db2))) in Hpush, Hent.
    rewrite (proj2 (Z.leb_gt _ _) Halive) in Hpush, Hent.
    exists db'. split; [|by rewrite Hent, lookup_insert_eq].
    unfold cs, list_after_expiry. cbn [dispatch_all].
    rewrite (dispatch_set_px db2 key v text ms) by done. cbn [mbind option_bind].
    by rewrite Hpush.
Qed.

(** A steady clock that is past one second at its third reading and stands
    still from then on. *)
Definition slow_then_fast : Clock := {|
  steady_clock_now i := if (i <? 1)%nat then 1000000000 else 2000000000;
  system_clock_ms i := 1700000000000;
|}.

(** ** Witnesses *)

Lemma unlogged_command_is_quiet_witness :
  exists r db', @dispatch millisecond_clock insertion_order empty_database ["LPOP"; "k"]
    = Some (r, db') /\ @quiet millisecond_clock empty_database db'.
Proof.
  do 2 eexists. split; [vm_compute; reflexivity|].
  eapply (@unlogged_command_is_quiet millisecond_clock insertion_order _ _ ["LPOP"; "k"]
    NullBulkString); vm_compute; reflexivity.
Defined.

Lemma log_replay_witness :
  exists rs db' rs2 db2',
    @dispatch_all millisecond_clock insertion_order empty_database
      [["XADD"; "s"; "*"; "f"; "v"]; ["INCR"; "n"]; ["RPUSH"; "l"; "a"]; ["BLPOP"; "l"; "0"]]
      = Some (rs, db') /\
    @dispatch_all millisecond_clock insertion_order empty_database
      (@log_of millisecond_clock insertion_order
        [["XADD"; "s"; "*"; "f"; "v"]; ["INCR"; "n"]; ["RPUSH"; "l"; "a"]; ["BLPOP"; "l"; "0"]] rs)
      = Some (rs2, db2') /\ entries db2' = entries db'.
Proof.
  destruct (@dispatch_all millisecond_clock insertion_order empty_database
    [["XADD"; "s"; "*"; "f"; "v"]; ["INCR"; "n"]; ["RPUSH"; "l"; "a"]; ["BLPOP"; "l"; "0"]])
    as [[rs db']|] eqn:Hrun; [|vm_compute in Hrun; discriminate].
  destruct (@log_replay millisecond_clock insertion_order millisecond_clock_post_epoch
    [["XADD"; "s"; "*"; "f"; "v"]; ["INCR"; "n"]; ["RPUSH"; "l"; "a"]; ["BLPOP"; "l"; "0"]]
    rs empty_database db' empty_database) as (rs2 & db2' & H2 & _ & He).
  - intros k e He. done.
  - apply empty_database_wf.
  - repeat constructor.
  - exact Hrun.
  - reflexivity.
  - exists rs, db', rs2, db2'. split_and!; [reflexivity|exact H2|exact He].
Defined.

(** A millisecond passes before the RPUSH of the original run, none before the
    one of the replay. *)
Lemma expiry_breaks_replay_witness :
  let cs := list_after_expiry "k" "v" "1" "a" [] in
  let rs := [SimpleString "OK"; Integer 1] in
  (exists db', @dispatch_all slow_then_fast insertion_order empty_database cs = Some (rs, db') /\
     entries db' = {[ "k" := mkEntry (ListValue ["a"]) None ]}) /\
  @log_of slow_then_fast insertion_order cs rs = cs /\
  exists db2', @dispatch_all slow_then_fast insertion_order (mkDatabase ∅ ∅ 1 2) cs
     = Some ([SimpleString "OK"; wrong_type_error], db2') /\
  value <$> entries db2' !! "k" = Some (StringValue "v").
Proof.
  apply (@expiry_breaks_replay slow_then_fast insertion_order "k" "v" "1" "a" [] 1
           empty_database (mkDatabase ∅ ∅ 1 2)); try (vm_compute; done).
  by apply parse_expiry_spec.
Defined.
