(* ===== verification/Config.v ===== *)
(** * Configuration (src/server_config.hpp, src/server_config.cpp)

    The configuration records and the command-line parser.  The filesystem
    queries and the SHA-256 of the password (OpenSSL) are parameters. *)

From stdpp Require Import base option list strings.
From Stdlib Require Import ZArith Lia.
From S2P Require Import Prelude CharConv Environment.

Record ReplicaConfig := mkReplicaConfig {
  host : string;
  replica_port : Z;
}.

Record RDBConfig := mkRDBConfig {
  dir : string;
  db_filename : string;
}.

Record AOFConfig := mkAOFConfig {
  enabled : bool;
  append_dirname : string;
  append_filename : string;
  append_fsync : string;
}.

Record ServerConfig := mkServerConfig {
  port : Z;
  replica_of : option ReplicaConfig;
  default_user_password_hash : option string;
  rdb_config : RDBConfig;
  aof_config : AOFConfig;
}.

Definition default_rdb_config : RDBConfig := mkRDBConfig "." "dump.rdb".
Definition default_aof_config : AOFConfig :=
  mkAOFConfig false "appendonlydir" "appendonly.aof" "everysec".
Definition default_config : ServerConfig :=
  mkServerConfig 6379 None None default_rdb_config default_aof_config.

(** ** Parameters *)

(** [crypto_utils::sha256]: the digest in hexadecimal, or the error text. *)
Class Crypto := { sha256 : string -> expected string string }.

(** [current_path] and [is_directory(status(path))]; the error is the text of
    the [error_code]. *)
Class DirectoryInfo := {
  current_path : expected string string;
  path_status : string -> expected bool string;
}.

(** ** Paths: [std::filesystem::path] on POSIX *)

Definition slash : Ascii.ascii := Ascii.ascii_of_nat 47.
Definition dquote : Ascii.ascii := Ascii.ascii_of_nat 34.

Definition is_absolute (path : string) : bool :=
  match front path with Some c => Ascii.eqb c slash | None => false end.

(** A path has a parent when it has a directory separator. *)
Definition has_parent_path (path : string) : bool :=
  negb (all_chars (fun c => negb (Ascii.eqb c slash)) path).

(** The parts of a string between occurrences of a separator. *)
Fixpoint split_on (sep : Ascii.ascii) (s : string) : list string :=
  match s with
  | EmptyString => [EmptyString]
  | String c s' =>
      if Ascii.eqb c sep then EmptyString :: split_on sep s' else
      match split_on sep s' with
      | part :: parts => String c part :: parts
      | [] => [String c EmptyString]
      end
  end.

(** The components of a relative path; empty ones name no directory. *)
Definition path_components (path : string) : list string := split_on slash path.

(** ** Parsers *)

Definition parse_port_number (arg : string) : expected Z string :=
  let r := from_chars 0 u16_max arg 0 in
  if String.eqb arg EmptyString || conversion_failed r arg || (fc_value r =? 0)
  then Unexpected "Invalid port number" else Expected (fc_value r).

(** [arg.find(' ')] *)
Definition find_space (arg : string) : option nat := String.index 0 " " arg.

Definition parse_replica_config (arg : string) : expected ReplicaConfig string :=
  match find_space arg with
  | None => Unexpected ("Expected --replicaof " +:+ String dquote "<host> <port>" +:+
                          String dquote EmptyString)
  | Some separator =>
      let host := String.substring 0 separator arg in
      let port_text := drop_string (separator + 1) arg in
      if String.eqb host EmptyString || String.eqb port_text EmptyString
      then Unexpected "Invalid --replicaof value" else
      match parse_port_number port_text with
      | Unexpected _ => Unexpected "Invalid replica port"
      | Expected p => Expected (mkReplicaConfig host p)
      end
  end.

Definition is_valid_database_filename (filename : string) : bool :=
  negb (String.eqb filename EmptyString) && negb (has_parent_path filename) &&
  negb (String.eqb filename ".") && negb (String.eqb filename "..").

Definition is_valid_append_directory (directory : string) : bool :=
  negb (String.eqb directory EmptyString) &&
  negb (is_absolute directory || String.eqb directory "." || String.eqb directory "..") &&
  forallb (fun component => negb (String.eqb component "..")) (path_components directory).

Section Arguments.
Context `{Crypto, DirectoryInfo}.

Definition validate_directory (path : string) : expected unit string :=
  if String.eqb path EmptyString then Unexpected "RDB directory cannot be empty" else
  match path_status path with
  | Unexpected message =>
      Unexpected ("Cannot access RDB directory '" +:+ path +:+ "': " +:+ message)
  | Expected false => Unexpected ("RDB path '" +:+ path +:+ "' is not a directory")
  | Expected true => Expected tt
  end.

Definition set_rdb_config (r : RDBConfig) (c : ServerConfig) : ServerConfig :=
  mkServerConfig (port c) (replica_of c) (default_user_password_hash c) r (aof_config c).
Definition set_aof_config (a : AOFConfig) (c : ServerConfig) : ServerConfig :=
  mkServerConfig (port c) (replica_of c) (default_user_password_hash c) (rdb_config c) a.

(** The body of the loop for one option and its value; [None] when the option
    is not known. *)
Definition apply_option (name value : string) (config : ServerConfig)
    : option (expected ServerConfig string) :=
  let rdb := rdb_config config in
  let aof := aof_config config in
  if String.eqb name "--port" then Some
    match parse_port_number value with
    | Unexpected e => Unexpected e
    | Expected p => Expected (mkServerConfig p (replica_of config)
        (default_user_password_hash config) rdb aof)
    end
  else if String.eqb name "--replicaof" then Some
    match parse_replica_config value with
    | Unexpected e => Unexpected e
    | Expected r => Expected (mkServerConfig (port config) (Some r)
        (default_user_password_hash config) rdb aof)
    end
  else if String.eqb name "--requirepass" then Some
    match sha256 value with
    | Unexpected e => Unexpected e
    | Expected h => Expected (mkServerConfig (port config) (replica_of config) (Some h) rdb aof)
    end
  else if String.eqb name "--dir" then Some
    match validate_directory value with
    | Unexpected e => Unexpected e
    | Expected _ => Expected (set_rdb_config (mkRDBConfig value (db_filename rdb)) config)
    end
  else if String.eqb name "--dbfilename" then Some
    (if negb (is_valid_database_filename value)
     then Unexpected "RDB filename must be a filename without a directory path"
     else Expected (set_rdb_config (mkRDBConfig (dir rdb) value) config))
  else if String.eqb name "--appendonly" then Some
    (if negb (String.eqb value "yes") && negb (String.eqb value "no")
     then Unexpected "--appendonly must be either 'yes' or 'no'"
     else Expected (set_aof_config (mkAOFConfig (String.eqb value "yes") (append_dirname aof)
                      (append_filename aof) (append_fsync aof)) config))
  else if String.eqb name "--appenddirname" then Some
    (if negb (is_valid_append_directory value)
     then Unexpected "AOF directory must be a relative path inside the data directory"
     else Expected (set_aof_config (mkAOFConfig (enabled aof) value
                      (append_filename aof) (append_fsync aof)) config))
  else if String.eqb name "--appendfilename" then Some
    (if negb (is_valid_database_filename value)
     then Unexpected "AOF filename must be a filename without a directory path"
     else Expected (set_aof_config (mkAOFConfig (enabled aof) (append_dirname aof)
                      value (append_fsync aof)) config))
  else if String.eqb name "--appendfsync" then Some
    (if negb (String.eqb value "always") && negb (String.eqb value "everysec") &&
        negb (String.eqb value "no")
     then Unexpected "--appendfsync must be 'always', 'everysec', or 'no'"
     else Expected (set_aof_config (mkAOFConfig (enabled aof) (append_dirname aof)
                      (append_filename aof) value) config))
  else None.

(** Options that take a value. *)
Definition known_option (name : string) : bool :=
  existsb (String.eqb name)
    ["--port"; "--replicaof"; "--requirepass"; "--dir"; "--dbfilename"; "--appendonly";
     "--appenddirname"; "--appendfilename"; "--appendfsync"].

Fixpoint parse_options (args : list string) (config : ServerConfig)
    : expected ServerConfig string :=
  match args with
  | [] => Expected config
  | name :: rest =>
      match rest with
      | [] =>
          if known_option name then Unexpected ("Missing value after " +:+ name)
          else Unexpected ("Unknown argument: " +:+ name)
      | value :: rest' =>
          match apply_option name value config with
          | None => Unexpected ("Unknown argument: " +:+ name)
          | Some (Unexpected e) => Unexpected e
          | Some (Expected config') => parse_options rest' config'
          end
      end
  end.

(** [argv] without the program name. *)
Definition parse_arguments (args : list string) : expected ServerConfig string :=
  match current_path with
  | Unexpected message =>
      Unexpected ("Cannot determine the current working directory: " +:+ message)
  | Expected path =>
      parse_options args (set_rdb_config (mkRDBConfig path (db_filename default_rdb_config))
                            default_config)
  end.

(** ** Accepted configurations *)

(** The name of a file of a directory: not empty, without a separator, and
    neither the directory itself nor its parent. *)
Definition file_name (name : string) : Prop :=
  name <> EmptyString /\ name <> "." /\ name <> ".." /\
  forall before after, name <> before +:+ "/" +:+ after.

(** A path that is relative, is not empty or the directory it starts from, and
    has no [..] between separators or ends of the path: followed from a
    directory, it never leads above it. *)
Definition path_inside (path : string) : Prop :=
  path <> EmptyString /\ path <> "." /\ (forall rest, path <> "/" +:+ rest) /\
  forall before after,
    before = EmptyString \/ (exists start, before = start +:+ "/") ->
    after = EmptyString \/ (exists rest, after = "/" +:+ rest) ->
    path <> before +:+ ".." +:+ after.

(** What the rest of the program relies on: a usable port, a known sync
    policy, and file names that stay inside their directory. *)
Definition config_valid (c : ServerConfig) : Prop :=
  1 <= port c <= u16_max /\
  (forall r, replica_of c = Some r -> 1 <= replica_port r <= u16_max /\ host r <> EmptyString) /\
  append_fsync (aof_config c) ∈ ["always"; "everysec"; "no"] /\
  file_name (db_filename (rdb_config c)) /\
  file_name (append_filename (aof_config c)) /\
  path_inside (append_dirname (aof_config c)).

Lemma split_on_app sep a b :
  split_on sep (a +:+ String sep b) = split_on sep a ++ split_on sep b.
Proof.
  induction a as [|c a IH].
  - rewrite string_app_nil_l. simpl. by rewrite Ascii.eqb_refl.
  - rewrite string_app_cons. simpl. destruct (Ascii.eqb c sep); [by rewrite IH|].
    rewrite IH. destruct (split_on sep a) as [|part parts] eqn:Ha; [|done].
    exfalso. clear -Ha. destruct a as [|x a]; [done|]. simpl in Ha.
    destruct (Ascii.eqb x sep); [done|]. by destruct (split_on sep a).
Qed.

Lemma file_name_valid name : is_valid_database_filename name = true -> file_name name.
Proof.
  unfold is_valid_database_filename, has_parent_path. rewrite !andb_true_iff, !negb_true_iff.
  rewrite !String.eqb_neq, negb_false_iff. intros [[[? Hall] ?] ?]. split_and!; [done..|].
  intros before after ->. rewrite all_chars_app in Hall. simpl in Hall.
  by rewrite andb_false_r in Hall.
Qed.

Lemma path_inside_valid path : is_valid_append_directory path = true -> path_inside path.
Proof.
  unfold is_valid_append_directory. rewrite !andb_true_iff, !negb_true_iff.
  rewrite !orb_false_iff, !String.eqb_neq. intros [[? [[Habs ?] ?]] Hdots].
  split_and!; [done|done|intros rest ->; done|].
  intros before after Hbefore Hafter Hpath.
  assert (".." ∈ path_components path) as Hin.
  { unfold path_components. rewrite Hpath.
    assert (exists l, split_on slash (before +:+ ".." +:+ after)
              = l ++ split_on slash (".." +:+ after)) as [l ->].
    { destruct Hbefore as [->|[start ->]]; [by exists []|]. exists (split_on slash start).
      rewrite string_app_assoc. apply split_on_app. }
    apply elem_of_app. right. destruct Hafter as [->|[rest ->]].
    - by apply list_elem_of_singleton.
    - change ("/" +:+ rest) with (String slash rest). rewrite split_on_app.
      apply elem_of_app. left. by apply list_elem_of_singleton. }
  rewrite forallb_forall in Hdots. apply list_elem_of_In, Hdots in Hin. by simpl in Hin.
Qed.

Lemma parse_port_range arg p : parse_port_number arg = Expected p -> 1 <= p <= u16_max.
Proof.
  unfold parse_port_number. destruct (String.eqb arg _); [done|]. simpl.
  destruct (conversion_failed _ _) eqn:Hc; [done|]. simpl.
  destruct (Z.eqb_spec (fc_value (from_chars 0 u16_max arg 0)) 0); [done|].
  intros [= <-]. apply conversion_failed_false in Hc as [Hc _].
  apply from_chars_range in Hc. lia.
Qed.

Lemma parse_replica_valid arg r :
  parse_replica_config arg = Expected r ->
  1 <= replica_port r <= u16_max /\ host r <> EmptyString.
Proof.
  unfold parse_replica_config. destruct (find_space arg) as [i|]; [|done].
  destruct (String.eqb_spec (String.substring 0 i arg) EmptyString); [done|]. simpl.
  destruct (String.eqb _ _); [done|].
  destruct (parse_port_number _) eqn:Hp; [|done]. intros [= <-].
  by apply parse_port_range in Hp.
Qed.

Lemma apply_option_valid name value c c' :
  apply_option name value c = Some (Expected c') -> config_valid c -> config_valid c'.
Proof.
  unfold apply_option. intros Happ Hv.
  destruct Hv as (Hp & Hr & Hs & Hd & Hf & Ha).
  repeat match type of Happ with
  | context [String.eqb name ?o] => destruct (String.eqb name o)
  end; [..|done]; injection Happ as Happ.
  - destruct (parse_port_number value) eqn:E; [|done]. apply parse_port_range in E.
    by simplify_eq.
  - destruct (parse_replica_config value) eqn:E; [|done]. apply parse_replica_valid in E.
    simplify_eq. split_and!; simpl; try (done || lia). by intros ? [= <-].
  - destruct (sha256 value); by simplify_eq.
  - destruct (validate_directory value); by simplify_eq.
  - destruct (is_valid_database_filename value) eqn:E; [|done].
    apply file_name_valid in E. by simplify_eq/=.
  - destruct (negb _ && negb _); by simplify_eq/=.
  - destruct (is_valid_append_directory value) eqn:E; [|done].
    apply path_inside_valid in E. by simplify_eq/=.
  - destruct (is_valid_database_filename value) eqn:E; [|done].
    apply file_name_valid in E. by simplify_eq/=.
  - assert (value ∈ ["always"; "everysec"; "no"]) as Hin.
    { rewrite !elem_of_cons. destruct (String.eqb_spec value "always"); [by left|].
      destruct (String.eqb_spec value "everysec"); [by right; left|].
      destruct (String.eqb_spec value "no"); [by right; right; left|done]. }
    destruct (negb _ && negb _ && negb _); by simplify_eq/=.
Qed.

Lemma parse_options_valid args c c' :
  parse_options args c = Expected c' -> config_valid c -> config_valid c'.
Proof.
  revert c. induction args as [args IH] using (induction_ltof1 _ (@length string)).
  intros c. destruct args as [|name [|value rest]]; simpl.
  - by intros [= <-].
  - by case_match.
  - destruct (apply_option name value c) as [[c1|]|] eqn:Happ; [|done..].
    intros Hrest Hv. eapply (IH rest); [unfold ltof; simpl; lia|done|].
    by eapply apply_option_valid.
Qed.

(** C38: every configuration the command line parser accepts is usable: the
    ports are in 1..65535 and the master has a host, the sync policy is one of
    the three the append-only file knows, the RDB and AOF file names are names of
    a file without a separator, other than [.] and [..], and the AOF directory is
    a relative path with no [..] in it, so none can leave the data directory. *)
Theorem parse_arguments_valid (args : list string) (c : ServerConfig) :
  parse_arguments args = Expected c -> config_valid c.
Proof.
  unfold parse_arguments. destruct current_path as [path|]; [|done].
  intros Hp. eapply parse_options_valid; [done|].
  split; [by split|]. split; [done|]. split; [repeat constructor|].
  split; [by apply file_name_valid|]. split; [by apply file_name_valid|].
  by apply path_inside_valid.
Qed.
End Arguments.

(** A hash function and a directory tree for the examples. *)
Definition sample_crypto : Crypto := {| sha256 s := Expected ("h" +:+ s) |}.
Definition sample_directories : DirectoryInfo :=
  {| current_path := Expected "/srv"; path_status p := Expected (String.eqb p "/data") |}.

Lemma parse_arguments_valid_witness :
  exists c, @parse_arguments sample_crypto sample_directories
    ["--port"; "7000"; "--replicaof"; "localhost 6379"; "--appendonly"; "yes";
     "--appendfsync"; "always"; "--dir"; "/data"] = Expected c /\
  config_valid c /\ port c = 7000.
Proof.
  eexists. split; [vm_compute; reflexivity|]. split; [|reflexivity].
  eapply (@parse_arguments_valid sample_crypto sample_directories
    ["--port"; "7000"; "--replicaof"; "localhost 6379"; "--appendonly"; "yes";
     "--appendfsync"; "always"; "--dir"; "/data"]).
  vm_compute. reflexivity.
Defined.

Example unknown_argument :
  @parse_arguments sample_crypto sample_directories ["--foo"]
  = Unexpected "Unknown argument: --foo".
Proof. reflexivity. Qed.

Example missing_value :
  @parse_arguments sample_crypto sample_directories ["--port"]
  = Unexpected "Missing value after --port".
Proof. reflexivity. Qed.

Example parent_directory_rejected :
  @parse_arguments sample_crypto sample_directories ["--appenddirname"; "a/../b"]
  = Unexpected "AOF directory must be a relative path inside the data directory".
Proof. reflexivity. Qed.
