(* ===== verification/Hexadecimal.v ===== *)
(** * Text in hexadecimal (src/utils/sha256.cpp, and [generate_replication_id]
    of src/command_processor.cpp)

    Password hashes and replication identifiers are strings of hexadecimal
    digits.  OpenSSL's digest and the random device are parameters; what the
    code makes of their bytes is defined here.  [openssl_crypto] is the
    implementation of the interface [Crypto] of Config.v. *)

From stdpp Require Import base option list strings.
From Stdlib Require Import ZArith Lia.
From S2P Require Import Prelude CharConv Config.

Definition hexadecimal : string := "0123456789abcdef".

(** [hexadecimal[i]], for an index in range. *)
Definition hexadecimal_digit (i : Z) : Ascii.ascii :=
  match String.get (Z.to_nat i) hexadecimal with
  | Some c => c
  | None => Ascii.zero
  end.

(** ** SHA-256 *)

(** [EVP_Digest] with [EVP_sha256]: the bytes of the digest, or a failure. *)
Class OpenSSL := { evp_digest : string -> option (list Z) }.

(** A digest is 32 bytes. *)
Class OpenSSLLaws `{OpenSSL} := {
  digest_length : forall s bytes, evp_digest s = Some bytes -> length bytes = 32%nat;
  digest_bytes : forall s bytes, evp_digest s = Some bytes -> Forall (fun b => 0 <= b < 256) bytes;
}.

(** The loop over the bytes of the digest. *)
Fixpoint encode_digest (digest : list Z) : string :=
  match digest with
  | [] => EmptyString
  | byte :: digest' =>
      String (hexadecimal_digit (Z.shiftr byte 4))
        (String (hexadecimal_digit (Z.land byte 15)) (encode_digest digest'))
  end.

Definition openssl_sha256 `{OpenSSL} (input : string) : expected string string :=
  match evp_digest input with
  | None => Unexpected "OpenSSL failed to calculate a SHA-256 digest"
  | Some digest => Expected (encode_digest digest)
  end.

#[export] Instance openssl_crypto `{OpenSSL} : Crypto := {| sha256 := openssl_sha256 |}.

(** ** Replication identifiers *)

(** The [i]-th draw of [uniform_int_distribution{0, 15}]. *)
Class RandomDevice := {
  draw : nat -> Z;
  draw_range : forall i, 0 <= draw i <= 15;
}.

Definition replication_id_length : nat := 40.

(** The loop over the characters of the result; [draws] counts the draws. *)
Fixpoint random_digits `{RandomDevice} (n draws : nat) : string :=
  match n with
  | O => EmptyString
  | S n' => String (hexadecimal_digit (draw draws)) (random_digits n' (S draws))
  end.

Definition generate_replication_id `{RandomDevice} (draws : nat) : string :=
  random_digits replication_id_length draws.

(** ** Facts *)

Definition is_lower_hexadecimal (c : Ascii.ascii) : bool :=
  let n := Ascii.nat_of_ascii c in
  (((48 <=? n) && (n <=? 57)) || ((97 <=? n) && (n <=? 102)))%nat.

(** The sixteen indices, one by one. *)
Lemma nibble_cases (Q : Z -> Prop) (i : Z) :
  0 <= i <= 15 -> (forall n, (n < 16)%nat -> Q (Z.of_nat n)) -> Q i.
Proof. intros Hi HQ. rewrite <- (Z2Nat.id i) by lia. apply HQ. lia. Qed.

Lemma hexadecimal_digit_lower i : 0 <= i <= 15 -> is_lower_hexadecimal (hexadecimal_digit i) = true.
Proof.
  intros Hi. pattern i. apply nibble_cases; [done|]. intros n Hn. do 16 (destruct n; [done|]). lia.
Qed.

(** The index of a digit. *)
Definition digit_index (c : Ascii.ascii) : Z :=
  let n := Z.of_nat (Ascii.nat_of_ascii c) in if n <=? 57 then n - 48 else n - 87.

Lemma digit_index_hexadecimal i : 0 <= i <= 15 -> digit_index (hexadecimal_digit i) = i.
Proof.
  intros Hi. pattern i. apply nibble_cases; [done|]. intros n Hn. do 16 (destruct n; [done|]). lia.
Qed.

(** A byte is its two halves. *)
Lemma byte_halves b : 0 <= b < 256 ->
  0 <= Z.shiftr b 4 <= 15 /\ 0 <= Z.land b 15 <= 15 /\ b = Z.shiftr b 4 * 16 + Z.land b 15.
Proof.
  intros Hb. rewrite Z.shiftr_div_pow2 by lia. change (2 ^ 4) with 16.
  replace (Z.land b 15) with (b mod 16) by (symmetry; by apply (Z.land_ones b 4)).
  pose proof (Z.div_mod b 16). pose proof (Z.mod_pos_bound b 16).
  pose proof (Z.div_lt_upper_bound b 16 16). pose proof (Z.div_pos b 16). lia.
Qed.

Lemma encode_digest_length digest : String.length (encode_digest digest) = (2 * length digest)%nat.
Proof. induction digest; simpl in *; lia. Qed.

Lemma encode_digest_lower digest :
  Forall (fun b => 0 <= b < 256) digest -> all_chars is_lower_hexadecimal (encode_digest digest) = true.
Proof.
  induction 1 as [|b digest Hb _ IH]; [done|]. destruct (byte_halves b Hb) as (Hh & Hl & _).
  cbn [encode_digest all_chars]. by rewrite !hexadecimal_digit_lower, IH.
Qed.

Lemma encode_digest_inj digest digest' :
  Forall (fun b => 0 <= b < 256) digest -> Forall (fun b => 0 <= b < 256) digest' ->
  encode_digest digest = encode_digest digest' -> digest = digest'.
Proof.
  intros Hd. revert digest'. induction Hd as [|b digest Hb _ IH]; intros digest' Hd' Heq.
  { by destruct digest'. }
  destruct Hd' as [|b' digest' Hb' Hd']; [done|]. cbn [encode_digest] in Heq.
  injection Heq as Hhi Hlo Hrest. apply (f_equal digit_index) in Hhi, Hlo.
  destruct (byte_halves b Hb) as (? & ? & ->), (byte_halves b' Hb') as (? & ? & ->).
  rewrite !digit_index_hexadecimal in Hhi, Hlo by done. f_equal; [lia|]. by apply IH.
Qed.

Lemma random_digits_spec `{RandomDevice} n draws :
  String.length (random_digits n draws) = n /\
  all_chars is_lower_hexadecimal (random_digits n draws) = true.
Proof.
  revert draws. induction n as [|n IH]; intros draws; [done|]. destruct (IH (S draws)) as [Hl Hd].
  cbn [random_digits String.length all_chars]. rewrite Hl, Hd.
  by rewrite hexadecimal_digit_lower by apply draw_range.
Qed.

(** ** Properties *)

(** A password hash stands for its digest.  It is 64 lower-case hexadecimal
    digits, and two passwords have the same hash exactly when they have the
    same digest, so comparing the texts, as AUTH does, compares the digests;
    there is no hash exactly when OpenSSL fails. *)
Theorem hash_is_digest `{OpenSSL, !OpenSSLLaws} (password : string) :
  match sha256 password with
  | Unexpected e => e = "OpenSSL failed to calculate a SHA-256 digest" /\ evp_digest password = None
  | Expected hash =>
      String.length hash = 64%nat /\ all_chars is_lower_hexadecimal hash = true /\
      forall other, sha256 other = Expected hash <-> evp_digest other = evp_digest password
  end.
Proof.
  unfold sha256, openssl_crypto, openssl_sha256.
  destruct (evp_digest password) as [digest|] eqn:Hd; [|done].
  pose proof (digest_bytes _ _ Hd) as Hb. split; [|split].
  - by rewrite encode_digest_length, (digest_length _ _ Hd).
  - by apply encode_digest_lower.
  - intros other. destruct (evp_digest other) as [digest'|] eqn:Ho; [|by split].
    pose proof (digest_bytes _ _ Ho). split; [|by intros [= ->]].
    intros [= Heq]. f_equal. by apply encode_digest_inj.
Qed.

(** ** Witness *)

(** A digest for the examples: the first 32 bytes, padded with the length. *)
Definition sample_byte (s : string) (i : nat) : Z :=
  match String.get i s with
  | Some c => Z.of_nat (Ascii.nat_of_ascii c)
  | None => Z.of_nat (String.length s) mod 256
  end.
Definition sample_openssl : OpenSSL := {| evp_digest s := Some (map (sample_byte s) (seq 0 32)) |}.

Lemma sample_byte_range s i : 0 <= sample_byte s i < 256.
Proof.
  unfold sample_byte. destruct (String.get i s) as [c|]; [|apply Z.mod_pos_bound; lia].
  pose proof (Ascii.nat_ascii_bounded c). lia.
Qed.

Lemma sample_openssl_laws : @OpenSSLLaws sample_openssl.
Proof.
  split; intros s bytes [= <-]; [done|].
  pose proof (sample_byte_range s). repeat constructor; apply H.
Qed.

Lemma hash_is_digest_witness :
  exists hash, @sha256 (@openssl_crypto sample_openssl) "secret" = Expected hash /\
    String.length hash = 64%nat /\
    @sha256 (@openssl_crypto sample_openssl) "Secret" <> Expected hash.
Proof.
  pose proof (@hash_is_digest sample_openssl sample_openssl_laws "secret") as Hhash.
  destruct (@sha256 (@openssl_crypto sample_openssl) "secret") as [hash|e] eqn:Hs.
  - exists hash. destruct Hhash as (Hlen & _ & Hother). split; [reflexivity|].
    split; [exact Hlen|]. intros Heq. apply (Hother "Secret") in Heq. vm_compute in Heq. discriminate.
  - exfalso. vm_compute in Hs. discriminate.
Defined.
