(* ===== verification/Sessions.v ===== *)
(** * Session queues (src/pubsub.hpp, src/pubsub.cpp, src/replication.hpp,
    src/replication.cpp)

    The two queues between the command processor and the connection threads:
    a pub/sub session with its notification descriptor, and a replica session
    that is closed when its connection fails.  Every operation runs under the
    session's mutex, so an operation is one step. *)

From stdpp Require Import base option list strings relations.
From Stdlib Require Import ZArith Lia.
From S2P Require Import Prelude Environment.

(** ** Pub/sub sessions *)

Record PubSubFrame := mkPubSubFrame { frame_payload : string }.

(** [notified] is the state of the [eventfd]: its counter is not zero, that
    is, [poll] reports the descriptor readable. *)
Record PubSubSession := mkPubSubSession {
  pending_frames : list PubSubFrame;
  notified : bool;
}.

(** [PubSubSession::create] after a successful [eventfd(0, ...)]. *)
Definition create_session : PubSubSession := mkPubSubSession [] false.

Section PubSub.
Context `{Kernel}.

(** The retry loop of [enqueue] around [write(_notification_fd, ...)]: the
    error if there is one, and the number of system calls made so far.  [None]
    only when the call keeps being interrupted. *)
Fixpoint notify_loop (fuel calls : nat) : option (option string * nat) :=
  match fuel with
  | O => None
  | S fuel' =>
      match sys_write calls 8 with
      | Completed 8 | WouldBlock => Some (None, S calls)
      | Interrupted => notify_loop fuel' (S calls)
      | Completed _ => Some (Some stale_errno, S calls)
      | IoError message => Some (Some message, S calls)
      end
  end.

Definition pubsub_enqueue (frame : PubSubFrame) (session : PubSubSession) (calls : nat)
    : option (expected unit string * PubSubSession * nat) :=
  let notification_needed := (length (pending_frames session) =? 0)%nat in
  let pushed := mkPubSubSession (pending_frames session ++ [frame]) (notified session) in
  if negb notification_needed then Some (Expected tt, pushed, calls) else
  '(error, calls) ← notify_loop (S eintr_limit) calls;
  match error with
  | None => Some (Expected tt, mkPubSubSession (pending_frames pushed) true, calls)
  | Some message =>
      Some (Unexpected ("Failed to notify Pub/Sub connection: " +:+ message),
            mkPubSubSession (removelast (pending_frames pushed)) (notified session), calls)
  end.

(** The retry loop of [clear_notification]. *)
Fixpoint clear_loop (fuel calls : nat) : option (option string * nat) :=
  match fuel with
  | O => None
  | S fuel' =>
      match sys_read calls with
      | Completed 8 | WouldBlock => Some (None, S calls)
      | Interrupted => clear_loop fuel' (S calls)
      | Completed _ => Some (Some stale_errno, S calls)
      | IoError message => Some (Some message, S calls)
      end
  end.

(** A read that succeeds, or that finds the counter at zero, leaves it there. *)
Definition clear_notification (session : PubSubSession) (calls : nat)
    : option (expected unit string * PubSubSession * nat) :=
  '(error, calls) ← clear_loop (S eintr_limit) calls;
  match error with
  | None => Some (Expected tt, mkPubSubSession (pending_frames session) false, calls)
  | Some message =>
      Some (Unexpected ("Failed to clear Pub/Sub notification: " +:+ message), session, calls)
  end.

(** Both loops end: a call is interrupted boundedly often. *)
Lemma eintr_loop_total `{!KernelLaws} calls :
  (exists r, notify_loop (S eintr_limit) calls = Some r) /\
  (exists r, clear_loop (S eintr_limit) calls = Some r).
Proof.
  destruct (eintr_bounded calls) as (k & Hk & Hr & Hw). specialize (Hw 8%nat).
  revert Hk. generalize eintr_limit. revert calls Hr Hw.
  induction k as [|k IH]; intros calls Hr Hw n Hk.
  - rewrite Nat.add_0_r in Hr, Hw. cbn [notify_loop clear_loop].
    split; repeat (case_match; try done); eauto.
  - destruct n as [|n]; [lia|].
    rewrite <- Nat.add_succ_comm in Hr, Hw.
    destruct (IH (S calls) Hr Hw n ltac:(lia)) as [IHw IHr].
    split; [cbn [notify_loop]|cbn [clear_loop]];
      repeat (case_match; try done); eauto.
Qed.

End PubSub.

Definition pop_frame (session : PubSubSession) : option PubSubFrame * PubSubSession :=
  match pending_frames session with
  | [] => (None, session)
  | frame :: frames => (Some frame, mkPubSubSession frames (notified session))
  end.

(** ** Replica sessions *)

Record ReplicationFrame := mkReplicationFrame {
  payload : string;
  ending_offset : Z;
}.

Record ReplicaSession := mkReplicaSession {
  session_client_id : Z;
  starting_offset : Z;
  replica_frames : list ReplicationFrame;
  closed : bool;
}.

Definition new_replica_session (client_id offset : Z) : ReplicaSession :=
  mkReplicaSession client_id offset [] false.

Definition replica_enqueue (frame : ReplicationFrame) (session : ReplicaSession)
    : ReplicaSession :=
  if closed session then session else
  mkReplicaSession (session_client_id session) (starting_offset session)
    (replica_frames session ++ [frame]) (closed session).

(** [wait_for_frame] once its wait is over: [None] means that it still waits. *)
Definition wait_for_frame (stop_requested : bool) (session : ReplicaSession)
    : option (option ReplicationFrame * ReplicaSession) :=
  if stop_requested || closed session then Some (None, session) else
  match replica_frames session with
  | [] => None
  | frame :: frames =>
      Some (Some frame, mkReplicaSession (session_client_id session)
                          (starting_offset session) frames false)
  end.

Definition close_session (session : ReplicaSession) : ReplicaSession :=
  mkReplicaSession (session_client_id session) (starting_offset session)
    (replica_frames session) true.

(** ** No lost wake-ups

    The processor thread enqueues; the connection thread clears the
    notification, then pops until the queue is empty, then polls again. *)

Inductive consumer_phase := Polling | Draining.

Section Wakeups.
Context `{Kernel}.

(** The shared session, what the connection thread is doing, and the frames it
    has taken so far. *)
Record Exchange := mkExchange {
  session : PubSubSession;
  phase : consumer_phase;
  accepted : list PubSubFrame;
  delivered : list PubSubFrame;
}.

Inductive exchange_step : Exchange -> Exchange -> Prop :=
| step_enqueued frame s s' p acc del calls calls' :
    pubsub_enqueue frame s calls = Some (Expected tt, s', calls') ->
    exchange_step (mkExchange s p acc del) (mkExchange s' p (acc ++ [frame]) del)
| step_refused frame s s' p acc del calls calls' message :
    pubsub_enqueue frame s calls = Some (Unexpected message, s', calls') ->
    exchange_step (mkExchange s p acc del) (mkExchange s' p acc del)
| step_clear s s' acc del p calls calls' :
    clear_notification s calls = Some (Expected tt, s', calls') ->
    exchange_step (mkExchange s p acc del) (mkExchange s' Draining acc del)
| step_pop s s' frame acc del :
    pop_frame s = (Some frame, s') ->
    exchange_step (mkExchange s Draining acc del)
      (mkExchange s' Draining acc (del ++ [frame]))
| step_drained s acc del :
    pop_frame s = (None, s) ->
    exchange_step (mkExchange s Draining acc del) (mkExchange s Polling acc del).

Definition initial_exchange : Exchange := mkExchange create_session Polling [] [].

(** Accepted frames are delivered or queued, in order, and a queued frame is
    announced unless the consumer is already draining. *)
Definition exchange_inv (x : Exchange) : Prop :=
  accepted x = delivered x ++ pending_frames (session x) /\
  (phase x = Polling -> pending_frames (session x) <> [] -> notified (session x) = true).

Lemma pubsub_enqueue_spec frame s calls r s' calls' :
  pubsub_enqueue frame s calls = Some (r, s', calls') ->
  match r with
  | Expected _ =>
      pending_frames s' = pending_frames s ++ [frame] /\
      notified s' = (if (length (pending_frames s) =? 0)%nat then true else notified s)
  | Unexpected _ => s' = s
  end.
Proof.
  unfold pubsub_enqueue. destruct (length (pending_frames s) =? 0)%nat eqn:Hl; simpl.
  - intros ([[message|] c] & _ & Hr)%bind_Some; simplify_eq/=; [|done].
    rewrite removelast_last. by destruct s.
  - by intros [= <- <- <-].
Qed.

Lemma exchange_inv_step x y : exchange_inv x -> exchange_step x y -> exchange_inv y.
Proof.
  intros [Hacc Hnot] Hstep. unfold exchange_inv.
  destruct Hstep as [frame s s' p acc del c c' He|frame s s' p acc del c c' m He
    |s s' acc del p c c' He|s s' frame acc del Hp|s acc del Hp]; simpl in *.
  - apply pubsub_enqueue_spec in He as [-> ->]. rewrite Hacc, app_assoc. split; [done|].
    intros Hph _. destruct (pending_frames s); simpl; [done|]. by apply Hnot.
  - apply pubsub_enqueue_spec in He as ->. done.
  - unfold clear_notification in He. apply bind_Some in He as ([[m|] ?] & _ & He);
      simplify_eq/=. done.
  - unfold pop_frame in Hp. destruct (pending_frames s) as [|f fs] eqn:Hf; simplify_eq/=.
    by rewrite <- app_assoc.
  - unfold pop_frame in Hp. destruct (pending_frames s) eqn:Hf; [|done]. done.
Qed.

(** C34: no wake-up and no frame is lost between the processor and a
    subscriber's connection, whatever the interleaving: the frames accepted by
    [enqueue] are, in order, those already delivered followed by those still
    queued, and whenever the connection thread goes back to [poll] with a
    frame still queued its descriptor is readable. *)
Theorem pubsub_no_lost_frames (x : Exchange) :
  rtc exchange_step initial_exchange x ->
  accepted x = delivered x ++ pending_frames (session x) /\
  (phase x = Polling -> notified (session x) = false -> delivered x = accepted x).
Proof.
  intros Hrtc.
  assert (exchange_inv x) as [Hacc Hnot].
  { revert Hrtc. apply (rtc_ind_r (fun y => exchange_inv y) initial_exchange).
    - done.
    - intros y z _ Hs Hy. by eapply exchange_inv_step. }
  split; [done|]. intros Hph Hn. rewrite Hacc.
  destruct (pending_frames (session x)) eqn:Hp; [by rewrite app_nil_r|].
  rewrite Hnot in Hn; congruence.
Qed.
End Wakeups.

(** A subscriber that is polling while two frames arrive, then drains one. *)
Lemma pubsub_no_lost_frames_witness :
  let a := mkPubSubFrame "a" in
  let b := mkPubSubFrame "b" in
  accepted (mkExchange (mkPubSubSession [b] false) Draining [a; b] [a]) =
  delivered (mkExchange (mkPubSubSession [b] false) Draining [a; b] [a]) ++ [b].
Proof.
  intros a b.
  apply (@pubsub_no_lost_frames perfect_kernel
    (mkExchange (mkPubSubSession [b] false) Draining [a; b] [a])).
  apply (rtc_l _ _ (mkExchange (mkPubSubSession [a] true) Polling [a] [])).
  { by apply (@step_enqueued perfect_kernel a create_session _ Polling [] [] 0 1). }
  apply (rtc_l _ _ (mkExchange (mkPubSubSession [a; b] true) Polling [a; b] [])).
  { by apply (@step_enqueued perfect_kernel b _ _ Polling [a] [] 1 1). }
  apply (rtc_l _ _ (mkExchange (mkPubSubSession [a; b] false) Draining [a; b] [])).
  { by apply (@step_clear perfect_kernel _ _ [a; b] [] Polling 1 2). }
  apply rtc_once. by apply (@step_pop perfect_kernel _ _ a [a; b] []).
Defined.
