(* ===== verification/Aof.v ===== *)
(** * The append-only file (src/aof.hpp, src/aof.cpp)

    The manifest that names the active file, reading the file back, and
    appending to it through short and interrupted writes.  What the file
    system answers is a parameter. *)

From stdpp Require Import base option list strings.
From Stdlib Require Import ZArith Lia.
From S2P Require Import Prelude CharConv Environment Resp Config.

Record ManifestEntry := mkManifestEntry {
  filename : string;
  manifest_sequence : Z;
}.

Inductive SyncPolicy := ALWAYS | EVERY_SECOND | NEVER.

#[export] Instance SyncPolicy_eq_dec : EqDecision SyncPolicy.
Proof. solve_decision. Defined.

(** [contents] is what the file holds: the descriptor is open in append mode,
    and [read_commands] reads the same path. *)
Record AppendOnlyFile := mkAppendOnlyFile {
  aof_path : string;
  contents : string;
  sync_policy : SyncPolicy;
  last_sync : Z;
}.

(** ** The manifest *)

Definition parse_sequence (text : string) : expected Z string :=
  let r := from_chars 0 u64_max text 0 in
  if String.eqb text EmptyString || conversion_failed r text
  then Unexpected "Invalid sequence number in AOF manifest" else Expected (fc_value r).

Definition is_safe_manifest_filename (name : string) : bool :=
  if String.eqb name EmptyString then false else
  negb (is_absolute name) && negb (has_parent_path name) &&
  negb (String.eqb name ".") && negb (String.eqb name "..").

(** [isspace] of the classic locale, on which [>>] splits its fields. *)
Definition is_space (c : Ascii.ascii) : bool :=
  let n := Ascii.nat_of_ascii c in ((9 <=? n) && (n <=? 13))%nat || (n =? 32)%nat.

(** The lines [std::getline] gives: a final part without a newline counts when
    it is not empty. *)
Definition getlines (s : string) : list string :=
  match reverse (split_on LF s) with
  | EmptyString :: parts => reverse parts
  | parts => reverse parts
  end.

(** The lines it gives when the reading fails after [s]: the failed call to
    [getline] sets [badbit] and its partial line is not delivered. *)
Definition getlines_failed (s : string) : list string :=
  reverse (tail (reverse (split_on LF s))).

(** The fields of a line, split on runs of white space; [word] is the field
    being read. *)
Fixpoint fields_from (s word : string) : list string :=
  match s with
  | EmptyString => if String.eqb word EmptyString then [] else [word]
  | String c s' =>
      if is_space c
      then (if String.eqb word EmptyString then [] else [word]) ++ fields_from s' EmptyString
      else fields_from s' (word +:+ String c EmptyString)
  end.

Definition fields (line : string) : list string := fields_from line EmptyString.

(** The body of the loop of [read_active_filename]. *)
Definition read_manifest_line (path line : string) (active : option ManifestEntry)
    : expected (option ManifestEntry) string :=
  match fields line with
  | [file_label; name; sequence_label; sequence_text; type_label; type] =>
      if negb (String.eqb file_label "file") || negb (String.eqb sequence_label "seq") ||
         negb (String.eqb type_label "type")
      then Unexpected ("Invalid entry in AOF manifest '" +:+ path +:+ "'") else
      if negb (String.eqb type "i") then Expected active else
      if negb (is_safe_manifest_filename name)
      then Unexpected "Invalid incremental filename in AOF manifest" else
      match parse_sequence sequence_text with
      | Unexpected e => Unexpected e
      | Expected sequence =>
          let better := match active with
                        | None => true
                        | Some entry => manifest_sequence entry <? sequence
                        end in
          Expected (if better then Some (mkManifestEntry name sequence) else active)
      end
  | _ => Unexpected ("Invalid entry in AOF manifest '" +:+ path +:+ "'")
  end.

Fixpoint read_manifest_lines (path : string) (lines : list string)
    (active : option ManifestEntry) : expected (option ManifestEntry) string :=
  match lines with
  | [] => Expected active
  | line :: lines' =>
      match read_manifest_line path line active with
      | Unexpected e => Unexpected e
      | Expected active => read_manifest_lines path lines' active
      end
  end.

(** On the text of a manifest, read to its end or not. *)
Definition active_filename_of (path text : string) (bad : bool) : expected string string :=
  match read_manifest_lines path (if bad then getlines_failed text else getlines text) None with
  | Unexpected e => Unexpected e
  | Expected active =>
      if bad then Unexpected ("Failed while reading AOF manifest '" +:+ path +:+ "'") else
      match active with
      | None => Unexpected "AOF manifest does not contain an incremental file"
      | Some entry => Expected (filename entry)
      end
  end.

(** The name and the text [create_manifest] writes. *)
Definition first_filename (config : AOFConfig) : string :=
  append_filename config +:+ ".1.incr.aof".

Definition newline : string := String LF EmptyString.

Definition manifest_text (config : AOFConfig) : string :=
  "file " +:+ first_filename config +:+ " seq 1 type i" +:+ newline.

(** ** The file system *)

(** What the calls of [open] answer: [make_directories] and [exists] the text
    of an [error_code], [read_text] the bytes of a file (its two errors are a
    file that cannot be opened and one whose reading fails after some bytes), [write_text]
    whether the file could be opened and written, [open_append] the bytes the
    opened file already holds or the [strerror] text. *)
Inductive write_result := Written | CannotCreate | CannotWrite.
Inductive read_result := Read (text : string) | CannotOpen | ReadFailed (text : string).

Class FileSystem := {
  make_directories : string -> option string;
  file_exists : string -> expected bool string;
  read_text : string -> read_result;
  write_text : string -> string -> write_result;
  open_append : string -> expected string string;
}.

(** [a / b] *)
Definition path_join (a b : string) : string :=
  if is_absolute b then b else
  if String.eqb a EmptyString then b else
  match String.get (String.length a - 1) a with
  | Some c => if Ascii.eqb c slash then a +:+ b else a +:+ "/" +:+ b
  | None => b
  end.

Section FileSystem.
Context `{FileSystem}.

Definition read_active_filename (path : string) : expected string string :=
  match read_text path with
  | CannotOpen => Unexpected ("Cannot open AOF manifest '" +:+ path +:+ "'")
  | ReadFailed text => active_filename_of path text true
  | Read text => active_filename_of path text false
  end.

Definition create_manifest (path : string) (config : AOFConfig) : expected string string :=
  match write_text path (manifest_text config) with
  | CannotCreate => Unexpected ("Cannot create AOF manifest '" +:+ path +:+ "'")
  | CannotWrite => Unexpected ("Cannot write AOF manifest '" +:+ path +:+ "'")
  | Written => Expected (first_filename config)
  end.

Definition parse_sync_policy (text : string) : option SyncPolicy :=
  if String.eqb text "always" then Some ALWAYS
  else if String.eqb text "everysec" then Some EVERY_SECOND
  else if String.eqb text "no" then Some NEVER
  else None.

(** [AppendOnlyFile::open]; [now] is the clock reading of the constructor. *)
Definition open_aof (base_directory : string) (config : AOFConfig) (now : Z)
    : expected AppendOnlyFile string :=
  let append_directory := path_join base_directory (append_dirname config) in
  match make_directories append_directory with
  | Some message =>
      Unexpected ("Cannot create AOF directory '" +:+ append_directory +:+ "': " +:+ message)
  | None =>
      let manifest_path := path_join append_directory (append_filename config +:+ ".manifest") in
      match file_exists manifest_path with
      | Unexpected message =>
          Unexpected ("Cannot inspect AOF manifest '" +:+ manifest_path +:+ "': " +:+ message)
      | Expected manifest_exists =>
          let active := if manifest_exists then read_active_filename manifest_path
                        else create_manifest manifest_path config in
          match active with
          | Unexpected e => Unexpected e
          | Expected active_filename =>
              match parse_sync_policy (append_fsync config) with
              | None => Unexpected "Unsupported appendfsync policy"
              | Some policy =>
                  let active_path := path_join append_directory active_filename in
                  match open_append active_path with
                  | Unexpected message => Unexpected
                      ("Cannot open AOF file '" +:+ active_path +:+ "': " +:+ message)
                  | Expected bytes => Expected (mkAppendOnlyFile active_path bytes policy now)
                  end
              end
          end
      end
  end.

(** ** Reading the file back *)

(** The loop of [read_commands]; [None] when it runs out of fuel. *)
Fixpoint read_loop (fuel : nat) (bytes : string) (position : nat) (commands : list Command)
    : option (expected (list Command) string) :=
  if negb (position <? String.length bytes)%nat then Some (Expected commands) else
  match fuel with
  | O => None
  | S fuel' =>
      let at_position := to_string (Z.of_nat position) in
      match parse_command (drop_string position bytes) with
      | Parsed r =>
          if (bytes_consumed r =? 0)%nat
          then Some (Unexpected ("AOF parser made no progress at byte " +:+ at_position))
          else read_loop fuel' bytes (position + bytes_consumed r) (commands ++ [command r])
      | Incomplete =>
          Some (Unexpected ("Incomplete command in AOF file at byte " +:+ at_position))
      | Failed e =>
          Some (Unexpected ("Invalid command in AOF file at byte " +:+ at_position +:+ ": "
                            +:+ message e))
      end
  end.

(** On the bytes of the file: one unit of fuel per byte is enough. *)
Definition commands_of_bytes (bytes : string) : option (expected (list Command) string) :=
  read_loop (String.length bytes) bytes 0 [].

(** A reading that fails throws out of the [istreambuf_iterator] (the stream
    buffer throws, and only the stream's own functions turn that into
    [badbit]): [None], no result, and nothing above it catches. *)
Definition read_commands (file : AppendOnlyFile) : option (expected (list Command) string) :=
  match read_text (aof_path file) with
  | CannotOpen => Some (Unexpected ("Cannot read AOF file '" +:+ aof_path file +:+ "'"))
  | ReadFailed _ => None
  | Read bytes => commands_of_bytes bytes
  end.
End FileSystem.

(** ** Appending *)

Section Append.
Context `{Clock, Kernel}.

Definition set_contents (bytes : string) (file : AppendOnlyFile) : AppendOnlyFile :=
  mkAppendOnlyFile (aof_path file) bytes (sync_policy file) (last_sync file).

(** The loop of [append]: the error if any, the file and the system calls made.
    [None] when it runs out of fuel. *)
Fixpoint append_loop (fuel : nat) (data : string) (written : nat) (file : AppendOnlyFile)
    (calls : nat) : option (option string * AppendOnlyFile * nat) :=
  if negb (written <? String.length data)%nat then Some (None, file, calls) else
  match fuel with
  | O => None
  | S fuel' =>
      let cannot reason := "Cannot append to AOF file '" +:+ aof_path file +:+ "': " +:+ reason in
      match sys_write calls (String.length data - written) with
      | Interrupted => append_loop fuel' data written file (S calls)
      | WouldBlock => Some (Some (cannot eagain_message), file, S calls)
      | IoError reason => Some (Some (cannot reason), file, S calls)
      | Completed O => Some (Some "AOF write made no progress", file, S calls)
      | Completed n =>
          append_loop fuel' data (written + n)
            (set_contents (contents file +:+ String.substring written n data) file) (S calls)
      end
  end.

(** [sync]; [reads] counts the clock readings. *)
Definition sync (file : AppendOnlyFile) (calls reads : nat)
    : expected unit string * AppendOnlyFile * nat * nat :=
  match sys_fsync calls with
  | Some reason =>
      (Unexpected ("Cannot sync AOF file '" +:+ aof_path file +:+ "': " +:+ reason),
       file, S calls, reads)
  | None =>
      (Expected tt,
       mkAppendOnlyFile (aof_path file) (contents file) (sync_policy file)
         (steady_clock_now reads), S calls, S reads)
  end.

(** Every byte may take [eintr_limit] interrupted calls and one that succeeds. *)
Definition append (data : string) (file : AppendOnlyFile) (calls reads : nat)
    : option (expected unit string * AppendOnlyFile * nat * nat) :=
  '(error, file, calls) ← append_loop (String.length data * S eintr_limit) data 0 file calls;
  match error with
  | Some e => Some (Unexpected e, file, calls, reads)
  | None =>
      if bool_decide (sync_policy file = ALWAYS) then Some (sync file calls reads) else
      let now := steady_clock_now reads in
      let reads := S reads in
      if bool_decide (sync_policy file = EVERY_SECOND) &&
         (1000000000 <=? now - last_sync file)
      then Some (sync file calls reads)
      else Some (Expected tt, file, calls, reads)
  end.
End Append.

(** ** Facts on appending *)

Section AppendFacts.
Context `{Clock, Kernel, !KernelLaws}.

Lemma append_loop_total fuel data written file calls :
  ((String.length data - written) * S eintr_limit <= fuel)%nat ->
  exists r, append_loop fuel data written file calls = Some r.
Proof.
  remember (String.length data - written)%nat as r eqn:Hr.
  revert fuel written file calls Hr.
  induction r as [r IH] using (well_founded_induction lt_wf).
  assert (forall k fuel written file calls,
    r = (String.length data - written)%nat -> (written < String.length data)%nat ->
    (forall n, sys_write (calls + k) n <> Interrupted) ->
    (S k + (r - 1) * S eintr_limit <= fuel)%nat ->
    exists x, append_loop fuel data written file calls = Some x) as Hinner.
  { induction k as [|k IHk]; intros fuel written file calls Hr Hlt Hk Hf;
      (destruct fuel as [|fuel]; [inversion Hf|]);
      cbn [append_loop]; rewrite (proj2 (Nat.ltb_lt _ _) Hlt); cbn [negb];
      (destruct (sys_write calls _) as [[|n]| | |] eqn:Hs; [eauto| | |eauto|eauto]).
    - apply (IH (String.length data - (written + S n))%nat); [lia|done|].
      assert (String.length data - (written + S n) <= r - 1)%nat by lia. nia.
    - rewrite Nat.add_0_r in Hk. by destruct (Hk (String.length data - written)%nat).
    - apply (IH (String.length data - (written + S n))%nat); [lia|done|].
      assert (String.length data - (written + S n) <= r - 1)%nat by lia. nia.
    - apply IHk; [done..| |lia]. intros m. by rewrite Nat.add_succ_comm. }
  intros fuel written file calls Hr Hf.
  destruct (Nat.ltb_spec written (String.length data)) as [Hlt|Hge].
  - destruct (eintr_bounded calls) as (k & Hk & _ & Hw).
    apply (Hinner k); [done..|nia].
  - exists (None, file, calls). destruct fuel; simpl;
      by rewrite (proj2 (Nat.ltb_ge _ _) Hge).
Qed.

Lemma substring_split data i n m :
  (i + n + m <= String.length data)%nat ->
  String.substring i n data +:+ String.substring (i + n) m data
  = String.substring i (n + m) data.
Proof.
  revert i n m. induction data as [|c data IH]; intros i n m Hl; simpl in Hl.
  { by replace i with 0%nat by lia; replace n with 0%nat by lia; replace m with 0%nat by lia. }
  destruct i as [|i].
  - destruct n as [|n]; [done|]. simpl. rewrite string_app_cons. f_equal. apply (IH 0%nat). lia.
  - simpl. apply IH. lia.
Qed.

(** Whatever happens, the file gains a prefix of what was left to write, all
    of it when no error is reported. *)
Lemma append_loop_spec fuel data written file calls e file' calls' :
  (written <= String.length data)%nat ->
  append_loop fuel data written file calls = Some (e, file', calls') ->
  exists n, (written + n <= String.length data)%nat /\
    file' = set_contents (contents file +:+ String.substring written n data) file /\
    (e = None -> (written + n = String.length data)%nat).
Proof.
  assert (forall f : AppendOnlyFile, set_contents (contents f +:+ EmptyString) f = f) as Hid.
  { intros []. unfold set_contents. simpl. by rewrite string_app_nil_r. }
  assert (forall i, String.substring i 0 data = EmptyString) as Hsub.
  { intros i. generalize data. induction i as [|i IHi]; intros []; simpl; done. }
  revert written file calls. induction fuel as [|fuel IH]; intros written file calls Hle;
    cbn [append_loop]; (destruct (Nat.ltb_spec written (String.length data)) as [Hlt|Hge];
    cbn [negb]; [|intros [= <- <- <-]; exists 0%nat; rewrite Hsub, Hid; split_and!; (done || lia)]).
  { done. }
  destruct (sys_write calls (String.length data - written)) as [[|n]| | |] eqn:Hs.
  - intros [= <- <- <-]. exists 0%nat. rewrite Hsub, Hid. split_and!; (done || lia).
  - apply sys_write_bound in Hs. intros Hrec.
    apply IH in Hrec as (k & Hk & -> & Hnone); [|lia].
    exists (S n + k)%nat. split_and!; [lia| |intros He; specialize (Hnone He); lia].
    unfold set_contents. simpl contents. f_equal. rewrite string_app_assoc. f_equal.
    apply substring_split. lia.
  - intros Hrec. by apply IH in Hrec.
  - intros [= <- <- <-]. exists 0%nat. rewrite Hsub, Hid. split_and!; (done || lia).
  - intros [= <- <- <-]. exists 0%nat. rewrite Hsub, Hid. split_and!; (done || lia).
Qed.

(** The outcome of [append]: it returns, and a success means that the whole
    payload is in the file. *)
Lemma append_spec data file calls reads :
  exists r file' calls' reads', append data file calls reads = Some (r, file', calls', reads') /\
    (reads <= reads')%nat /\
    exists n, (n <= String.length data)%nat /\
      contents file' = contents file +:+ String.substring 0 n data /\
      (r = Expected tt -> contents file' = contents file +:+ data).
Proof.
  unfold append.
  destruct (append_loop_total (String.length data * S eintr_limit) data 0 file calls)
    as [[[e f] c] Hloop]; [by rewrite Nat.sub_0_r|].
  rewrite Hloop. simpl.
  apply append_loop_spec in Hloop as (n & Hn & -> & Hall); [|lia].
  set (f := set_contents _ file).
  assert (forall (r : expected unit string) f' rd', contents f' = contents f -> (e = None \/ r <> Expected tt) ->
    (reads <= rd')%nat ->
    (reads <= rd')%nat /\ exists n, (n <= String.length data)%nat /\
      contents f' = contents file +:+ String.substring 0 n data /\
      (r = Expected tt -> contents f' = contents file +:+ data)) as Hfin.
  { intros r f' rd' Hf' He Hrd. split; [done|]. exists n. split_and!; [lia|by rewrite Hf'|].
    intros ->. destruct He as [He|He]; [|done]. rewrite Hf'. subst f. simpl.
    specialize (Hall He). simpl in Hall. rewrite Hall. by rewrite substring_full. }
  destruct e as [e|].
  - do 4 eexists. split; [done|]. apply Hfin; [done|by right|lia].
  - assert (forall rd, (reads <= rd)%nat -> exists r file' calls' reads',
      Some (sync f c rd) = Some (r, file', calls', reads') /\ (reads <= reads')%nat /\
      contents file' = contents f) as Hsync.
    { intros rd Hrd. unfold sync. destruct (sys_fsync c); do 4 eexists;
        (split; [done|]); (split; [lia|done]). }
    destruct (bool_decide (sync_policy f = ALWAYS));
      [destruct (Hsync reads) as (? & ? & ? & ? & -> & ? & ?); [lia|]
      |destruct (bool_decide _ && _);
        [destruct (Hsync (S reads)) as (? & ? & ? & ? & -> & ? & ?); [lia|]|]];
      do 4 eexists; (split; [done|]); apply Hfin; auto.
Qed.
End AppendFacts.

(** ** Facts on reading back *)

(** The loop ends within its fuel: every parsed command takes a byte. *)
Lemma read_loop_total fuel bytes position acc :
  (String.length bytes - position <= fuel)%nat ->
  exists r, read_loop fuel bytes position acc = Some r.
Proof.
  revert position acc. induction fuel as [|fuel IH]; intros position acc Hf;
    cbn [read_loop]; (destruct (Nat.ltb_spec position (String.length bytes)) as [Hlt|Hge];
    cbn [negb]; [|eauto]); [lia|].
  destruct (parse_command _) as [r| |e] eqn:Hp; [|eauto|eauto].
  apply parse_command_bound in Hp as [Hb _].
  destruct (Nat.eqb_spec (bytes_consumed r) 0); [eauto|]. apply IH. lia.
Qed.

(** Whole frames are read off the front one by one. *)
Lemma read_loop_log cs pre tail acc fuel :
  Forall command_fits cs -> (length cs <= fuel)%nat ->
  read_loop fuel (pre +:+ log_bytes cs +:+ tail) (String.length pre) acc =
  read_loop (fuel - length cs) (pre +:+ log_bytes cs +:+ tail)
    (String.length pre + String.length (log_bytes cs)) (acc ++ cs).
Proof.
  revert pre acc fuel. induction cs as [|c cs IH]; intros pre acc fuel Hfit Hf.
  { simpl. by rewrite Nat.sub_0_r, Nat.add_0_r, app_nil_r. }
  apply Forall_cons in Hfit as [Hc Hcs]. destruct fuel as [|fuel]; simpl in Hf; [lia|].
  cbn [read_loop log_bytes foldr]. fold (log_bytes cs).
  pose proof (serialize_command_nonempty c) as Hne.
  rewrite (proj2 (Nat.ltb_lt _ _)) by (rewrite !string_length_app; lia). cbn [negb].
  rewrite drop_string_app, string_app_assoc, parse_command_frame by done.
  cbn [bytes_consumed command].
  rewrite (proj2 (Nat.eqb_neq _ 0)) by lia.
  specialize (IH (pre +:+ serialize_command c) (acc ++ [c]) fuel Hcs ltac:(lia)).
  rewrite !string_length_app, !string_app_assoc, <- app_assoc in IH. simpl in IH.
  rewrite string_length_app, IH. cbn [length]. f_equal. lia.
Qed.

Lemma commands_of_log cs tail :
  Forall command_fits cs ->
  commands_of_bytes (log_bytes cs +:+ tail) =
  read_loop (String.length (log_bytes cs +:+ tail) - length cs) (log_bytes cs +:+ tail)
    (String.length (log_bytes cs)) cs.
Proof.
  intros Hfit. unfold commands_of_bytes.
  apply (read_loop_log cs EmptyString tail []); [done|].
  rewrite string_length_app. pose proof (log_bytes_length cs). lia.
Qed.

Lemma commands_of_log_bytes cs :
  Forall command_fits cs -> commands_of_bytes (log_bytes cs) = Some (Expected cs).
Proof.
  intros Hfit. pose proof (commands_of_log cs EmptyString Hfit) as Hl.
  rewrite string_app_nil_r in Hl. rewrite Hl.
  assert ((String.length (log_bytes cs) <? String.length (log_bytes cs))%nat = false)
    as Hlt by (apply Nat.ltb_irrefl).
  destruct (_ - _)%nat; cbn [read_loop]; by rewrite Hlt.
Qed.

(** C20: the append-only file round trip.  Appending the wire form of a command
    returns whatever short or interrupted writes the kernel makes; when it
    reports success, reading the file back gives the commands it held before
    followed by this one, and when it reports an error the file still starts
    with everything it held. *)
Theorem append_then_read `{Clock, Kernel, !KernelLaws} (cs : list Command) (c : Command)
    (file : AppendOnlyFile) (calls reads : nat) :
  contents file = log_bytes cs -> Forall command_fits cs -> command_fits c ->
  exists r file' calls' reads',
    append (serialize_command c) file calls reads = Some (r, file', calls', reads') /\
    (r = Expected tt -> commands_of_bytes (contents file') = Some (Expected (cs ++ [c]))) /\
    exists rest, contents file' = log_bytes cs +:+ rest.
Proof.
  intros Hfile Hcs Hc.
  destruct (append_spec (serialize_command c) file calls reads)
    as (r & file' & calls' & reads' & Happ & _ & n & _ & Hpre & Hok).
  exists r, file', calls', reads'. split_and!; [done| |rewrite Hpre, Hfile; eauto].
  intros Hr. rewrite (Hok Hr), Hfile.
  replace (serialize_command c) with (log_bytes [c]) by (simpl; apply string_app_nil_r).
  rewrite <- log_bytes_app. apply commands_of_log_bytes.
  apply Forall_app. split; [done|]. by apply Forall_singleton.
Qed.

(** C31: a file that ends in the middle of a command, as a crash during an
    append leaves it, is refused: reading it returns an error that names the
    first byte of the torn command, whatever the prefix of its frame. *)
Theorem torn_file_refused (cs : list Command) (c : Command) (torn rest : string) :
  Forall command_fits cs -> command_fits c ->
  serialize_command c = torn +:+ rest -> torn <> EmptyString -> rest <> EmptyString ->
  commands_of_bytes (log_bytes cs +:+ torn) = Some (Unexpected
    ("Incomplete command in AOF file at byte " +:+
     to_string (Z.of_nat (String.length (log_bytes cs))))).
Proof.
  intros Hcs Hc Hsplit Htorn Hrest. rewrite commands_of_log by done.
  assert (0 < String.length torn)%nat by (destruct torn; simpl; [done|lia]).
  pose proof (log_bytes_length cs).
  destruct (_ - _)%nat as [|fuel] eqn:Hfuel; rewrite string_length_app in Hfuel; [lia|].
  cbn [read_loop]. rewrite string_length_app, (proj2 (Nat.ltb_lt _ _)) by lia. cbn [negb].
  rewrite drop_string_app. by rewrite (parse_prefix_incomplete c torn rest).
Qed.

(** ** The manifest *)

Definition no_space (s : string) : bool := all_chars (fun c => negb (is_space c)) s.

Lemma fields_from_word w s word :
  no_space w = true -> fields_from (w +:+ s) word = fields_from s (word +:+ w).
Proof.
  revert word. induction w as [|c w IH]; intros word Hw.
  - by rewrite string_app_nil_l, string_app_nil_r.
  - apply andb_true_iff in Hw as [Hc Hw]. rewrite string_app_cons. cbn [fields_from].
    apply negb_true_iff in Hc. rewrite Hc, IH by done. by rewrite string_app_assoc.
Qed.

(** A word, a space and the rest of the line. *)
Lemma fields_word w s :
  no_space w = true -> w <> EmptyString -> fields (w +:+ " " +:+ s) = w :: fields s.
Proof.
  intros Hw Hne. unfold fields. rewrite fields_from_word, string_app_nil_l by done.
  cbn [fields_from append]. simpl. by destruct (String.eqb_spec w EmptyString).
Qed.

Lemma split_on_none sep s t :
  all_chars (fun c => negb (Ascii.eqb c sep)) s = true ->
  split_on sep (s +:+ String sep t) = s :: split_on sep t.
Proof.
  induction s as [|c s IH]; intros Hs; simpl.
  - by rewrite Ascii.eqb_refl.
  - apply andb_true_iff in Hs as [Hc Hs]. apply negb_true_iff in Hc. rewrite Hc.
    rewrite IH by done. done.
Qed.

Lemma manifest_line_fields name :
  no_space name = true -> name <> EmptyString ->
  fields ("file " +:+ name +:+ " seq 1 type i") = ["file"; name; "seq"; "1"; "type"; "i"].
Proof.
  intros Hn Hne. change ("file " +:+ ?x) with ("file" +:+ " " +:+ x).
  rewrite (fields_word "file") by done. f_equal.
  change (name +:+ " seq 1 type i") with (name +:+ " " +:+ "seq 1 type i").
  by rewrite fields_word.
Qed.

Lemma fields_from_no_space s word :
  no_space word = true -> Forall (fun w => no_space w = true) (fields_from s word).
Proof.
  assert (forall w, no_space w = true ->
    Forall (fun w => no_space w = true) (if String.eqb w EmptyString then [] else [w])) as Hlast.
  { intros w Hw. destruct (String.eqb w _); [constructor|by apply Forall_singleton]. }
  revert word. induction s as [|c s IH]; intros word Hw; cbn [fields_from]; [by apply Hlast|].
  destruct (is_space c) eqn:Hc.
  - apply Forall_app. split; [by apply Hlast|by apply IH].
  - apply IH. unfold no_space in *. rewrite all_chars_app, Hw. simpl. by rewrite Hc.
Qed.

(** A file name taken from a manifest has no white space. *)
Lemma read_manifest_lines_no_space path lines active entry :
  (forall e, active = Some e -> no_space (filename e) = true) ->
  read_manifest_lines path lines active = Expected (Some entry) ->
  no_space (filename entry) = true.
Proof.
  revert active. induction lines as [|line lines IH]; intros active Hact; simpl.
  { intros [= ->]. by apply Hact. }
  destruct (read_manifest_line path line active) as [a|] eqn:Hl; [|done]. apply IH.
  intros e ->. unfold read_manifest_line in Hl.
  pose proof (fields_from_no_space line EmptyString eq_refl) as Hf. fold (fields line) in Hf.
  destruct (fields line) as [|? [|name [|? [|? [|? [|? [|]]]]]]]; try done.
  apply Forall_cons in Hf as [_ [Hname _]%Forall_cons].
  destruct (_ || _); [done|]. destruct (negb _); [simplify_eq; by apply Hact|].
  destruct (negb _); [done|]. destruct (parse_sequence _); [|done].
  destruct active as [e0|]; [destruct (_ <? _)|]; simplify_eq/=; eauto.
Qed.

Lemma first_filename_safe config :
  has_parent_path (append_filename config) = false ->
  is_safe_manifest_filename (first_filename config) = true.
Proof.
  intros Hpar. unfold is_safe_manifest_filename.
  assert (11 <= String.length (first_filename config))%nat as Hlen
    by (unfold first_filename; rewrite string_length_app; simpl; lia).
  assert (has_parent_path (first_filename config) = false) as Hp.
  { unfold has_parent_path in *. apply negb_false_iff in Hpar. unfold first_filename.
    by rewrite all_chars_app, Hpar. }
  assert (is_absolute (first_filename config) = false) as Ha.
  { unfold is_absolute, has_parent_path in *. destruct (first_filename config) as [|c s]; [done|].
    simpl in *. destruct (Ascii.eqb c slash); [done|done]. }
  rewrite Hp, Ha.
  repeat (match goal with |- context [String.eqb ?a ?b] =>
    destruct (String.eqb_spec a b) as [Heq|]; [rewrite Heq in Hlen; simpl in Hlen; lia|] end).
  done.
Qed.

(** C35: the manifest round trip.  The manifest written for an accepted file
    name names, when it is read on the next start, the file that was opened on
    the first one exactly when the file name has no white space; the command
    line parser does not ask for that, so a name such as [my log] makes a
    manifest that the server itself rejects. *)
Theorem manifest_roundtrip (config : AOFConfig) (path : string) :
  is_valid_database_filename (append_filename config) = true ->
  active_filename_of path (manifest_text config) false = Expected (first_filename config) <->
  no_space (append_filename config) = true.
Proof.
  intros Hvalid. unfold is_valid_database_filename in Hvalid.
  rewrite !andb_true_iff, !negb_true_iff in Hvalid. destruct Hvalid as [[[Hne Hpar] _] _].
  unfold active_filename_of. split.
  - destruct (read_manifest_lines _ _ None) as [[entry|]|] eqn:Hr; [|done..].
    intros [= Hname]. apply read_manifest_lines_no_space in Hr; [|done].
    rewrite Hname in Hr. unfold no_space, first_filename in Hr.
    rewrite all_chars_app, andb_true_iff in Hr. apply Hr.
  - intros Hns. set (name := first_filename config).
    assert (no_space name = true) as Hns'
      by (unfold name, first_filename, no_space in *; by rewrite all_chars_app, Hns).
    assert (name <> EmptyString) as Hne'.
    { unfold name, first_filename. by destruct (append_filename config). }
    assert (getlines (manifest_text config) = ["file " +:+ name +:+ " seq 1 type i"]) as ->.
    { unfold getlines, manifest_text. fold name. unfold newline.
      replace ("file " +:+ name +:+ " seq 1 type i" +:+ String LF EmptyString)
        with (("file " +:+ name +:+ " seq 1 type i") +:+ String LF EmptyString)
        by (by rewrite !string_app_assoc).
      rewrite split_on_none; [done|]. rewrite !all_chars_app. simpl.
      rewrite andb_true_r. apply (all_chars_impl (fun c => negb (is_space c))); [|done].
      intros c Hc. destruct (Ascii.eqb_spec c LF) as [->|]; [done|done]. }
    cbn [read_manifest_lines]. unfold read_manifest_line.
    rewrite manifest_line_fields by done. fold name.
    change (String.eqb "file" "file") with true. change (String.eqb "seq" "seq") with true.
    change (String.eqb "type" "type") with true. change (String.eqb "i" "i") with true.
    cbn [negb orb]. unfold name at 1.
    by rewrite (first_filename_safe config).
Qed.

(** ** A failed append *)

(** A disk that is full after one byte, for one call. *)
Definition full_once : Kernel := {|
  sys_write i n := match i with
                   | 0%nat => Completed (Nat.min 1 n)
                   | 1%nat => IoError "No space left on device"
                   | _ => Completed n
                   end;
  sys_pipe_broken i := false;
  sys_read i := Completed 8;
  sys_fsync i := None;
  stale_errno := "Success";
  eintr_limit := 0;
|}.

Lemma full_once_laws : @KernelLaws full_once.
Proof.
  split.
  - intros [|[|i]] n m; [|done|by intros [= <-]].
    change (Completed (Nat.min 1 n) = Completed m -> (m <= n)%nat). generalize (Nat.le_min_r 1 n).
    generalize (Nat.min 1 n). by intros k Hk [= <-].
  - intros i. exists 0%nat. split; [done|]. split; [done|].
    by intros n; destruct (i + 0)%nat as [|[|]].
Qed.

(** ** Witnesses *)

Lemma append_then_read_witness :
  exists r file' calls' reads',
    @append millisecond_clock perfect_kernel (serialize_command ["INCR"; "n"])
      (mkAppendOnlyFile "a.aof" (log_bytes [["SET"; "n"; "1"]]) ALWAYS 0) 0 0
    = Some (r, file', calls', reads') /\
    (r = Expected tt -> commands_of_bytes (contents file')
       = Some (Expected ([["SET"; "n"; "1"]] ++ [["INCR"; "n"]]))) /\
    exists rest, contents file' = log_bytes [["SET"; "n"; "1"]] +:+ rest.
Proof.
  apply (@append_then_read millisecond_clock perfect_kernel perfect_kernel_laws
    [["SET"; "n"; "1"]] ["INCR"; "n"]).
  - reflexivity.
  - apply Forall_singleton. split; [vm_compute; discriminate|].
    repeat constructor; vm_compute; discriminate.
  - split; [vm_compute; discriminate|]. repeat constructor; vm_compute; discriminate.
Defined.

Lemma torn_file_refused_witness :
  commands_of_bytes (log_bytes [["PING"]] +:+ "*2") = Some (Unexpected
    "Incomplete command in AOF file at byte 14").
Proof.
  apply (torn_file_refused [["PING"]] ["INCR"; "n"] "*2"
    (String.substring 2 40 (serialize_command ["INCR"; "n"]))).
  - apply Forall_singleton. split; [vm_compute; discriminate|].
    repeat constructor; vm_compute; discriminate.
  - split; [vm_compute; discriminate|]. repeat constructor; vm_compute; discriminate.
  - vm_compute. reflexivity.
  - discriminate.
  - vm_compute. discriminate.
Defined.

Lemma manifest_roundtrip_witness :
  (active_filename_of "m" (manifest_text default_aof_config) false
   = Expected "appendonly.aof.1.incr.aof" <-> no_space "appendonly.aof" = true) /\
  (active_filename_of "m" (manifest_text (mkAOFConfig true "d" "my log" "no")) false
   = Expected "my log.1.incr.aof" <-> no_space "my log" = true).
Proof.
  split.
  - apply (manifest_roundtrip default_aof_config "m"). reflexivity.
  - apply (manifest_roundtrip (mkAOFConfig true "d" "my log" "no") "m"). reflexivity.
Defined.
