(* ===== verification/TornAppend.v ===== *)
(** * Appending after an append that failed (src/aof.cpp, [append], [read_commands])

    Nothing takes back the bytes of an append that failed.  The next one lands
    right behind them, and this file says what the reader makes of that: the file
    is refused when the torn frame ends anywhere but inside the bytes of an
    argument, and then the argument swallows the frame that follows. *)

From stdpp Require Import base option list strings.
From Stdlib Require Import ZArith Lia.
From S2P Require Import Prelude CharConv Environment Resp Config Aof.

(** ** Where a frame can be torn *)

Definition header_line (c : Command) : string :=
  String asterisk (to_string (Z.of_nat (length c)) +:+ crlf).

Definition length_line (a : string) : string :=
  String dollar (to_string (size_of a) +:+ crlf).

(** The torn frame ends in the header, in the length line of an argument, or
    between the bytes of an argument and the end of its CRLF. *)
Inductive tear_outside (c : Command) : string -> Prop :=
| tear_in_header q x :
    header_line c = q +:+ x -> q <> EmptyString -> x <> EmptyString -> tear_outside c q
| tear_in_length args a rest q x :
    c = args ++ a :: rest -> length_line a = q +:+ x -> x <> EmptyString ->
    tear_outside c (header_line c +:+ argument_frames args +:+ q)
| tear_after_argument args a rest q x :
    c = args ++ a :: rest -> crlf = q +:+ x -> x <> EmptyString ->
    tear_outside c (header_line c +:+ argument_frames args +:+ length_line a +:+ a +:+ q).

(** It ends where bytes of an argument are still missing. *)
Inductive tear_inside (c : Command) : string -> Prop :=
| tear_in_argument args a rest q x :
    c = args ++ a :: rest -> a = q +:+ x -> x <> EmptyString ->
    tear_inside c (header_line c +:+ argument_frames args +:+ length_line a +:+ q).

Lemma string_app_split (s t u v : string) :
  s +:+ t = u +:+ v ->
  (exists w, s = u +:+ w /\ v = w +:+ t) \/ (exists w, u = s +:+ w /\ w <> EmptyString /\ t = w +:+ v).
Proof.
  revert u. induction s as [|c s IH]; intros u Heq.
  - destruct u as [|d u]; [left; by exists EmptyString|].
    right. exists (String d u). by rewrite string_app_nil_l in Heq |- *.
  - destruct u as [|d u]; [left; by exists (String c s)|].
    rewrite !string_app_cons in Heq. injection Heq as -> [(w & -> & ->)|(w & -> & ? & ->)]%IH.
    + left. by exists w.
    + right. by exists w.
Qed.

Lemma argument_frames_snoc args a :
  argument_frames (args ++ [a]) = argument_frames args +:+ length_line a +:+ a +:+ crlf.
Proof.
  induction args as [|b args IH].
  - cbn [argument_frames foldr app]. rewrite bulk_frame_unfold. unfold length_line.
    by rewrite !string_app_nil_l, string_app_nil_r, string_app_cons, !string_app_assoc.
  - cbn [argument_frames foldr app]. fold (argument_frames (args ++ [a])).
    by rewrite IH, string_app_assoc.
Qed.

(** Every proper prefix of a frame is torn at one of these places. *)
Lemma frames_tear c args rest q x :
  c = args ++ rest -> argument_frames rest = q +:+ x -> x <> EmptyString ->
  let torn := header_line c +:+ argument_frames args +:+ q in
  tear_outside c torn \/ tear_inside c torn.
Proof.
  revert args q. induction rest as [|a rest IH]; intros args q Hc Hq Hx; cbn zeta.
  { simpl in Hq. destruct q; [by destruct x|done]. }
  assert (argument_frames (a :: rest)
    = length_line a +:+ a +:+ crlf +:+ argument_frames rest) as Hf.
  { cbn [argument_frames foldr]. rewrite bulk_frame_unfold. unfold length_line.
    by rewrite !string_app_cons, !string_app_assoc. }
  rewrite Hf in Hq.
  apply string_app_split in Hq as [(w & Hw & ->)|(w & -> & _ & Hq)].
  { destruct w as [|b w].
    - rewrite string_app_nil_r in Hw. subst q.
      destruct (decide (a = EmptyString)) as [->|Ha].
      + left. pose proof (tear_after_argument c args EmptyString rest EmptyString crlf Hc eq_refl)
          as Ht. rewrite !string_app_nil_l, !string_app_nil_r in Ht. by apply Ht.
      + right. pose proof (tear_in_argument c args a rest EmptyString a Hc eq_refl Ha) as Ht.
        by rewrite string_app_nil_r in Ht.
    - left. by eapply tear_in_length. }
  apply string_app_split in Hq as [(y & -> & ->)|(y & -> & _ & Hq)].
  { destruct y as [|b y].
    - left. rewrite string_app_nil_r in *.
      pose proof (tear_after_argument c args w rest EmptyString crlf Hc eq_refl) as Ht.
      rewrite string_app_nil_r in Ht. by apply Ht.
    - right. by eapply tear_in_argument. }
  apply string_app_split in Hq as [(z & Hz & ->)|(z & -> & _ & Hq)].
  { destruct z as [|b z].
    - rewrite string_app_nil_r in Hz. subst y.
      specialize (IH (args ++ [a]) EmptyString). rewrite <- app_assoc in IH.
      rewrite string_app_nil_r, argument_frames_snoc in IH. by apply IH.
    - left. by eapply tear_after_argument. }
  specialize (IH (args ++ [a]) z). rewrite <- app_assoc in IH.
  rewrite argument_frames_snoc, !string_app_assoc in IH. by apply IH.
Qed.

Lemma frame_tear c torn rest :
  serialize_command c = torn +:+ rest -> torn <> EmptyString -> rest <> EmptyString ->
  tear_outside c torn \/ tear_inside c torn.
Proof.
  intros Hs Htorn Hrest. rewrite serialize_command_layout in Hs. fold (header_line c) in Hs.
  apply string_app_split in Hs as [(w & Hw & ->)|(w & -> & _ & Hq)].
  - destruct w as [|b w]; [|left; by eapply tear_in_header].
    rewrite string_app_nil_r in Hw. subst torn.
    pose proof (frames_tear c [] c EmptyString (argument_frames c) eq_refl eq_refl) as Ht.
    cbn [argument_frames foldr] in Ht. rewrite !string_app_nil_r in Ht. by apply Ht.
  - apply (frames_tear c [] c w rest eq_refl Hq Hrest).
Qed.

(** ** What the parser makes of the torn frame and the one behind it *)

(** No carriage return of the line is followed by a line feed. *)
Fixpoint no_crlf (line : string) : bool :=
  match line with
  | EmptyString => true
  | String c line' =>
      (not_cr c || match line' with String d _ => negb (Ascii.eqb d LF) | EmptyString => true end)
      && no_crlf line'
  end.

Lemma read_line_no_crlf p line rest :
  no_crlf line = true ->
  read_line (p +:+ line +:+ crlf +:+ rest) (String.length p) =
  Some (line, (String.length p + String.length line + 2)%nat).
Proof.
  intros Hl. unfold read_line.
  assert (String.index (String.length p) crlf (p +:+ line +:+ crlf +:+ rest)
          = Some (String.length p + String.length line)%nat) as ->.
  { induction p as [|c p IH].
    - rewrite string_app_nil_l. induction line as [|c line IH].
      + unfold crlf. rewrite !string_app_cons, !string_app_nil_l. simpl. by destruct rest.
      + simpl in Hl. apply andb_true_iff in Hl as [Hc Hl]. rewrite string_app_cons.
        specialize (IH Hl). cbn [String.index String.length] in *. rewrite IH.
        destruct (String.prefix crlf _) eqn:Hp; [|done]. exfalso. revert Hc Hp. unfold crlf.
        cbn [String.prefix]. destruct (Ascii.ascii_dec CR c) as [<-|]; [|done].
        destruct line as [|d line]; [done|]. rewrite string_app_cons. cbn [String.prefix].
        destruct (Ascii.ascii_dec LF d) as [<-|]; [|done].
        unfold not_cr. by rewrite !Ascii.eqb_refl.
    - rewrite string_app_cons. cbn [String.index String.length]. by rewrite IH. }
  replace (String.length p + String.length line - String.length p)%nat
    with (String.length line) by lia.
  by rewrite substring_app_mid.
Qed.

Lemma no_crlf_app s t :
  all_chars not_cr s = true -> no_crlf t = true -> no_crlf (s +:+ t) = true.
Proof.
  intros Hs Ht. induction s as [|c s IH]; [done|]. simpl in Hs.
  apply andb_true_iff in Hs as [Hc Hs]. rewrite string_app_cons. simpl. by rewrite Hc, IH.
Qed.

Lemma all_not_cr_no_crlf s : all_chars not_cr s = true -> no_crlf s = true.
Proof.
  intros Hs. rewrite <- (string_app_nil_r s). by apply no_crlf_app.
Qed.

(** A line with an asterisk in it is no length. *)
Lemma parse_length_asterisk s t :
  parse_length (s +:+ String asterisk t)
  = Unexpected (mkParseError INVALID_LENGTH "Invalid RESP length").
Proof.
  unfold parse_length. destruct (String.eqb _ EmptyString); [done|].
  destruct (conversion_failed _ _) eqn:Hc; [done|].
  apply from_chars_unsigned_digits in Hc. rewrite all_chars_app in Hc.
  apply andb_true_iff in Hc as [_ Hc]. by vm_compute in Hc.
Qed.

(** A proper prefix of a line of digits: the digits it starts with, and maybe
    the carriage return. *)
Lemma line_prefix d q x :
  all_chars not_cr d = true -> d +:+ crlf = q +:+ x -> x <> EmptyString ->
  exists d', all_chars not_cr d' = true /\ (q = d' \/ q = d' +:+ String CR EmptyString).
Proof.
  intros Hd Hq Hx. apply string_app_split in Hq as [(w & -> & _)|(w & -> & Hw & Hq)].
  - rewrite all_chars_app in Hd. apply andb_true_iff in Hd as [Hd _]. exists q. auto.
  - exists d. split; [done|]. right. f_equal. destruct w as [|c w]; [done|].
    injection Hq as <- Hq. destruct w as [|c w]; [done|]. injection Hq as _ Hq.
    by destruct w, x.
Qed.

Section Torn.
Context (c' : Command) (more : string).

(** The frame behind the tear and all that follows. *)
Definition behind : string := serialize_command c' +:+ more.

Lemma behind_layout :
  behind = (String asterisk (to_string (Z.of_nat (length c')))) +:+ crlf
             +:+ argument_frames c' +:+ more.
Proof.
  unfold behind. rewrite serialize_command_layout. by rewrite !string_app_cons, !string_app_assoc.
Qed.

Lemma behind_long : (2 <= String.length behind)%nat.
Proof. rewrite behind_layout, !string_length_app. simpl. lia. Qed.

(** A torn line of digits merges with the header behind it. *)
Lemma read_torn_line p d q x :
  all_chars not_cr d = true -> d +:+ crlf = q +:+ x -> x <> EmptyString ->
  exists s t n, read_line (p +:+ q +:+ behind) (String.length p)
    = Some (s +:+ String asterisk t, n).
Proof.
  intros Hd Hq Hx. destruct (line_prefix d q x Hd Hq Hx) as (d' & Hd' & Hcase).
  set (t := to_string (Z.of_nat (length c'))).
  assert (all_chars not_cr (String asterisk t) = true) as Ht by (simpl; apply to_string_no_cr).
  assert (no_crlf (q +:+ String asterisk t) = true) as Hno.
  { destruct Hcase as [-> | ->].
    - apply no_crlf_app; [done|]. by apply all_not_cr_no_crlf.
    - rewrite string_app_assoc. apply no_crlf_app; [done|].
      rewrite string_app_cons, string_app_nil_l.
      change (no_crlf (String asterisk t) = true). by apply all_not_cr_no_crlf. }
  exists q, t. eexists. rewrite behind_layout. fold t.
  replace (q +:+ String asterisk t +:+ crlf +:+ argument_frames c' +:+ more)
    with ((q +:+ String asterisk t) +:+ crlf +:+ argument_frames c' +:+ more)
    by apply string_app_assoc.
  by rewrite read_line_no_crlf.
Qed.

(** The argument at the tear is rejected. *)
Lemma torn_length_rejected p a q x :
  length_line a = q +:+ x -> x <> EmptyString ->
  exists e, parse_argument (p +:+ q +:+ behind) (String.length p) = ArgumentFailed e.
Proof.
  intros Hq Hx. unfold parse_argument. pose proof behind_long as Hlong.
  rewrite (proj2 (Nat.leb_gt _ _)) by (rewrite !string_length_app; lia).
  destruct q as [|b q].
  - rewrite string_app_nil_l, behind_layout, string_app_cons.
    assert (char_at (p +:+ String asterisk (to_string (Z.of_nat (length c')) +:+ crlf +:+
      argument_frames c' +:+ more)) (String.length p) dollar = false) as ->.
    { unfold char_at. rewrite <- (Nat.add_0_r (String.length p)), get_app_r. done. }
    by eexists.
  - unfold length_line in Hq. rewrite string_app_cons in Hq. injection Hq as <- Hq.
    rewrite string_app_cons, char_at_after. cbn [negb].
    destruct (read_torn_line (p +:+ String dollar EmptyString) _ q x (to_string_no_cr _) Hq Hx)
      as (s & t & n & Hr).
    rewrite string_app_assoc, string_app_cons, string_app_nil_l, string_length_app in Hr.
    cbn [String.length] in Hr. rewrite Nat.add_1_r in Hr. rewrite Hr, parse_length_asterisk.
    by eexists.
Qed.

Lemma torn_crlf_rejected p a q x :
  argument_fits a -> crlf = q +:+ x -> x <> EmptyString ->
  exists e, parse_argument (p +:+ length_line a +:+ a +:+ q +:+ behind) (String.length p)
    = ArgumentFailed e.
Proof.
  intros Hfit Hq Hx. unfold parse_argument. pose proof behind_long as Hlong.
  set (input := p +:+ length_line a +:+ a +:+ q +:+ behind).
  assert (String.length (length_line a) = String.length (to_string (size_of a)) + 3)%nat as Hll.
  { unfold length_line. cbn [String.length]. rewrite string_length_app. simpl. lia. }
  rewrite (proj2 (Nat.leb_gt _ _)) by (unfold input; rewrite !string_length_app; lia).
  assert (char_at input (String.length p) dollar = true) as ->.
  { unfold input, length_line. rewrite string_app_cons. apply char_at_after. }
  assert (read_line input (S (String.length p))
    = Some (to_string (size_of a), String.length (p +:+ length_line a))) as ->.
  { unfold input, length_line. rewrite string_app_cons, string_app_assoc.
    pose proof (read_line_after (p +:+ String dollar EmptyString) (to_string (size_of a))
      (a +:+ q +:+ behind) (to_string_no_cr _)) as Hr.
    rewrite string_app_assoc, string_app_cons, string_app_nil_l, string_length_app in Hr.
    cbn [String.length] in Hr. rewrite Nat.add_1_r in Hr. rewrite Hr. do 2 f_equal.
    rewrite string_length_app. cbn [String.length]. rewrite string_length_app. simpl. lia. }
  cbn [negb]. rewrite parse_length_to_string by (unfold argument_fits, size_of in *; lia).
  replace (Z.to_nat (size_of a)) with (String.length a) by (unfold size_of; lia).
  rewrite (proj2 (Z.ltb_ge _ _))
    by (unfold input, size_of; rewrite !string_length_app; lia).
  rewrite (proj2 (Nat.ltb_ge _ _)) by (unfold input; rewrite !string_length_app; lia).
  assert (negb (char_at input (String.length (p +:+ length_line a) + String.length a) CR)
    || negb (char_at input (S (String.length (p +:+ length_line a) + String.length a)) LF) = true)
    as ->; [|by eexists].
  set (pre := (p +:+ length_line a) +:+ a).
  assert (input = pre +:+ q +:+ behind) as -> by (unfold input, pre; by rewrite !string_app_assoc).
  rewrite <- string_length_app. fold pre.
  assert (forall n c, char_at (pre +:+ q +:+ behind) (String.length pre + n) c
    = char_at (q +:+ behind) n c) as Hat by (intros; unfold char_at; by rewrite get_app_r).
  pose proof (Hat 0%nat CR) as H0. pose proof (Hat 1%nat LF) as H1.
  rewrite Nat.add_0_r in H0. rewrite Nat.add_1_r in H1. rewrite H0, H1, behind_layout.
  apply orb_true_iff. destruct q as [|b q]; [by left|]. right.
  injection Hq as <- Hq. destruct q as [|b q]; [done|].
  injection Hq as <- Hq. by destruct q, x.
Qed.

(** Whole arguments and then a rejected one. *)
Lemma parse_arguments_rejected fuel args p s n i cmd :
  Forall argument_fits args -> (length args < fuel)%nat -> i + Z.of_nat (length args) < n ->
  (exists e, parse_argument (p +:+ argument_frames args +:+ s)
     (String.length (p +:+ argument_frames args)) = ArgumentFailed e) ->
  exists e, Resp.parse_arguments fuel (p +:+ argument_frames args +:+ s) n i (String.length p) cmd
    = Some (Failed e).
Proof.
  revert fuel p i cmd. induction args as [|a args IH]; intros fuel p i cmd Hfit Hf Hn [e He];
    (destruct fuel as [|fuel]; simpl in Hf; [lia|]); cbn [Resp.parse_arguments];
    rewrite (proj2 (Z.ltb_lt _ _)) by (simpl in Hn; lia).
  - cbn [argument_frames foldr] in He |- *. rewrite string_app_nil_r in He. rewrite He.
    by eexists.
  - apply Forall_cons in Hfit as [Ha Hargs]. cbn [argument_frames foldr] in He |- *.
    fold (argument_frames args) in He |- *. rewrite !string_app_assoc in He |- *.
    rewrite parse_argument_frame by done.
    rewrite <- string_length_app, <- string_app_assoc.
    apply IH; [done|lia|simpl in Hn; lia|].
    exists e. by rewrite string_app_assoc, !string_length_app, Nat.add_assoc in *.
Qed.

Lemma parse_command_rejected c args a rest s :
  command_fits c -> c = args ++ a :: rest ->
  (forall p, exists e, parse_argument (p +:+ s) (String.length p) = ArgumentFailed e) ->
  exists e, parse_command (header_line c +:+ argument_frames args +:+ s) = Failed e.
Proof.
  intros [Hlen Hfits] Hc Hs. set (input := header_line c +:+ argument_frames args +:+ s).
  assert (exists e, parse_command_loop input = Some (Failed e)) as [e He];
    [|exists e; by apply parse_command_spec].
  assert (read_line input 1 = Some (to_string (Z.of_nat (length c)), String.length (header_line c)))
    as Hr.
  { unfold input, header_line. rewrite string_app_cons, string_app_assoc.
    change (read_line (String asterisk EmptyString +:+ to_string (Z.of_nat (length c)) +:+ crlf
              +:+ argument_frames args +:+ s) (String.length (String asterisk EmptyString)) =
            Some (to_string (Z.of_nat (length c)),
                  String.length (String asterisk (to_string (Z.of_nat (length c)) +:+ crlf)))).
    rewrite read_line_after by apply to_string_no_cr. cbn [String.length].
    by rewrite string_length_app. }
  unfold parse_command_loop. rewrite Hr, parse_length_to_string by lia.
  change (String.eqb input EmptyString) with false. change (char_at input 0 asterisk) with true.
  cbn [negb]. unfold input. apply parse_arguments_rejected.
  - subst c. by apply Forall_app in Hfits as [? _].
  - assert (length args <= String.length (argument_frames args))%nat.
    { clear. induction args as [|b args IH]; [simpl; lia|]. cbn [argument_frames foldr length].
      fold (argument_frames args). rewrite string_length_app, bulk_frame_length. lia. }
    rewrite !string_length_app. lia.
  - subst c. rewrite length_app. simpl. lia.
  - rewrite <- string_app_assoc. apply Hs.
Qed.

Lemma tear_outside_rejected c torn :
  command_fits c -> tear_outside c torn ->
  exists e, parse_command (torn +:+ behind) = Failed e.
Proof.
  intros Hfit [q x Hq Hne Hx|args a rest q x Hc Hq Hx|args a rest q x Hc Hq Hx].
  - destruct q as [|b q]; [done|]. unfold header_line in Hq. rewrite string_app_cons in Hq.
    injection Hq as <- Hq.
    destruct (read_torn_line (String asterisk EmptyString) _ q x (to_string_no_cr _) Hq Hx)
      as (s & t & n & Hr).
    rewrite string_app_cons, string_app_nil_l in Hr. cbn [String.length] in Hr.
    rewrite string_app_cons. eexists. apply parse_command_spec. unfold parse_command_loop.
    rewrite Hr, parse_length_asterisk. reflexivity.
  - rewrite !string_app_assoc. apply (parse_command_rejected c args a rest); [done..|].
    intros p. by eapply torn_length_rejected.
  - rewrite !string_app_assoc. apply (parse_command_rejected c args a rest); [done..|].
    intros p. eapply torn_crlf_rejected; [|done..].
    subst c. destruct Hfit as [_ Hfits]. apply Forall_app in Hfits as [_ Hfits].
    by inversion Hfits.
Qed.
End Torn.

(** ** The append that failed and the next one *)

(** C32: a failed append spoils the file.  Nothing takes back the bytes of an
    append that failed after some of them and before all of them; a later append
    that succeeds puts its command right behind them, whatever short or
    interrupted writes either met.  Unless the torn frame ends inside the bytes
    of an argument, the file is refused from then on, however much is appended,
    at the byte where the failed append began, so the commands acknowledged after
    the failure are lost at the next start. *)
Theorem failed_append_spoils_file `{Clock, Kernel, !KernelLaws} (cs : list Command)
    (c c' : Command) (file file1 file2 : AppendOnlyFile) (e : string)
    (calls reads calls1 reads1 calls2 reads2 calls3 reads3 : nat) :
  contents file = log_bytes cs -> Forall command_fits cs -> command_fits c ->
  append (serialize_command c) file calls reads = Some (Unexpected e, file1, calls1, reads1) ->
  contents file1 <> contents file ->
  contents file1 <> contents file +:+ serialize_command c ->
  append (serialize_command c') file1 calls2 reads2 = Some (Expected tt, file2, calls3, reads3) ->
  exists torn, contents file2 = log_bytes cs +:+ torn +:+ serialize_command c' /\
    (tear_inside c torn \/
     tear_outside c torn /\
     forall more, exists problem, commands_of_bytes (contents file2 +:+ more) = Some (Unexpected
       ("Invalid command in AOF file at byte " +:+
        to_string (Z.of_nat (String.length (log_bytes cs))) +:+ ": " +:+ problem))).
Proof.
  intros Hfile Hcs Hc Hfail Hsome Hall Hnext.
  destruct (append_spec (serialize_command c) file calls reads)
    as (r & f1 & ? & ? & Happ & _ & n & Hn & Hpre & _). rewrite Happ in Hfail.
  injection Hfail as -> -> _ _.
  destruct (append_spec (serialize_command c') file1 calls2 reads2)
    as (r2 & f2 & ? & ? & Happ2 & _ & _ & _ & _ & Hok). rewrite Happ2 in Hnext.
  injection Hnext as -> -> _ _. specialize (Hok eq_refl).
  set (torn := String.substring 0 n (serialize_command c)) in *.
  assert (serialize_command c = torn +:+ String.substring n (String.length (serialize_command c) - n)
    (serialize_command c)) as Hsplit.
  { unfold torn. pose proof (substring_split (serialize_command c) 0 n
      (String.length (serialize_command c) - n) ltac:(lia)) as Hs. cbn [Nat.add] in Hs.
    rewrite Hs. replace (n + _)%nat with (String.length (serialize_command c)) by lia.
    by rewrite substring_full. }
  exists torn. split; [by rewrite Hok, Hpre, Hfile, string_app_assoc|].
  destruct (frame_tear c torn _ Hsplit) as [Hout|Hin]; [| |right|by left].
  - intros Hempty. apply Hsome. by rewrite Hpre, Hempty, string_app_nil_r.
  - intros Hempty. rewrite Hempty, string_app_nil_r in Hsplit. apply Hall. congruence.
  - split; [done|]. intros more.
    destruct (tear_outside_rejected c' more c torn Hc Hout) as [problem Hrej].
    exists (message problem). unfold behind in Hrej.
    rewrite Hok, Hpre, Hfile, !string_app_assoc, commands_of_log by done.
    pose proof (log_bytes_length cs). pose proof (serialize_command_nonempty c').
    destruct (String.length (_ +:+ _) - length cs)%nat as [|fuel] eqn:Hfuel;
      rewrite !string_length_app in Hfuel; [lia|].
    cbn [read_loop]. rewrite !string_length_app, (proj2 (Nat.ltb_lt _ _)) by lia. cbn [negb].
    by rewrite drop_string_app, Hrej.
Qed.

(** ** Examples *)

(** Torn inside an argument, the frame behind it can complete the argument: the
    second command is lost, the first one, answered with an error, is back with
    another value, and the file is accepted. *)
Example tear_inside_swallows :
  let torn := header_line ["SET"; "k"; "nineteen bytes here"]
              +:+ argument_frames ["SET"; "k"] +:+ length_line "nineteen bytes here" +:+ EmptyString in
  tear_inside ["SET"; "k"; "nineteen bytes here"] torn /\
  commands_of_bytes (torn +:+ serialize_command ["INCR"; "n"])
  = Some (Expected [["SET"; "k"; String.substring 0 19 (serialize_command ["INCR"; "n"])]]).
Proof.
  split; [|vm_compute; reflexivity].
  by apply (tear_in_argument _ ["SET"; "k"] "nineteen bytes here" [] EmptyString
           "nineteen bytes here").
Qed.

(** ** Witness *)

Lemma failed_append_spoils_file_witness :
  let file := mkAppendOnlyFile "a.aof" (log_bytes [["SET"; "n"; "1"]]) ALWAYS 0 in
  let file1 := set_contents (log_bytes [["SET"; "n"; "1"]] +:+ "*") file in
  let incr := serialize_command ["INCR"; "n"] in
  (exists e, @append millisecond_clock full_once incr file 0 0
     = Some (Unexpected e, file1, 2%nat, 0%nat)) /\
  exists file2, @append millisecond_clock full_once incr file1 2 0
     = Some (Expected tt, file2, 4%nat, 1%nat) /\
  exists torn, contents file2 = log_bytes [["SET"; "n"; "1"]] +:+ torn +:+ incr /\
    (tear_inside ["INCR"; "n"] torn \/
     tear_outside ["INCR"; "n"] torn /\
     forall more, exists problem, commands_of_bytes (contents file2 +:+ more) = Some (Unexpected
       ("Invalid command in AOF file at byte " +:+
        to_string (Z.of_nat (String.length (log_bytes [["SET"; "n"; "1"]]))) +:+ ": "
        +:+ problem))).
Proof.
  cbn zeta. split; [eexists; vm_compute; reflexivity|].
  eexists. split; [vm_compute; reflexivity|].
  eapply (@failed_append_spoils_file millisecond_clock full_once full_once_laws
    [["SET"; "n"; "1"]] ["INCR"; "n"] ["INCR"; "n"]
    (mkAppendOnlyFile "a.aof" (log_bytes [["SET"; "n"; "1"]]) ALWAYS 0)
    (set_contents (log_bytes [["SET"; "n"; "1"]] +:+ "*")
      (mkAppendOnlyFile "a.aof" (log_bytes [["SET"; "n"; "1"]]) ALWAYS 0)) _ _ 0 0 2 0 2 0 4 1).
  - reflexivity.
  - apply Forall_singleton. split; [vm_compute; discriminate|].
    repeat constructor; vm_compute; discriminate.
  - split; [vm_compute; discriminate|]. repeat constructor; vm_compute; discriminate.
  - vm_compute. reflexivity.
  - vm_compute. discriminate.
  - vm_compute. discriminate.
  - vm_compute. reflexivity.
Defined.
