(* ===== verification/AofHandle.v ===== *)
(** * Who owns the descriptor of the append-only file
    (src/aof.cpp, the constructor, the destructor and the moves of
    [AppendOnlyFile])

    The object is moved from [open] to the server, into a task, and into the
    processor.  The objects are named by their addresses; each holds a
    descriptor or -1. *)

From stdpp Require Import base option list gmap relations.
From Stdlib Require Import ZArith Lia.
From S2P Require Import Prelude.

(** The objects, the open descriptors, and whether [close] was ever called on
    one that was not open. *)
Record Handles := mkHandles {
  objects : gmap nat Z;
  open_files : gset Z;
  closed_twice : bool;
}.

Definition close_file (fd : Z) (h : Handles) : Handles :=
  mkHandles (objects h) (open_files h ∖ {[fd]})
    (closed_twice h || bool_decide (fd ∉ open_files h)).

(** [AppendOnlyFile(int, path, SyncPolicy)], on a descriptor just opened. *)
Definition construct (a : nat) (fd : Z) (h : Handles) : Handles :=
  mkHandles (<[a := fd]> (objects h)) ({[fd]} ∪ open_files h) (closed_twice h).

Definition move_construct (a other : nat) (h : Handles) : option Handles :=
  fd ← objects h !! other;
  Some (mkHandles (<[a := fd]> (<[other := -1]> (objects h))) (open_files h) (closed_twice h)).

Definition move_assign (a other : nat) (h : Handles) : option Handles :=
  fd ← objects h !! a;
  source ← objects h !! other;
  if decide (a = other) then Some h else
  let h := if 0 <=? fd then close_file fd h else h in
  Some (mkHandles (<[a := source]> (<[other := -1]> (objects h))) (open_files h) (closed_twice h)).

Definition destruct_handle (a : nat) (h : Handles) : option Handles :=
  fd ← objects h !! a;
  let h := if 0 <=? fd then close_file fd h else h in
  Some (mkHandles (delete a (objects h)) (open_files h) (closed_twice h)).

(** What the program does with the objects: a new one has an address of its
    own, and [open] answers with a descriptor that is not in use. *)
Inductive handle_step (h : Handles) : Handles -> Prop :=
| handle_construct a fd :
    objects h !! a = None -> 0 <= fd -> fd ∉ open_files h -> handle_step h (construct a fd h)
| handle_move_construct a other h' :
    objects h !! a = None -> move_construct a other h = Some h' -> handle_step h h'
| handle_move_assign a other h' : move_assign a other h = Some h' -> handle_step h h'
| handle_destruct a h' : destruct_handle a h = Some h' -> handle_step h h'.

Definition no_handles : Handles := mkHandles ∅ ∅ false.

(** Each open descriptor is that of exactly one object. *)
Record owned (h : Handles) : Prop := {
  owned_once : closed_twice h = false;
  owned_open : forall a fd, objects h !! a = Some fd -> 0 <= fd -> fd ∈ open_files h;
  owned_held : forall fd, fd ∈ open_files h -> 0 <= fd /\ exists a, objects h !! a = Some fd;
  owned_unique : forall a b fd, objects h !! a = Some fd -> objects h !! b = Some fd -> 0 <= fd -> a = b;
}.

(** A descriptor goes from one object to another, which had none. *)
Lemma owned_transfer a other fd h :
  a <> other -> objects h !! other = Some fd ->
  (forall old, objects h !! a = Some old -> old < 0) -> owned h ->
  owned (mkHandles (<[a := fd]> (<[other := -1]> (objects h))) (open_files h) (closed_twice h)).
Proof.
  intros Hne Ho Ha [Honce Hopen Hheld Huniq].
  assert (forall b x, <[a := fd]> (<[other := -1]> (objects h)) !! b = Some x -> 0 <= x ->
    (b = a /\ x = fd) \/ (b <> a /\ b <> other /\ objects h !! b = Some x)) as Hcases.
  { intros b x Hb Hx. destruct (decide (b = a)) as [->|Hba].
    - left. rewrite lookup_insert_eq in Hb. by injection Hb as ->.
    - right. rewrite lookup_insert_ne in Hb by done. destruct (decide (b = other)) as [->|Hbo].
      + rewrite lookup_insert_eq in Hb. injection Hb as <-. lia.
      + by rewrite lookup_insert_ne in Hb. }
  split; cbn; try done.
  - intros b x Hb Hx. destruct (Hcases b x Hb Hx) as [[-> ->]|(_ & _ & Hb')]; by eapply Hopen.
  - intros x Hx. destruct (Hheld x Hx) as [Hpos [b Hb]]. split; [done|].
    destruct (decide (b = other)) as [->|Hbo].
    + exists a. rewrite lookup_insert_eq. congruence.
    + exists b. destruct (decide (b = a)) as [->|Hba]; [by specialize (Ha x Hb); lia|].
      by rewrite !lookup_insert_ne.
  - intros b c x Hb Hc Hx.
    destruct (Hcases b x Hb Hx) as [[-> ->]|(Hba & Hbo & Hb')],
      (Hcases c _ Hc Hx) as [[-> Heq]|(Hca & Hco & Hc')]; try done.
    + destruct Hco. by apply (Huniq c other fd).
    + subst x. destruct Hbo. by apply (Huniq b other fd).
    + by apply (Huniq b c x).
Qed.

(** An object closes its descriptor and holds none any more. *)
Lemma owned_close a fd h x :
  objects h !! a = Some fd -> 0 <= fd -> x < 0 -> owned h ->
  owned (mkHandles (<[a := x]> (objects h)) (open_files (close_file fd h))
    (closed_twice (close_file fd h))).
Proof.
  intros Ha Hfd Hx [Honce Hopen Hheld Huniq].
  assert (forall b y, <[a := x]> (objects h) !! b = Some y -> 0 <= y ->
    b <> a /\ objects h !! b = Some y /\ y <> fd) as Hcases.
  { intros b y Hb Hy. destruct (decide (b = a)) as [->|Hne].
    - rewrite lookup_insert_eq in Hb. injection Hb as <-. lia.
    - rewrite lookup_insert_ne in Hb by done. split; [done|]. split; [done|]. intros ->.
      destruct Hne. by apply (Huniq b a fd). }
  split; cbn.
  - rewrite Honce. apply bool_decide_eq_false. intros Hn. destruct Hn. by apply (Hopen a).
  - intros b y Hb Hy. destruct (Hcases b y Hb Hy) as (_ & Hb' & Hne).
    apply elem_of_difference. split; [by apply (Hopen b)|set_solver].
  - intros y [Hy Hne]%elem_of_difference. destruct (Hheld y Hy) as [Hpos [b Hb]]. split; [done|].
    exists b. rewrite lookup_insert_ne; [done|]. intros ->. set_solver.
  - intros b c y Hb Hc Hy. destruct (Hcases b y Hb Hy) as (_ & Hb' & _).
    destruct (Hcases c y Hc Hy) as (_ & Hc' & _). by apply (Huniq b c y).
Qed.

Lemma owned_delete a h :
  (forall fd, objects h !! a = Some fd -> fd < 0) -> owned h ->
  owned (mkHandles (delete a (objects h)) (open_files h) (closed_twice h)).
Proof.
  intros Ha [Honce Hopen Hheld Huniq]. split; cbn; try done.
  - intros b fd [_ Hb]%lookup_delete_Some. by apply (Hopen b).
  - intros fd Hfd. destruct (Hheld fd Hfd) as [Hpos [b Hb]]. split; [done|]. exists b.
    rewrite lookup_delete_ne; [done|]. intros ->. specialize (Ha fd Hb). lia.
  - intros b c fd [_ Hb]%lookup_delete_Some [_ Hc]%lookup_delete_Some. by apply (Huniq b c).
Qed.

Lemma owned_construct a fd h :
  objects h !! a = None -> 0 <= fd -> fd ∉ open_files h -> owned h -> owned (construct a fd h).
Proof.
  intros Ha Hfd Hnew [Honce Hopen Hheld Huniq]. split; cbn; try done.
  - intros b x Hb Hx. apply lookup_insert_Some in Hb as [[_ <-]|[_ Hb]]; [set_solver|].
    apply elem_of_union. right. by apply (Hopen b).
  - intros x [Hx|Hx]%elem_of_union.
    + apply elem_of_singleton in Hx as ->. split; [done|]. exists a. by rewrite lookup_insert_eq.
    + destruct (Hheld x Hx) as [Hpos [b Hb]]. split; [done|]. exists b.
      rewrite lookup_insert_ne; [done|]. intros ->. congruence.
  - intros b c x Hb Hc Hx.
    apply lookup_insert_Some in Hb as [[<- <-]|[Hab Hb]], Hc as [[<- Heq]|[Hac Hc]]; try done.
    + destruct Hnew. by apply (Hopen c).
    + subst x. destruct Hnew. by apply (Hopen b).
    + by apply (Huniq b c x).
Qed.

(** The descriptor of an object, if it has one, is closed. *)
Lemma owned_release a fd h :
  objects h !! a = Some fd -> owned h ->
  exists h1, owned h1 /\ objects h1 = (if 0 <=? fd then <[a := -1]> (objects h) else objects h) /\
    open_files h1 = open_files (if 0 <=? fd then close_file fd h else h) /\
    closed_twice h1 = closed_twice (if 0 <=? fd then close_file fd h else h).
Proof.
  intros Ha Ho. destruct (Z.leb_spec 0 fd) as [Hfd|Hfd]; [|by exists h].
  exists (mkHandles (<[a := -1]> (objects h)) (open_files (close_file fd h))
    (closed_twice (close_file fd h))). split; [by apply owned_close|done].
Qed.

Lemma handle_step_owned h h' : handle_step h h' -> owned h -> owned h'.
Proof.
  destruct 1 as [a fd Ha Hfd Hnew|a other h' Ha Hm|a other h' Hm|a h' Hd]; intros Ho.
  - by apply owned_construct.
  - unfold move_construct in Hm. apply bind_Some in Hm as (fd & Hother & [= <-]).
    apply owned_transfer; [congruence|done|congruence|done].
  - unfold move_assign in Hm. apply bind_Some in Hm as (fd & Ha & Hm).
    apply bind_Some in Hm as (source & Hother & Hm).
    destruct (decide (a = other)) as [->|Hne]; injection Hm as <-; [done|].
    destruct (owned_release a fd h Ha Ho) as (h1 & Ho1 & Hobj & Hopen & Htwice).
    apply (owned_transfer a other source) in Ho1; [|done|..].
    + rewrite Hobj, Hopen, Htwice in Ho1. destruct (0 <=? fd); [|exact Ho1]. cbn.
      rewrite (insert_insert_ne _ other a) in Ho1 by done. by rewrite insert_insert_eq in Ho1.
    + rewrite Hobj. destruct (0 <=? fd); [by rewrite lookup_insert_ne|done].
    + intros old. rewrite Hobj. destruct (Z.leb_spec 0 fd); [rewrite lookup_insert_eq|rewrite Ha];
        intros [= <-]; lia.
  - unfold destruct_handle in Hd. apply bind_Some in Hd as (fd & Ha & [= <-]).
    destruct (owned_release a fd h Ha Ho) as (h1 & Ho1 & Hobj & Hopen & Htwice).
    apply (owned_delete a) in Ho1.
    + rewrite Hobj, Hopen, Htwice in Ho1. destruct (0 <=? fd); [|exact Ho1]. cbn.
      by rewrite delete_insert_eq in Ho1.
    + intros old. rewrite Hobj. destruct (Z.leb_spec 0 fd); [rewrite lookup_insert_eq|rewrite Ha];
        intros [= <-]; lia.
Qed.

(** The descriptor of the file is closed exactly once, whatever the moves: none
    is closed twice, an open one has exactly one object, and when the objects
    are gone none is open. *)
Theorem handles_own_descriptors (h : Handles) :
  rtc handle_step no_handles h ->
  closed_twice h = false /\
  (forall fd, fd ∈ open_files h <-> 0 <= fd /\ exists a, objects h !! a = Some fd) /\
  (objects h = ∅ -> open_files h = ∅).
Proof.
  intros Hrun. assert (owned h) as [Honce Hopen Hheld Huniq].
  { assert (owned no_handles) as Ho by (split; cbn; [done|set_solver..|done]). revert Ho.
    induction Hrun as [|x y z Hxy _ IH]; [done|]. intros Ho. by eapply IH, handle_step_owned. }
  split; [done|]. split.
  - intros fd. split; [apply Hheld|]. intros [Hpos [a Ha]]. by apply (Hopen a).
  - intros Hnone. apply elem_of_equiv_empty_L. intros fd Hfd.
    destruct (Hheld fd Hfd) as [_ [a Ha]]. by rewrite Hnone in Ha.
Qed.

Lemma handles_own_descriptors_witness :
  exists h, rtc handle_step no_handles h /\ objects h !! 2%nat = Some 7 /\ open_files h = {[7]} /\
    closed_twice h = false.
Proof.
  assert (rtc handle_step no_handles (construct 1 7 no_handles)) as Hrun.
  { apply rtc_once, handle_construct; [done|lia|set_solver]. }
  set (h1 := construct 1 7 no_handles) in *.
  destruct (move_construct 2 1 h1) as [h|] eqn:Hm; [|discriminate Hm].
  assert (rtc handle_step no_handles h) as Hrun'.
  { eapply rtc_r; [exact Hrun|]. by apply (handle_move_construct h1 2 1). }
  exists h. split; [exact Hrun'|].
  destruct (handles_own_descriptors h Hrun') as (Honce & _).
  vm_compute in Hm. injection Hm as <-. split; [reflexivity|]. split; [reflexivity|exact Honce].
Defined.
