(* ===== verification/Rdb.v ===== *)
(** * The RDB reader (src/rdb.hpp, src/rdb.cpp)

    [Reader] is the cursor over the bytes of a file, with one definition per
    member function; [parse] is the loop over the sections of the file and
    [read_file] the entry point, with what the file system answers as an
    argument.  The file format is stated as a grammar ([rdb_file]) without
    cursors or loops, and the parser accepts exactly that grammar. *)

From stdpp Require Import base option list strings.
From Stdlib Require Import ZArith Lia.
From S2P Require Import Prelude CharConv.

(** [rdb::StringEntry] (src/rdb.hpp). *)
Record StringEntry := mkStringEntry {
  rdb_key : string;
  rdb_value : string;
  expires_at_unix_ms : option Z;
}.

(** [std::vector::reserve] throws when the memory is not there; [can_reserve]
    says which counts of entries it accepts. *)
Class VectorMemory := can_reserve : Z -> bool.

Module Reader.

Record Length := mkLength { value : Z; encoded : bool }.

Record Reader := mkReader { _input : string; _position : nat }.

(** A member function of the reader: a value and the moved cursor, or an error.
    An error always ends the parse, so the cursor it leaves is never read. *)
Definition reading (A : Type) : Type := Reader -> expected (A * Reader) string.

#[export] Instance reading_ret : MRet reading := fun A x r => Expected (x, r).
#[export] Instance reading_bind : MBind reading := fun A B f m r =>
  match m r with
  | Expected (x, r') => f x r'
  | Unexpected e => Unexpected e
  end.
Definition error {A} (message : string) : reading A := fun _ => Unexpected message.

Definition end_of_rdb : string := "Unexpected end of RDB file".

(** [static_cast<std::uint8_t>] of a character. *)
Definition byte_of (c : Ascii.ascii) : Z := Z.of_N (Ascii.N_of_ascii c).

(** The value of a [w]-bit word as a signed integer, [std::bit_cast]. *)
Definition bit_cast (w v : Z) : Z := if v <? 2 ^ (w - 1) then v else v - 2 ^ w.

Definition remaining (r : Reader) : nat := String.length (_input r) - _position r.

Definition read_byte : reading Z := fun r =>
  if (remaining r =? 0)%nat then Unexpected end_of_rdb else
  match String.get (_position r) (_input r) with
  | Some c => Expected (byte_of c, mkReader (_input r) (S (_position r)))
  | None => Unexpected end_of_rdb
  end.

Definition read_bytes (count : Z) : reading string := fun r =>
  if Z.of_nat (remaining r) <? count then Unexpected end_of_rdb else
  Expected (String.substring (_position r) (Z.to_nat count) (_input r),
            mkReader (_input r) (_position r + Z.to_nat count)).

(** The loop [result |= byte << (index * 8)] at [w] bits. *)
Fixpoint or_little_endian (w : Z) (bytes : string) (index result : Z) : Z :=
  match bytes with
  | EmptyString => result
  | String c bytes' =>
      or_little_endian w bytes' (index + 1)
        (Z.lor result (Z.shiftl (byte_of c) (index * 8) mod 2 ^ w))
  end.

(** The loop [result = (result << 8) | byte] at [w] bits. *)
Fixpoint or_big_endian (w : Z) (bytes : string) (result : Z) : Z :=
  match bytes with
  | EmptyString => result
  | String c bytes' =>
      or_big_endian w bytes' (Z.lor (Z.shiftl result 8 mod 2 ^ w) (byte_of c))
  end.

Definition read_u32_little_endian : reading Z :=
  bytes ← read_bytes 4; mret (or_little_endian 32 bytes 0 0).

Definition read_u64_little_endian : reading Z :=
  bytes ← read_bytes 8; mret (or_little_endian 64 bytes 0 0).

Definition read_length : reading Length :=
  first ← read_byte;
  let kind := Z.shiftr first 6 in
  if kind =? 0 then mret (mkLength (Z.land first 63) false) else
  if kind =? 1 then
    second ← read_byte;
    mret (mkLength (Z.lor (Z.shiftl (Z.land first 63) 8) second) false)
  else
  if kind =? 3 then mret (mkLength (Z.land first 63) true) else
  if first =? 128 then bytes ← read_bytes 4; mret (mkLength (or_big_endian 32 bytes 0) false) else
  if first =? 129 then bytes ← read_bytes 8; mret (mkLength (or_big_endian 64 bytes 0) false) else
  error "Unsupported RDB length encoding".

Definition read_plain_length : reading Z :=
  length ← read_length;
  if encoded length then error "Expected an ordinary RDB length" else mret (value length).

Definition read_string : reading string :=
  length ← read_length;
  if negb (encoded length) then
    if u64_max <? value length then error "RDB string is too large" else
    read_bytes (value length)
  else if value length =? 0 then b ← read_byte; mret (to_string (bit_cast 8 b))
  else if value length =? 1 then
    bytes ← read_bytes 2; mret (to_string (bit_cast 16 (or_little_endian 16 bytes 0 0)))
  else if value length =? 2 then
    v ← read_u32_little_endian; mret (to_string (bit_cast 32 v))
  else error "LZF-compressed RDB strings are not supported".

End Reader.
Import Reader.

(** ** The sections of a file *)

Definition string_type : Z := 0.
Definition idle_opcode : Z := 248.
Definition frequency_opcode : Z := 249.
Definition auxiliary_opcode : Z := 250.
Definition resize_database_opcode : Z := 251.
Definition expire_time_ms_opcode : Z := 252.
Definition expire_time_seconds_opcode : Z := 253.
Definition select_database_opcode : Z := 254.
Definition end_of_file_opcode : Z := 255.

(** What one section tells the loop: return the entries, go on, go on with a
    pending expiration, add an entry, or an exception of [reserve] escapes. *)
Inductive FileSection :=
| EndOfFile
| Skipped
| Expiration (at_unix_ms : Z)
| StringValue (key v : string)
| ReserveThrows.

Section Parse.
Context `{VectorMemory}.

(** One iteration of the loop of [parse]. *)
Definition read_section : reading FileSection :=
  marker ← read_byte;
  if marker =? end_of_file_opcode then mret EndOfFile else
  if marker =? auxiliary_opcode then
    key ← read_string; v ← read_string; mret Skipped
  else if marker =? select_database_opcode then
    database ← read_plain_length;
    if negb (database =? 0) then error "Only RDB database 0 is supported" else mret Skipped
  else if marker =? resize_database_opcode then
    key_count ← read_plain_length;
    expiring_key_count ← read_plain_length;
    if can_reserve key_count then mret Skipped else mret ReserveThrows
  else if marker =? expire_time_ms_opcode then
    expiration ← read_u64_little_endian; mret (Expiration expiration)
  else if marker =? expire_time_seconds_opcode then
    expiration ← read_u32_little_endian; mret (Expiration (wrap_u64 (expiration * 1000)))
  else if marker =? idle_opcode then idle ← read_plain_length; mret Skipped
  else if marker =? frequency_opcode then frequency ← read_byte; mret Skipped
  else if negb (marker =? string_type)
  then error "Only string values are supported in RDB files" else
  key ← read_string; v ← read_string; mret (StringValue key v).

(** How a run of [parse] ends. *)
Inductive ParseRun :=
| Returned (result : expected (list StringEntry) string)
| Threw
| OutOfFuel.

Fixpoint parse_sections (fuel : nat) (reader : Reader) (entries : list StringEntry)
    (pending_expiration : option Z) : ParseRun :=
  if negb (0 <? remaining reader)%nat
  then Returned (Unexpected "RDB file is missing its end marker") else
  match fuel with
  | O => OutOfFuel
  | S fuel' =>
      match read_section reader with
      | Unexpected e => Returned (Unexpected e)
      | Expected (EndOfFile, _) => Returned (Expected entries)
      | Expected (Skipped, reader) => parse_sections fuel' reader entries pending_expiration
      | Expected (Expiration t, reader) => parse_sections fuel' reader entries (Some t)
      | Expected (StringValue key v, reader) =>
          parse_sections fuel' reader (entries ++ [mkStringEntry key v pending_expiration]) None
      | Expected (ReserveThrows, _) => Threw
      end
  end.

Definition magic : string := "REDIS".

Definition parse (contents : string) : ParseRun :=
  if (String.length contents <? 10)%nat ||
     negb (String.eqb (String.substring 0 5 contents) magic)
  then Returned (Unexpected "Invalid RDB header") else
  if negb (all_chars is_digit (String.substring 5 4 contents))
  then Returned (Unexpected "Invalid RDB version") else
  match read_bytes 9 (mkReader contents 0) with
  | Unexpected e => Returned (Unexpected e)
  | Expected (_, reader) => parse_sections (String.length contents) reader [] None
  end.

(** What the file system answers for a path. *)
Inductive FileState :=
| InspectionFails (message : string)
| Missing
| OpenFails
| ReadFails
| Holds (contents : string).

Definition read_file (path : string) (file : FileState) : ParseRun :=
  match file with
  | InspectionFails message =>
      Returned (Unexpected ("Cannot inspect RDB file '" +:+ path +:+ "': " +:+ message))
  | Missing => Returned (Expected [])
  | OpenFails => Returned (Unexpected ("Cannot open RDB file '" +:+ path +:+ "'"))
  | ReadFails => Returned (Unexpected ("Failed while reading RDB file '" +:+ path +:+ "'"))
  | Holds contents => parse contents
  end.
End Parse.

(** ** The file format

    What a file may hold, stated on its bytes alone. *)

(** Unsigned values of byte strings. *)
Fixpoint le_value (s : string) : Z :=
  match s with EmptyString => 0 | String c s' => byte_of c + 256 * le_value s' end.

Fixpoint be_value_from (acc : Z) (s : string) : Z :=
  match s with EmptyString => acc | String c s' => be_value_from (256 * acc + byte_of c) s' end.
Definition be_value : string -> Z := be_value_from 0.

Definition byte (b : Z) : Ascii.ascii := Ascii.ascii_of_N (Z.to_N b).
Definition one (c : Ascii.ascii) : string := String c EmptyString.

(** The four ways to write a length. *)
Inductive length_form : Z -> string -> Prop :=
| length_6 c : byte_of c < 64 -> length_form (byte_of c) (one c)
| length_14 c d :
    64 <= byte_of c < 128 -> length_form ((byte_of c - 64) * 256 + byte_of d) (one c +:+ one d)
| length_32 s : String.length s = 4%nat -> length_form (be_value s) (one (byte 128) +:+ s)
| length_64 s : String.length s = 8%nat -> length_form (be_value s) (one (byte 129) +:+ s).

(** The four ways to write a string: its bytes after their count, or the
    decimal text of a small integer. *)
Inductive string_form : string -> string -> Prop :=
| string_bytes s header : length_form (size_of s) header -> string_form s (header +:+ s)
| string_int8 c : string_form (to_string (bit_cast 8 (byte_of c))) (one (byte 192) +:+ one c)
| string_int16 s :
    String.length s = 2%nat ->
    string_form (to_string (bit_cast 16 (le_value s))) (one (byte 193) +:+ s)
| string_int32 s :
    String.length s = 4%nat ->
    string_form (to_string (bit_cast 32 (le_value s))) (one (byte 194) +:+ s).

(** One section after another kind of marker byte. *)
Inductive section_form `{VectorMemory} : FileSection -> string -> Prop :=
| form_end : section_form EndOfFile (one (byte 255))
| form_auxiliary k v ks vs :
    string_form k ks -> string_form v vs -> section_form Skipped (one (byte 250) +:+ ks +:+ vs)
| form_select ls : length_form 0 ls -> section_form Skipped (one (byte 254) +:+ ls)
| form_resize n m ns ms :
    length_form n ns -> length_form m ms ->
    section_form (if can_reserve n then Skipped else ReserveThrows)
      (one (byte 251) +:+ ns +:+ ms)
| form_expire_ms s :
    String.length s = 8%nat -> section_form (Expiration (le_value s)) (one (byte 252) +:+ s)
| form_expire_seconds s :
    String.length s = 4%nat ->
    section_form (Expiration (le_value s * 1000)) (one (byte 253) +:+ s)
| form_idle n ns : length_form n ns -> section_form Skipped (one (byte 248) +:+ ns)
| form_frequency c : section_form Skipped (one (byte 249) +:+ one c)
| form_string k v ks vs :
    string_form k ks -> string_form v vs ->
    section_form (StringValue k v) (one (byte 0) +:+ ks +:+ vs).

(** The sections up to the end marker, with the expiration pending at their
    start and the entries they hold; any bytes may follow the end marker. *)
Inductive sections_form `{VectorMemory} : option Z -> list StringEntry -> string -> Prop :=
| sections_end pending s rest :
    section_form EndOfFile s -> sections_form pending [] (s +:+ rest)
| sections_skipped pending entries s rest :
    section_form Skipped s -> sections_form pending entries rest ->
    sections_form pending entries (s +:+ rest)
| sections_expiration pending t entries s rest :
    section_form (Expiration t) s -> sections_form (Some t) entries rest ->
    sections_form pending entries (s +:+ rest)
| sections_value pending k v entries s rest :
    section_form (StringValue k v) s -> sections_form None entries rest ->
    sections_form pending (mkStringEntry k v pending :: entries) (s +:+ rest).

Definition rdb_file `{VectorMemory} (entries : list StringEntry) (contents : string) : Prop :=
  exists version sections, contents = magic +:+ version +:+ sections /\
    String.length version = 4%nat /\ all_chars is_digit version = true /\
    sections_form None entries sections.

(** ** The arithmetic of bytes *)

Lemma byte_of_range c : 0 <= byte_of c < 256.
Proof.
  unfold byte_of. pose proof (Ascii.N_ascii_bounded c). lia.
Qed.

Lemma byte_of_byte b : 0 <= b < 256 -> byte_of (byte b) = b.
Proof. intros Hb. unfold byte_of, byte. rewrite Ascii.N_ascii_embedding; lia. Qed.

Lemma byte_byte_of c : byte (byte_of c) = c.
Proof. unfold byte_of, byte. rewrite N2Z.id. apply Ascii.ascii_N_embedding. Qed.

Lemma lor_shiftl_add a b k : 0 <= k -> 0 <= b < 2 ^ k -> Z.lor (Z.shiftl a k) b = a * 2 ^ k + b.
Proof.
  intros Hk Hb. rewrite Z.shiftl_mul_pow2 by done.
  assert (Z.land (a * 2 ^ k) b = 0) as Hland.
  { apply Z.bits_inj'. intros n Hn. rewrite Z.land_spec, Z.bits_0.
    destruct (Z.ltb_spec n k) as [Hlt|Hge].
    - by rewrite Z.mul_pow2_bits_low.
    - replace b with (b mod 2 ^ k) by (apply Z.mod_small; lia).
      by rewrite Z.mod_pow2_bits_high, andb_false_r by lia. }
  rewrite <- Z.lxor_lor by done. symmetry. by apply Z.add_nocarry_lxor.
Qed.

Lemma be_value_from_bound acc s :
  0 <= acc -> 0 <= be_value_from acc s < (acc + 1) * 256 ^ Z.of_nat (String.length s).
Proof.
  revert acc. induction s as [|c s IH]; intros acc Hacc; [simpl; lia|].
  cbn [be_value_from String.length]. pose proof (byte_of_range c).
  specialize (IH (256 * acc + byte_of c) ltac:(lia)).
  rewrite Nat2Z.inj_succ, Z.pow_succ_r by lia.
  assert (0 < 256 ^ Z.of_nat (String.length s)) by (apply Z.pow_pos_nonneg; lia). nia.
Qed.

Lemma or_big_endian_value w s acc :
  0 <= acc -> (acc + 1) * 256 ^ Z.of_nat (String.length s) <= 2 ^ w ->
  or_big_endian w s acc = be_value_from acc s.
Proof.
  revert acc. induction s as [|c s IH]; intros acc Hacc Hw; [done|].
  cbn [or_big_endian be_value_from String.length] in *.
  rewrite Nat2Z.inj_succ, Z.pow_succ_r in Hw by lia. pose proof (byte_of_range c).
  assert (0 < 256 ^ Z.of_nat (String.length s)) by (apply Z.pow_pos_nonneg; lia).
  rewrite Z.mod_small by (rewrite Z.shiftl_mul_pow2 by lia; nia).
  rewrite lor_shiftl_add by (simpl; lia). change (2 ^ 8) with 256.
  replace (acc * 256 + byte_of c) with (256 * acc + byte_of c) by lia.
  apply IH; nia.
Qed.

Lemma le_value_bound s : 0 <= le_value s < 256 ^ Z.of_nat (String.length s).
Proof.
  induction s as [|c s IH]; [simpl; lia|]. cbn [le_value String.length].
  pose proof (byte_of_range c). rewrite Nat2Z.inj_succ, Z.pow_succ_r by lia. lia.
Qed.

Lemma or_little_endian_value w s index acc :
  0 <= index -> 0 <= acc < 2 ^ (index * 8) ->
  2 ^ (index * 8) * 256 ^ Z.of_nat (String.length s) <= 2 ^ w ->
  or_little_endian w s index acc = acc + 2 ^ (index * 8) * le_value s.
Proof.
  revert index acc. induction s as [|c s IH]; intros index acc Hi Hacc Hw;
    [simpl; lia|].
  cbn [or_little_endian le_value String.length] in *.
  rewrite Nat2Z.inj_succ, Z.pow_succ_r in Hw by lia. pose proof (byte_of_range c).
  assert (0 < 256 ^ Z.of_nat (String.length s)) by (apply Z.pow_pos_nonneg; lia).
  assert (2 ^ ((index + 1) * 8) = 2 ^ (index * 8) * 256) as Hstep.
  { replace ((index + 1) * 8) with (index * 8 + 8) by lia. by rewrite Z.pow_add_r by lia. }
  rewrite Z.mod_small by (rewrite Z.shiftl_mul_pow2 by lia; nia).
  rewrite Z.lor_comm, lor_shiftl_add by lia.
  rewrite IH by (rewrite ?Hstep; nia). rewrite Hstep. lia.
Qed.

(** ** Readers and the bytes they take *)

Definition reader_wf (r : Reader) : Prop := (_position r <= String.length (_input r))%nat.
Definition rest (r : Reader) : string := drop_string (_position r) (_input r).

(** The cursor moves from [r] over the bytes [s] to [r']. *)
Definition advances (r : Reader) (s : string) (r' : Reader) : Prop :=
  reader_wf r' /\ _input r' = _input r /\ rest r = s +:+ rest r'.

(** [m] reads a value exactly when its written form comes next, and then stands
    behind it. *)
Definition parses {A} (m : reading A) (form : A -> string -> Prop) : Prop :=
  forall r v r', reader_wf r ->
    (m r = Expected (v, r') <-> exists s, form v s /\ advances r s r').

Lemma drop_string_length n s : String.length (drop_string n s) = (String.length s - n)%nat.
Proof.
  unfold drop_string. destruct (decide (n <= String.length s)%nat).
  - rewrite substring_length; lia.
  - replace (String.length s - n)%nat with 0%nat by lia. generalize n. clear.
    induction s as [|c s IH]; intros [|n]; simpl; done.
Qed.

Lemma drop_string_drop n s t u :
  drop_string n s = t +:+ u -> (n <= String.length s)%nat ->
  drop_string (n + String.length t) s = u /\ String.substring n (String.length t) s = t.
Proof.
  revert n. induction s as [|c s IH]; intros n Hd Hn; simpl in Hn.
  - assert (n = 0)%nat as -> by lia. destruct t; [|done]. simpl in Hd. subst. done.
  - destruct n as [|n].
    + rewrite drop_string_0 in Hd. rewrite Hd. simpl. split; [apply drop_string_app|].
      apply substring_app_l.
    + destruct (IH n) as [H1 H2]; [exact Hd|lia|]. split; [exact H1|exact H2].
Qed.

Lemma drop_string_split n m s :
  (n + m <= String.length s)%nat ->
  drop_string n s = String.substring n m s +:+ drop_string (n + m) s.
Proof.
  revert n m. induction s as [|c s IH]; intros [|n] [|m] Hle; simpl in Hle; try lia; try done.
  - rewrite drop_string_0. simpl. rewrite string_app_cons. f_equal.
    rewrite <- (drop_string_0 s) at 1. exact (IH 0%nat m ltac:(lia)).
  - exact (IH n 0%nat ltac:(lia)).
  - exact (IH n (S m) ltac:(lia)).
Qed.

Lemma drop_string_get n s c :
  String.get n s = Some c -> drop_string n s = one c +:+ drop_string (S n) s.
Proof.
  revert n. induction s as [|d s IH]; intros [|n] Hc; simpl in Hc; try done.
  - injection Hc as ->. unfold drop_string. simpl. by rewrite Nat.sub_0_r, substring_full.
  - exact (IH n Hc).
Qed.

Lemma get_drop_string n s c t : drop_string n s = one c +:+ t -> String.get n s = Some c.
Proof.
  revert n. induction s as [|d s IH]; intros [|n] Hs; try done.
  - rewrite drop_string_0 in Hs. by injection Hs as ->.
  - exact (IH n Hs).
Qed.

Lemma advances_position r s r' :
  reader_wf r -> advances r s r' -> r' = mkReader (_input r) (_position r + String.length s).
Proof.
  unfold reader_wf, advances, rest. intros Hr (Hr' & Hi & Hs).
  apply (f_equal String.length) in Hs. rewrite string_length_app, !drop_string_length in Hs.
  unfold reader_wf in Hr'. rewrite Hi in *. destruct r' as [i p]. simpl in *. subst. f_equal. lia.
Qed.

Lemma advances_over r s t :
  reader_wf r -> rest r = s +:+ t ->
  exists r', advances r s r' /\ rest r' = t.
Proof.
  unfold reader_wf, rest. intros Hr Hs.
  destruct (drop_string_drop _ _ _ _ Hs Hr) as [Ht _].
  exists (mkReader (_input r) (_position r + String.length s)).
  unfold advances, reader_wf, rest. simpl. rewrite Ht. split_and!; try done.
  apply (f_equal String.length) in Hs. rewrite string_length_app, drop_string_length in Hs. lia.
Qed.

Lemma advances_det r s r1 r2 : reader_wf r -> advances r s r1 -> advances r s r2 -> r1 = r2.
Proof. intros Hr H1%advances_position H2%advances_position; congruence. Qed.

Lemma advances_trans r s r' s' r'' :
  advances r s r' -> advances r' s' r'' -> advances r (s +:+ s') r''.
Proof.
  intros (_ & Hi & Hs) (Hw & Hi' & Hs'). split_and!; [done|congruence|].
  by rewrite Hs, Hs', string_app_assoc.
Qed.

Lemma advances_app r s s' r'' :
  reader_wf r -> advances r (s +:+ s') r'' ->
  exists r', advances r s r' /\ advances r' s' r''.
Proof.
  intros Hr (Hw & Hi & Hs). rewrite string_app_assoc in Hs.
  destruct (advances_over r s (s' +:+ rest r'') Hr Hs) as (r' & Ha & Hrest).
  exists r'. split; [done|]. destruct Ha as (? & ? & ?). split_and!; congruence.
Qed.

Lemma parses_iff {A} (m : reading A) form form' :
  parses m form -> (forall v s, form v s <-> form' v s) -> parses m form'.
Proof. intros Hm Hf r v r' Hr. rewrite (Hm r v r' Hr). by setoid_rewrite Hf. Qed.

Lemma parses_ret {A} (x : A) : parses (mret x) (fun v s => v = x /\ s = EmptyString).
Proof.
  intros r v r' Hr. split.
  - intros [= -> ->]. by exists EmptyString.
  - intros (s & [-> ->] & Ha). apply advances_position in Ha; [|done].
    destruct r as [i p]. simpl in Ha. rewrite Nat.add_0_r in Ha. by subst.
Qed.

Lemma parses_error {A} e : parses (error e : reading A) (fun _ _ => False).
Proof. intros r v r' Hr. split; [done|]. by intros (s & ? & _). Qed.

Lemma parses_bind {A B} (m : reading A) (f : A -> reading B) form g :
  parses m form -> (forall x s, form x s -> parses (f x) (g x)) ->
  parses (m ≫= f)
    (fun v s => exists x s1 s2, s = s1 +:+ s2 /\ form x s1 /\ g x v s2).
Proof.
  intros Hm Hf r v r' Hr. unfold mbind, reading_bind. split.
  - destruct (m r) as [[x r1]|e] eqn:Hx; [|done]. intros Hv.
    apply (Hm _ _ _ Hr) in Hx as (s1 & Hs1 & Ha1).
    apply (Hf x s1 Hs1) in Hv as (s2 & Hs2 & Ha2); [|by destruct Ha1].
    exists (s1 +:+ s2). split; [by exists x, s1, s2|]. by eapply advances_trans.
  - intros (s & (x & s1 & s2 & -> & Hs1 & Hs2) & Ha).
    destruct (advances_app _ _ _ _ Hr Ha) as (r1 & Ha1 & Ha2).
    assert (m r = Expected (x, r1)) as ->.
    { apply Hm; [done|]. by exists s1. }
    apply (Hf x s1 Hs1 r1); [by destruct Ha1|]. by exists s2.
Qed.

Lemma parses_if {A} (b : bool) (m m' : reading A) form form' :
  parses m form -> parses m' form' ->
  parses (if b then m else m') (fun v s => if b then form v s else form' v s).
Proof. by destruct b. Qed.

Lemma read_byte_parses : parses read_byte (fun v s => exists c, v = byte_of c /\ s = one c).
Proof.
  intros r v r' Hr. unfold read_byte. split.
  - destruct (Nat.eqb_spec (remaining r) 0) as [|Hne]; [done|].
    destruct (String.get _ _) as [c|] eqn:Hc; [|done]. intros [= <- <-].
    exists (one c). split; [eauto|]. unfold remaining in Hne.
    unfold advances, reader_wf, rest. simpl. split_and!; [lia|done|].
    by apply drop_string_get.
  - intros (s & (c & -> & ->) & Ha).
    pose proof (advances_position _ _ _ Hr Ha) as ->. destruct Ha as (Hw & _ & Hs).
    unfold reader_wf in Hw, Hr. simpl in Hw. unfold remaining.
    destruct (Nat.eqb_spec (String.length (_input r) - _position r) 0); [lia|].
    assert (String.get (_position r) (_input r) = Some c) as ->.
    { by eapply get_drop_string. }
    by rewrite Nat.add_1_r.
Qed.

Lemma read_bytes_parses n :
  0 <= n -> parses (read_bytes n) (fun v s => s = v /\ size_of v = n).
Proof.
  intros Hn r v r' Hr. unfold read_bytes, remaining, size_of. unfold reader_wf in Hr. split.
  - destruct (Z.ltb_spec (Z.of_nat (String.length (_input r) - _position r)) n); [done|].
    intros [= <- <-]. eexists. split; [split; [reflexivity|]|].
    + rewrite substring_length; lia.
    + unfold advances, reader_wf, rest. simpl. split_and!; [lia|done|].
      apply drop_string_split. lia.
  - intros (s & [-> Hlen] & Ha).
    pose proof (advances_position _ _ _ Hr Ha) as ->. destruct Ha as (Hw & _ & Hs).
    unfold reader_wf, rest in *. simpl in Hw, Hs.
    destruct (Z.ltb_spec (Z.of_nat (String.length (_input r) - _position r)) n); [lia|].
    destruct (drop_string_drop _ _ _ _ Hs Hr) as [_ Hsub].
    replace (Z.to_nat n) with (String.length v) by lia. by rewrite Hsub.
Qed.

(** ** The member functions read the forms of the grammar *)

Lemma pow_bytes n : 256 ^ Z.of_nat n = 2 ^ (8 * Z.of_nat n).
Proof. rewrite Z.pow_mul_r by lia. done. Qed.

Lemma le_read n s :
  String.length s = n -> or_little_endian (8 * Z.of_nat n) s 0 0 = le_value s.
Proof.
  intros <-. rewrite or_little_endian_value; [cbn; lia|done|done|].
  rewrite pow_bytes. change (2 ^ (0 * 8)) with 1. lia.
Qed.

Lemma be_read n s :
  String.length s = n -> or_big_endian (8 * Z.of_nat n) s 0 = be_value s.
Proof. intros <-. apply or_big_endian_value; [done|]. rewrite pow_bytes. lia. Qed.

(** A function of the next [n] bytes. *)
Lemma parses_fixed {A} (n : nat) (f : string -> A) :
  parses (s ← read_bytes (Z.of_nat n); mret (f s))
    (fun v s => String.length s = n /\ v = f s).
Proof.
  eapply parses_iff;
    [apply parses_bind; [apply read_bytes_parses; lia|]; intros; apply parses_ret|].
  intros v s. unfold size_of. split.
  - intros (x & s1 & s2 & -> & [-> Hlen] & -> & ->). rewrite string_app_nil_r. split; [lia|done].
  - intros [Hlen ->]. exists s, s, EmptyString. rewrite string_app_nil_r. split_and!; try done. lia.
Qed.

Lemma read_u32_parses :
  parses read_u32_little_endian (fun v s => String.length s = 4%nat /\ v = le_value s).
Proof.
  eapply parses_iff; [apply (parses_fixed 4)|]. intros v s. simpl.
  split; intros [Hlen ->]; (split; [done|]); [|symmetry]; exact (le_read 4 s Hlen).
Qed.

Lemma read_u64_parses :
  parses read_u64_little_endian (fun v s => String.length s = 8%nat /\ v = le_value s).
Proof.
  eapply parses_iff; [apply (parses_fixed 8)|]. intros v s. simpl.
  split; intros [Hlen ->]; (split; [done|]); [|symmetry]; exact (le_read 8 s Hlen).
Qed.

(** The two top bits of the first byte, and the other six. *)
Lemma first_byte c :
  0 <= byte_of c < 256 /\ Z.shiftr (byte_of c) 6 = byte_of c / 64 /\
  Z.land (byte_of c) 63 = byte_of c mod 64.
Proof.
  split; [apply byte_of_range|]. split; [apply (Z.shiftr_div_pow2 _ 6); lia|].
  apply (Z.land_ones _ 6). lia.
Qed.

Lemma byte_of_eq c b : 0 <= b < 256 -> byte_of c = b <-> c = byte b.
Proof.
  intros Hb. split; [intros <-; by rewrite byte_byte_of|intros ->; by apply byte_of_byte].
Qed.

Definition any_length_form (l : Length) (s : string) : Prop :=
  if encoded l then exists c, s = one c /\ byte_of c = 192 + value l /\ 0 <= value l < 64
  else length_form (value l) s.

Lemma parses_byte {A} (f : Z -> reading A) (g : Ascii.ascii -> A -> string -> Prop) :
  (forall c, parses (f (byte_of c)) (g c)) ->
  parses (read_byte ≫= f) (fun v s => exists c s', s = one c +:+ s' /\ g c v s').
Proof.
  intros Hf r v r' Hr. unfold mbind, reading_bind. split.
  - destruct (read_byte r) as [[x r1]|e] eqn:Hx; [|done]. intros Hv.
    apply (read_byte_parses _ _ _ Hr) in Hx as (s1 & (c & -> & ->) & Ha1).
    apply (Hf c) in Hv as (s2 & Hs2 & Ha2); [|by destruct Ha1].
    exists (one c +:+ s2). split; [eauto|]. by eapply advances_trans.
  - intros (s & (c & s' & -> & Hs') & Ha).
    destruct (advances_app _ _ _ _ Hr Ha) as (r1 & Ha1 & Ha2).
    assert (read_byte r = Expected (byte_of c, r1)) as ->
      by (apply read_byte_parses; [done|]; eauto 10).
    apply (Hf c r1); [by destruct Ha1|]. eauto.
Qed.

(** What follows the first byte of a length. *)
Definition length_tail (c : Ascii.ascii) (l : Length) (s : string) : Prop :=
  if byte_of c <? 64 then l = mkLength (byte_of c) false /\ s = EmptyString else
  if byte_of c <? 128 then
    exists d, l = mkLength ((byte_of c - 64) * 256 + byte_of d) false /\ s = one d
  else if 192 <=? byte_of c then l = mkLength (byte_of c - 192) true /\ s = EmptyString else
  if byte_of c =? 128 then String.length s = 4%nat /\ l = mkLength (be_value s) false else
  if byte_of c =? 129 then String.length s = 8%nat /\ l = mkLength (be_value s) false else
  False.

Lemma length_tail_form l s :
  (exists c s', s = one c +:+ s' /\ length_tail c l s') <-> any_length_form l s.
Proof.
  unfold any_length_form, length_tail. split.
  - intros (c & s' & -> & Ht). pose proof (byte_of_range c).
    destruct (Z.ltb_spec (byte_of c) 64).
    { destruct Ht as [-> ->]. rewrite string_app_nil_r. by constructor. }
    destruct (Z.ltb_spec (byte_of c) 128).
    { destruct Ht as (d & -> & ->). by constructor. }
    destruct (Z.leb_spec 192 (byte_of c)).
    { destruct Ht as [-> ->]. exists c. rewrite string_app_nil_r. simpl. split_and!; [done|lia..]. }
    destruct (Z.eqb_spec (byte_of c) 128) as [Hc|].
    { destruct Ht as [Hl ->]. apply byte_of_eq in Hc as ->; [|done]. by constructor. }
    destruct (Z.eqb_spec (byte_of c) 129) as [Hc|]; [|done].
    destruct Ht as [Hl ->]. apply byte_of_eq in Hc as ->; [|done]. by constructor.
  - destruct l as [n []]; simpl.
    + intros (c & -> & Hc & Hn). exists c, EmptyString. split; [done|].
      destruct (Z.ltb_spec (byte_of c) 64); [lia|]. destruct (Z.ltb_spec (byte_of c) 128); [lia|].
      destruct (Z.leb_spec 192 (byte_of c)); [|lia]. split; [f_equal; lia|done].
    + intros Hf. destruct Hf as [c Hc|c d Hc|t Ht|t Ht].
      * exists c, EmptyString. destruct (Z.ltb_spec (byte_of c) 64); [done|lia].
      * exists c, (one d). destruct (Z.ltb_spec (byte_of c) 64); [lia|].
        destruct (Z.ltb_spec (byte_of c) 128); [eauto|lia].
      * exists (byte 128), t. by rewrite byte_of_byte.
      * exists (byte 129), t. by rewrite byte_of_byte.
Qed.

Lemma read_length_parses : parses read_length any_length_form.
Proof.
  eapply parses_iff; [|exact length_tail_form]. apply parses_byte. intros c.
  unfold length_tail. destruct (first_byte c) as (Hr & -> & ->).
  destruct (Z.ltb_spec (byte_of c) 64).
  { rewrite Z.div_small, Z.mod_small by lia. apply parses_ret. }
  rewrite (proj2 (Z.eqb_neq (byte_of c / 64) 0)) by (intros ?%Z.div_small_iff; lia).
  destruct (Z.ltb_spec (byte_of c) 128).
  { replace (byte_of c / 64) with 1 by (apply Z.div_unique with (byte_of c - 64); lia).
    replace (byte_of c mod 64) with (byte_of c - 64) by (apply Z.mod_unique with 1; lia).
    eapply parses_iff; [apply parses_byte; intros d; apply parses_ret|]. intros v s. simpl. split.
    - intros (d & s' & -> & -> & ->). exists d. rewrite string_app_nil_r.
      rewrite lor_shiftl_add by (pose proof (byte_of_range d); lia). done.
    - intros (d & -> & ->). exists d, EmptyString. rewrite string_app_nil_r.
      rewrite lor_shiftl_add by (pose proof (byte_of_range d); lia). done. }
  destruct (Z.eqb_spec (byte_of c / 64) 1) as [He|_].
  { pose proof (Z.div_mod (byte_of c) 64); pose proof (Z.mod_pos_bound (byte_of c) 64); lia. }
  destruct (Z.leb_spec 192 (byte_of c)).
  { replace (byte_of c / 64) with 3 by (apply Z.div_unique with (byte_of c - 192); lia).
    replace (byte_of c mod 64) with (byte_of c - 192) by (apply Z.mod_unique with 3; lia).
    apply parses_ret. }
  destruct (Z.eqb_spec (byte_of c / 64) 3) as [He|_].
  { pose proof (Z.div_mod (byte_of c) 64); pose proof (Z.mod_pos_bound (byte_of c) 64); lia. }
  destruct (Z.eqb_spec (byte_of c) 128); [|destruct (Z.eqb_spec (byte_of c) 129)].
  - eapply parses_iff; [apply (parses_fixed 4)|]. intros v s. simpl.
    split; intros [Hl ->]; (split; [done|]); by rewrite (be_read 4 s Hl : or_big_endian 32 s 0 = _).
  - eapply parses_iff; [apply (parses_fixed 8)|]. intros v s. simpl.
    split; intros [Hl ->]; (split; [done|]); by rewrite (be_read 8 s Hl : or_big_endian 64 s 0 = _).
  - apply parses_error.
Qed.

Lemma length_form_range n s : length_form n s -> 0 <= n <= u64_max.
Proof.
  unfold u64_max. intros Hf. destruct Hf as [c Hc|c d Hc|t Ht|t Ht].
  - pose proof (byte_of_range c). lia.
  - pose proof (byte_of_range c). pose proof (byte_of_range d). lia.
  - pose proof (be_value_from_bound 0 t ltac:(done)) as Hb. rewrite Ht, pow_bytes in Hb.
    replace (8 * Z.of_nat 4) with 32 in Hb by done. unfold be_value. lia.
  - pose proof (be_value_from_bound 0 t ltac:(done)) as Hb. rewrite Ht, pow_bytes in Hb.
    replace (8 * Z.of_nat 8) with 64 in Hb by done. unfold be_value. lia.
Qed.

Lemma read_plain_length_parses : parses read_plain_length length_form.
Proof.
  eapply parses_iff.
  { apply parses_bind; [apply read_length_parses|]. intros l u _.
    apply parses_if; [apply parses_error|apply parses_ret]. }
  intros v s. unfold any_length_form. split.
  - intros ([n []] & s1 & s2 & -> & Hl & Hv); simpl in *; [done|]. destruct Hv as [-> ->].
    by rewrite string_app_nil_r.
  - intros Hv. exists (mkLength v false), s, EmptyString. by rewrite string_app_nil_r.
Qed.

(** What follows the length of a string. *)
Definition string_tail (l : Length) (v s : string) : Prop :=
  if negb (encoded l) then s = v /\ size_of v = value l else
  if value l =? 0 then exists c, v = to_string (bit_cast 8 (byte_of c)) /\ s = one c else
  if value l =? 1 then String.length s = 2%nat /\ v = to_string (bit_cast 16 (le_value s)) else
  if value l =? 2 then String.length s = 4%nat /\ v = to_string (bit_cast 32 (le_value s)) else
  False.

Lemma string_tail_form v s :
  (exists l s1 s2, s = s1 +:+ s2 /\ any_length_form l s1 /\ string_tail l v s2) <->
  string_form v s.
Proof.
  unfold any_length_form, string_tail. split.
  - intros ([n []] & s1 & s2 & -> & Hl & Hv); simpl in *.
    + destruct Hl as (c & -> & Hc & Hn).
      destruct (Z.eqb_spec n 0) as [->|]; [|destruct (Z.eqb_spec n 1) as [->|];
        [|destruct (Z.eqb_spec n 2) as [->|]; [|done]]];
        (apply byte_of_eq in Hc as ->; [|lia]).
      * destruct Hv as (d & -> & ->). apply string_int8.
      * destruct Hv as (Hs & ->). by apply string_int16.
      * destruct Hv as (Hs & ->). by apply string_int32.
    + destruct Hv as [-> Hn]. apply string_bytes. by rewrite Hn.
  - intros Hf. destruct Hf as [t header Hh|c|t Ht|t Ht].
    + exists (mkLength (size_of t) false), header, t. done.
    + exists (mkLength 0 true), (one (byte 192)), (one c). split; [done|]. split; [by eexists|]. simpl. eauto.
    + exists (mkLength 1 true), (one (byte 193)), t. split; [done|]. split; [by eexists|]. simpl. eauto.
    + exists (mkLength 2 true), (one (byte 194)), t. split; [done|]. split; [by eexists|]. simpl. eauto.
Qed.

Lemma read_string_parses : parses read_string string_form.
Proof.
  eapply parses_iff; [|exact string_tail_form].
  apply parses_bind; [apply read_length_parses|]. intros l s Hl.
  unfold string_tail, any_length_form in *. destruct (encoded l); simpl.
  - destruct (value l =? 0); [|destruct (value l =? 1); [|destruct (value l =? 2);
      [|apply parses_error]]].
    + eapply parses_iff; [apply parses_byte; intros c; apply parses_ret|].
      intros w u. simpl. split; [intros (c & u' & -> & -> & ->)|intros (c & -> & ->)];
        [exists c|exists c, EmptyString]; by rewrite string_app_nil_r.
    + eapply parses_iff; [apply (parses_fixed 2)|]. intros w u. simpl.
      split; intros [Hu ->]; (split; [done|]);
        by rewrite (le_read 2 u Hu : or_little_endian 16 u 0 0 = _).
    + eapply parses_iff;
        [apply parses_bind; [apply read_u32_parses|]; intros x u _; apply parses_ret|].
      intros w u. simpl. split.
      * intros (x & u1 & u2 & -> & [Hu ->] & -> & ->). by rewrite string_app_nil_r.
      * intros [Hu ->]. exists (le_value u), u, EmptyString. by rewrite string_app_nil_r.
  - apply length_form_range in Hl. destruct (Z.ltb_spec u64_max (value l)); [lia|].
    apply read_bytes_parses. lia.
Qed.

(** Two values in a row, of which the result is made. *)
Lemma parses_pair {A B C} (m : reading A) (m' : reading B) (f : A -> B -> C) form form' :
  parses m form -> parses m' form' ->
  parses (a ← m; b ← m'; mret (f a b))
    (fun v s => exists a b s1 s2, s = s1 +:+ s2 /\ form a s1 /\ form' b s2 /\ v = f a b).
Proof.
  intros Hm Hm'. eapply parses_iff.
  { apply parses_bind; [exact Hm|]. intros a ? _. apply parses_bind; [exact Hm'|].
    intros b ? _. apply parses_ret. }
  intros v s. split.
  - intros (a & s1 & ? & -> & Ha & b & s2 & ? & -> & Hb & -> & ->). rewrite string_app_nil_r.
    eauto 10.
  - intros (a & b & s1 & s2 & -> & Ha & Hb & ->). exists a, s1, s2. split_and!; [done..|].
    exists b, s2, EmptyString. by rewrite string_app_nil_r.
Qed.

(** One value, of which the result is made. *)
Lemma parses_map {A B} (m : reading A) (f : A -> B) form :
  parses m form -> parses (a ← m; mret (f a)) (fun v s => exists a, form a s /\ v = f a).
Proof.
  intros Hm. eapply parses_iff.
  { apply parses_bind; [exact Hm|]. intros a ? _. apply parses_ret. }
  intros v s. split.
  - intros (a & s1 & ? & -> & Ha & -> & ->). rewrite string_app_nil_r. eauto.
  - intros (a & Ha & ->). exists a, s, EmptyString. by rewrite string_app_nil_r.
Qed.

Section Correct.
Context `{VectorMemory}.

(** What follows the marker of a section. *)
Definition section_tail (marker : Z) (v : FileSection) (s : string) : Prop :=
  if marker =? 255 then v = EndOfFile /\ s = EmptyString else
  if marker =? 250 then
    exists a b s1 s2, s = s1 +:+ s2 /\ string_form a s1 /\ string_form b s2 /\ v = Skipped
  else if marker =? 254 then length_form 0 s /\ v = Skipped else
  if marker =? 251 then
    exists a b s1 s2, s = s1 +:+ s2 /\ length_form a s1 /\ length_form b s2 /\
      v = if can_reserve a then Skipped else ReserveThrows
  else if marker =? 252 then String.length s = 8%nat /\ v = Expiration (le_value s) else
  if marker =? 253 then String.length s = 4%nat /\ v = Expiration (le_value s * 1000) else
  if marker =? 248 then exists a, length_form a s /\ v = Skipped else
  if marker =? 249 then exists c, s = one c /\ v = Skipped else
  if marker =? 0 then
    exists a b s1 s2, s = s1 +:+ s2 /\ string_form a s1 /\ string_form b s2 /\ v = StringValue a b
  else False.

Lemma section_tail_form v s :
  (exists c s', s = one c +:+ s' /\ section_tail (byte_of c) v s') <-> section_form v s.
Proof.
  unfold section_tail. split.
  - intros (c & s' & -> & Ht).
    repeat lazymatch type of Ht with
    | (if byte_of c =? ?b then _ else _) =>
        destruct (Z.eqb_spec (byte_of c) b) as [Hc|_];
          [apply byte_of_eq in Hc as ->; [|done]|]
    end; try done.
    + destruct Ht as [-> ->]. rewrite string_app_nil_r. constructor.
    + destruct Ht as (a & b & s1 & s2 & -> & Ha & Hb & ->). by econstructor.
    + destruct Ht as (Ha & ->). by constructor.
    + destruct Ht as (a & b & s1 & s2 & -> & Ha & Hb & ->). by econstructor.
    + destruct Ht as (Ha & ->). by constructor.
    + destruct Ht as (Ha & ->). by constructor.
    + destruct Ht as (a & Ha & ->). by econstructor.
    + destruct Ht as (a & -> & ->). by constructor.
    + destruct Ht as (a & b & s1 & s2 & -> & Ha & Hb & ->). by econstructor.
  - intros Hf. destruct Hf.
    + exists (byte 255), EmptyString. by rewrite string_app_nil_r.
    + exists (byte 250). eexists. split; [done|]. rewrite byte_of_byte by done. simpl. eauto 10.
    + exists (byte 254). eexists. split; [done|]. by rewrite byte_of_byte.
    + exists (byte 251). eexists. split; [done|]. rewrite byte_of_byte by done. simpl. eauto 10.
    + exists (byte 252). eexists. split; [done|]. by rewrite byte_of_byte.
    + exists (byte 253). eexists. split; [done|]. by rewrite byte_of_byte.
    + exists (byte 248). eexists. split; [done|]. rewrite byte_of_byte by done. simpl. eauto 10.
    + exists (byte 249). eexists. split; [done|]. rewrite byte_of_byte by done. simpl. eauto 10.
    + exists (byte 0). eexists. split; [done|]. rewrite byte_of_byte by done. simpl. eauto 10.
Qed.

Lemma read_section_parses : parses read_section section_form.
Proof.
  eapply parses_iff; [|exact section_tail_form]. apply parses_byte. intros c.
  unfold section_tail, end_of_file_opcode, auxiliary_opcode, select_database_opcode,
    resize_database_opcode, expire_time_ms_opcode, expire_time_seconds_opcode, idle_opcode,
    frequency_opcode, string_type.
  destruct (byte_of c =? 255); [apply parses_ret|].
  destruct (byte_of c =? 250).
  { apply (parses_pair _ _ (fun _ _ => Skipped)); apply read_string_parses. }
  destruct (byte_of c =? 254).
  { eapply parses_iff.
    { apply parses_bind; [apply read_plain_length_parses|]. intros n u _.
      apply parses_if; [apply parses_error|apply parses_ret]. }
    intros v s. simpl. split.
    - intros (n & s1 & s2 & -> & Hn & Hv). destruct (Z.eqb_spec n 0) as [->|]; [|done].
      destruct Hv as [-> ->]. by rewrite string_app_nil_r.
    - intros [Hs ->]. exists 0, s, EmptyString. by rewrite string_app_nil_r. }
  destruct (byte_of c =? 251).
  { eapply parses_iff.
    { apply parses_bind; [apply read_plain_length_parses|]. intros n u _.
      apply parses_bind; [apply read_plain_length_parses|]. intros m u' _.
      apply parses_if; apply parses_ret. }
    intros v s. simpl. split.
    - intros (n & s1 & ? & -> & Hn & m & s2 & s3 & -> & Hm & Hv).
      exists n, m, s1, s2. destruct (can_reserve n), Hv as [-> ->]; by rewrite string_app_nil_r.
    - intros (n & m & s1 & s2 & -> & Hn & Hm & ->). exists n, s1, s2. split_and!; [done..|].
      exists m, s2, EmptyString. rewrite string_app_nil_r. by destruct (can_reserve n). }
  destruct (byte_of c =? 252).
  { eapply parses_iff; [apply parses_map, read_u64_parses|]. intros v s. simpl.
    split; [intros (a & [? ->] & ->)|intros [? ->]]; eauto. }
  destruct (byte_of c =? 253).
  { eapply parses_iff; [apply parses_map, read_u32_parses|]. intros v s. simpl.
    assert (String.length s = 4%nat -> wrap_u64 (le_value s * 1000) = le_value s * 1000) as Hw.
    { intros Hs. pose proof (le_value_bound s) as Hb. rewrite Hs, pow_bytes in Hb.
      replace (8 * Z.of_nat 4) with 32 in Hb by done. apply wrap_u64_small. unfold u64_max. lia. }
    split; [intros (a & [? ->] & ->)|intros [? ->]]; rewrite ?Hw by done; [done|].
    exists (le_value s). by rewrite Hw. }
  destruct (byte_of c =? 248).
  { apply parses_map, read_plain_length_parses. }
  destruct (byte_of c =? 249).
  { eapply parses_iff; [apply parses_map, read_byte_parses|]. intros v s. simpl.
    split; [intros (a & (d & -> & ->) & ->)|intros (d & -> & ->)]; eauto. }
  destruct (byte_of c =? 0); simpl; [|apply parses_error].
  apply parses_pair; apply read_string_parses.
Qed.

Lemma section_form_nonempty v s : section_form v s -> (0 < String.length s)%nat.
Proof. intros Hf. destruct Hf; simpl; rewrite ?string_length_app; simpl; lia. Qed.

Lemma remaining_rest r : remaining r = String.length (rest r).
Proof. unfold remaining, rest. by rewrite drop_string_length. Qed.

(** Every section takes at least one byte, so one unit of fuel per byte is
    enough. *)
Lemma read_section_shorter r v r' :
  reader_wf r -> read_section r = Expected (v, r') -> reader_wf r' /\ (remaining r' < remaining r)%nat.
Proof.
  intros Hr Hv. apply (read_section_parses _ _ _ Hr) in Hv as (s & Hs & Hw & _ & Hrest).
  split; [done|]. rewrite !remaining_rest, Hrest, string_length_app.
  apply section_form_nonempty in Hs. lia.
Qed.

Lemma parse_sections_terminates fuel r entries pending :
  reader_wf r -> (remaining r <= fuel)%nat ->
  parse_sections fuel r entries pending <> OutOfFuel.
Proof.
  revert r entries pending. induction fuel as [|fuel IH]; intros r entries pending Hr Hfuel; simpl.
  - destruct (Nat.ltb_spec 0 (remaining r)); [lia|done].
  - destruct (Nat.ltb_spec 0 (remaining r)); [|done]. simpl.
    destruct (read_section r) as [[v r']|e] eqn:Hv; [|done].
    destruct (read_section_shorter _ _ _ Hr Hv) as [Hr' Hlt].
    destruct v; try done; (apply IH; [done|lia]).
Qed.

(** The loop returns the entries of the sections it reads. *)
Lemma parse_sections_sound fuel r entries pending result :
  reader_wf r -> parse_sections fuel r entries pending = Returned (Expected result) ->
  exists more, result = entries ++ more /\ sections_form pending more (rest r).
Proof.
  revert r entries pending. induction fuel as [|fuel IH]; intros r entries pending Hr; simpl.
  { by destruct (negb _). }
  destruct (Nat.ltb_spec 0 (remaining r)); [|done]. simpl.
  destruct (read_section r) as [[v r']|e] eqn:Hv; [|done].
  apply (read_section_parses _ _ _ Hr) in Hv as (s & Hs & Hr' & _ & ->).
  destruct v as [| |t|k v|]; intros Hrun.
  - injection Hrun as <-. exists []. rewrite app_nil_r. split; [done|]. by constructor.
  - apply IH in Hrun as (more & -> & Hm); [|done]. exists more. split; [done|].
    by eapply sections_skipped.
  - apply IH in Hrun as (more & -> & Hm); [|done]. exists more. split; [done|].
    by eapply sections_expiration.
  - apply IH in Hrun as (more & -> & Hm); [|done].
    exists (mkStringEntry k v pending :: more). rewrite <- app_assoc. split; [done|].
    by eapply sections_value.
  - done.
Qed.

Lemma read_section_next r v s t :
  reader_wf r -> rest r = s +:+ t -> section_form v s ->
  exists r', reader_wf r' /\ rest r' = t /\ read_section r = Expected (v, r') /\
    (0 < remaining r)%nat /\ (remaining r' < remaining r)%nat.
Proof.
  intros Hr Hrest Hs. destruct (advances_over r s t Hr Hrest) as (r' & Ha & Ht).
  assert (read_section r = Expected (v, r')) as Hv by (apply read_section_parses; eauto).
  destruct (read_section_shorter _ _ _ Hr Hv). exists r'. split_and!; try done. lia.
Qed.

Lemma parse_sections_complete fuel r entries pending more :
  reader_wf r -> (remaining r <= fuel)%nat -> sections_form pending more (rest r) ->
  parse_sections fuel r entries pending = Returned (Expected (entries ++ more)).
Proof.
  intros Hr Hfuel Hm. remember (rest r) as bytes eqn:Hbytes. symmetry in Hbytes.
  revert fuel r entries Hr Hfuel Hbytes.
  induction Hm as [pending s t Hs|pending more s t Hs _ IH|pending at_ more s t Hs _ IH
    |pending k v more s t Hs _ IH]; intros fuel r entries Hr Hfuel Hbytes;
    destruct (read_section_next _ _ _ _ Hr Hbytes Hs) as (r' & Hr' & Ht & Hread & Hpos & Hlt);
    (destruct fuel as [|fuel]; [lia|]); cbn [parse_sections];
    rewrite (proj2 (Nat.ltb_lt _ _) Hpos), Hread; cbn [negb].
  - by rewrite app_nil_r.
  - apply IH; [done|lia|done].
  - apply IH; [done|lia|done].
  - rewrite IH by (done || lia). by rewrite <- app_assoc.
Qed.

Lemma parse_sound contents entries :
  parse contents = Returned (Expected entries) -> rdb_file entries contents.
Proof.
  unfold parse, rdb_file.
  destruct (Nat.ltb_spec (String.length contents) 10) as [|Hlen]; [done|]. simpl.
  destruct (String.eqb_spec (String.substring 0 5 contents) magic) as [Hmagic|]; [|done]. simpl.
  destruct (all_chars is_digit (String.substring 5 4 contents)) eqn:Hver; [|done]. simpl.
  destruct (read_bytes 9 (mkReader contents 0)) as [[v r]|e] eqn:Hv; [|done]. intros Hrun.
  assert (reader_wf (mkReader contents 0)) as Hstart by (unfold reader_wf; simpl; lia).
  apply (read_bytes_parses 9 ltac:(done) _ _ _ Hstart) in Hv as (s & [-> Hv] & Ha).
  pose proof (advances_position _ _ _ Hstart Ha) as ->. destruct Ha as (Hr & _ & Hrest).
  apply parse_sections_sound in Hrun as (more & -> & Hm); [|done].
  exists (String.substring 5 4 contents). eexists. split_and!; [|..|exact Hm].
  - unfold rest. simpl. replace (String.length v) with 9%nat by (unfold size_of in Hv; lia).
    rewrite <- Hmagic. rewrite <- (drop_string_0 contents) at 1.
    rewrite (drop_string_split 0 5) by lia. f_equal. apply (drop_string_split 5 4). lia.
  - rewrite substring_length; lia.
  - done.
Qed.

Lemma sections_form_nonempty pending entries s :
  sections_form pending entries s -> (0 < String.length s)%nat.
Proof.
  intros Hm. destruct Hm; rewrite string_length_app;
    match goal with H : section_form _ _ |- _ => apply section_form_nonempty in H end; lia.
Qed.

Lemma parse_complete contents entries :
  rdb_file entries contents -> parse contents = Returned (Expected entries).
Proof.
  intros (version & sections & Hc & Hlen & Hdigits & Hm). unfold parse.
  pose proof (sections_form_nonempty _ _ _ Hm).
  assert (String.length contents = 9 + String.length sections)%nat as Hl
    by (rewrite Hc, !string_length_app, Hlen; done).
  destruct (Nat.ltb_spec (String.length contents) 10); [lia|].
  assert (String.substring 0 5 contents = magic) as ->
    by (rewrite Hc; apply (substring_app_l magic)).
  assert (String.substring 5 4 contents = version) as ->.
  { rewrite Hc. pose proof (substring_app_mid magic version sections) as Hs.
    by rewrite Hlen in Hs. }
  rewrite Hdigits, String.eqb_refl. cbn [negb orb].
  assert (reader_wf (mkReader contents 0)) as Hstart by (unfold reader_wf; simpl; lia).
  destruct (advances_over (mkReader contents 0) (magic +:+ version) sections Hstart)
    as (r & Ha & Hrest).
  { unfold rest. simpl. by rewrite drop_string_0, string_app_assoc. }
  assert (read_bytes 9 (mkReader contents 0) = Expected (magic +:+ version, r)) as ->.
  { apply (read_bytes_parses 9 ltac:(done) _ _ _ Hstart). eexists. split; [|exact Ha].
    split; [done|]. unfold size_of. rewrite string_length_app, Hlen. done. }
  rewrite (parse_sections_complete _ _ _ _ entries); [done|by destruct Ha| |by rewrite Hrest].
  rewrite remaining_rest, Hrest, Hl. lia.
Qed.

(** C19: the RDB reader accepts exactly the files of the format.  It returns
    entries for a file if and only if the file is the magic, four version
    digits and sections that hold these entries in this order, each with the
    expiration written before it, up to the end marker. *)
Theorem parse_accepts_format (contents : string) (entries : list StringEntry) :
  parse contents = Returned (Expected entries) <-> rdb_file entries contents.
Proof. split; [apply parse_sound|apply parse_complete]. Qed.

(** C37: the RDB reader always comes to an end: on any bytes, one iteration per
    byte is enough for the loop to return entries or an error, or to end with
    the exception of a reservation that the memory refuses. *)
Theorem parse_terminates (contents : string) :
  (exists result, parse contents = Returned result) \/
  (parse contents = Threw /\ exists n, can_reserve n = false).
Proof.
  assert (forall fuel r entries pending, parse_sections fuel r entries pending = Threw ->
    reader_wf r -> exists n, can_reserve n = false) as Hthrow.
  { induction fuel as [|fuel IH]; intros r entries pending; simpl; [by destruct (negb _)|].
    destruct (negb _); [done|]. destruct (read_section r) as [[v r']|e] eqn:Hv; [|done].
    intros Hrun Hr. destruct (read_section_shorter _ _ _ Hr Hv) as [Hr' _].
    apply (read_section_parses _ _ _ Hr) in Hv as (s & Hs & _).
    destruct v; try done; [eauto..|]. inversion Hs as [| | |n m ns ms Hn Hm He| | | | |]. subst.
    exists n. destruct (can_reserve n); congruence. }
  unfold parse. destruct (_ || _); [eauto|]. destruct (negb _); [eauto|].
  destruct (read_bytes 9 (mkReader contents 0)) as [[v r]|e] eqn:Hv; [|eauto].
  assert (reader_wf (mkReader contents 0)) as Hstart by (unfold reader_wf; simpl; lia).
  apply (read_bytes_parses 9 ltac:(done) _ _ _ Hstart) in Hv as (s & _ & Hr & _ & Hrest).
  destruct (parse_sections _ r [] None) as [result| |] eqn:Hrun; [eauto|eauto|].
  exfalso. eapply parse_sections_terminates; [exact Hr| |exact Hrun].
  apply (f_equal String.length) in Hrest. unfold rest at 1 in Hrest. simpl in Hrest.
  rewrite drop_string_0, string_length_app in Hrest. rewrite remaining_rest. lia.
Qed.

End Correct.

(** ** A concrete file *)

Definition bytes_of (l : list Z) : string := fold_right (fun b s => String (byte b) s) EmptyString l.

(** A version 11 file: an auxiliary field with an 8-bit integer, database 0, a
    size hint, a string with a deadline in milliseconds, a string of a 14-bit
    length form with a deadline in seconds, and a 16-bit integer. *)
Definition sample_file : string :=
  "REDIS0011" +:+
  bytes_of [250; 2] +:+ "rb" +:+ bytes_of [192; 64; 254; 0; 251; 3; 2; 252] +:+
  bytes_of [0; 156; 239; 18; 126; 1; 0; 0; 0; 3] +:+ "foo" +:+ bytes_of [3] +:+ "bar" +:+
  bytes_of [253; 82; 237; 42; 102; 0; 3] +:+ "baz" +:+ bytes_of [64; 3] +:+ "qux" +:+
  bytes_of [0; 1] +:+ "n" +:+ bytes_of [193; 57; 255; 255; 1; 2; 3; 4; 5; 6; 7; 8].

Example sample_file_entries :
  parse (H := fun _ => true) sample_file = Returned (Expected
    [mkStringEntry "foo" "bar" (Some 1640995200000);
     mkStringEntry "baz" "qux" (Some 1714089298000);
     mkStringEntry "n" "-199" None]).
Proof. vm_compute. reflexivity. Qed.

Example resize_refused :
  parse (H := fun n => n <? 2 ^ 56) ("REDIS0011" +:+ bytes_of [251; 129; 1; 0; 0; 0; 0; 0; 0; 0; 0; 255])
  = Threw.
Proof. vm_compute. reflexivity. Qed.
