(* ===== verification/StateMonad.v ===== *)
(** * A state monad with undefined behaviour

    [M S A] is a computation on a state [S]: it gives a result and the new
    state, or [None] when the C++ code it models has no defined behaviour (or
    never returns).  Its users reason with [steps R m]: every defined run of [m]
    is a step of the preorder [R].  An invariant [I] is the preorder
    [keeps I]. *)

From stdpp Require Import base option list sets.

Definition M (S A : Type) : Type := S -> option (A * S).

#[export] Instance M_ret S : MRet (M S) := fun A x s => Some (x, s).
#[export] Instance M_bind S : MBind (M S) := fun A B f m s =>
  match m s with
  | Some (x, s') => f x s'
  | None => None
  end.

Definition gets {S A} (f : S -> A) : M S A := fun s => Some (f s, s).
Definition modify {S} (f : S -> S) : M S unit := fun s => Some (tt, f s).
Definition undefined {S A} : M S A := fun _ => None.

(** Run [f] on every element, in order, and keep those for which it gives
    [true]: [std::erase_if] with the opposite test. *)
Fixpoint keepM {S A} (f : A -> M S bool) (l : list A) : M S (list A) :=
  match l with
  | [] => mret []
  | x :: l' =>
      keep ← f x;
      rest ← keepM f l';
      mret (if keep : bool then x :: rest else rest)
  end.

(** Run [f] on every element, in order. *)
Fixpoint forM_ {S A} (l : list A) (f : A -> M S unit) : M S unit :=
  match l with
  | [] => mret tt
  | x :: l' => f x ;; forM_ l' f
  end.

(** ** Reasoning *)

Definition steps {S A} (R : S -> S -> Prop) (m : M S A) : Prop :=
  forall s x s', m s = Some (x, s') -> R s s'.

Lemma M_bind_Some {S A B} (m : M S A) (f : A -> M S B) s y s'' :
  (m ≫= f) s = Some (y, s'') <-> exists x s', m s = Some (x, s') /\ f x s' = Some (y, s'').
Proof.
  change ((m ≫= f) s) with (match m s with Some (x, s') => f x s' | None => None end).
  destruct (m s) as [[x s']|]; naive_solver.
Qed.

Definition keeps {S} (I : S -> Prop) (s s' : S) : Prop := I s -> I s'.

#[export] Instance keeps_preorder {S} (I : S -> Prop) : PreOrder (keeps I).
Proof. split; unfold keeps; [intros s|intros s1 s2 s3]; auto. Qed.

(** A part of the state that stays. *)
Definition same {S A} (f : S -> A) (s s' : S) : Prop := f s' = f s.

#[export] Instance same_preorder {S A} (f : S -> A) : PreOrder (same f).
Proof. split; unfold same; [intros s|intros s1 s2 s3]; congruence. Qed.

(** A computation that evaluates has a run; [p] is what one wants to know of
    the state it leads to. *)
Lemma defined_run {S A} (m : M S A) (s : S) (p : S -> bool) :
  match m s with Some (_, s') => p s' | None => false end = true ->
  exists x s', m s = Some (x, s') /\ p s' = true.
Proof. destruct (m s) as [[x s']|]; [eauto|done]. Qed.

(** What stays was there. *)
Lemma keepM_subset {S A} (f : A -> M S bool) l s kept s' :
  keepM f l s = Some (kept, s') -> kept ⊆ l.
Proof.
  revert s kept. induction l as [|x l IH]; intros s kept Hrun.
  { by injection Hrun as <- <-. }
  cbn [keepM] in Hrun. apply M_bind_Some in Hrun as (b & s1 & Hx & Hrun).
  apply M_bind_Some in Hrun as (rest & s2 & Hl & Hrun). injection Hrun as <- <-.
  specialize (IH _ _ Hl). destruct b; set_solver.
Qed.

Section Steps.
Context {S : Type} (R : S -> S -> Prop) `{!PreOrder R}.

Lemma steps_ret {A} (x : A) : steps R (mret x : M S A).
Proof. intros s y s' [= <- <-]. reflexivity. Qed.

Lemma steps_bind {A B} (m : M S A) (f : A -> M S B) :
  steps R m -> (forall x, steps R (f x)) -> steps R (m ≫= f).
Proof.
  intros Hm Hf s y s'' (x & s' & H1 & H2)%M_bind_Some.
  transitivity s'; [by eapply Hm|by eapply Hf].
Qed.

(** The continuation may use what the first computation returned from a state
    it started in. *)
Lemma steps_bind_gets {A B} (g : S -> A) (f : A -> M S B) :
  (forall s0, forall y s', f (g s0) s0 = Some (y, s') -> R s0 s') -> steps R (gets g ≫= f).
Proof.
  intros Hf s y s'' (x & s' & H1 & H2)%M_bind_Some. injection H1 as <- <-. by eapply Hf.
Qed.

Lemma steps_gets {A} (g : S -> A) : steps R (gets g).
Proof. intros s y s' [= <- <-]. reflexivity. Qed.

Lemma steps_modify (f : S -> S) : (forall s, R s (f s)) -> steps R (modify f).
Proof. intros Hf s y s' [= <- <-]. apply Hf. Qed.

Lemma steps_undefined {A} : steps R (undefined : M S A).
Proof. by intros s y s'. Qed.

Lemma steps_keepM_Forall {A} (f : A -> M S bool) l :
  Forall (fun x => steps R (f x)) l -> steps R (keepM f l).
Proof.
  induction 1 as [|x l Hx _ IH]; simpl; [apply steps_ret|].
  apply steps_bind; [done|]. intros keep. apply steps_bind; [done|]. intros rest.
  apply steps_ret.
Qed.

Lemma steps_keepM {A} (f : A -> M S bool) l :
  (forall x, steps R (f x)) -> steps R (keepM f l).
Proof. intros Hf. apply steps_keepM_Forall. by apply Forall_true. Qed.

Lemma steps_forM {A} (l : list A) (f : A -> M S unit) :
  (forall x, steps R (f x)) -> steps R (forM_ l f).
Proof.
  intros Hf. induction l as [|x l IH]; simpl; [apply steps_ret|].
  apply steps_bind; [done|]. done.
Qed.
End Steps.
