(* ===== verification/ProcessorState.v ===== *)
(** * The state of the command processor (src/command_processor.hpp, src/acl.hpp)

    The members of [CommandProcessor] keep their names.  Sessions are shared
    with the connection threads, so they live in two heaps; a weak pointer is
    the address of a session, and locking it succeeds while the session is in
    its heap.  [io_calls] counts the system calls made so far, [promises] the
    promises handed out, and [completed] lists the promises already fulfilled
    with their values.  The queue mutex and the condition variable are not
    state: the worker thread is the only one that touches the other members,
    and pushing to [_tasks] is a step of its own. *)

From stdpp Require Import base option list gmap strings.
From Stdlib Require Import ZArith Lia.
From S2P Require Import Prelude Environment Resp StreamTypes Database Config Sessions.
From S2P Require Import Aof Rdb StateMonad.

Record User := mkUser {
  no_password : bool;
  password_hashes : gset string;
}.

Inductive ReplicationRole := MASTER | REPLICA.

(** [CommandSource::MASTER] is [FROM_MASTER]. *)
Inductive CommandSource := CLIENT | FROM_MASTER | AOF.

#[export] Instance ReplicationRole_eq_dec : EqDecision ReplicationRole.
Proof. solve_decision. Defined.
#[export] Instance CommandSource_eq_dec : EqDecision CommandSource.
Proof. solve_decision. Defined.

Record ClientState := mkClientState {
  authenticated : bool;
  pubsub_session : nat;
}.

(** The promise of a task is its number. *)
Record Task := mkTask {
  client_id : Z;
  task_command : Command;
  source : CommandSource;
  replication_bytes : Z;
  response : nat;
}.

Record PendingListPop := mkPendingListPop {
  pop_task : Task;
  pending_key : string;
  pop_deadline : option Z;
}.

Record PendingStreamRead := mkPendingStreamRead {
  read_task : Task;
  read_requests : list ReadRequest;
  read_deadline : option Z;
}.

Record PendingWait := mkPendingWait {
  wait_task : Task;
  required_replicas : Z;
  target_offset : Z;
  wait_deadline : option Z;
}.

Record TransactionState := mkTransactionState {
  queued_commands : list Command;
  has_error : bool;
}.

Inductive ProcessorTask :=
| CommandTask (task : Task)
| RegisterReplicaTask (client_id : Z) (registration : nat)
| InstallReplicationStateTask (replication_id : string) (offset : Z) (completion : nat)
| GetReplicationOffsetTask (completion : nat)
| AcknowledgeReplicaTask (client_id offset : Z) (completion : nat)
| LoadRdbTask (entries : list StringEntry) (completion : nat)
| InitializeAofTask (file : AppendOnlyFile) (commands : list Command) (completion : nat)
| RegisterClientTask (client_id : Z) (session : nat) (completion : nat)
| UnregisterClientTask (client_id : Z) (completion : nat).

Record ReplicationState := mkReplicationState {
  role : ReplicationRole;
  replication_id : string;
  offset : Z;
}.

Record ReplicaRegistration := mkReplicaRegistration {
  registered_id : string;
  registered_offset : Z;
  registered_session : nat;
}.

(** What a promise is fulfilled with. *)
Inductive Completion :=
| Responded (r : Response)
| Done
| OffsetReported (offset : Z)
| Registered (registration : ReplicaRegistration)
| AofInitialized (result : expected unit string).

Record ProcessorState := mkProcessorState {
  _database : Database;
  _default_user : User;
  _rdb_config : RDBConfig;
  _aof_config : AOFConfig;
  _aof_file : option AppendOnlyFile;
  _replication_state : ReplicationState;
  _tasks : list ProcessorTask;
  _pending_list_pops : list PendingListPop;
  _pending_stream_reads : list PendingStreamRead;
  _pending_waits : list PendingWait;
  _replication_backlog : list ReplicationFrame;
  _replica_sessions : list nat;
  _replica_acknowledged_offsets : gmap Z Z;
  _client_write_offsets : gmap Z Z;
  _transactions : gmap Z TransactionState;
  _watched_keys : gmap Z (gmap string Z);
  _clients : gmap Z ClientState;
  _channel_subscribers : gmap string (gset Z);
  _client_subscriptions : gmap Z (gset string);
  pubsub_heap : gmap nat PubSubSession;
  replica_heap : gmap nat ReplicaSession;
  io_calls : nat;
  promises : nat;
  completed : list (nat * Completion);
}.

(** ** Assignments to members *)

Definition set_database (v : Database) (s : ProcessorState) : ProcessorState :=
  mkProcessorState v (_default_user s) (_rdb_config s) (_aof_config s) (_aof_file s)
    (_replication_state s) (_tasks s) (_pending_list_pops s) (_pending_stream_reads s)
    (_pending_waits s) (_replication_backlog s) (_replica_sessions s)
    (_replica_acknowledged_offsets s) (_client_write_offsets s) (_transactions s)
    (_watched_keys s) (_clients s) (_channel_subscribers s) (_client_subscriptions s)
    (pubsub_heap s) (replica_heap s) (io_calls s) (promises s) (completed s).
Definition set_default_user (v : User) (s : ProcessorState) : ProcessorState :=
  mkProcessorState (_database s) v (_rdb_config s) (_aof_config s) (_aof_file s)
    (_replication_state s) (_tasks s) (_pending_list_pops s) (_pending_stream_reads s)
    (_pending_waits s) (_replication_backlog s) (_replica_sessions s)
    (_replica_acknowledged_offsets s) (_client_write_offsets s) (_transactions s)
    (_watched_keys s) (_clients s) (_channel_subscribers s) (_client_subscriptions s)
    (pubsub_heap s) (replica_heap s) (io_calls s) (promises s) (completed s).
Definition set_rdb_config (v : RDBConfig) (s : ProcessorState) : ProcessorState :=
  mkProcessorState (_database s) (_default_user s) v (_aof_config s) (_aof_file s)
    (_replication_state s) (_tasks s) (_pending_list_pops s) (_pending_stream_reads s)
    (_pending_waits s) (_replication_backlog s) (_replica_sessions s)
    (_replica_acknowledged_offsets s) (_client_write_offsets s) (_transactions s)
    (_watched_keys s) (_clients s) (_channel_subscribers s) (_client_subscriptions s)
    (pubsub_heap s) (replica_heap s) (io_calls s) (promises s) (completed s).
Definition set_aof_config (v : AOFConfig) (s : ProcessorState) : ProcessorState :=
  mkProcessorState (_database s) (_default_user s) (_rdb_config s) v (_aof_file s)
    (_replication_state s) (_tasks s) (_pending_list_pops s) (_pending_stream_reads s)
    (_pending_waits s) (_replication_backlog s) (_replica_sessions s)
    (_replica_acknowledged_offsets s) (_client_write_offsets s) (_transactions s)
    (_watched_keys s) (_clients s) (_channel_subscribers s) (_client_subscriptions s)
    (pubsub_heap s) (replica_heap s) (io_calls s) (promises s) (completed s).
Definition set_aof_file (v : option AppendOnlyFile) (s : ProcessorState) : ProcessorState :=
  mkProcessorState (_database s) (_default_user s) (_rdb_config s) (_aof_config s) v
    (_replication_state s) (_tasks s) (_pending_list_pops s) (_pending_stream_reads s)
    (_pending_waits s) (_replication_backlog s) (_replica_sessions s)
    (_replica_acknowledged_offsets s) (_client_write_offsets s) (_transactions s)
    (_watched_keys s) (_clients s) (_channel_subscribers s) (_client_subscriptions s)
    (pubsub_heap s) (replica_heap s) (io_calls s) (promises s) (completed s).
Definition set_replication_state (v : ReplicationState) (s : ProcessorState) : ProcessorState :=
  mkProcessorState (_database s) (_default_user s) (_rdb_config s) (_aof_config s)
    (_aof_file s) v (_tasks s) (_pending_list_pops s) (_pending_stream_reads s)
    (_pending_waits s) (_replication_backlog s) (_replica_sessions s)
    (_replica_acknowledged_offsets s) (_client_write_offsets s) (_transactions s)
    (_watched_keys s) (_clients s) (_channel_subscribers s) (_client_subscriptions s)
    (pubsub_heap s) (replica_heap s) (io_calls s) (promises s) (completed s).
Definition set_tasks (v : list ProcessorTask) (s : ProcessorState) : ProcessorState :=
  mkProcessorState (_database s) (_default_user s) (_rdb_config s) (_aof_config s)
    (_aof_file s) (_replication_state s) v (_pending_list_pops s) (_pending_stream_reads s)
    (_pending_waits s) (_replication_backlog s) (_replica_sessions s)
    (_replica_acknowledged_offsets s) (_client_write_offsets s) (_transactions s)
    (_watched_keys s) (_clients s) (_channel_subscribers s) (_client_subscriptions s)
    (pubsub_heap s) (replica_heap s) (io_calls s) (promises s) (completed s).
Definition set_pending_list_pops (v : list PendingListPop) (s : ProcessorState) : ProcessorState :=
  mkProcessorState (_database s) (_default_user s) (_rdb_config s) (_aof_config s)
    (_aof_file s) (_replication_state s) (_tasks s) v (_pending_stream_reads s)
    (_pending_waits s) (_replication_backlog s) (_replica_sessions s)
    (_replica_acknowledged_offsets s) (_client_write_offsets s) (_transactions s)
    (_watched_keys s) (_clients s) (_channel_subscribers s) (_client_subscriptions s)
    (pubsub_heap s) (replica_heap s) (io_calls s) (promises s) (completed s).
Definition set_pending_stream_reads (v : list PendingStreamRead) (s : ProcessorState) : ProcessorState :=
  mkProcessorState (_database s) (_default_user s) (_rdb_config s) (_aof_config s)
    (_aof_file s) (_replication_state s) (_tasks s) (_pending_list_pops s) v
    (_pending_waits s) (_replication_backlog s) (_replica_sessions s)
    (_replica_acknowledged_offsets s) (_client_write_offsets s) (_transactions s)
    (_watched_keys s) (_clients s) (_channel_subscribers s) (_client_subscriptions s)
    (pubsub_heap s) (replica_heap s) (io_calls s) (promises s) (completed s).
Definition set_pending_waits (v : list PendingWait) (s : ProcessorState) : ProcessorState :=
  mkProcessorState (_database s) (_default_user s) (_rdb_config s) (_aof_config s)
    (_aof_file s) (_replication_state s) (_tasks s) (_pending_list_pops s)
    (_pending_stream_reads s) v (_replication_backlog s) (_replica_sessions s)
    (_replica_acknowledged_offsets s) (_client_write_offsets s) (_transactions s)
    (_watched_keys s) (_clients s) (_channel_subscribers s) (_client_subscriptions s)
    (pubsub_heap s) (replica_heap s) (io_calls s) (promises s) (completed s).
Definition set_replication_backlog (v : list ReplicationFrame) (s : ProcessorState) : ProcessorState :=
  mkProcessorState (_database s) (_default_user s) (_rdb_config s) (_aof_config s)
    (_aof_file s) (_replication_state s) (_tasks s) (_pending_list_pops s)
    (_pending_stream_reads s) (_pending_waits s) v (_replica_sessions s)
    (_replica_acknowledged_offsets s) (_client_write_offsets s) (_transactions s)
    (_watched_keys s) (_clients s) (_channel_subscribers s) (_client_subscriptions s)
    (pubsub_heap s) (replica_heap s) (io_calls s) (promises s) (completed s).
Definition set_replica_sessions (v : list nat) (s : ProcessorState) : ProcessorState :=
  mkProcessorState (_database s) (_default_user s) (_rdb_config s) (_aof_config s)
    (_aof_file s) (_replication_state s) (_tasks s) (_pending_list_pops s)
    (_pending_stream_reads s) (_pending_waits s) (_replication_backlog s) v
    (_replica_acknowledged_offsets s) (_client_write_offsets s) (_transactions s)
    (_watched_keys s) (_clients s) (_channel_subscribers s) (_client_subscriptions s)
    (pubsub_heap s) (replica_heap s) (io_calls s) (promises s) (completed s).
Definition set_replica_acknowledged_offsets (v : gmap Z Z) (s : ProcessorState) : ProcessorState :=
  mkProcessorState (_database s) (_default_user s) (_rdb_config s) (_aof_config s)
    (_aof_file s) (_replication_state s) (_tasks s) (_pending_list_pops s)
    (_pending_stream_reads s) (_pending_waits s) (_replication_backlog s)
    (_replica_sessions s) v (_client_write_offsets s) (_transactions s) (_watched_keys s)
    (_clients s) (_channel_subscribers s) (_client_subscriptions s) (pubsub_heap s)
    (replica_heap s) (io_calls s) (promises s) (completed s).
Definition set_client_write_offsets (v : gmap Z Z) (s : ProcessorState) : ProcessorState :=
  mkProcessorState (_database s) (_default_user s) (_rdb_config s) (_aof_config s)
    (_aof_file s) (_replication_state s) (_tasks s) (_pending_list_pops s)
    (_pending_stream_reads s) (_pending_waits s) (_replication_backlog s)
    (_replica_sessions s) (_replica_acknowledged_offsets s) v (_transactions s)
    (_watched_keys s) (_clients s) (_channel_subscribers s) (_client_subscriptions s)
    (pubsub_heap s) (replica_heap s) (io_calls s) (promises s) (completed s).
Definition set_transactions (v : gmap Z TransactionState) (s : ProcessorState) : ProcessorState :=
  mkProcessorState (_database s) (_default_user s) (_rdb_config s) (_aof_config s)
    (_aof_file s) (_replication_state s) (_tasks s) (_pending_list_pops s)
    (_pending_stream_reads s) (_pending_waits s) (_replication_backlog s)
    (_replica_sessions s) (_replica_acknowledged_offsets s) (_client_write_offsets s) v
    (_watched_keys s) (_clients s) (_channel_subscribers s) (_client_subscriptions s)
    (pubsub_heap s) (replica_heap s) (io_calls s) (promises s) (completed s).
Definition set_watched_keys (v : gmap Z (gmap string Z)) (s : ProcessorState) : ProcessorState :=
  mkProcessorState (_database s) (_default_user s) (_rdb_config s) (_aof_config s)
    (_aof_file s) (_replication_state s) (_tasks s) (_pending_list_pops s)
    (_pending_stream_reads s) (_pending_waits s) (_replication_backlog s)
    (_replica_sessions s) (_replica_acknowledged_offsets s) (_client_write_offsets s)
    (_transactions s) v (_clients s) (_channel_subscribers s) (_client_subscriptions s)
    (pubsub_heap s) (replica_heap s) (io_calls s) (promises s) (completed s).
Definition set_clients (v : gmap Z ClientState) (s : ProcessorState) : ProcessorState :=
  mkProcessorState (_database s) (_default_user s) (_rdb_config s) (_aof_config s)
    (_aof_file s) (_replication_state s) (_tasks s) (_pending_list_pops s)
    (_pending_stream_reads s) (_pending_waits s) (_replication_backlog s)
    (_replica_sessions s) (_replica_acknowledged_offsets s) (_client_write_offsets s)
    (_transactions s) (_watched_keys s) v (_channel_subscribers s) (_client_subscriptions s)
    (pubsub_heap s) (replica_heap s) (io_calls s) (promises s) (completed s).
Definition set_channel_subscribers (v : gmap string (gset Z)) (s : ProcessorState) : ProcessorState :=
  mkProcessorState (_database s) (_default_user s) (_rdb_config s) (_aof_config s)
    (_aof_file s) (_replication_state s) (_tasks s) (_pending_list_pops s)
    (_pending_stream_reads s) (_pending_waits s) (_replication_backlog s)
    (_replica_sessions s) (_replica_acknowledged_offsets s) (_client_write_offsets s)
    (_transactions s) (_watched_keys s) (_clients s) v (_client_subscriptions s)
    (pubsub_heap s) (replica_heap s) (io_calls s) (promises s) (completed s).
Definition set_client_subscriptions (v : gmap Z (gset string)) (s : ProcessorState) : ProcessorState :=
  mkProcessorState (_database s) (_default_user s) (_rdb_config s) (_aof_config s)
    (_aof_file s) (_replication_state s) (_tasks s) (_pending_list_pops s)
    (_pending_stream_reads s) (_pending_waits s) (_replication_backlog s)
    (_replica_sessions s) (_replica_acknowledged_offsets s) (_client_write_offsets s)
    (_transactions s) (_watched_keys s) (_clients s) (_channel_subscribers s) v
    (pubsub_heap s) (replica_heap s) (io_calls s) (promises s) (completed s).
Definition set_pubsub_heap (v : gmap nat PubSubSession) (s : ProcessorState) : ProcessorState :=
  mkProcessorState (_database s) (_default_user s) (_rdb_config s) (_aof_config s)
    (_aof_file s) (_replication_state s) (_tasks s) (_pending_list_pops s)
    (_pending_stream_reads s) (_pending_waits s) (_replication_backlog s)
    (_replica_sessions s) (_replica_acknowledged_offsets s) (_client_write_offsets s)
    (_transactions s) (_watched_keys s) (_clients s) (_channel_subscribers s)
    (_client_subscriptions s) v (replica_heap s) (io_calls s) (promises s) (completed s).
Definition set_replica_heap (v : gmap nat ReplicaSession) (s : ProcessorState) : ProcessorState :=
  mkProcessorState (_database s) (_default_user s) (_rdb_config s) (_aof_config s)
    (_aof_file s) (_replication_state s) (_tasks s) (_pending_list_pops s)
    (_pending_stream_reads s) (_pending_waits s) (_replication_backlog s)
    (_replica_sessions s) (_replica_acknowledged_offsets s) (_client_write_offsets s)
    (_transactions s) (_watched_keys s) (_clients s) (_channel_subscribers s)
    (_client_subscriptions s) (pubsub_heap s) v (io_calls s) (promises s) (completed s).
Definition set_io_calls (v : nat) (s : ProcessorState) : ProcessorState :=
  mkProcessorState (_database s) (_default_user s) (_rdb_config s) (_aof_config s)
    (_aof_file s) (_replication_state s) (_tasks s) (_pending_list_pops s)
    (_pending_stream_reads s) (_pending_waits s) (_replication_backlog s)
    (_replica_sessions s) (_replica_acknowledged_offsets s) (_client_write_offsets s)
    (_transactions s) (_watched_keys s) (_clients s) (_channel_subscribers s)
    (_client_subscriptions s) (pubsub_heap s) (replica_heap s) v (promises s) (completed s).
Definition set_promises (v : nat) (s : ProcessorState) : ProcessorState :=
  mkProcessorState (_database s) (_default_user s) (_rdb_config s) (_aof_config s)
    (_aof_file s) (_replication_state s) (_tasks s) (_pending_list_pops s)
    (_pending_stream_reads s) (_pending_waits s) (_replication_backlog s)
    (_replica_sessions s) (_replica_acknowledged_offsets s) (_client_write_offsets s)
    (_transactions s) (_watched_keys s) (_clients s) (_channel_subscribers s)
    (_client_subscriptions s) (pubsub_heap s) (replica_heap s) (io_calls s) v (completed s).
Definition set_completed (v : list (nat * Completion)) (s : ProcessorState) : ProcessorState :=
  mkProcessorState (_database s) (_default_user s) (_rdb_config s) (_aof_config s)
    (_aof_file s) (_replication_state s) (_tasks s) (_pending_list_pops s)
    (_pending_stream_reads s) (_pending_waits s) (_replication_backlog s)
    (_replica_sessions s) (_replica_acknowledged_offsets s) (_client_write_offsets s)
    (_transactions s) (_watched_keys s) (_clients s) (_channel_subscribers s)
    (_client_subscriptions s) (pubsub_heap s) (replica_heap s) (io_calls s) (promises s) v.

Abbreviation P := (M ProcessorState).

(** ** Basic actions *)

(** An operation of the database. *)
Definition on_database {A} (op : Database -> A * Database) : P A := fun s =>
  let '(x, db) := op (_database s) in Some (x, set_database db s).

(** An operation of the database that may be undefined. *)
Definition try_database {A} (op : Database -> option (A * Database)) : P A := fun s =>
  '(x, db) ← op (_database s); Some (x, set_database db s).

(** [promise.set_value] *)
Definition complete (promise : nat) (value : Completion) : P unit :=
  modify (fun s => set_completed (completed s ++ [(promise, value)]) s).

Definition respond (task : Task) (r : Response) : P unit :=
  complete (response task) (Responded r).
