(* ===== verification/Processor.v ===== *)
(** * The command processor (src/command_processor.cpp)

    One definition per member function of [CommandProcessor], on the state of
    [ProcessorState], in the order the worker thread runs them.  A promise is
    fulfilled with [respond] or [complete]. *)

From stdpp Require Import base option list gmap strings sorting.
From Stdlib Require Import ZArith Lia.
From S2P Require Import Prelude CharConv Environment Resp StreamTypes TimeUtils.
From S2P Require Import Database Commands Dispatch Config Sessions Aof StateMonad.
From S2P Require Import Rdb ProcessorState.

(** ** Helpers of the anonymous namespace *)

Record WaitRequest := mkWaitRequest {
  wait_replicas : Z;
  wait_timeout : option Z;
}.

Definition parse_unsigned_integer (text : string) : option Z :=
  let r := from_chars 0 u64_max text 0 in
  if String.eqb text EmptyString || conversion_failed r text
  then None else Some (fc_value r).

(** [size_t] is 64 bits wide, so its bound never rejects. *)
Definition parse_wait_request (command : Command) : expected WaitRequest Response :=
  if negb (length command =? 3)%nat
  then Unexpected (SimpleError "ERR wrong number of arguments for 'wait' command") else
  match parse_unsigned_integer (arg command 1), parse_unsigned_integer (arg command 2) with
  | Some required, Some timeout =>
      if (u64_max <? required) || (i64_max <? timeout)
      then Unexpected (SimpleError "ERR value is not an integer or out of range")
      else Expected (mkWaitRequest required (if timeout =? 0 then None else Some timeout))
  | _, _ => Unexpected (SimpleError "ERR value is not an integer or out of range")
  end.

Definition make_default_acl_user (password_hash : option string) : User :=
  match password_hash with
  | None => mkUser true ∅
  | Some h => mkUser false {[ h ]}
  end.

(** The constructor; the replication identifier is random. *)
Definition initial_state (replica_of : option ReplicaConfig) (rdb : RDBConfig)
    (aof : AOFConfig) (password_hash : option string) (generated_id : string)
    : ProcessorState :=
  mkProcessorState empty_database (make_default_acl_user password_hash) rdb aof None
    (mkReplicationState (match replica_of with Some _ => REPLICA | None => MASTER end)
       generated_id 0)
    [] [] [] [] [] [] ∅ ∅ ∅ ∅ ∅ ∅ ∅ ∅ ∅ 0 0 [].

Definition get_replication_role (r : ReplicationState) : string :=
  match role r with MASTER => "master" | REPLICA => "slave" end.

Definition wrong_type_response : Response := wrong_type_error.
Definition misconf (reason : string) : Response :=
  SimpleError ("MISCONF AOF persistence error: " +:+ reason).

Definition greater_than : Ascii.ascii := Ascii.ascii_of_nat 62.

(** [std::string]'s order: bytes as unsigned numbers. *)
Definition string_le (a b : string) : Prop := String.leb a b = true.
#[export] Instance string_le_dec : RelDecision string_le.
Proof. unfold string_le. solve_decision. Defined.

Section Processor.
Context `{Clock, HashOrder, Kernel, Crypto}.

(** ** Sessions and the append-only file *)

(** [session->enqueue(frame)] on a locked pub/sub session. *)
Definition enqueue_frame (address : nat) (frame : PubSubFrame) : P (expected unit string) :=
  fun s =>
    session ← pubsub_heap s !! address;
    '(result, session, calls) ← pubsub_enqueue frame session (io_calls s);
    Some (result, set_io_calls calls
                    (set_pubsub_heap (<[address := session]> (pubsub_heap s)) s)).

(** [_aof_file->append(payload)] *)
Definition append_aof (data : string) : P (expected unit string) := fun s =>
  file ← _aof_file s;
  let db := _database s in
  '(result, file, calls, reads) ← append data file (io_calls s) (clock_reads db);
  Some (result, set_io_calls calls (set_aof_file (Some file)
    (set_database (mkDatabase (entries db) (key_revisions db) (next_revision db) reads) s))).

(** The session of a registered client, when it can still be locked. *)
Definition live_session (s : ProcessorState) (client : ClientState) : option nat :=
  match pubsub_heap s !! pubsub_session client with
  | Some _ => Some (pubsub_session client)
  | None => None
  end.

Definition enqueue_pubsub_response (client_id : Z) (r : Response) : P (expected unit string) :=
  client ← gets (fun s => _clients s !! client_id);
  match client with
  | None => mret (Unexpected "Pub/Sub session is not registered")
  | Some client =>
      session ← gets (fun s => live_session s client);
      match session with
      | None =>
          modify (fun s => set_clients (delete client_id (_clients s)) s);;
          mret (Unexpected "Pub/Sub session is no longer available")
      | Some address => enqueue_frame address (mkPubSubFrame (serialize_response r))
      end
  end.

(** ** Replication *)

Definition append_replication_frame (data : string) : P unit :=
  modify (fun s => let r := _replication_state s in
    set_replication_state (mkReplicationState (role r) (replication_id r)
      (wrap_u64 (offset r + size_of data))) s);;
  new_offset ← gets (fun s => offset (_replication_state s));
  let frame := mkReplicationFrame data new_offset in
  modify (fun s => set_replication_backlog (_replication_backlog s ++ [frame]) s);;
  sessions ← gets _replica_sessions;
  sessions ← keepM (fun address =>
    session ← gets (fun s => replica_heap s !! address);
    match session with
    | None => mret false
    | Some session =>
        modify (fun s => set_replica_heap
          (<[address := replica_enqueue frame session]> (replica_heap s)) s);;
        mret true
    end) sessions;
  modify (set_replica_sessions sessions).

Definition append_client_replication_frame (client_id : Z) (data : string) : P unit :=
  append_replication_frame data;;
  modify (fun s => set_client_write_offsets
    (<[client_id := offset (_replication_state s)]> (_client_write_offsets s)) s).

Definition persist_blocking_pop (task : Task) (key : string) : P (expected unit string) :=
  let data := serialize_command ["LPOP"; key] in
  file ← gets _aof_file;
  result ← (if bool_decide (source task <> AOF) && bool_decide (is_Some file)
            then append_aof data else mret (Expected tt));
  match result with
  | Unexpected e => mret (Unexpected e)
  | Expected _ =>
      r ← gets (fun s => role (_replication_state s));
      (if bool_decide (r = MASTER) && bool_decide (source task = CLIENT)
       then append_client_replication_frame (client_id task) data else mret tt);;
      mret (Expected tt)
  end.

(** ** Access control *)

(** The passwords of the user, sorted. *)
Definition sorted_passwords (user : User) : list string :=
  merge_sort string_le (elements (password_hashes user)).

Definition acl_whoami (client_id : Z) (command : Command) : P Response :=
  if negb (length command =? 2)%nat
  then mret (SimpleError "ERR wrong number of arguments for 'acl|whoami' command") else
  client ← gets (fun s => _clients s !! client_id);
  match client with
  | Some client =>
      mret (if authenticated client then BulkString "default"
            else SimpleError "NOAUTH Authentication required.")
  | None => mret (SimpleError "NOAUTH Authentication required.")
  end.

Definition acl_getuser (command : Command) : P Response :=
  if negb (length command =? 3)%nat
  then mret (SimpleError "ERR wrong number of arguments for 'acl|getuser' command") else
  if negb (String.eqb (arg command 2) "default") then mret NullArray else
  user ← gets _default_user;
  mret (ResponseArray [
    BulkString "flags";
    Array (["on"; "allkeys"; "allchannels"; "allcommands"] ++
           (if no_password user then ["nopass"] else []));
    BulkString "passwords"; Array (sorted_passwords user);
    BulkString "commands"; BulkString "+@all";
    BulkString "keys"; BulkString "~*";
    BulkString "channels"; BulkString "&*";
    BulkString "selectors"; EmptyArray]).

(** The loop of [acl_setuser] over the rules. *)
Fixpoint apply_acl_rules (rules : list string) (user : User) : expected User Response :=
  match rules with
  | [] => Expected user
  | rule :: rules' =>
      if String.eqb rule "nopass" then apply_acl_rules rules' (mkUser true ∅) else
      if (1 <? String.length rule)%nat && bool_decide (front rule = Some greater_than) then
        match sha256 (drop_string 1 rule) with
        | Unexpected e => Unexpected (SimpleError ("ERR failed to hash ACL password: " +:+ e))
        | Expected h => apply_acl_rules rules' (mkUser false ({[ h ]} ∪ password_hashes user))
        end
      else Unexpected (SimpleError ("ERR unsupported ACL rule: " +:+ rule))
  end.

Definition acl_setuser (command : Command) : P Response :=
  if (length command <? 3)%nat
  then mret (SimpleError "ERR wrong number of arguments for 'acl|setuser' command") else
  if negb (String.eqb (arg command 2) "default")
  then mret (SimpleError "ERR only the default ACL user is supported") else
  user ← gets _default_user;
  match apply_acl_rules (drop 3 command) user with
  | Unexpected e => mret e
  | Expected user => modify (set_default_user user);; mret (SimpleString "OK")
  end.

Definition process_acl_command (client_id : Z) (command : Command) : P Response :=
  if (length command <? 2)%nat
  then mret (SimpleError "ERR wrong number of arguments for 'acl' command") else
  if String.eqb (arg command 1) "WHOAMI" then acl_whoami client_id command else
  if String.eqb (arg command 1) "GETUSER" then acl_getuser command else
  if String.eqb (arg command 1) "SETUSER" then acl_setuser command else
  mret (SimpleError "ERR unknown ACL subcommand").

Definition wrongpass : Response :=
  SimpleError "WRONGPASS invalid username-password pair or user is disabled.".

Definition authenticate (client_id : Z) (command : Command) : P Response :=
  if negb (length command =? 2)%nat && negb (length command =? 3)%nat
  then mret (SimpleError "ERR wrong number of arguments for 'auth' command") else
  let username := if (length command =? 2)%nat then "default" else arg command 1 in
  let password := if (length command =? 2)%nat then arg command 1 else arg command 2 in
  client ← gets (fun s => _clients s !! client_id);
  match client with
  | None => mret (SimpleError "ERR client connection is not registered")
  | Some client =>
      if negb (String.eqb username "default") then mret wrongpass else
      user ← gets _default_user;
      let accept := modify (fun s => set_clients
        (<[client_id := mkClientState true (pubsub_session client)]> (_clients s)) s);;
        mret (SimpleString "OK") in
      if no_password user then accept else
      match sha256 password with
      | Unexpected e =>
          mret (SimpleError ("ERR failed to hash authentication password: " +:+ e))
      | Expected h => if bool_decide (h ∈ password_hashes user) then accept else mret wrongpass
      end
  end.

(** ** Pub/sub *)

Definition subscription_reply (kind channel : string) (count : nat) : string :=
  serialize_response (ResponseArray
    [BulkString kind; BulkString channel; Integer (Z.of_nat count)]).

Definition subscriptions_of (s : ProcessorState) (client_id : Z) : gset string :=
  default ∅ (_client_subscriptions s !! client_id).

(** One iteration of the loop of [subscribe]: the acknowledgement. *)
Definition subscribe_channel (client_id : Z) (channel : string) : P string := fun s =>
  let subscriptions := {[ channel ]} ∪ subscriptions_of s client_id in
  let subscribers := {[ client_id ]} ∪ default ∅ (_channel_subscribers s !! channel) in
  Some (subscription_reply "subscribe" channel (size subscriptions),
        set_channel_subscribers (<[channel := subscribers]> (_channel_subscribers s))
          (set_client_subscriptions
             (<[client_id := subscriptions]> (_client_subscriptions s)) s)).

(** Acknowledgements of a list of channels, concatenated. *)
Fixpoint acknowledge_channels (f : string -> P string) (channels : list string) : P string :=
  match channels with
  | [] => mret EmptyString
  | channel :: channels' =>
      reply ← f channel;
      rest ← acknowledge_channels f channels';
      mret (reply +:+ rest)
  end.

Definition queue_acknowledgement (address : nat) (data : string) : P Response :=
  result ← enqueue_frame address (mkPubSubFrame data);
  match result with
  | Unexpected e =>
      mret (SimpleError ("ERR failed to queue Pub/Sub acknowledgement: " +:+ e))
  | Expected _ => mret NoResponse
  end.

(** The session both commands lock first; the error otherwise. *)
Definition lock_client_session (client_id : Z) : P (expected nat Response) :=
  client ← gets (fun s => _clients s !! client_id);
  match client with
  | None => mret (Unexpected (SimpleError "ERR Pub/Sub session is not registered"))
  | Some client =>
      session ← gets (fun s => live_session s client);
      match session with
      | None =>
          modify (fun s => set_clients (delete client_id (_clients s)) s);;
          mret (Unexpected (SimpleError "ERR Pub/Sub session is no longer available"))
      | Some address => mret (Expected address)
      end
  end.

Definition subscribe (client_id : Z) (command : Command) : P Response :=
  if (length command <? 2)%nat
  then mret (SimpleError "ERR wrong number of arguments for 'subscribe' command") else
  session ← lock_client_session client_id;
  match session with
  | Unexpected e => mret e
  | Expected address =>
      data ← acknowledge_channels (subscribe_channel client_id) (drop 1 command);
      queue_acknowledgement address data
  end.

(** A set of subscribers stored back under its channel, or erased when empty. *)
Definition store_subscribers (channel : string) (subscribers : gset Z)
    (m : gmap string (gset Z)) : gmap string (gset Z) :=
  if decide (subscribers = ∅) then delete channel m else <[channel := subscribers]> m.

Definition store_subscriptions (client_id : Z) (channels : gset string)
    (m : gmap Z (gset string)) : gmap Z (gset string) :=
  if decide (channels = ∅) then delete client_id m else <[client_id := channels]> m.

(** The lambda [remove_subscription]: the number of channels that remain. *)
Definition remove_subscription (client_id : Z) (channel : string) : P nat := fun s =>
  match _client_subscriptions s !! client_id with
  | None => Some (0%nat, s)
  | Some channels =>
      let s :=
        if decide (channel ∈ channels) then
          match _channel_subscribers s !! channel with
          | None => s
          | Some subscribers => set_channel_subscribers
              (store_subscribers channel (subscribers ∖ {[ client_id ]})
                 (_channel_subscribers s)) s
          end
        else s in
      let channels := channels ∖ {[ channel ]} in
      Some (size channels, set_client_subscriptions
        (store_subscriptions client_id channels (_client_subscriptions s)) s)
  end.

Definition unsubscribe_channel (client_id : Z) (channel : string) : P string :=
  remaining ← remove_subscription client_id channel;
  mret (subscription_reply "unsubscribe" channel remaining).

Definition unsubscribe (client_id : Z) (command : Command) : P Response :=
  session ← lock_client_session client_id;
  match session with
  | Unexpected e => mret e
  | Expected address =>
      data ←
        (if (length command =? 1)%nat then
           subscriptions ← gets (fun s => subscriptions_of s client_id);
           if decide (subscriptions = ∅) then
             mret (serialize_response (ResponseArray
               [BulkString "unsubscribe"; NullBulkString; Integer 0]))
           else acknowledge_channels (unsubscribe_channel client_id)
                  (hash_order (elements subscriptions))
         else acknowledge_channels (unsubscribe_channel client_id) (drop 1 command));
      queue_acknowledgement address data
  end.

(** One iteration of the loop of [publish] over the subscribers of a channel:
    whether the subscriber stays, and the count of recipients. *)
Definition publish_to (channel : string) (frame : PubSubFrame) (client_id : Z)
    (recipients : Z) : P (bool * Z) :=
  client ← gets (fun s => _clients s !! client_id);
  session ← gets (fun s => client ← client; live_session s client);
  match session with
  | None =>
      modify (fun s =>
        match _client_subscriptions s !! client_id with
        | None => s
        | Some channels => set_client_subscriptions
            (store_subscriptions client_id (channels ∖ {[ channel ]})
               (_client_subscriptions s)) s
        end);;
      modify (fun s => set_clients (delete client_id (_clients s)) s);;
      mret (false, recipients)
  | Some address =>
      result ← enqueue_frame address frame;
      mret (true, match result with
                  | Expected _ => recipients + 1
                  | Unexpected _ => recipients
                  end)
  end.

Fixpoint publish_loop (channel : string) (frame : PubSubFrame) (subscribers : list Z)
    (kept : gset Z) (recipients : Z) : P (gset Z * Z) :=
  match subscribers with
  | [] => mret (kept, recipients)
  | client_id :: rest =>
      '(keep, recipients) ← publish_to channel frame client_id recipients;
      publish_loop channel frame rest
        (if keep : bool then kept else kept ∖ {[ client_id ]}) recipients
  end.

Definition publish (command : Command) : P Response :=
  if negb (length command =? 3)%nat
  then mret (SimpleError "ERR wrong number of arguments for 'publish' command") else
  let channel := arg command 1 in
  subscribers ← gets (fun s => _channel_subscribers s !! channel);
  match subscribers with
  | None => mret (Integer 0)
  | Some subscribers =>
      let frame := mkPubSubFrame (serialize_response
                     (Array ["message"; channel; arg command 2])) in
      '(kept, recipients) ←
        publish_loop channel frame (hash_order_ids (elements subscribers)) subscribers 0;
      modify (fun s => set_channel_subscribers
        (store_subscribers channel kept (_channel_subscribers s)) s);;
      mret (Integer recipients)
  end.

(** ** Transactions *)

(** The loop of [execute_transaction] over the watched keys: some revision
    differs. *)
Fixpoint watched_changed (watched : list (string * Z)) : P bool :=
  match watched with
  | [] => mret false
  | (key, original) :: rest =>
      revision ← on_database (key_revision key);
      if negb (revision =? original) then mret true else watched_changed rest
  end.

(** The watched keys of a client in the order of their container. *)
Definition watched_list (s : ProcessorState) (client_id : Z) : list (string * Z) :=
  match _watched_keys s !! client_id with
  | None => []
  | Some watched =>
      omap (fun key => revision ← watched !! key; Some (key, revision))
        (hash_order (map_to_list watched).*1)
  end.

(** The loop over the queued commands: the responses and the payload to
    persist. *)
Fixpoint run_transaction (record : bool) (commands : list Command) (data : string)
    : P (list Response * string) :=
  match commands with
  | [] => mret ([], data)
  | command :: rest =>
      r ← try_database (fun db => dispatch db command);
      let data :=
        if record && is_write_command command && write_modified_database command r then
          (if String.eqb data EmptyString then serialize_command ["MULTI"] else data) +:+
          serialize_command (normalize_replication_command command r)
        else data in
      '(rs, data) ← run_transaction record rest data;
      mret (r :: rs, data)
  end.

(** [execute_transaction] once the watched keys are checked. *)
Definition commit_transaction (client_id : Z) (from : CommandSource)
    (transaction : TransactionState) (changed : bool) : P Response :=
  modify (fun s => set_transactions (delete client_id (_transactions s)) s);;
  modify (fun s => set_watched_keys (delete client_id (_watched_keys s)) s);;
  if has_error transaction
  then mret (SimpleError "EXECABORT Transaction discarded because of previous errors.")
  else if changed then mret NullArray
  else if (length (queued_commands transaction) =? 0)%nat then mret EmptyArray else
  replicate ← gets (fun s => bool_decide (role (_replication_state s) = MASTER) &&
                             bool_decide (from = CLIENT));
  persist ← gets (fun s => bool_decide (is_Some (_aof_file s)) &&
                           bool_decide (from <> AOF));
  '(rs, data) ← run_transaction (replicate || persist) (queued_commands transaction)
                  EmptyString;
  if String.eqb data EmptyString then mret (ResponseArray rs) else
  let data := data +:+ serialize_command ["EXEC"] in
  result ← (if persist : bool then append_aof data else mret (Expected tt));
  match result with
  | Unexpected e => mret (misconf e)
  | Expected _ =>
      (if replicate : bool then append_client_replication_frame client_id data else mret tt);;
      mret (ResponseArray rs)
  end.

Definition execute_transaction (client_id : Z) (from : CommandSource) : P Response :=
  transaction ← gets (fun s => _transactions s !! client_id);
  match transaction with
  | None => mret (SimpleError "ERR EXEC without MULTI")
  | Some transaction =>
      watched ← gets (fun s => watched_list s client_id);
      changed ← watched_changed watched;
      commit_transaction client_id from transaction changed
  end.

(** The loop of WATCH over its keys. *)
Definition watch_key (client_id : Z) (key : string) : P unit :=
  watched ← gets (fun s => default ∅ (_watched_keys s !! client_id));
  if decide (is_Some (watched !! key)) then mret tt else
  revision ← on_database (key_revision key);
  modify (fun s => set_watched_keys
    (<[client_id := <[key := revision]> watched]> (_watched_keys s)) s).

Definition watch (client_id : Z) (command : Command) : P Response :=
  if (length command <? 2)%nat
  then mret (SimpleError "ERR Invalid syntax. Expected usage: WATCH <key1> <key2> ...") else
  active ← gets (fun s => bool_decide (is_Some (_transactions s !! client_id)));
  if active : bool then mret (SimpleError "ERR WATCH inside MULTI is not allowed") else
  modify (fun s => set_watched_keys
    (<[client_id := default ∅ (_watched_keys s !! client_id)]> (_watched_keys s)) s);;
  forM_ (drop 1 command) (watch_key client_id);;
  mret (SimpleString "OK").

(** ** Commands outside the table *)

Definition info_text (r : ReplicationState) : string :=
  "# Replication" +:+ crlf +:+ "role:" +:+ get_replication_role r +:+ crlf +:+
  "master_replid:" +:+ replication_id r +:+ crlf +:+
  "master_repl_offset:" +:+ to_string (offset r) +:+ crlf.

Definition config_get (command : Command) : P Response :=
  if negb (length command =? 3)%nat || negb (String.eqb (arg command 1) "GET")
  then mret (SimpleError "ERR syntax error") else
  rdb ← gets _rdb_config;
  aof ← gets _aof_config;
  let name := arg command 2 in
  mret (
    if String.eqb name "dir" then Array ["dir"; dir rdb]
    else if String.eqb name "dbfilename" then Array ["dbfilename"; db_filename rdb]
    else if String.eqb name "appendonly"
      then Array ["appendonly"; if enabled aof then "yes" else "no"]
    else if String.eqb name "appenddirname" then Array ["appenddirname"; append_dirname aof]
    else if String.eqb name "appendfilename" then Array ["appendfilename"; append_filename aof]
    else if String.eqb name "appendfsync" then Array ["appendfsync"; append_fsync aof]
    else EmptyArray).

Definition process_command (client_id : Z) (command : Command) (from : CommandSource)
    : P Response :=
  match command with
  | [] => mret (SimpleError "ERR empty command")
  | name :: _ =>
      subscribed ← gets (fun s => bool_decide (is_Some (_client_subscriptions s !! client_id)));
      transaction ← gets (fun s => _transactions s !! client_id);
      if String.eqb name "SUBSCRIBE" then subscribe client_id command else
      if String.eqb name "UNSUBSCRIBE" then unsubscribe client_id command else
      if subscribed && String.eqb name "PING" then
        mret (if (2 <? length command)%nat
              then SimpleError "ERR wrong number of arguments for 'ping' command"
              else Array ["pong"; if (length command =? 2)%nat then arg command 1
                                  else EmptyString]) else
      if String.eqb name "PUBLISH" then publish command else
      if String.eqb name "AUTH" then authenticate client_id command else
      if String.eqb name "ACL" then process_acl_command client_id command else
      if String.eqb name "INFO" then
        r ← gets _replication_state; mret (BulkString (info_text r)) else
      if String.eqb name "CONFIG" then config_get command else
      if String.eqb name "REPLCONF" then
        mret (if negb (length command =? 3)%nat
              then SimpleError "ERR wrong number of arguments for 'replconf' command"
              else SimpleString "OK") else
      if String.eqb name "PSYNC" then
        r ← gets _replication_state;
        mret (if negb (length command =? 3)%nat
              then SimpleError "ERR wrong number of arguments for 'psync' command"
              else SimpleString ("FULLRESYNC " +:+ replication_id r +:+ " " +:+
                                 to_string (offset r))) else
      if String.eqb name "WATCH" then watch client_id command else
      if String.eqb name "UNWATCH" then
        if negb (length command =? 1)%nat
        then mret (SimpleError "ERR wrong number of arguments for 'unwatch' command") else
        modify (fun s => set_watched_keys (delete client_id (_watched_keys s)) s);;
        mret (SimpleString "OK") else
      if String.eqb name "MULTI" then
        match transaction with
        | Some _ => mret (SimpleError "ERR MULTI calls cannot be nested")
        | None =>
            modify (fun s => set_transactions
              (<[client_id := mkTransactionState [] false]> (_transactions s)) s);;
            mret (SimpleString "OK")
        end else
      if String.eqb name "EXEC" then execute_transaction client_id from else
      if String.eqb name "DISCARD" then
        match transaction with
        | None => mret (SimpleError "ERR DISCARD without MULTI")
        | Some _ =>
            modify (fun s => set_transactions (delete client_id (_transactions s)) s);;
            modify (fun s => set_watched_keys (delete client_id (_watched_keys s)) s);;
            mret (SimpleString "OK")
        end else
      match transaction with
      | Some t =>
          modify (fun s => set_transactions (<[client_id :=
            mkTransactionState (queued_commands t ++ [command]) (has_error t)]>
              (_transactions s)) s);;
          mret (SimpleString "QUEUED")
      | None => try_database (fun db => dispatch db command)
      end
  end.

(** ** Blocking operations *)

(** The deadline of a timeout that starts now. *)
Definition deadline_of (timeout : option Z) : P (option Z) :=
  match timeout with
  | None => mret None
  | Some ms =>
      now ← on_database steady_now;
      match deadline_after now ms with
      | Some t => mret (Some t)
      | None => undefined
      end
  end.

(** An element was popped for a blocked or blocking client: persist, respond. *)
Definition serve_pop (task : Task) (key value : string) : P unit :=
  persistence ← persist_blocking_pop task key;
  match persistence with
  | Unexpected e => respond task (misconf e)
  | Expected _ => respond task (Array [key; value])
  end.

Definition process_blpop (task : Task) : P unit :=
  match parse_blpop (task_command task) with
  | None => undefined
  | Some (Unexpected e) => respond task e
  | Some (Expected request) =>
      result ← on_database (pop_list_element (pop_key request));
      match result with
      | Expected value => serve_pop task (pop_key request) value
      | Unexpected WRONG_TYPE => respond task wrong_type_response
      | Unexpected _ =>
          deadline ← deadline_of (pop_timeout request);
          modify (fun s => set_pending_list_pops (_pending_list_pops s ++
            [mkPendingListPop task (pop_key request) deadline]) s)
      end
  end.

Definition read_error (e : Error) : Response :=
  match e with
  | WRONG_TYPE => wrong_type_response
  | _ => SimpleError "ERR Unable to read streams"
  end.

(** [read_streams] resolves the requests in place. *)
Definition read_in_place (requests : list ReadRequest)
    : P (expected (list ReadResult) Error * list ReadRequest) :=
  on_database (read_streams requests).

Definition process_xread (task : Task) : P unit :=
  match parse_xread (task_command task) with
  | Unexpected e => respond task e
  | Expected read_command =>
      '(result, resolved) ← read_in_place (requests read_command);
      match result with
      | Unexpected e => respond task (read_error e)
      | Expected (_ :: _ as results) => respond task (make_xread_response results)
      | Expected [] =>
          let block deadline :=
            modify (fun s => set_pending_stream_reads (_pending_stream_reads s ++
              [mkPendingStreamRead task resolved deadline]) s) in
          match read_mode (options read_command) with
          | IMMEDIATE => respond task NullArray
          | BLOCK_INDEFINITELY => block None
          | BLOCK_WITH_TIMEOUT =>
              deadline ← deadline_of (Some (timeout (options read_command)));
              block deadline
          end
      end
  end.

(** A live session is counted when nothing was written, or when its replica
    acknowledged the target. *)
Definition counts_as_acknowledged (target : Z) (acknowledged : gmap Z Z)
    (session : ReplicaSession) : bool :=
  (target =? 0) ||
  match acknowledged !! session_client_id session with
  | Some ack => target <=? ack
  | None => false
  end.

Definition count_acknowledged_replicas (target : Z) : P Z := fun s =>
  let alive := filter (fun address => is_Some (replica_heap s !! address)) (_replica_sessions s) in
  let counted := omap (fun address =>
    session ← replica_heap s !! address;
    guard (counts_as_acknowledged target (_replica_acknowledged_offsets s) session = true);;
    Some address) (_replica_sessions s) in
  Some (Z.of_nat (length counted), set_replica_sessions alive s).

Definition process_wait (task : Task) : P unit :=
  r ← gets (fun s => role (_replication_state s));
  if negb (bool_decide (r = MASTER))
  then respond task (SimpleError "ERR WAIT cannot be used with replica instances") else
  match parse_wait_request (task_command task) with
  | Unexpected e => respond task e
  | Expected request =>
      target ← gets (fun s => default 0 (_client_write_offsets s !! client_id task));
      acknowledged ← count_acknowledged_replicas target;
      if (target =? 0) || (wait_replicas request <=? acknowledged)
      then respond task (Integer acknowledged) else
      append_replication_frame (serialize_command ["REPLCONF"; "GETACK"; "*"]);;
      deadline ← deadline_of (wait_timeout request);
      modify (fun s => set_pending_waits (_pending_waits s ++
        [mkPendingWait task (wait_replicas request) target deadline]) s)
  end.

(** ** Tasks *)

(** The response of a subscribed client goes through its session. *)
Definition route_pubsub_response (client_id : Z) (r : Response) : P Response :=
  result ← enqueue_pubsub_response client_id r;
  match result with
  | Expected _ => mret NoResponse
  | Unexpected e => mret (SimpleError ("ERR failed to queue Pub/Sub response: " +:+ e))
  end.

Definition is_subscribed (s : ProcessorState) (client_id : Z) : bool :=
  bool_decide (is_Some (_client_subscriptions s !! client_id)).

Definition is_authenticated (s : ProcessorState) (client_id : Z) : bool :=
  match _clients s !! client_id with
  | Some client => authenticated client
  | None => false
  end.

Definition noauth : Response := SimpleError "NOAUTH Authentication required.".
Definition readonly_error : Response :=
  SimpleError "READONLY You can't write against a read only replica.".
Definition subscribed_error (command : Command) : Response :=
  SimpleError ("ERR Can't execute '" +:+ arg command 0 +:+
    "': only SUBSCRIBE, UNSUBSCRIBE and PING are allowed in this context").

Definition is_named (command : Command) (name : string) : bool :=
  match command with
  | [] => false
  | first :: _ => String.eqb first name
  end.

(** The part of [process_task] after its guards: commands that neither block
    nor wait. *)
Definition process_direct (task : Task) (transaction_is_active : bool) : P unit :=
  let command := task_command task in
  let write_command := negb transaction_is_active && is_write_command command in
  replicate ← gets (fun s => bool_decide (role (_replication_state s) = MASTER) &&
                             bool_decide (source task = CLIENT) && write_command);
  persist ← gets (fun s => bool_decide (is_Some (_aof_file s)) &&
                           bool_decide (source task <> AOF) && write_command);
  r ← process_command (client_id task) command (source task);
  let command_succeeded := negb (response_is_error r) in
  r ← (if (replicate || persist) && write_modified_database command r then
         let data := serialize_command (normalize_replication_command command r) in
         result ← (if persist : bool then append_aof data else mret (Expected tt));
         let r := match result with Unexpected e => misconf e | Expected _ => r end in
         (if replicate && negb (response_is_error r)
          then append_client_replication_frame (client_id task) data else mret tt);;
         mret r
       else mret r);
  (if bool_decide (source task = FROM_MASTER) && command_succeeded
   then modify (fun s => let rs := _replication_state s in
          set_replication_state (mkReplicationState (role rs) (replication_id rs)
            (wrap_u64 (offset rs + replication_bytes task))) s)
   else mret tt);;
  subscribed ← gets (fun s => is_subscribed s (client_id task));
  let already_queued := match r with NoResponse => true | _ => false end in
  r ← (if bool_decide (source task = CLIENT) && subscribed && negb already_queued
       then route_pubsub_response (client_id task) r else mret r);
  respond task r.

Definition process_task (task : Task) : P unit :=
  let command := task_command task in
  let from_client := bool_decide (source task = CLIENT) in
  authenticated ← gets (fun s => is_authenticated s (client_id task));
  subscribed ← gets (fun s => is_subscribed s (client_id task));
  if from_client && negb (is_named command "AUTH") && negb authenticated then
    r ← (if subscribed : bool then route_pubsub_response (client_id task) noauth else mret noauth);
    respond task r
  else if from_client && subscribed && negb (is_named command "SUBSCRIBE" ||
            is_named command "UNSUBSCRIBE" || is_named command "PING") then
    r ← route_pubsub_response (client_id task) (subscribed_error command);
    respond task r
  else
  r ← gets (fun s => role (_replication_state s));
  transaction ← gets (fun s => _transactions s !! client_id task);
  if bool_decide (r = REPLICA) && from_client && is_write_command command then
    match transaction with
    | Some t => modify (fun s => set_transactions
        (<[client_id task := mkTransactionState (queued_commands t) true]> (_transactions s)) s)
    | None => mret tt
    end;;
    respond task readonly_error
  else
  let active := bool_decide (is_Some transaction) in
  if is_named command "BLPOP" && negb active then process_blpop task else
  if is_named command "XREAD" && negb active then process_xread task else
  if is_named command "WAIT" && negb active then process_wait task else
  process_direct task active.

Definition process_replica_registration (client_id : Z) (registration : nat) : P unit :=
  fun s =>
    let rs := _replication_state s in
    let address := fresh (dom (replica_heap s) ∪ list_to_set (_replica_sessions s)) in
    complete registration
      (Registered (mkReplicaRegistration (replication_id rs) (offset rs) address))
      (set_replica_sessions (_replica_sessions s ++ [address])
        (set_replica_heap
          (<[address := new_replica_session client_id (offset rs)]> (replica_heap s)) s)).

Definition process_replication_state_installation (id : string) (off : Z) (completion : nat)
    : P unit :=
  modify (fun s => set_replication_state
    (mkReplicationState (role (_replication_state s)) id off) s);;
  complete completion Done.

Definition process_replication_offset_request (completion : nat) : P unit :=
  off ← gets (fun s => offset (_replication_state s));
  complete completion (OffsetReported off).

Definition process_replica_acknowledgement (client_id off : Z) (completion : nat) : P unit :=
  modify (fun s => let acks := _replica_acknowledged_offsets s in
    set_replica_acknowledged_offsets
      (<[client_id := Z.max (default 0 (acks !! client_id)) off]> acks) s);;
  complete completion Done.

(** One iteration of the loop of [process_rdb_load]. *)
Definition load_entry (unix_now : Z) (entry : StringEntry) : P unit :=
  let store expiry := try_database (fun db =>
    db ← set (rdb_key entry) (rdb_value entry) expiry db; Some (tt, db)) in
  match expires_at_unix_ms entry with
  | None => store None
  | Some t =>
      if (unix_now <? 0) || (t <=? unix_now) then mret tt
      else store (Some (Z.min (t - unix_now) i64_max))
  end.

Definition process_rdb_load (entries : list StringEntry) (completion : nat) : P unit :=
  unix_now ← on_database system_now_ms;
  forM_ entries (load_entry unix_now);;
  complete completion Done.

Definition aof_client_id : Z := u64_max.

Definition forget_transaction (client_id : Z) : P unit :=
  modify (fun s => set_transactions (delete client_id (_transactions s)) s);;
  modify (fun s => set_watched_keys (delete client_id (_watched_keys s)) s).

(** The replay loop: the error that stops it, if any. *)
Fixpoint replay_commands (commands : list Command) : P (option string) :=
  match commands with
  | [] => mret None
  | command :: rest =>
      r ← process_command aof_client_id command AOF;
      match r with
      | SimpleError e => mret (Some e)
      | _ => replay_commands rest
      end
  end.

Definition process_aof_initialization (file : AppendOnlyFile) (commands : list Command)
    (completion : nat) : P unit :=
  error ← replay_commands commands;
  match error with
  | Some e =>
      forget_transaction aof_client_id;;
      complete completion (AofInitialized (Unexpected ("Failed to replay AOF command: " +:+ e)))
  | None =>
      transaction ← gets (fun s => _transactions s !! aof_client_id);
      forget_transaction aof_client_id;;
      match transaction with
      | Some _ => complete completion (AofInitialized (Unexpected
          "AOF file ended before its transaction was completed"))
      | None =>
          modify (set_aof_file (Some file));;
          complete completion (AofInitialized (Expected tt))
      end
  end.

Definition process_client_registration (client_id : Z) (session : nat) (completion : nat)
    : P unit :=
  modify (fun s => set_clients (<[client_id :=
    mkClientState (no_password (_default_user s)) session]> (_clients s)) s);;
  complete completion Done.

(** The lambda [cancel] on one queue: what stays. *)
Definition cancel {A} (task_of : A -> Task) (client : Z) (pending : list A) : P (list A) :=
  keepM (fun p =>
    if negb (client_id (task_of p) =? client) then mret true else
    respond (task_of p) NoResponse;; mret false) pending.

Definition cancel_pending_commands (client : Z) : P unit :=
  pops ← gets _pending_list_pops;
  pops ← cancel pop_task client pops;
  modify (set_pending_list_pops pops);;
  reads ← gets _pending_stream_reads;
  reads ← cancel read_task client reads;
  modify (set_pending_stream_reads reads);;
  waits ← gets _pending_waits;
  waits ← cancel wait_task client waits;
  modify (set_pending_waits waits).

(** The loop of [process_client_unregistration] over the channels. *)
Definition drop_subscriber (client_id : Z) (channel : string) : P unit :=
  modify (fun s =>
    match _channel_subscribers s !! channel with
    | None => s
    | Some subscribers => set_channel_subscribers
        (store_subscribers channel (subscribers ∖ {[ client_id ]}) (_channel_subscribers s)) s
    end).

Definition process_client_unregistration (client : Z) (completion : nat) : P unit :=
  cancel_pending_commands client;;
  channels ← gets (fun s => subscriptions_of s client);
  forM_ (hash_order (elements channels)) (drop_subscriber client);;
  modify (fun s => set_client_subscriptions (delete client (_client_subscriptions s)) s);;
  modify (fun s => set_clients (delete client (_clients s)) s);;
  forget_transaction client;;
  modify (fun s => set_client_write_offsets (delete client (_client_write_offsets s)) s);;
  modify (fun s => set_replica_acknowledged_offsets
    (delete client (_replica_acknowledged_offsets s)) s);;
  complete completion Done.
End Processor.
