(* ===== verification/ProcessorRun.v ===== *)
(** * The worker loop (src/command_processor.cpp, lines 308-477 and 1699-1932)

    Retrying and expiring blocked commands, one iteration of [run], and the
    steps of the whole processor: client threads push tasks, the worker thread
    runs iterations, connection threads take frames and drop their sessions. *)

From stdpp Require Import base option list gmap strings relations.
From Stdlib Require Import ZArith Lia.
From S2P Require Import Prelude CharConv Environment Resp StreamTypes TimeUtils.
From S2P Require Import Database Commands Dispatch Config Sessions Aof StateMonad.
From S2P Require Import Rdb ProcessorState Processor.

Section Run.
Context `{Clock, HashOrder, Kernel, Crypto}.

(** ** Retrying *)

(** One blocked pop: whether it stays blocked. *)
Definition retry_list_pop (pending : PendingListPop) : P bool :=
  result ← on_database (pop_list_element (pending_key pending));
  match result with
  | Expected value =>
      serve_pop (pop_task pending) (pending_key pending) value;; mret false
  | Unexpected WRONG_TYPE => respond (pop_task pending) wrong_type_response;; mret false
  | Unexpected _ => mret true
  end.

Definition retry_pending_list_pops : P unit :=
  pending ← gets _pending_list_pops;
  pending ← keepM retry_list_pop pending;
  modify (set_pending_list_pops pending).

(** A blocked read keeps its requests as [read_streams] resolved them. *)
Definition retry_stream_read (pending : PendingStreamRead) : P (option PendingStreamRead) :=
  '(result, resolved) ← read_in_place (read_requests pending);
  match result with
  | Unexpected e => respond (read_task pending) (read_error e);; mret None
  | Expected [] =>
      mret (Some (mkPendingStreamRead (read_task pending) resolved (read_deadline pending)))
  | Expected results =>
      respond (read_task pending) (make_xread_response results);; mret None
  end.

Fixpoint retry_stream_reads (pending : list PendingStreamRead) : P (list PendingStreamRead) :=
  match pending with
  | [] => mret []
  | p :: rest =>
      kept ← retry_stream_read p;
      rest ← retry_stream_reads rest;
      mret (match kept with Some p => p :: rest | None => rest end)
  end.

Definition retry_pending_stream_reads : P unit :=
  pending ← gets _pending_stream_reads;
  pending ← retry_stream_reads pending;
  modify (set_pending_stream_reads pending).

Definition retry_wait (pending : PendingWait) : P bool :=
  acknowledged ← count_acknowledged_replicas (target_offset pending);
  if acknowledged <? required_replicas pending then mret true else
  respond (wait_task pending) (Integer acknowledged);; mret false.

Definition retry_pending_waits : P unit :=
  pending ← gets _pending_waits;
  pending ← keepM retry_wait pending;
  modify (set_pending_waits pending).

(** ** Expiring *)

Definition still_waiting (now : Z) (deadline : option Z) : bool :=
  match deadline with
  | None => true
  | Some t => now <? t
  end.

Definition expire_pending_list_pops : P unit :=
  now ← on_database steady_now;
  pending ← gets _pending_list_pops;
  pending ← keepM (fun p =>
    if still_waiting now (pop_deadline p) then mret true else
    respond (pop_task p) NullArray;; mret false) pending;
  modify (set_pending_list_pops pending).

Definition expire_pending_stream_reads : P unit :=
  now ← on_database steady_now;
  pending ← gets _pending_stream_reads;
  pending ← keepM (fun p =>
    if still_waiting now (read_deadline p) then mret true else
    respond (read_task p) NullArray;; mret false) pending;
  modify (set_pending_stream_reads pending).

Definition expire_pending_waits : P unit :=
  now ← on_database steady_now;
  pending ← gets _pending_waits;
  pending ← keepM (fun p =>
    if still_waiting now (wait_deadline p) then mret true else
    acknowledged ← count_acknowledged_replicas (target_offset p);
    respond (wait_task p) (Integer acknowledged);; mret false) pending;
  modify (set_pending_waits pending).

Definition earlier (deadline next : option Z) : option Z :=
  match deadline, next with
  | None, _ => next
  | Some t, None => Some t
  | Some t, Some n => if t <? n then Some t else Some n
  end.

Definition next_pending_deadline (s : ProcessorState) : option Z :=
  let next := fold_left (fun n p => earlier (pop_deadline p) n) (_pending_list_pops s) None in
  let next := fold_left (fun n p => earlier (read_deadline p) n) (_pending_stream_reads s) next in
  fold_left (fun n p => earlier (wait_deadline p) n) (_pending_waits s) next.

(** ** The loop *)

Definition process_processor_task (task : ProcessorTask) : P unit :=
  match task with
  | CommandTask t => process_task t
  | RegisterReplicaTask c p => process_replica_registration c p
  | InstallReplicationStateTask i o p => process_replication_state_installation i o p
  | GetReplicationOffsetTask p => process_replication_offset_request p
  | AcknowledgeReplicaTask c o p => process_replica_acknowledgement c o p
  | LoadRdbTask es p => process_rdb_load es p
  | InitializeAofTask f cs p => process_aof_initialization f cs p
  | RegisterClientTask c a p => process_client_registration c a p
  | UnregisterClientTask c p => process_client_unregistration c p
  end.

Definition expire_all : P unit :=
  expire_pending_list_pops;; expire_pending_stream_reads;; expire_pending_waits.

Definition retry_all : P unit :=
  retry_pending_list_pops;; retry_pending_stream_reads;; retry_pending_waits.

(** One iteration of [run] after its wait: with a task at the front of the
    queue, or woken by a deadline. *)
Definition run_iteration : P unit :=
  tasks ← gets _tasks;
  match tasks with
  | [] => expire_all
  | task :: rest =>
      modify (set_tasks rest);;
      process_processor_task task;;
      retry_all;;
      expire_all
  end.

(** What the public functions push: the task with a fresh promise. *)
Inductive Request :=
| Submit (client_id : Z) (command : Command)
| ApplyReplication (command : Command) (bytes_consumed : Z)
| InstallReplicationState (replication_id : string) (offset : Z)
| AskReplicationOffset
| AcknowledgeReplica (client_id offset : Z)
| RegisterReplica (client_id : Z)
| LoadRdbEntries (entries : list StringEntry)
| InitializeAof (file : AppendOnlyFile) (commands : list Command)
| RegisterClient (client_id : Z) (session : nat)
| UnregisterClient (client_id : Z).

Definition task_of_request (r : Request) (promise : nat) : ProcessorTask :=
  match r with
  | Submit c cmd => CommandTask (mkTask c cmd CLIENT 0 promise)
  | ApplyReplication cmd n => CommandTask (mkTask 0 cmd FROM_MASTER n promise)
  | InstallReplicationState i o => InstallReplicationStateTask i o promise
  | AskReplicationOffset => GetReplicationOffsetTask promise
  | AcknowledgeReplica c o => AcknowledgeReplicaTask c o promise
  | RegisterReplica c => RegisterReplicaTask c promise
  | LoadRdbEntries es => LoadRdbTask es promise
  | InitializeAof f cs => InitializeAofTask f cs promise
  | RegisterClient c a => RegisterClientTask c a promise
  | UnregisterClient c => UnregisterClientTask c promise
  end.

Definition enqueue (r : Request) (s : ProcessorState) : ProcessorState :=
  set_promises (S (promises s)) (set_tasks (_tasks s ++ [task_of_request r (promises s)]) s).

(** ** Steps of the processor

    [allowed] restricts the calls the other threads make: a master receives no
    replication stream, client identifiers are handed out by the server. *)

Definition any_request (r : Request) : Prop := True.

Inductive processor_step (allowed : Request -> Prop)
    : ProcessorState -> ProcessorState -> Prop :=
(** A client or server thread calls a public function. *)
| step_enqueue r s : allowed r -> processor_step allowed s (enqueue r s)
(** The worker thread takes a task, or a deadline has passed. *)
| step_run s s' :
    _tasks s <> [] \/
      (exists t, next_pending_deadline s = Some t /\
                 t <= steady_clock_now (clock_reads (_database s))) ->
    run_iteration s = Some (tt, s') -> processor_step allowed s s'
(** A connection thread creates its session, takes frames, or ends. *)
| step_session_create a s :
    pubsub_heap s !! a = None ->
    (forall c cl, _clients s !! c = Some cl -> pubsub_session cl <> a) ->
    processor_step allowed s (set_pubsub_heap (<[a := create_session]> (pubsub_heap s)) s)
| step_session_pop a x frame x' s :
    pubsub_heap s !! a = Some x -> pop_frame x = (Some frame, x') ->
    processor_step allowed s (set_pubsub_heap (<[a := x']> (pubsub_heap s)) s)
| step_session_clear a x r x' calls s :
    pubsub_heap s !! a = Some x ->
    clear_notification x (io_calls s) = Some (r, x', calls) ->
    processor_step allowed s
      (set_io_calls calls (set_pubsub_heap (<[a := x']> (pubsub_heap s)) s))
| step_session_end a s :
    processor_step allowed s (set_pubsub_heap (delete a (pubsub_heap s)) s)
(** The thread of a replica takes a frame, fails, or ends. *)
| step_replica_pop a x frame x' s :
    replica_heap s !! a = Some x -> wait_for_frame false x = Some (Some frame, x') ->
    processor_step allowed s (set_replica_heap (<[a := x']> (replica_heap s)) s)
| step_replica_close a x s :
    replica_heap s !! a = Some x ->
    processor_step allowed s (set_replica_heap (<[a := close_session x]> (replica_heap s)) s)
| step_replica_end a s :
    processor_step allowed s (set_replica_heap (delete a (replica_heap s)) s).

Lemma processor_step_mono (allowed allowed' : Request -> Prop) s s' :
  (forall r, allowed r -> allowed' r) -> processor_step allowed s s' -> processor_step allowed' s s'.
Proof.
  intros Hr. destruct 1; [by apply step_enqueue, Hr|by apply step_run|by apply step_session_create
    |by eapply step_session_pop|by eapply step_session_clear|apply step_session_end
    |by eapply step_replica_pop|by apply step_replica_close|apply step_replica_end].
Qed.

(** ** Scripts, for the examples *)

(** Make each call in turn, and let the worker take the task before the next. *)
Fixpoint run_script (requests : list Request) (s : ProcessorState) : option ProcessorState :=
  match requests with
  | [] => Some s
  | r :: rest => '(_, s) ← run_iteration (enqueue r s); run_script rest s
  end.

Lemma run_script_steps allowed requests s s' :
  Forall allowed requests -> run_script requests s = Some s' ->
  rtc (processor_step allowed) s s'.
Proof.
  intros Hall. revert s. induction Hall as [|r rest Hr _ IH]; intros s; simpl; [by intros [= <-]|].
  intros ([[] s1] & Hrun & Hrest)%bind_Some.
  apply (rtc_l _ _ (enqueue r s)); [by apply step_enqueue|].
  apply (rtc_l _ _ s1); [|by apply IH].
  apply step_run; [|done]. left. simpl. by destruct (_tasks s).
Qed.

(** The state a script leads to. *)
Definition after_script (requests : list Request) (s : ProcessorState) : ProcessorState :=
  default s (run_script requests s).

Lemma after_script_allowed allowed requests s :
  Forall allowed requests -> bool_decide (is_Some (run_script requests s)) = true ->
  rtc (processor_step allowed) s (after_script requests s).
Proof.
  intros Hall [s' Hs]%bool_decide_eq_true. unfold after_script. rewrite Hs.
  by apply (run_script_steps allowed requests).
Qed.

Lemma after_script_steps requests s :
  bool_decide (is_Some (run_script requests s)) = true ->
  rtc (processor_step any_request) s (after_script requests s).
Proof. apply after_script_allowed. by apply Forall_true. Qed.
End Run.

(** A master without a password, and two of its clients. *)
Definition sample_master : ProcessorState :=
  initial_state None default_rdb_config default_aof_config None "0123456789abcdef".
Definition two_clients : list Request := [RegisterClient 1 0; RegisterClient 2 1].
