(* ===== verification/Deadlines.v ===== *)
(** * Deadlines and their bounds
    (src/database.cpp, [Database::set]; src/commands.cpp, [set_command];
    src/command_processor.cpp, the deadlines of BLPOP, XREAD and WAIT)

    A deadline is a reading of the steady clock plus a number of milliseconds
    that a client chose, both counts of nanoseconds in signed 64-bit integers.
    The readers of the arguments accept every positive 64-bit number, so the
    sum can leave that range. *)

From stdpp Require Import base option list gmap strings.
From Stdlib Require Import ZArith Lia.
From S2P Require Import Prelude CharConv Environment Resp StreamTypes TimeUtils.
From S2P Require Import Database DatabaseFacts DatabaseSpec Commands Dispatch Config.
From S2P Require Import Sessions Aof StateMonad ProcessorState Processor.

(** The last count a time point has. *)
Definition in_time (t : Z) : bool := t <=? i64_max.

Lemma deadline_after_in_time now ms :
  0 <= now <= i64_max -> 0 <= ms ->
  deadline_after now ms =
    if in_time (now + ms * 1000000) then Some (now + ms * 1000000) else None.
Proof.
  intros Hnow Hms. unfold in_time. destruct (Z.leb_spec (now + ms * 1000000) i64_max) as [Hle|Hgt].
  - apply deadline_after_Some. split; [done|]. unfold i64_min, i64_max in *. lia.
  - destruct (deadline_after now ms) as [t|] eqn:Ht; [|done].
    apply deadline_after_Some in Ht as (_ & _ & _ & Hle). lia.
Qed.

(** The units of SET: milliseconds in one. *)
Inductive expiry_unit : string -> Z -> Prop :=
| unit_px : expiry_unit "PX" 1
| unit_ex : expiry_unit "EX" 1000.

Section Deadlines.
Context `{Clock}.

Lemma set_in_time key v ms db :
  0 <= now_of db <= i64_max -> 0 <= ms ->
  (exists db1, set key v (Some ms) db = Some db1 /\
     in_time (now_of db + ms * 1000000) = true) \/
  (set key v (Some ms) db = None /\ in_time (now_of db + ms * 1000000) = false).
Proof.
  intros Hnow Hms. pose proof (deadline_after_in_time _ _ Hnow Hms) as Ht. unfold now_of in *.
  unfold set. cbn [steady_now]. rewrite Ht. destruct (in_time _); [left; by eexists|by right].
Qed.

(** SET with an expiry, in either unit. *)
Lemma set_command_expiry unit factor key v text db :
  expiry_unit unit factor ->
  set_command db ["SET"; key; v; unit; text] =
  match parse_expiry text with
  | None => Some (SimpleError "ERR invalid expire time in set command", db)
  | Some n =>
      ms ← (if factor =? 1 then Some n else checked_i64 (n * factor));
      db ← set key v (Some ms) db;
      Some (SimpleString "OK", db)
  end.
Proof. by destruct 1; unfold set_command; cbn; destruct (parse_expiry text). Qed.

(** The milliseconds of an expiry do not overflow before the deadline does. *)
Lemma unit_milliseconds unit factor n now :
  expiry_unit unit factor -> 0 <= now -> 1 <= n <= i64_max ->
  (if factor =? 1 then Some n else checked_i64 (n * factor)) = Some (n * factor) \/
  ((if factor =? 1 then Some n else checked_i64 (n * factor)) = None /\
   in_time (now + n * factor * 1000000) = false).
Proof.
  intros [] Hnow Hn; cbn [Z.eqb Pos.eqb]; [left; f_equal; lia|].
  destruct (checked_i64 (n * 1000)) as [ms|] eqn:Hms.
  - apply checked_i64_Some in Hms as [-> _]. by left.
  - right. split; [done|]. unfold in_time. apply Z.leb_gt.
    destruct (Z.le_gt_cases (n * 1000) i64_max) as [Hle|]; [|lia].
    assert (checked_i64 (n * 1000) = Some (n * 1000)) as Hfits; [|congruence].
    apply checked_i64_Some. unfold i64_min. lia.
Qed.

Lemma deadline_of_in_time `{HashOrder, Kernel, Crypto} (s : ProcessorState) ms :
  0 <= now_of (_database s) <= i64_max -> 0 <= ms ->
  deadline_of (Some ms) s =
    if in_time (now_of (_database s) + ms * 1000000)
    then Some (Some (now_of (_database s) + ms * 1000000),
               set_database (steady_now (_database s)).2 s)
    else None.
Proof.
  intros Hnow Hms. pose proof (deadline_after_in_time _ _ Hnow Hms) as Ht.
  change (deadline_of (Some ms) s) with
    (match deadline_after (now_of (_database s)) ms with
     | Some t => mret (Some t)
     | None => undefined
     end (set_database (steady_now (_database s)).2 s)).
  rewrite Ht. by destruct (in_time _).
Qed.
End Deadlines.

(** C23: the bounds of a deadline.  SET with PX or EX refuses a text that is
    not the decimal numeral of a number between 1 and the largest signed 64-bit
    integer, and then changes nothing.  On the numeral of such a number the
    behaviour is defined exactly when the deadline, the clock plus that many
    milliseconds or seconds, fits a signed 64-bit count of nanoseconds; then the
    answer is OK, and the value is read back until the deadline and gone from
    the deadline on.  The timeouts of the blocking commands have the same
    bound. *)
Theorem expiry_bounds `{Clock, HashOrder, Kernel, Crypto} (unit : string) (factor : Z)
    (key v text : string) (db : Database) :
  expiry_unit unit factor -> 0 <= now_of db <= i64_max ->
  let answer := set_command db ["SET"; key; v; unit; text] in
  ((forall n, ~ positive_number text n) ->
     answer = Some (SimpleError "ERR invalid expire time in set command", db)) /\
  (forall n, positive_number text n ->
     let deadline := now_of db + n * factor * 1000000 in
     match answer with
     | Some (r, db1) =>
         r = SimpleString "OK" /\ deadline <= i64_max /\
         forall db2, entries db2 !! key = entries db1 !! key ->
           (get key db2).1 =
             if now_of db2 <? deadline then Expected v else Unexpected KEY_NOT_FOUND
     | None => i64_max < deadline
     end) /\
  forall s ms, _database s = db -> 0 <= ms ->
    match deadline_of (Some ms) s with
    | Some (deadline, _) =>
        deadline = Some (now_of db + ms * 1000000) /\ now_of db + ms * 1000000 <= i64_max
    | None => i64_max < now_of db + ms * 1000000
    end.
Proof.
  intros Hunit Hnow answer. unfold answer. split_and!.
  - intros Hno. rewrite (set_command_expiry _ _ _ _ _ _ Hunit).
    destruct (parse_expiry text) as [n|] eqn:Hn; [|done].
    by apply parse_expiry_spec, Hno in Hn.
  - intros n Hn. rewrite (set_command_expiry _ _ _ _ _ _ Hunit).
    rewrite (proj2 (parse_expiry_spec text n) Hn). destruct Hn as [_ Hn].
    assert (0 <= n * factor) as Hpos by (destruct Hunit; lia).
    destruct (unit_milliseconds _ _ n (now_of db) Hunit (proj1 Hnow) Hn) as [->|[-> Hlate]];
      cbn [mbind option_bind]; [|by apply Z.leb_gt].
    destruct (set_in_time key v (n * factor) db Hnow Hpos) as [(db1 & Hset & Ht)|[-> Ht]];
      [|by apply Z.leb_gt].
    rewrite Hset. cbn [mbind option_bind]. apply Z.leb_le in Ht. split; [done|]. split; [done|].
    intros db2 Hsame. exact (set_then_get _ _ _ _ _ _ Hset Hsame).
  - intros s ms <- Hms. rewrite (deadline_of_in_time s ms Hnow Hms).
    destruct (in_time _) eqn:Ht; [apply Z.leb_le in Ht|apply Z.leb_gt in Ht]; done.
Qed.

(** ** Witness *)

Section Witness.
#[local] Existing Instance millisecond_clock.
#[local] Existing Instance insertion_order.
#[local] Existing Instance perfect_kernel.
#[local] Existing Instance sample_crypto.

Lemma positive_003 : positive_number "003" 3.
Proof. by apply parse_expiry_spec. Qed.

Lemma positive_largest : positive_number "9223372036854775807" i64_max.
Proof. by apply parse_expiry_spec. Qed.

Lemma not_positive text n : parse_expiry text = None -> ~ positive_number text n.
Proof. intros Hp Hn%parse_expiry_spec. congruence. Qed.

(** Three seconds are fine, zero and trailing text are refused; the largest
    number the reader accepts is past the last instant. *)
Lemma expiry_bounds_witness :
  (exists db1, set_command sample_db ["SET"; "k"; "v"; "EX"; "003"]
     = Some (SimpleString "OK", db1) /\ (get "k" db1).1 = Expected "v") /\
  set_command sample_db ["SET"; "k"; "v"; "EX"; "0"]
  = Some (SimpleError "ERR invalid expire time in set command", sample_db) /\
  set_command sample_db ["SET"; "k"; "v"; "PX"; "3 "]
  = Some (SimpleError "ERR invalid expire time in set command", sample_db) /\
  set_command sample_db ["SET"; "k"; "v"; "PX"; "9223372036854775807"] = None /\
  i64_max < now_of sample_db + i64_max * 1 * 1000000.
Proof.
  assert (0 <= now_of sample_db <= i64_max) as Hnow by (vm_compute; split; discriminate).
  split_and!.
  - destruct (set_command sample_db ["SET"; "k"; "v"; "EX"; "003"]) as [[r db1]|] eqn:Hset;
      [|vm_compute in Hset; discriminate].
    destruct (expiry_bounds "EX" 1000 "k" "v" "003" sample_db unit_ex Hnow) as (_ & Hb & _).
    specialize (Hb 3 positive_003). rewrite Hset in Hb.
    destruct Hb as (-> & _ & Hget). exists db1. split; [reflexivity|].
    rewrite (Hget db1 eq_refl). vm_compute in Hset. injection Hset as <-. reflexivity.
  - apply (expiry_bounds "EX" 1000 "k" "v" "0" sample_db unit_ex Hnow).
    intros n. by apply not_positive.
  - apply (expiry_bounds "PX" 1 "k" "v" "3 " sample_db unit_px Hnow).
    intros n. by apply not_positive.
  - vm_compute. reflexivity.
  - destruct (expiry_bounds "PX" 1 "k" "v" "9223372036854775807" sample_db unit_px Hnow)
      as (_ & Hb & _). specialize (Hb i64_max positive_largest).
    destruct (set_command sample_db _) as [[r db1]|] eqn:Hset;
      [vm_compute in Hset; discriminate|exact Hb].
Defined.
End Witness.
