(* ===== verification/ProcessorWalk.v ===== *)
(** * Walking the processor's code

    [steps R] of every action of the processor follows from [steps R] of its
    leaves.  This file has the rules for the loops of the code, for any
    preorder [R], and the tactic [solve_steps], which unfolds straight-line
    code, applies the rules and leaves the leaves to the hint database
    [steps]. *)

From stdpp Require Import base option list gmap strings.
From Stdlib Require Import ZArith Lia.
From S2P Require Import Prelude CharConv Environment Resp StreamTypes TimeUtils.
From S2P Require Import Database Commands Dispatch Config Sessions Aof StateMonad.
From S2P Require Import ProcessorState Processor ProcessorRun.

Create HintDb steps.

(** Apply the rule of the outermost construct. *)
Ltac steps_rule :=
  match goal with
  | |- steps _ (match ?x with _ => _ end) => destruct x
  | |- steps _ (if ?x then _ else _) => destruct x
  | |- steps _ (let '(_, _) := ?x in _) => destruct x
  | |- forall _, _ => intro
  | |- steps _ _ =>
      first
        [ apply steps_ret; apply _
        | apply steps_undefined; apply _
        | apply steps_gets; apply _
        | solve [eauto with steps]
        | apply steps_bind; [apply _| |]
        | apply steps_keepM; [apply _|]
        | apply steps_forM; [apply _|] ]
  end.

Ltac solve_steps := repeat steps_rule.

Section Loops.
Context `{Clock, HashOrder, Kernel, Crypto}.
Context (R : ProcessorState -> ProcessorState -> Prop) `{!PreOrder R}.

Lemma acknowledge_channels_steps f channels :
  (forall c, steps R (f c)) -> steps R (acknowledge_channels f channels).
Proof. intros Hf. induction channels; simpl; solve_steps. Qed.

Lemma publish_loop_steps ch f l kept n :
  (forall c n, steps R (publish_to ch f c n)) -> steps R (publish_loop ch f l kept n).
Proof.
  intros Hp. revert kept n. induction l as [|c l IH]; intros kept n; cbn [publish_loop];
    [solve_steps|].
  apply steps_bind; [apply _|apply Hp|]. intros [keep n']. apply IH.
Qed.

Lemma watched_changed_steps l :
  (forall key, steps R (on_database (key_revision key))) -> steps R (watched_changed l).
Proof.
  intros Hr. induction l as [|[key r] l IH]; cbn [watched_changed]; solve_steps.
Qed.

Lemma run_transaction_steps b cs data :
  Forall (fun c => steps R (try_database (fun db => dispatch db c))) cs ->
  steps R (run_transaction b cs data).
Proof.
  intros Hd. revert data. induction Hd as [|c cs Hc Hcs IH]; intros data;
    cbn [run_transaction]; [solve_steps|].
  apply steps_bind; [apply _|apply Hc|]. intros r.
  apply steps_bind; [apply _|apply IH|]. solve_steps.
Qed.

Lemma replay_commands_steps cs :
  (forall c, steps R (process_command aof_client_id c AOF)) -> steps R (replay_commands cs).
Proof. intros Hc. induction cs; cbn [replay_commands]; solve_steps. Qed.

Lemma retry_stream_reads_steps l :
  (forall p, steps R (retry_stream_read p)) -> steps R (retry_stream_reads l).
Proof.
  intros Hp. induction l as [|p l IH]; cbn [retry_stream_reads]; solve_steps.
Qed.
End Loops.

(** The loops of the code are rules too. *)
Ltac loop_rule :=
  first
    [ apply acknowledge_channels_steps; [apply _|]
    | apply publish_loop_steps; [apply _|]
    | apply watched_changed_steps; [apply _|]
    | apply replay_commands_steps; [apply _|]
    | apply retry_stream_reads_steps; [apply _|] ].

Ltac steps_rule ::=
  match goal with
  | |- steps _ (match ?x with _ => _ end) => destruct x
  | |- steps _ (if ?x then _ else _) => destruct x
  | |- steps _ (let '(_, _) := ?x in _) => destruct x
  | |- forall _, _ => intro
  | |- steps _ _ =>
      first
        [ apply steps_ret; apply _
        | apply steps_undefined; apply _
        | apply steps_gets; apply _
        | solve [eauto with steps]
        | loop_rule
        | apply steps_bind; [apply _| |]
        | apply steps_keepM; [apply _|]
        | apply steps_forM; [apply _|] ]
  end.
