(* ===== verification/WorkerWalk.v ===== *)
(** * What the worker does to the replicas

    Most of the code of the worker leaves the replication state, the backlog and
    the sessions of the replicas alone ([aside]); a few actions do not.  The
    rules at the end of this file say that a preorder that holds of these
    actions holds of everything the worker does. *)

From stdpp Require Import base option list gmap strings relations.
From Stdlib Require Import ZArith Lia.
From S2P Require Import Prelude CharConv Environment Resp StreamTypes TimeUtils.
From S2P Require Import Database Commands Dispatch Config.
From S2P Require Import Sessions Aof StateMonad ProcessorState Processor ProcessorRun.
From S2P Require Import ProcessorWalk.

(** The tasks considered: which sources commands come from, and which states
    are installed. *)
Definition task_from (allowed : CommandSource -> Prop) (installed : string -> Z -> Prop)
    (task : ProcessorTask) : Prop :=
  match task with
  | CommandTask t => allowed (source t)
  | InstallReplicationStateTask i o _ => installed i o
  | _ => True
  end.

Section Walk.
Context `{Clock, HashOrder, Kernel, Crypto}.

(** ** Actions that have nothing to do with replicas *)

Definition aside (s s' : ProcessorState) : Prop :=
  _replication_state s' = _replication_state s /\
  _replication_backlog s' = _replication_backlog s /\
  _replica_sessions s' = _replica_sessions s /\ replica_heap s' = replica_heap s /\
  _tasks s' = _tasks s.

#[export] Instance aside_preorder : PreOrder aside.
Proof.
  split; unfold aside.
  - intros s. by split_and!.
  - intros a b c Hab Hbc. destruct_and!. split_and!; congruence.
Qed.

Lemma on_database_aside {A} (op : Database -> A * Database) : steps aside (on_database op).
Proof.
  intros s x s'. unfold on_database. destruct (op (_database s)). by intros [= <- <-].
Qed.

Lemma try_database_aside {A} (op : Database -> option (A * Database)) :
  steps aside (try_database op).
Proof. intros s x s'. unfold try_database. by intros ([y db] & _ & [= <- <-])%bind_Some. Qed.

Lemma leaves_aside :
  (forall a f, steps aside (enqueue_frame a f)) /\ (forall d, steps aside (append_aof d)) /\
  (forall c ch, steps aside (subscribe_channel c ch)) /\
  (forall c ch, steps aside (remove_subscription c ch)) /\
  (forall p v, steps aside (complete p v)).
Proof.
  split_and!; try (by intros; intros s x s' [= <- <-]).
  - intros a f s x s'. unfold enqueue_frame. intros (x0 & _ & Hb)%bind_Some.
    by apply bind_Some in Hb as ([[r x'] n] & _ & [= <- <-]).
  - intros d s x s'. unfold append_aof. intros (f & _ & Hb)%bind_Some.
    by apply bind_Some in Hb as ([[[r f'] n] rd] & _ & [= <- <-]).
  - intros c ch s x s'. unfold remove_subscription. intros Hr.
    repeat (case_match; simplify_eq/=); done.
Qed.

Lemma enqueue_frame_aside a f : steps aside (enqueue_frame a f).
Proof. apply leaves_aside. Qed.
Lemma append_aof_aside d : steps aside (append_aof d).
Proof. apply leaves_aside. Qed.
Lemma subscribe_channel_aside c ch : steps aside (subscribe_channel c ch).
Proof. apply leaves_aside. Qed.
Lemma remove_subscription_aside c ch : steps aside (remove_subscription c ch).
Proof. apply leaves_aside. Qed.
Lemma complete_aside p v : steps aside (complete p v).
Proof. apply leaves_aside. Qed.
Lemma respond_aside task r : steps aside (respond task r).
Proof. apply complete_aside. Qed.

#[local] Hint Resolve enqueue_frame_aside append_aof_aside subscribe_channel_aside
  remove_subscription_aside complete_aside respond_aside on_database_aside
  try_database_aside : steps.
#[local] Hint Extern 1 (steps aside (modify _)) =>
  apply steps_modify; intros; repeat case_match; by split_and! : steps.

Lemma route_aside c r : steps aside (route_pubsub_response c r).
Proof. unfold route_pubsub_response, enqueue_pubsub_response. solve_steps. Qed.

Lemma deadline_of_aside t : steps aside (deadline_of t).
Proof. unfold deadline_of. solve_steps. Qed.

Lemma run_transaction_aside b cs data : steps aside (run_transaction b cs data).
Proof. apply run_transaction_steps; [apply _|]. apply Forall_true. auto with steps. Qed.

Lemma pubsub_aside c command :
  steps aside (subscribe c command) /\ steps aside (unsubscribe c command) /\
  steps aside (publish command).
Proof.
  unfold subscribe, unsubscribe, publish, lock_client_session, queue_acknowledgement,
    unsubscribe_channel, publish_to. split_and!; solve_steps.
Qed.

Lemma accounts_aside c command :
  steps aside (authenticate c command) /\ steps aside (process_acl_command c command) /\
  steps aside (config_get command) /\ steps aside (watch c command).
Proof.
  unfold authenticate, process_acl_command, acl_whoami, acl_getuser, acl_setuser, config_get,
    watch, watch_key. split_and!; solve_steps.
Qed.

Lemma watched_changed_aside l : steps aside (watched_changed l).
Proof. apply watched_changed_steps; [apply _|]. solve_steps. Qed.

#[local] Hint Resolve route_aside deadline_of_aside run_transaction_aside : steps.

(** The replica has processed [n] more bytes of the stream. *)
Definition advance_offset (n : Z) : P unit :=
  modify (fun s => let rs := _replication_state s in
    set_replication_state (mkReplicationState (role rs) (replication_id rs)
      (wrap_u64 (offset rs + n))) s).

(** ** Walking the worker's code

    Whatever holds of the actions that have nothing to do with replicas, and of
    those that have, holds of the worker. *)

Section Rules.
Context (R : ProcessorState -> ProcessorState -> Prop) `{!PreOrder R}.
Context (Haside : forall s s', aside s s' -> R s s').
Context (Happend : forall data, steps R (append_replication_frame data)).
Context (Hcount : forall target, steps R (count_acknowledged_replicas target)).
Context (Hregister : forall c p, steps R (process_replica_registration c p)).
Context (allowed : CommandSource -> Prop) (installed : string -> Z -> Prop).
Context (Hadvance : allowed FROM_MASTER -> forall n, steps R (advance_offset n)).
Context (Hinstall : forall i o p, installed i o ->
  steps R (process_replication_state_installation i o p)).

Lemma aside_walk {A} (m : P A) : steps aside m -> steps R m.
Proof. intros Hm s x s' Hrun. by eapply Haside, Hm. Qed.

#[local] Hint Resolve Happend Hcount : steps.
#[local] Hint Extern 2 (steps R _) => apply aside_walk; solve [auto with steps] : steps.

Lemma append_client_frame_walk c data :
  steps R (append_client_replication_frame c data).
Proof. unfold append_client_replication_frame. solve_steps. Qed.
#[local] Hint Resolve append_client_frame_walk : steps.

Lemma commit_transaction_walk c from t b :
  steps R (commit_transaction c from t b).
Proof. unfold commit_transaction. solve_steps. Qed.
#[local] Hint Resolve commit_transaction_walk : steps.

Lemma process_command_walk c command from :
  steps R (process_command c command from).
Proof.
  pose proof (pubsub_aside c command) as (? & ? & ?).
  pose proof (accounts_aside c command) as (? & ? & ? & ?).
  pose proof watched_changed_aside.
  unfold process_command, execute_transaction. solve_steps.
Qed.
#[local] Hint Resolve process_command_walk : steps.

Lemma serve_pop_walk task key v :
  steps R (serve_pop task key v).
Proof. unfold serve_pop, persist_blocking_pop. solve_steps. Qed.
#[local] Hint Resolve serve_pop_walk : steps.

Lemma process_task_walk task :
  allowed (source task) -> steps R (process_task task).
Proof.
  intros Hsrc.
  unfold process_task, process_blpop, process_xread, process_wait, process_direct, read_in_place.
  destruct (bool_decide_reflect (source task = FROM_MASTER)) as [E|E]; cbn [andb]; [|solve_steps].
  rewrite E in Hsrc. pose proof (Hadvance Hsrc (replication_bytes task)). unfold advance_offset in *.
  solve_steps.
Qed.

Lemma process_processor_task_walk task :
  task_from allowed installed task -> steps R (process_processor_task task).
Proof.
  intros Hok. destruct task; cbn [process_processor_task task_from] in *.
  - exact (process_task_walk _ Hok).
  - apply Hregister.
  - apply Hinstall, Hok.
  - unfold process_replication_offset_request. solve_steps.
  - unfold process_replica_acknowledgement. solve_steps.
  - unfold process_rdb_load, load_entry. solve_steps.
  - unfold process_aof_initialization, forget_transaction. solve_steps.
  - unfold process_client_registration. solve_steps.
  - unfold process_client_unregistration, cancel_pending_commands, cancel, forget_transaction,
      drop_subscriber. solve_steps.
Qed.

Lemma retry_stream_read_walk p : steps R (retry_stream_read p).
Proof. unfold retry_stream_read, read_in_place. solve_steps. Qed.
#[local] Hint Resolve retry_stream_read_walk : steps.

Lemma retry_all_walk : steps R retry_all.
Proof.
  unfold retry_all, retry_pending_list_pops, retry_list_pop, retry_pending_stream_reads,
    retry_pending_waits, retry_wait. solve_steps.
Qed.

Lemma expire_all_walk : steps R expire_all.
Proof.
  unfold expire_all, expire_pending_list_pops, expire_pending_stream_reads, expire_pending_waits.
  solve_steps.
Qed.

(** A turn of the worker: it takes a task, serves it, retries and expires. *)
Lemma run_iteration_walk s x s' :
  (forall task rest s, _tasks s = task :: rest -> R s (set_tasks rest s)) ->
  Forall (task_from allowed installed) (_tasks s) ->
  run_iteration s = Some (x, s') -> R s s'.
Proof.
  intros Htake Hm Hrun. unfold run_iteration in Hrun.
  apply M_bind_Some in Hrun as (l & s1 & Hg & Hrun). injection Hg as Htasks <-.
  destruct l as [|task rest]; [by eapply expire_all_walk|].
  apply M_bind_Some in Hrun as (u & s1 & Hmod & Hrun). injection Hmod as _ <-.
  rewrite Htasks in Hm. apply Forall_cons in Hm as [Hok _].
  apply M_bind_Some in Hrun as (u' & s1 & Htask & Hrun).
  apply M_bind_Some in Hrun as (u'' & s2 & Hr & He).
  transitivity (set_tasks rest s); [by eapply Htake|].
  transitivity s1; [by eapply process_processor_task_walk|].
  transitivity s2; [by eapply retry_all_walk|by eapply expire_all_walk].
Qed.

End Rules.
End Walk.
