(* ===== verification/ProcessorFacts.v ===== *)
(** * What the processor does to the database

    Every action of the worker thread, and hence every step of the processor,
    is a [db_step] of the database: it keeps it well formed and its revisions
    sound. *)

From stdpp Require Import base option list gmap strings relations.
From Stdlib Require Import ZArith Lia.
From S2P Require Import Prelude CharConv Environment Resp StreamTypes TimeUtils.
From S2P Require Import Database DatabaseFacts Commands Dispatch DispatchFacts Config.
From S2P Require Import Sessions Aof StateMonad ProcessorState Processor ProcessorRun.
From S2P Require Import ProcessorWalk.

Section DatabaseSteps.
Context `{Clock, HashOrder, Kernel, Crypto}.

(** From [s] to [s'] the database made a step. *)
Definition db_moves (s s' : ProcessorState) : Prop := db_step (_database s) (_database s').

#[export] Instance db_moves_preorder : PreOrder db_moves.
Proof.
  split; unfold db_moves; [intros s; reflexivity|].
  intros a b c. apply transitivity.
Qed.

(** An action that leaves the database alone. *)
Lemma db_moves_same s s' : _database s' = _database s -> db_moves s s'.
Proof. unfold db_moves. intros ->. reflexivity. Qed.

Lemma modify_moves f :
  (forall s, _database (f s) = _database s) -> steps db_moves (modify f).
Proof. intros Hf. apply steps_modify. intros s. by apply db_moves_same. Qed.

Lemma on_database_moves {A} (op : Database -> A * Database) :
  (forall db, db_step db (op db).2) -> steps db_moves (on_database op).
Proof.
  intros Hop s x s'. unfold on_database, db_moves. specialize (Hop (_database s)).
  destruct (op (_database s)) as [y db]. by intros [= <- <-].
Qed.

Lemma try_database_moves {A} (op : Database -> option (A * Database)) :
  (forall db x db', op db = Some (x, db') -> db_step db db') -> steps db_moves (try_database op).
Proof.
  intros Hop s x s'. unfold try_database, db_moves.
  intros ([y db] & Hy & [= <- <-])%bind_Some. by eapply Hop.
Qed.

Lemma complete_moves p v : steps db_moves (complete p v).
Proof. by apply modify_moves. Qed.

Lemma respond_moves task r : steps db_moves (respond task r).
Proof. apply complete_moves. Qed.

Lemma enqueue_frame_moves a f : steps db_moves (enqueue_frame a f).
Proof.
  intros s x s'. unfold enqueue_frame.
  intros (x0 & _ & Hb)%bind_Some. apply bind_Some in Hb as ([[r x'] c] & _ & [= <- <-]).
  by apply db_moves_same.
Qed.

Lemma db_step_reads db n :
  (clock_reads db <= n)%nat ->
  db_step db (mkDatabase (entries db) (key_revisions db) (next_revision db) n).
Proof. intros Hn. split; [split_and!; simpl; [lia|done|auto]|done]. Qed.

Lemma append_reads data file calls reads r file' calls' reads' :
  append data file calls reads = Some (r, file', calls', reads') -> (reads <= reads')%nat.
Proof.
  unfold append, sync. intros ([[e f] c] & _ & Hb)%bind_Some.
  repeat case_match; simplify_eq; lia.
Qed.

Lemma append_aof_moves data : steps db_moves (append_aof data).
Proof.
  intros s x s'. unfold append_aof.
  intros (file & _ & Hb)%bind_Some.
  apply bind_Some in Hb as ([[[r f'] c] rd] & Happ & [= <- <-]).
  apply append_reads in Happ. by apply db_step_reads.
Qed.

Lemma count_acknowledged_moves t : steps db_moves (count_acknowledged_replicas t).
Proof. intros s x s' [= <- <-]. by apply db_moves_same. Qed.

#[local] Hint Resolve complete_moves respond_moves enqueue_frame_moves append_aof_moves
  count_acknowledged_moves : steps.
#[local] Hint Extern 1 (steps db_moves (modify _)) =>
  apply modify_moves; intros; repeat case_match; reflexivity : steps.
#[local] Hint Extern 1 (steps db_moves (on_database _)) =>
  apply on_database_moves; intros; auto with redis : steps.

Lemma deadline_of_moves t : steps db_moves (deadline_of t).
Proof.
  unfold deadline_of. solve_steps. apply on_database_moves. apply db_step_tick.
Qed.

Lemma append_replication_frame_moves data : steps db_moves (append_replication_frame data).
Proof. unfold append_replication_frame. solve_steps. Qed.
#[local] Hint Resolve deadline_of_moves append_replication_frame_moves : steps.

Lemma append_client_replication_frame_moves c data :
  steps db_moves (append_client_replication_frame c data).
Proof. unfold append_client_replication_frame. solve_steps. Qed.
#[local] Hint Resolve append_client_replication_frame_moves : steps.

Lemma serve_pop_moves task key v : steps db_moves (serve_pop task key v).
Proof. unfold serve_pop, persist_blocking_pop. solve_steps. Qed.

Lemma enqueue_pubsub_response_moves c r : steps db_moves (enqueue_pubsub_response c r).
Proof. unfold enqueue_pubsub_response. solve_steps. Qed.
#[local] Hint Resolve serve_pop_moves enqueue_pubsub_response_moves : steps.

Lemma acl_moves c command : steps db_moves (process_acl_command c command).
Proof.
  unfold process_acl_command, acl_whoami, acl_getuser, acl_setuser. solve_steps.
Qed.

Lemma authenticate_moves c command : steps db_moves (authenticate c command).
Proof. unfold authenticate. solve_steps. Qed.

Lemma subscribe_channel_moves c ch : steps db_moves (subscribe_channel c ch).
Proof. intros s x s' [= <- <-]. by apply db_moves_same. Qed.

Lemma remove_subscription_moves c ch : steps db_moves (remove_subscription c ch).
Proof.
  intros s x s'. unfold remove_subscription. intros Hr. apply db_moves_same.
  repeat (case_match; simplify_eq/=); done.
Qed.

Lemma unsubscribe_channel_moves c ch : steps db_moves (unsubscribe_channel c ch).
Proof. pose proof remove_subscription_moves. unfold unsubscribe_channel. solve_steps. Qed.
#[local] Hint Resolve acl_moves authenticate_moves subscribe_channel_moves
  unsubscribe_channel_moves : steps.

Lemma subscribe_moves c command : steps db_moves (subscribe c command).
Proof. unfold subscribe, lock_client_session, queue_acknowledgement. solve_steps. Qed.

Lemma unsubscribe_moves c command : steps db_moves (unsubscribe c command).
Proof. unfold unsubscribe, lock_client_session, queue_acknowledgement. solve_steps. Qed.

Lemma publish_to_moves ch f c n : steps db_moves (publish_to ch f c n).
Proof. unfold publish_to. solve_steps. Qed.
#[local] Hint Resolve publish_to_moves : steps.

Lemma publish_moves command : steps db_moves (publish command).
Proof. unfold publish. solve_steps. Qed.

Lemma watched_changed_moves l : steps db_moves (watched_changed l).
Proof. apply watched_changed_steps; [apply _|]. solve_steps. Qed.

Lemma dispatch_moves command : steps db_moves (try_database (fun db => dispatch db command)).
Proof. apply try_database_moves. intros db x db'. apply dispatch_step. Qed.
#[local] Hint Resolve publish_moves watched_changed_moves dispatch_moves subscribe_moves
  unsubscribe_moves : steps.

Lemma run_transaction_moves b cs data : steps db_moves (run_transaction b cs data).
Proof. apply run_transaction_steps; [apply _|]. apply Forall_true; auto with steps. Qed.
#[local] Hint Resolve run_transaction_moves : steps.

Lemma commit_transaction_moves c from t b : steps db_moves (commit_transaction c from t b).
Proof. unfold commit_transaction. solve_steps. Qed.
#[local] Hint Resolve commit_transaction_moves : steps.

Lemma execute_transaction_moves c from : steps db_moves (execute_transaction c from).
Proof. unfold execute_transaction. solve_steps. Qed.

Lemma watch_moves c command : steps db_moves (watch c command).
Proof. unfold watch, watch_key. solve_steps. Qed.
#[local] Hint Resolve execute_transaction_moves watch_moves : steps.

Lemma process_command_moves c command from : steps db_moves (process_command c command from).
Proof. unfold process_command, config_get. solve_steps. Qed.
#[local] Hint Resolve process_command_moves : steps.

Lemma process_task_moves task : steps db_moves (process_task task).
Proof.
  unfold process_task, route_pubsub_response, process_blpop, process_xread, process_wait,
    process_direct, read_in_place. solve_steps.
Qed.
#[local] Hint Resolve process_task_moves : steps.

Lemma load_entry_moves now e : steps db_moves (load_entry now e).
Proof.
  unfold load_entry. solve_steps; apply try_database_moves; intros db x db';
    intros (db1 & Hset & [= <- <-])%bind_Some; by eapply set_step.
Qed.

#[local] Hint Resolve load_entry_moves : steps.

Lemma system_now_step db : db_step db (system_now_ms db).2.
Proof. apply db_step_reads. lia. Qed.

Lemma process_processor_task_moves task : steps db_moves (process_processor_task task).
Proof.
  destruct task; cbn [process_processor_task];
    unfold process_replication_state_installation, process_replication_offset_request,
      process_replica_acknowledgement, process_rdb_load, process_aof_initialization,
      process_client_registration, process_client_unregistration, forget_transaction,
      cancel_pending_commands, cancel, drop_subscriber.
  6: { apply steps_bind; [apply _|apply on_database_moves, system_now_step|solve_steps]. }
  2: { intros s x s' [= <- <-]. by apply db_moves_same. }
  all: solve_steps.
Qed.

Lemma retry_stream_read_moves p : steps db_moves (retry_stream_read p).
Proof. unfold retry_stream_read, read_in_place. solve_steps. Qed.
#[local] Hint Resolve retry_stream_read_moves
  db_step_tick process_processor_task_moves : steps.

Lemma retry_list_pop_moves p : steps db_moves (retry_list_pop p).
Proof. unfold retry_list_pop. solve_steps. Qed.

Lemma run_iteration_moves : steps db_moves run_iteration.
Proof.
  unfold run_iteration, retry_all, expire_all, retry_pending_list_pops, retry_list_pop,
    retry_pending_stream_reads, retry_pending_waits, retry_wait, expire_pending_list_pops,
    expire_pending_stream_reads, expire_pending_waits.
  solve_steps; apply on_database_moves, db_step_tick.
Qed.

Lemma processor_step_moves allowed s s' : processor_step allowed s s' -> db_moves s s'.
Proof.
  intros Hs. destruct Hs; try by apply db_moves_same. by eapply run_iteration_moves.
Qed.

Lemma processor_steps_move allowed s s' : rtc (processor_step allowed) s s' -> db_moves s s'.
Proof.
  induction 1 as [s|s1 s2 s3 H12 _ IH]; [reflexivity|].
  transitivity s2; [by eapply processor_step_moves|done].
Qed.
End DatabaseSteps.
