(* ===== verification/Transactions.v ===== *)
(** * Transactions and optimistic locking

    What MULTI, EXEC, WATCH and DISCARD promise (src/command_processor.cpp,
    [process_command] and [execute_transaction]): EXEC runs the queued commands
    as one sequence, and runs none of them when a watched key was touched. *)

From stdpp Require Import base option list gmap strings relations.
From Stdlib Require Import ZArith Lia.
From S2P Require Import Prelude CharConv Environment Resp StreamTypes TimeUtils.
From S2P Require Import Database DatabaseFacts Commands Dispatch DispatchFacts Replay.
From S2P Require Import Config Sessions Aof StateMonad ProcessorState Processor.
From S2P Require Import ProcessorRun ProcessorWalk ProcessorFacts.

Section Transactions.
Context `{Clock, HashOrder, Kernel, Crypto}.

(** ** Reachable databases *)

Lemma initial_database replica rdb aof hash i :
  _database (initial_state replica rdb aof hash i) = empty_database.
Proof. done. Qed.

(** C27: in every state the processor can reach, by any interleaving of client
    calls, worker iterations and session steps, the database is well formed:
    no list and no stream is empty, streams are strictly sorted by 64-bit
    identifiers, and only strings carry an expiry. *)
Theorem reachable_database_wf allowed replica rdb aof hash i (s : ProcessorState) :
  rtc (processor_step allowed) (initial_state replica rdb aof hash i) s -> db_wf (_database s).
Proof.
  intros Hs. destruct (processor_steps_move _ _ _ Hs) as [_ Hwf].
  apply Hwf, empty_database_wf.
Qed.

(** ** Revisions along a run *)

(** The revision of [key] was handed out at [n] or later. *)
Definition younger (n : Z) (key : string) (db : Database) : Prop :=
  n <= default 0 (key_revisions db !! key).

Lemma younger_changed db db' key :
  rev_step db db' -> 1 <= next_revision db -> next_revision db' <= 2 ^ 64 ->
  entries db' !! key <> entries db !! key -> younger (next_revision db) key db'.
Proof.
  intros (Hn & _ & Hk) Hpos Hmax Hch. unfold younger.
  destruct (Hk key) as [[He _]|(r & -> & Hrange)]; [done|]. simpl.
  rewrite wrap_u64_small by (unfold u64_max; lia). lia.
Qed.

(** It stays so: later changes are given later revisions. *)
Lemma younger_step n db db' key :
  rev_step db db' -> 1 <= next_revision db -> n <= next_revision db ->
  next_revision db' <= 2 ^ 64 -> younger n key db -> younger n key db'.
Proof.
  intros (_ & _ & Hk) Hpos Hn Hmax Hy. unfold younger in *.
  destruct (Hk key) as [[_ ->]|(r & -> & Hrange)]; [done|]. simpl.
  rewrite wrap_u64_small by (unfold u64_max; lia). lia.
Qed.

Lemma on_database_Some {A} (op : Database -> A * Database) s x s' :
  on_database op s = Some (x, s') ->
  x = (op (_database s)).1 /\ s' = set_database (op (_database s)).2 s.
Proof. unfold on_database. destruct (op (_database s)) as [y db]. by intros [= <- <-]. Qed.

(** [watched_changed] reports a watched key that was given a revision since. *)
Lemma watched_changed_reports l s b s' key original n :
  watched_changed l s = Some (b, s') -> (key, original) ∈ l ->
  1 <= n <= next_revision (_database s) -> next_revision (_database s') <= 2 ^ 64 ->
  original < n -> younger n key (_database s) -> b = true.
Proof.
  revert s. induction l as [|[k o] l IH]; intros s Hrun Hin Hn Hmax Horig Hy.
  { by apply elem_of_nil in Hin. }
  cbn [watched_changed] in Hrun. apply M_bind_Some in Hrun as (r & s1 & Hop & Hrun).
  apply on_database_Some in Hop as [-> ->].
  pose proof (key_revision_step k (_database s)) as [Hstep _].
  pose proof (key_revision_spec k (_database s)) as [Hrev _].
  set (db1 := (key_revision k (_database s)).2) in *.
  destruct (Z.eqb_spec (key_revision k (_database s)).1 o) as [Heq|Hne]; simpl in Hrun.
  2: { by injection Hrun as <- _. }
  assert (next_revision db1 <= next_revision (_database s')) as Hlast.
  { destruct (watched_changed_moves l _ _ _ Hrun) as [[Hl _] _]. done. }
  assert (next_revision (_database s) <= next_revision db1) as Hle by apply Hstep.
  assert (younger n key db1) as Hy1 by (eapply younger_step; [done|lia..|done]).
  apply elem_of_cons in Hin as [[= <- <-]|Hin].
  - exfalso. unfold younger in Hy1. rewrite Hrev in Heq. lia.
  - apply (IH (set_database db1 s)); try done; simpl; lia.
Qed.

(** ** Recorded revisions are older than the next one *)

Definition revisions_bounded (db : Database) : Prop :=
  1 <= next_revision db /\
  forall k r, key_revisions db !! k = Some r -> r < next_revision db.

Lemma revisions_bounded_step db db' :
  rev_step db db' -> revisions_bounded db -> revisions_bounded db'.
Proof.
  intros (Hn & _ & Hk) [Hpos Hr]. split; [lia|]. intros k r Hkr.
  destruct (Hk k) as [[_ He]|(r0 & He & Hrange)]; rewrite He in Hkr.
  - apply Hr in Hkr. lia.
  - injection Hkr as <-. unfold wrap_u64. pose proof (Z.mod_le r0 (2 ^ 64)). lia.
Qed.

Definition watched_bounded (s : ProcessorState) : Prop :=
  revisions_bounded (_database s) /\
  forall c w k r, _watched_keys s !! c = Some w -> w !! k = Some r ->
    r < next_revision (_database s).

(** The database moves, and no revision is recorded. *)
Lemma watched_bounded_frame s s' :
  db_moves s s' ->
  (forall c w, _watched_keys s' !! c = Some w -> _watched_keys s !! c = Some w) ->
  keeps watched_bounded s s'.
Proof.
  intros [Hstep _] Hw [Hb Hr]. split; [by eapply revisions_bounded_step|].
  intros c w k r Hc Hk. specialize (Hr c w k r (Hw _ _ Hc) Hk).
  destruct Hstep as [Hn _]. lia.
Qed.

(** An action known to move the database that does not touch the watched
    keys. *)
Lemma bounded_of_moves {A} (m : P A) :
  steps db_moves m ->
  (forall s x s', m s = Some (x, s') -> _watched_keys s' = _watched_keys s) ->
  steps (keeps watched_bounded) m.
Proof.
  intros Hm Hw s x s' Hrun. apply watched_bounded_frame; [by eapply Hm|].
  by rewrite (Hw _ _ _ Hrun).
Qed.

Lemma modify_bounded f :
  (forall s, _database (f s) = _database s) ->
  (forall s c w, _watched_keys (f s) !! c = Some w -> _watched_keys s !! c = Some w) ->
  steps (keeps watched_bounded) (modify f).
Proof.
  intros Hd Hw. apply steps_modify. intros s.
  apply watched_bounded_frame; [by apply db_moves_same|apply Hw].
Qed.

Lemma on_database_bounded {A} (op : Database -> A * Database) :
  (forall db, db_step db (op db).2) -> steps (keeps watched_bounded) (on_database op).
Proof.
  intros Hop. apply bounded_of_moves; [by apply on_database_moves|].
  by intros s x s' [_ ->]%on_database_Some.
Qed.

Lemma try_database_bounded {A} (op : Database -> option (A * Database)) :
  (forall db x db', op db = Some (x, db') -> db_step db db') ->
  steps (keeps watched_bounded) (try_database op).
Proof.
  intros Hop. apply bounded_of_moves; [by apply try_database_moves|].
  intros s x s'. unfold try_database. by intros ([y db] & _ & [= <- <-])%bind_Some.
Qed.

Lemma leaves_bounded :
  (forall a f, steps (keeps watched_bounded) (enqueue_frame a f)) /\
  (forall d, steps (keeps watched_bounded) (append_aof d)) /\
  (forall t, steps (keeps watched_bounded) (count_acknowledged_replicas t)) /\
  (forall c ch, steps (keeps watched_bounded) (subscribe_channel c ch)) /\
  (forall c ch, steps (keeps watched_bounded) (remove_subscription c ch)) /\
  (forall c p, steps (keeps watched_bounded) (process_replica_registration c p)).
Proof.
  split_and!; intros; apply bounded_of_moves.
  - apply enqueue_frame_moves.
  - intros s x s'. unfold enqueue_frame.
    intros (x0 & _ & Hb)%bind_Some. by apply bind_Some in Hb as ([[r x'] n] & _ & [= <- <-]).
  - apply append_aof_moves.
  - intros s x s'. unfold append_aof. intros (file & _ & Hb)%bind_Some.
    by apply bind_Some in Hb as ([[[r f'] n] rd] & _ & [= <- <-]).
  - apply count_acknowledged_moves.
  - by intros s x s' [= <- <-].
  - apply subscribe_channel_moves.
  - by intros s x s' [= <- <-].
  - apply remove_subscription_moves.
  - intros s x s'. unfold remove_subscription. intros Hr.
    repeat (case_match; simplify_eq/=); done.
  - apply (process_processor_task_moves (RegisterReplicaTask c p)).
  - by intros s x s' [= <- <-].
Qed.

(** WATCH records the revision it has just read. *)
Lemma watch_key_bounded c key : steps (keeps watched_bounded) (watch_key c key).
Proof.
  intros s x s'. unfold watch_key.
  intros (w & s0 & Hg & Hrun)%M_bind_Some. injection Hg as <- <-.
  destruct (decide _) as [|Hnone]; [by injection Hrun as <- <-|].
  apply M_bind_Some in Hrun as (rev & s1 & Hop & Hrun).
  pose proof (on_database_bounded (key_revision key) (fun db => key_revision_step key db)
    _ _ _ Hop) as Hkeep.
  apply on_database_Some in Hop as [-> ->]. injection Hrun as <- <-.
  intros Hb. destruct (Hkeep Hb) as [Hdb Hw]. split; [done|].
  intros c' w' k r. simpl. intros Hc Hk. simpl in Hw.
  destruct (decide (c' = c)) as [->|Hne].
  - rewrite lookup_insert_eq in Hc. injection Hc as <-.
    destruct (decide (k = key)) as [->|Hk'].
    + rewrite lookup_insert_eq in Hk. injection Hk as <-.
      destruct (key_revision_spec key (_database s)) as [-> _].
      destruct Hdb as [Hpos Hr]. simpl in Hpos, Hr.
      destruct (key_revisions _ !! key) as [r0|] eqn:Hr0; simpl; [by eapply Hr|lia].
    + rewrite lookup_insert_ne in Hk by done.
      destruct (_watched_keys s !! c) as [w0|] eqn:Hw0; [|done]. simpl in Hk. by eapply Hw.
  - rewrite lookup_insert_ne in Hc by done. by eapply Hw.
Qed.

Lemma respond_bounded p v : steps (keeps watched_bounded) (complete p v).
Proof. apply modify_bounded; by intros. Qed.

Lemma dispatch_bounded c :
  steps (keeps watched_bounded) (try_database (fun db => dispatch db c)).
Proof. apply try_database_bounded. intros db x db'. apply dispatch_step. Qed.

#[local] Hint Extern 1 (steps _ (complete _ _)) => apply respond_bounded : steps.
#[local] Hint Extern 1 (steps _ (respond _ _)) => apply respond_bounded : steps.
#[local] Hint Extern 1 (steps _ (enqueue_frame _ _)) => apply leaves_bounded : steps.
#[local] Hint Extern 1 (steps _ (append_aof _)) => apply leaves_bounded : steps.
#[local] Hint Extern 1 (steps _ (count_acknowledged_replicas _)) => apply leaves_bounded : steps.
#[local] Hint Extern 1 (steps _ (subscribe_channel _ _)) => apply leaves_bounded : steps.
#[local] Hint Extern 1 (steps _ (remove_subscription _ _)) => apply leaves_bounded : steps.
#[local] Hint Extern 1 (steps _ (process_replica_registration _ _)) =>
  apply leaves_bounded : steps.
#[local] Hint Extern 1 (steps _ (watch_key _ _)) => apply watch_key_bounded : steps.
#[local] Hint Extern 1 (steps _ (run_transaction _ _ _)) =>
  apply run_transaction_steps; [apply _|apply Forall_true; apply dispatch_bounded] : steps.
#[local] Hint Extern 1 (steps _ (modify _)) =>
  apply modify_bounded; [intros; repeat case_match; reflexivity|];
  intros ? ? ?; repeat case_match; simpl; rewrite ?lookup_delete_Some;
  (done || by intros []) : steps.
#[local] Hint Extern 1 (steps _ (on_database _)) =>
  apply on_database_bounded; intros; auto using db_step_tick, system_now_step with redis
  : steps.
#[local] Hint Extern 1 (steps _ (read_in_place _)) =>
  apply on_database_bounded; intros; auto with redis : steps.
#[local] Hint Resolve dispatch_bounded : steps.

Lemma watch_bounded c command : steps (keeps watched_bounded) (watch c command).
Proof.
  unfold watch. solve_steps. apply steps_modify. intros s [Hb Hw]. split; [done|].
  intros c' w k r Hc Hk. simpl in Hc. destruct (decide (c' = c)) as [->|Hne].
  - rewrite lookup_insert_eq in Hc. injection Hc as <-.
    destruct (_watched_keys s !! c) as [w0|] eqn:Hw0; [by eapply Hw|done].
  - rewrite lookup_insert_ne in Hc by done. by eapply Hw.
Qed.
#[local] Hint Resolve watch_bounded : steps.

Lemma process_command_bounded c command from :
  steps (keeps watched_bounded) (process_command c command from).
Proof.
  unfold process_command, config_get, process_acl_command, acl_whoami, acl_getuser, acl_setuser,
    authenticate, subscribe, unsubscribe, unsubscribe_channel, lock_client_session,
    queue_acknowledgement, publish, publish_to, execute_transaction, commit_transaction,
    append_client_replication_frame, append_replication_frame.
  solve_steps.
Qed.
#[local] Hint Resolve process_command_bounded : steps.

Lemma process_task_bounded task : steps (keeps watched_bounded) (process_task task).
Proof.
  unfold process_task, route_pubsub_response, enqueue_pubsub_response, process_blpop,
    process_xread, process_wait, process_direct, read_in_place, serve_pop,
    persist_blocking_pop, append_client_replication_frame, append_replication_frame,
    deadline_of.
  solve_steps.
Qed.

Lemma load_entry_bounded now e : steps (keeps watched_bounded) (load_entry now e).
Proof.
  unfold load_entry. solve_steps; apply try_database_bounded; intros db x db';
    intros (db1 & Hset & [= <- <-])%bind_Some; by eapply set_step.
Qed.
#[local] Hint Resolve process_task_bounded load_entry_bounded : steps.

Lemma process_processor_task_bounded task :
  steps (keeps watched_bounded) (process_processor_task task).
Proof.
  destruct task; cbn [process_processor_task];
    unfold process_replication_state_installation, process_replication_offset_request,
      process_replica_acknowledgement, process_rdb_load, process_aof_initialization,
      process_client_registration, process_client_unregistration, forget_transaction,
      cancel_pending_commands, cancel, drop_subscriber; solve_steps.
Qed.
#[local] Hint Resolve process_processor_task_bounded : steps.

Lemma run_iteration_bounded : steps (keeps watched_bounded) run_iteration.
Proof.
  unfold run_iteration, retry_all, expire_all, retry_pending_list_pops, retry_list_pop,
    retry_pending_stream_reads, retry_stream_read, read_in_place, retry_pending_waits,
    retry_wait, expire_pending_list_pops, expire_pending_stream_reads, expire_pending_waits,
    serve_pop, persist_blocking_pop, append_client_replication_frame, append_replication_frame.
  solve_steps.
Qed.

Lemma processor_steps_bounded allowed s s' :
  rtc (processor_step allowed) s s' -> watched_bounded s -> watched_bounded s'.
Proof.
  induction 1 as [s|s1 s2 s3 H12 _ IH]; [done|]. intros Hb. apply IH.
  revert Hb. change (keeps watched_bounded s1 s2). clear IH.
  destruct H12; [..|by eapply run_iteration_bounded| | | | | | |];
    by apply watched_bounded_frame; [apply db_moves_same|].
Qed.

Lemma reachable_bounded allowed replica rdb aof hash i s :
  rtc (processor_step allowed) (initial_state replica rdb aof hash i) s -> watched_bounded s.
Proof.
  intros Hs. eapply processor_steps_bounded; [done|]. split; [split; [simpl; lia|]|]; done.
Qed.

(** ** EXEC *)

(** Only the database changed, and only by dropping expired entries. *)
Definition looks_up (s s' : ProcessorState) : Prop :=
  s' = set_database (_database s') s /\ quiet (_database s) (_database s').

#[export] Instance looks_up_preorder : PreOrder looks_up.
Proof.
  split.
  - intros s. split; [by destruct s|reflexivity].
  - intros a b c [Hb Hq1] [Hc Hq2]. split; [|by etrans]. rewrite Hc, Hb. done.
Qed.

Lemma watched_changed_looks_up l : steps looks_up (watched_changed l).
Proof.
  apply watched_changed_steps; [apply _|]. intros key s x s' [-> ->]%on_database_Some.
  split; [done|]. apply key_revision_quiet.
Qed.

(** The list EXEC goes through holds exactly the recorded revisions. *)
Lemma watched_list_elem s c w key r :
  _watched_keys s !! c = Some w -> w !! key = Some r -> (key, r) ∈ watched_list s c.
Proof.
  intros Hw Hr. unfold watched_list. rewrite Hw. apply list_elem_of_omap.
  exists key. split; [|by rewrite Hr].
  rewrite hash_order_perm. apply list_elem_of_fmap. exists (key, r).
  split; [done|]. by apply elem_of_map_to_list.
Qed.

(** C2: WATCH is sound.  If client [c] watches [key] in a reachable state [s1],
    the entry of [key] differs in a later state [s2] in which the watch still
    stands, and [c] has a queued transaction without errors, then EXEC answers
    with a null array and runs nothing: the transaction and the watches of the
    client are dropped, and the data is what looking up the watched keys leaves
    (nothing but expired entries disappears).  Fewer than 2^64 revisions are
    handed out. *)
Theorem watch_aborts_exec allowed replica rdb aof hash i (s1 s2 s3 : ProcessorState)
    (c : Z) (from : CommandSource) (w w2 : gmap string Z) (key : string) (original : Z)
    (t : TransactionState) (r : Response) :
  rtc (processor_step allowed) (initial_state replica rdb aof hash i) s1 ->
  rtc (processor_step allowed) s1 s2 ->
  _watched_keys s1 !! c = Some w -> w !! key = Some original ->
  _watched_keys s2 !! c = Some w2 -> w2 !! key = Some original ->
  entries (_database s2) !! key <> entries (_database s1) !! key ->
  _transactions s2 !! c = Some t -> has_error t = false ->
  execute_transaction c from s2 = Some (r, s3) ->
  next_revision (_database s3) <= 2 ^ 64 ->
  r = NullArray /\ quiet (_database s2) (_database s3) /\
  _transactions s3 !! c = None /\ _watched_keys s3 !! c = None /\
  _aof_file s3 = _aof_file s2 /\ _replication_state s3 = _replication_state s2.
Proof.
  intros Hr1 H12 Hw Ho Hw2 Ho2 Hch Ht Herr Hexec Hmax.
  destruct (reachable_bounded _ _ _ _ _ _ _ Hr1) as [[Hpos _] Hb].
  specialize (Hb c w key original Hw Ho).
  destruct (processor_steps_move _ _ _ H12) as [Hrev12 _].
  unfold execute_transaction in Hexec.
  apply M_bind_Some in Hexec as (t' & s & Hg & Hexec). injection Hg as <- <-. rewrite Ht in Hexec.
  apply M_bind_Some in Hexec as (l & s & Hg & Hexec). injection Hg as <- <-.
  apply M_bind_Some in Hexec as (b & s4 & Hchg & Hexec).
  destruct (watched_changed_moves _ _ _ _ Hchg) as [Hrev24 _].
  destruct (watched_changed_looks_up _ _ _ _ Hchg) as [Hs4 Hquiet].
  assert (next_revision (_database s4) <= next_revision (_database s3)) as Hn43
    by (destruct (commit_transaction_moves _ _ _ _ _ _ _ Hexec) as [[Hn _] _]; done).
  assert (r = NullArray /\ s3 = set_watched_keys (delete c (_watched_keys s4))
    (set_transactions (delete c (_transactions s4)) s4)) as [-> ->].
  { unfold commit_transaction in Hexec.
    apply M_bind_Some in Hexec as (u & s & Hg & Hexec). injection Hg as <- <-.
    apply M_bind_Some in Hexec as (u' & s & Hg & Hexec). injection Hg as <- <-.
    rewrite Herr in Hexec. destruct b; [by injection Hexec as <- <-|]. exfalso.
    assert (false = true); [|done].
    eapply (watched_changed_reports _ _ _ _ key original (next_revision (_database s1)));
      [done|by eapply watched_list_elem| | |done|].
    - destruct Hrev12 as [? _]. lia.
    - lia.
    - apply younger_changed; [done..| |done]. destruct Hrev24 as [? _]. lia. }
  rewrite Hs4. split_and!; try done; simpl; apply lookup_delete_eq.
Qed.
(** ** All or nothing *)

(** Only the file, the replicas and the offsets may have changed. *)
Definition settled (s s' : ProcessorState) : Prop :=
  entries (_database s') = entries (_database s) /\ _transactions s' = _transactions s /\
  _watched_keys s' = _watched_keys s.

#[export] Instance settled_preorder : PreOrder settled.
Proof.
  split; unfold settled; [done|]. intros a b c (? & ? & ?) (? & ? & ?). split_and!; congruence.
Qed.

Lemma append_aof_settled data : steps settled (append_aof data).
Proof.
  intros s x s'. unfold append_aof. intros (file & _ & Hb)%bind_Some.
  by apply bind_Some in Hb as ([[[r f'] n] rd] & _ & [= <- <-]).
Qed.

Lemma append_client_frame_settled c data :
  steps settled (append_client_replication_frame c data).
Proof.
  unfold append_client_replication_frame, append_replication_frame.
  solve_steps; by apply steps_modify.
Qed.

(** The queued commands run one after the other, on the database alone. *)
Lemma run_transaction_dispatches record cs data s rs data' s' :
  run_transaction record cs data s = Some ((rs, data'), s') ->
  exists db', dispatch_all (_database s) cs = Some (rs, db') /\ s' = set_database db' s.
Proof.
  revert data s rs data'. induction cs as [|c cs IH]; intros data s rs data'; cbn [run_transaction].
  { intros [= <- _ <-]. exists (_database s). by destruct s. }
  intros (r & s1 & Hd & Hrun)%M_bind_Some.
  apply M_bind_Some in Hrun as ([rs' data1] & s2 & Hrun & Hret). injection Hret as <- _ <-.
  unfold try_database in Hd. apply bind_Some in Hd as ([r' db1] & Hd & Hs). injection Hs as -> <-.
  apply IH in Hrun as (db' & Hall & ->). exists db'. simpl dispatch_all. rewrite Hd. simpl.
  simpl in Hall. by rewrite Hall.
Qed.

Lemma dispatch_all_length db cs rs db' :
  dispatch_all db cs = Some (rs, db') -> length rs = length cs.
Proof.
  revert db rs. induction cs as [|c cs IH]; intros db rs Hrun.
  { by injection Hrun as <- _. }
  simpl in Hrun. apply bind_Some in Hrun as ([r db1] & _ & Hrest).
  apply bind_Some in Hrest as ([rs' db2] & Hall & Hret). injection Hret as <- ->.
  simpl. f_equal. by eapply IH.
Qed.

(** What an EXEC that is not refused does. *)
Definition executed (t : TransactionState) (s s' : ProcessorState) (r : Response) : Prop :=
  exists db rs db', quiet (_database s) db /\
    dispatch_all db (queued_commands t) = Some (rs, db') /\
    length rs = length (queued_commands t) /\ entries (_database s') = entries db' /\
    (r = ResponseArray rs \/ (queued_commands t = [] /\ r = EmptyArray) \/
     (is_Some (_aof_file s) /\ exists reason, r = misconf reason)).

Lemma commit_transaction_spec c from t changed s r s' :
  commit_transaction c from t changed s = Some (r, s') ->
  (_transactions s' !! c = None /\ _watched_keys s' !! c = None) /\
  if has_error t then r = SimpleError "EXECABORT Transaction discarded because of previous errors." /\
    _database s' = _database s
  else if changed then r = NullArray /\ _database s' = _database s
  else executed t s s' r.
Proof.
  intros Hrun. unfold commit_transaction in Hrun.
  apply M_bind_Some in Hrun as ([] & s1 & Hm & Hrun). injection Hm as <-.
  apply M_bind_Some in Hrun as ([] & s1 & Hm & Hrun). injection Hm as <-. simpl in Hrun.
  set (s1 := set_watched_keys _ _) in Hrun.
  assert (forall s2, settled s1 s2 -> _transactions s2 !! c = None /\ _watched_keys s2 !! c = None)
    as Hgone by (intros s2 (_ & -> & ->); split; apply lookup_delete_eq).
  destruct (has_error t); [injection Hrun as <- <-; split; [by apply Hgone|done]|].
  destruct changed; [injection Hrun as <- <-; split; [by apply Hgone|done]|].
  destruct (length (queued_commands t) =? 0)%nat eqn:Hlen.
  { injection Hrun as <- <-. split; [by apply Hgone|]. apply Nat.eqb_eq, nil_length_inv in Hlen.
    exists (_database s), [], (_database s). rewrite Hlen. split_and!; try done; auto. }
  apply M_bind_Some in Hrun as (rep & s2 & Hg & Hrun). injection Hg as _ <-.
  apply M_bind_Some in Hrun as (per & s2 & Hg & Hrun). injection Hg as Hper <-.
  apply M_bind_Some in Hrun as ([rs data] & s2 & Htrans & Hrun).
  apply run_transaction_dispatches in Htrans as (db' & Hall & ->).
  assert (settled (set_database db' s1) s' /\ (r = ResponseArray rs \/
    (is_Some (_aof_file s) /\ exists reason, r = misconf reason))) as [Hset Hr].
  { destruct (String.eqb data _); [injection Hrun as <- <-; by split; [|left]|].
    apply M_bind_Some in Hrun as (res & s2 & Happ & Hrun).
    assert (settled (set_database db' s1) s2) as Hset2.
    { destruct per; [by eapply append_aof_settled|by injection Happ as _ <-]. }
    destruct res as [u|e].
    - apply M_bind_Some in Hrun as ([] & s3 & Hframe & Hret). injection Hret as <- <-.
      split; [|by left]. etrans; [exact Hset2|].
      destruct rep; [by eapply append_client_frame_settled|by injection Hframe as <-].
    - injection Hrun as <- <-. split; [done|]. right. destruct per; [|by injection Happ].
      apply andb_true_iff in Hper as [Hf _]. by apply bool_decide_eq_true in Hf; eauto. }
  split.
  - destruct Hset as (_ & -> & ->). split; apply lookup_delete_eq.
  - exists (_database s), rs, db'. destruct Hset as (-> & _ & _). simpl.
    split; [reflexivity|]. split; [done|]. split; [by eapply dispatch_all_length|].
    split; [done|]. destruct Hr; auto.
Qed.
End Transactions.

(** C8: EXEC is all or nothing.  It ends the transaction of the client and its
    watches in every case.  Either it is refused, because a queued command was,
    or because a watched key changed, and then nothing but expired entries
    disappears; or it runs every queued command, in order and with nothing in
    between, each on the database the one before left, and answers with one
    response per command, or with the error of the file its writes could not
    be appended to. *)
Theorem exec_all_or_nothing `{Clock, HashOrder, Kernel, Crypto} (c : Z) (from : CommandSource)
    (t : TransactionState) (s s' : ProcessorState) (r : Response) :
  _transactions s !! c = Some t -> execute_transaction c from s = Some (r, s') ->
  _transactions s' !! c = None /\ _watched_keys s' !! c = None /\
  ((r = SimpleError "EXECABORT Transaction discarded because of previous errors." /\
    has_error t = true /\ quiet (_database s) (_database s')) \/
   (r = NullArray /\ has_error t = false /\ quiet (_database s) (_database s')) \/
   (has_error t = false /\ executed t s s' r)).
Proof.
  intros Ht Hexec. unfold execute_transaction in Hexec.
  apply M_bind_Some in Hexec as (t' & s1 & Hg & Hexec). injection Hg as <- <-. rewrite Ht in Hexec.
  apply M_bind_Some in Hexec as (l & s1 & Hg & Hexec). injection Hg as _ <-.
  apply M_bind_Some in Hexec as (b & s1 & Hchg & Hexec).
  destruct (watched_changed_looks_up _ _ _ _ Hchg) as [Hs1 Hquiet].
  apply commit_transaction_spec in Hexec as [[Hnt Hnw] Hout]. split; [done|]. split; [done|].
  destruct (has_error t).
  { left. destruct Hout as [-> ->]. done. }
  right. destruct b.
  { left. destruct Hout as [-> ->]. done. }
  right. split; [done|]. destruct Hout as (db & rs & db' & Hq & Hall & Hlen & He & Hr).
  exists db, rs, db'. split; [by etrans|]. do 3 (split; [done|]).
  rewrite Hs1 in Hr. exact Hr.
Qed.

(** ** Witnesses *)

Section Witnesses.
#[local] Existing Instance millisecond_clock.
#[local] Existing Instance insertion_order.
#[local] Existing Instance perfect_kernel.
#[local] Existing Instance sample_crypto.

(** Client 1 watches a key and queues a GET; client 2 then sets the key. *)
Definition watching : ProcessorState := after_script
  (two_clients ++ [Submit 1 ["WATCH"; "k"]; Submit 1 ["MULTI"]; Submit 1 ["GET"; "k"]])
  sample_master.
Definition overwritten : ProcessorState :=
  after_script [Submit 2 ["SET"; "k"; "v"]] watching.

Lemma reachable_database_wf_witness : db_wf (_database overwritten).
Proof.
  apply (reachable_database_wf any_request None default_rdb_config default_aof_config None
    "0123456789abcdef" overwritten).
  transitivity watching; apply after_script_steps; vm_compute; reflexivity.
Defined.

Lemma watch_aborts_exec_witness :
  exists r s3, execute_transaction 1 CLIENT overwritten = Some (r, s3) /\ r = NullArray.
Proof.
  assert (exists r s3, execute_transaction 1 CLIENT overwritten = Some (r, s3) /\
    next_revision (_database s3) <= 2 ^ 64) as (r & s3 & Hexec & Hmax).
  { destruct (execute_transaction 1 CLIENT overwritten) as [[r s3]|] eqn:He.
    - exists r, s3. split; [done|].
      assert (match execute_transaction 1 CLIENT overwritten with
        | Some (_, s) => next_revision (_database s) <=? 2 ^ 64 | None => false end = true) as Hb
        by (vm_compute; reflexivity).
      rewrite He in Hb. by apply Z.leb_le.
    - exfalso. assert (bool_decide (is_Some (execute_transaction 1 CLIENT overwritten)) = true)
        as Hb by (vm_compute; reflexivity). by rewrite He in Hb. }
  exists r, s3. split; [done|].
  eapply (watch_aborts_exec any_request None default_rdb_config default_aof_config None "0123456789abcdef"
    watching overwritten s3 1 CLIENT {[ "k" := 0 ]} {[ "k" := 0 ]} "k" 0
    (mkTransactionState [["GET"; "k"]] false) r).
  - apply after_script_steps. vm_compute. reflexivity.
  - apply after_script_steps. vm_compute. reflexivity.
  - vm_compute. reflexivity.
  - reflexivity.
  - vm_compute. reflexivity.
  - reflexivity.
  - vm_compute. discriminate.
  - vm_compute. reflexivity.
  - reflexivity.
  - done.
  - done.
Defined.

(** Client 1 queues two writes and executes them. *)
Definition two_writes : ProcessorState := after_script
  (two_clients ++ [Submit 1 ["MULTI"]; Submit 1 ["RPUSH"; "l"; "a"]; Submit 1 ["INCR"; "n"]])
  sample_master.

Lemma exec_all_or_nothing_witness :
  exists r s', execute_transaction 1 CLIENT two_writes = Some (r, s') /\
    _transactions s' !! 1 = None /\ _watched_keys s' !! 1 = None /\
    executed (mkTransactionState [["RPUSH"; "l"; "a"]; ["INCR"; "n"]] false) two_writes s' r.
Proof.
  destruct (execute_transaction 1 CLIENT two_writes) as [[r s']|] eqn:He.
  2: { exfalso. assert (bool_decide (is_Some (execute_transaction 1 CLIENT two_writes)) = true)
        as Hb by (vm_compute; reflexivity). by rewrite He in Hb. }
  exists r, s'. split; [reflexivity|].
  assert (match execute_transaction 1 CLIENT two_writes with
    | Some (ResponseArray _, _) => true | _ => false end = true) as Hr by (vm_compute; reflexivity).
  rewrite He in Hr.
  destruct (exec_all_or_nothing 1 CLIENT
    (mkTransactionState [["RPUSH"; "l"; "a"]; ["INCR"; "n"]] false) two_writes s' r)
    as (Ht & Hw & Hcase); [vm_compute; reflexivity|exact He|].
  split; [exact Ht|]. split; [exact Hw|].
  destruct Hcase as [(-> & _)|[(-> & _)|[_ Hx]]]; [discriminate Hr|discriminate Hr|exact Hx].
Defined.
End Witnesses.
