(* ===== verification/Access.v ===== *)
(** * Access control and read-only replicas

    Who may do what (src/command_processor.cpp, [process_task],
    [authenticate], [acl_setuser]): a client that has not authenticated gets
    nothing done, a client authenticates only with a password of the default
    user, and clients of a replica change no data. *)

From stdpp Require Import base option list gmap strings relations.
From Stdlib Require Import ZArith Lia.
From S2P Require Import Prelude CharConv Environment Resp StreamTypes TimeUtils.
From S2P Require Import Database DatabaseFacts Commands Dispatch DispatchFacts Config.
From S2P Require Import Sessions Aof StateMonad ProcessorState Processor ProcessorRun.
From S2P Require Import ProcessorWalk ProcessorFacts.

Section Access.
Context `{Clock, HashOrder, Kernel, Crypto}.

(** ** Refused commands *)

(** Only sessions, the client table and the fulfilled promises changed, and no
    client was added. *)
Definition only_replies (s s' : ProcessorState) : Prop :=
  _database s' = _database s /\ _default_user s' = _default_user s /\
  _aof_file s' = _aof_file s /\ _replication_state s' = _replication_state s /\
  _pending_list_pops s' = _pending_list_pops s /\
  _pending_stream_reads s' = _pending_stream_reads s /\
  _pending_waits s' = _pending_waits s /\
  _replication_backlog s' = _replication_backlog s /\
  _transactions s' = _transactions s /\ _watched_keys s' = _watched_keys s /\
  _channel_subscribers s' = _channel_subscribers s /\
  _client_subscriptions s' = _client_subscriptions s /\
  replica_heap s' = replica_heap s /\ _clients s' ⊆ _clients s.

#[export] Instance only_replies_preorder : PreOrder only_replies.
Proof.
  split; unfold only_replies.
  - intros s. split_and!; done.
  - intros a b c Hab Hbc. destruct_and!. split_and!; try congruence. by etrans.
Qed.

Lemma enqueue_frame_replies a f : steps only_replies (enqueue_frame a f).
Proof.
  intros s x s'. unfold enqueue_frame.
  intros (x0 & _ & Hb)%bind_Some. apply bind_Some in Hb as ([[r x'] n] & _ & [= <- <-]).
  by split_and!.
Qed.

Lemma route_replies c r : steps only_replies (route_pubsub_response c r).
Proof.
  unfold route_pubsub_response, enqueue_pubsub_response.
  pose proof enqueue_frame_replies. solve_steps. apply steps_modify. intros s.
  split_and!; try done. simpl. apply delete_subseteq.
Qed.

Lemma route_completed c r : steps (same completed) (route_pubsub_response c r).
Proof.
  unfold route_pubsub_response, enqueue_pubsub_response. solve_steps.
  - intros s x s'. unfold enqueue_frame.
    intros (x0 & _ & Hb)%bind_Some. by apply bind_Some in Hb as ([[? x'] k] & _ & [= <- <-]).
  - by apply steps_modify.
Qed.

(** The reply of a refused command: directly, or through the session of a
    subscribed client. *)
Lemma refuse_spec task r s s' :
  (r ← (if is_subscribed s (client_id task) then route_pubsub_response (client_id task) r
        else mret r); respond task r : P unit) s = Some (tt, s') ->
  only_replies s s' /\
  exists r', completed s' = completed s ++ [(response task, Responded r')] /\
    (is_subscribed s (client_id task) = false -> r' = r).
Proof.
  intros (r' & s1 & Hroute & Hresp)%M_bind_Some. injection Hresp as <-.
  assert (only_replies s s1 /\ completed s1 = completed s /\
    (is_subscribed s (client_id task) = false -> r' = r)) as (Hs1 & Hc1 & Hr).
  { destruct (is_subscribed s (client_id task)).
    - split_and!; [by eapply route_replies|by eapply route_completed|done].
    - by injection Hroute as <- <-. }
  split.
  - etrans; [done|]. by split_and!.
  - exists r'. split; [|done]. simpl. by rewrite Hc1.
Qed.

(** C7: a client that has not authenticated gets nothing done.  Whatever command
    other than AUTH it submits, in whatever state, the processor answers it
    (with NOAUTH, or through its pub/sub session if it is subscribed) and
    changes no data, no user, no transaction or watch, no subscription, no
    pending operation, no persisted byte and no replication state, and adds no
    client. *)
Theorem unauthenticated_is_refused (task : Task) (s s' : ProcessorState) :
  source task = CLIENT -> is_named (task_command task) "AUTH" = false ->
  is_authenticated s (client_id task) = false ->
  process_task task s = Some (tt, s') ->
  only_replies s s' /\
  exists r, completed s' = completed s ++ [(response task, Responded r)] /\
    (is_subscribed s (client_id task) = false -> r = noauth).
Proof.
  intros Hsrc Hname Hauth Hrun. apply (refuse_spec task noauth).
  unfold process_task in Hrun.
  apply M_bind_Some in Hrun as (? & ? & Hg & Hrun). injection Hg as <- <-.
  apply M_bind_Some in Hrun as (? & ? & Hg & Hrun). injection Hg as <- <-.
  by rewrite Hsrc, Hname, Hauth in Hrun.
Qed.

(** ** Authentication *)

(** The user name and the password of an AUTH command. *)
Definition credentials (command : Command) : option (string * string) :=
  match command with
  | [_; password] => Some ("default", password)
  | [_; username; password] => Some (username, password)
  | _ => None
  end.

(** They are those of the default user. *)
Definition credentials_match (user : User) (command : Command) : Prop :=
  exists password, credentials command = Some ("default", password) /\
    (no_password user = true \/
     exists h, sha256 password = Expected h /\ h ∈ password_hashes user).

Lemma credentials_decided user command :
  credentials_match user command \/ ~ credentials_match user command.
Proof.
  unfold credentials_match. destruct (credentials command) as [[u p]|].
  2: { right. by intros (? & [=] & _). }
  destruct (decide (u = "default")) as [->|Hu].
  2: { right. by intros (? & [= ? _] & _). }
  destruct (no_password user) eqn:Hno; [left; eauto|].
  destruct (sha256 p) as [h|] eqn:Hh.
  - destruct (decide (h ∈ password_hashes user)) as [|Hin]; [left; eauto 10|].
    right. intros (? & [= <-] & [?|(? & ? & ?)]); congruence.
  - right. intros (? & [= <-] & [?|(? & ? & ?)]); congruence.
Qed.

(** C28: AUTH accepts exactly the right credentials.  For a registered client it
    answers OK exactly when the user is [default] and either no password is
    required or the hash of the password is one of the user's; it then marks
    that client, and no other, as authenticated, and otherwise it changes
    nothing at all. *)
Theorem authenticate_correct (c : Z) (command : Command) (client : ClientState)
    (s s' : ProcessorState) (r : Response) :
  _clients s !! c = Some client ->
  authenticate c command s = Some (r, s') ->
  (r = SimpleString "OK" /\ credentials_match (_default_user s) command /\
   s' = set_clients (<[c := mkClientState true (pubsub_session client)]> (_clients s)) s) \/
  (response_is_error r = true /\ ~ credentials_match (_default_user s) command /\ s' = s).
Proof.
  intros Hc. unfold authenticate.
  destruct (decide (length command = 2 \/ length command = 3)%nat) as [Hlen|Hlen].
  2: { rewrite (proj2 (Nat.eqb_neq _ 2)), (proj2 (Nat.eqb_neq _ 3)) by tauto.
       intros [= <- <-]. right. split_and!; [done| |done].
       intros (p & Hcred & _). by destruct command as [|? [|? [|? [|]]]]; simpl in Hlen; try tauto. }
  assert (exists user password, credentials command = Some (user, password) /\
    (if (length command =? 2)%nat then "default" else arg command 1) = user /\
    (if (length command =? 2)%nat then arg command 1 else arg command 2) = password)
    as (user & password & Hcred & Huser & Hpass).
  { destruct command as [|? [|? [|? [|]]]]; simpl in Hlen; try lia; eauto. }
  rewrite Huser, Hpass.
  replace (negb (length command =? 2)%nat && negb (length command =? 3)%nat) with false.
  2: { destruct Hlen as [-> | ->]; done. }
  intros (x & s0 & Hg & Hrun)%M_bind_Some. injection Hg as <- <-. rewrite Hc in Hrun.
  unfold credentials_match. rewrite Hcred.
  destruct (String.eqb_spec user "default") as [->|Hu]; simpl in Hrun.
  2: { injection Hrun as <- <-. right. split_and!; [done| |done].
       by intros (p & [= ? _] & _). }
  apply M_bind_Some in Hrun as (u & s0 & Hg & Hrun). injection Hg as <- <-.
  destruct (no_password (_default_user s)) eqn:Hno.
  { injection Hrun as <- <-. left. split_and!; eauto. }
  destruct (sha256 password) as [h|e] eqn:Hh.
  - case_bool_decide as Hin; injection Hrun as <- <-; [left|right].
    + split_and!; eauto 10.
    + split_and!; [done| |done].
      intros (p & [= <-] & [?|(h' & Hh' & Hin')]); congruence.
  - injection Hrun as <- <-. right. split_and!; [done| |done].
    intros (p & [= <-] & [?|(h' & Hh' & Hin')]); [done|]. by rewrite Hh in Hh'.
Qed.

(** ** Nobody else becomes authenticated *)

Section NoNewAuthentication.
Variable c : Z.

Definition no_new_auth (s s' : ProcessorState) : Prop :=
  is_authenticated s' c = true -> is_authenticated s c = true.

#[local] Instance no_new_auth_preorder : PreOrder no_new_auth.
Proof. split; unfold no_new_auth; [intros s|intros s1 s2 s3]; auto. Qed.

Lemma no_new_auth_same s s' : _clients s' = _clients s -> no_new_auth s s'.
Proof. unfold no_new_auth, is_authenticated. by intros ->. Qed.

Lemma no_new_auth_delete d s : no_new_auth s (set_clients (delete d (_clients s)) s).
Proof.
  unfold no_new_auth, is_authenticated. simpl. destruct (decide (d = c)) as [->|Hne].
  - by rewrite lookup_delete_eq.
  - by rewrite lookup_delete_ne.
Qed.

Lemma no_new_auth_other d client s :
  d <> c -> no_new_auth s (set_clients (<[d := client]> (_clients s)) s).
Proof.
  intros Hne. unfold no_new_auth, is_authenticated. simpl. by rewrite lookup_insert_ne.
Qed.

Lemma leaves_no_new_auth :
  (forall a f, steps no_new_auth (enqueue_frame a f)) /\
  (forall d, steps no_new_auth (append_aof d)) /\
  (forall t, steps no_new_auth (count_acknowledged_replicas t)) /\
  (forall d ch, steps no_new_auth (subscribe_channel d ch)) /\
  (forall d ch, steps no_new_auth (remove_subscription d ch)) /\
  (forall d p, steps no_new_auth (process_replica_registration d p)) /\
  (forall A (op : Database -> A * Database), steps no_new_auth (on_database op)) /\
  (forall A (op : Database -> option (A * Database)), steps no_new_auth (try_database op)).
Proof.
  split_and!; intros; intros s x s' Hrun; apply no_new_auth_same; revert Hrun.
  - unfold enqueue_frame. intros (x0 & _ & Hb)%bind_Some.
    by apply bind_Some in Hb as ([[r x'] n] & _ & [= <- <-]).
  - unfold append_aof. intros (file & _ & Hb)%bind_Some.
    by apply bind_Some in Hb as ([[[r f'] n] rd] & _ & [= <- <-]).
  - by intros [= <- <-].
  - by intros [= <- <-].
  - unfold remove_subscription. intros Hr. repeat (case_match; simplify_eq/=); done.
  - by intros [= <- <-].
  - unfold on_database. destruct (op (_database s)). by intros [= <- <-].
  - unfold try_database. by intros ([y db] & _ & [= <- <-])%bind_Some.
Qed.

#[local] Hint Extern 1 (steps _ (enqueue_frame _ _)) => apply leaves_no_new_auth : steps.
#[local] Hint Extern 1 (steps _ (append_aof _)) => apply leaves_no_new_auth : steps.
#[local] Hint Extern 1 (steps _ (count_acknowledged_replicas _)) =>
  apply leaves_no_new_auth : steps.
#[local] Hint Extern 1 (steps _ (subscribe_channel _ _)) => apply leaves_no_new_auth : steps.
#[local] Hint Extern 1 (steps _ (remove_subscription _ _)) => apply leaves_no_new_auth : steps.
#[local] Hint Extern 1 (steps _ (process_replica_registration _ _)) =>
  apply leaves_no_new_auth : steps.
#[local] Hint Extern 1 (steps _ (on_database _)) => apply leaves_no_new_auth : steps.
#[local] Hint Extern 1 (steps _ (read_in_place _)) => apply leaves_no_new_auth : steps.
#[local] Hint Extern 1 (steps _ (try_database _)) => apply leaves_no_new_auth : steps.
#[local] Hint Extern 1 (steps _ (run_transaction _ _ _)) =>
  apply run_transaction_steps; [apply _|apply Forall_true; intros; apply leaves_no_new_auth]
  : steps.
#[local] Hint Extern 1 (steps _ (modify _)) =>
  apply steps_modify; intros;
  first [apply no_new_auth_delete
        |apply no_new_auth_same; repeat case_match; reflexivity] : steps.
#[local] Hint Extern 1 (steps _ (complete _ _)) =>
  apply steps_modify; intros; by apply no_new_auth_same : steps.
#[local] Hint Extern 1 (steps _ (respond _ _)) =>
  apply steps_modify; intros; by apply no_new_auth_same : steps.

Lemma authenticate_no_new_auth d command :
  d <> c -> steps no_new_auth (authenticate d command).
Proof.
  intros Hne. unfold authenticate. solve_steps;
    apply steps_modify; intros; by apply no_new_auth_other.
Qed.

(** Any command but an AUTH of client [c] itself. *)
Lemma process_command_no_new_auth d command from :
  d <> c \/ is_named command "AUTH" = false ->
  steps no_new_auth (process_command d command from).
Proof.
  intros Hcase. unfold process_command. destruct command as [|name args]; [solve_steps|].
  apply steps_bind; [apply _|solve_steps|]. intros subscribed.
  apply steps_bind; [apply _|solve_steps|]. intros transaction.
  destruct (String.eqb name "AUTH") eqn:Hauth.
  - destruct Hcase as [Hne|Hcase]; [|simpl in Hcase; congruence].
    pose proof (authenticate_no_new_auth d (name :: args) Hne).
    apply String.eqb_eq in Hauth. subst name. simpl. rewrite andb_false_r. solve_steps.
  - unfold config_get, process_acl_command, acl_whoami, acl_getuser, acl_setuser,
      subscribe, unsubscribe, unsubscribe_channel, lock_client_session,
      queue_acknowledgement, publish, publish_to, execute_transaction, commit_transaction,
      append_client_replication_frame, append_replication_frame, watch, watch_key.
    solve_steps.
Qed.

Ltac unfold_tasks :=
  unfold process_task, route_pubsub_response, enqueue_pubsub_response, process_blpop,
    process_xread, process_wait, process_direct, serve_pop, persist_blocking_pop,
    append_client_replication_frame, append_replication_frame, deadline_of.

Lemma process_task_no_new_auth task :
  client_id task <> c \/ is_named (task_command task) "AUTH" = false ->
  steps no_new_auth (process_task task).
Proof.
  intros Hcase. pose proof (process_command_no_new_auth _ _ (source task) Hcase).
  unfold_tasks. solve_steps.
Qed.

(** A failed AUTH leaves the state alone. *)
Lemma failed_auth_same command from s r s' :
  is_named command "AUTH" = true -> ~ credentials_match (_default_user s) command ->
  process_command c command from s = Some (r, s') -> s' = s.
Proof.
  intros Hname Hmatch. destruct command as [|name args]; [done|].
  simpl in Hname. apply String.eqb_eq in Hname. subst name.
  unfold process_command. intros (b & s0 & Hg & Hrun)%M_bind_Some. injection Hg as <- <-.
  apply M_bind_Some in Hrun as (tr & s0 & Hg & Hrun). injection Hg as <- <-.
  simpl in Hrun. rewrite andb_false_r in Hrun.
  destruct (_clients s !! c) as [client|] eqn:Hc.
  - destruct (authenticate_correct c ("AUTH" :: args) client s s' r Hc Hrun)
      as [(_ & Hm & _)|(_ & _ & ->)]; done.
  - unfold authenticate in Hrun. case_match; [by injection Hrun|].
    apply M_bind_Some in Hrun as (cl & s0 & Hg & Hrun). injection Hg as <- <-.
    rewrite Hc in Hrun. by injection Hrun.
Qed.

Lemma process_direct_auth task s s' :
  client_id task = c -> is_named (task_command task) "AUTH" = true ->
  ~ credentials_match (_default_user s) (task_command task) ->
  forall active, process_direct task active s = Some (tt, s') -> no_new_auth s s'.
Proof.
  intros Hid Hname Hmatch active. unfold process_direct.
  intros (b1 & s0 & Hg & Hrun)%M_bind_Some. injection Hg as _ <-.
  apply M_bind_Some in Hrun as (b2 & s0 & Hg & Hrun). injection Hg as _ <-.
  apply M_bind_Some in Hrun as (r & s1 & Hcmd & Hrun).
  rewrite Hid in Hcmd. apply failed_auth_same in Hcmd; [|done..]. subst s1.
  refine ((_ : steps no_new_auth _) _ _ _ Hrun). clear Hrun.
  unfold route_pubsub_response, enqueue_pubsub_response, append_client_replication_frame,
    append_replication_frame. solve_steps.
Qed.

Lemma process_task_auth task s s' :
  client_id task = c -> is_named (task_command task) "AUTH" = true ->
  ~ credentials_match (_default_user s) (task_command task) ->
  process_task task s = Some (tt, s') -> no_new_auth s s'.
Proof.
  intros Hid Hname Hmatch. unfold process_task.
  intros (b1 & s0 & Hg & Hrun)%M_bind_Some. injection Hg as _ <-.
  apply M_bind_Some in Hrun as (b2 & s0 & Hg & Hrun). injection Hg as _ <-.
  destruct (task_command task) as [|name args] eqn:Hcmd; [done|].
  simpl in Hname. apply String.eqb_eq in Hname. subst name.
  simpl in Hrun. rewrite andb_false_r in Hrun. simpl in Hrun. destruct (_ && _).
  - revert Hrun. apply (steps_bind no_new_auth).
    + unfold route_pubsub_response, enqueue_pubsub_response. solve_steps.
    + solve_steps.
  - apply M_bind_Some in Hrun as (b3 & s0 & Hg & Hrun). injection Hg as _ <-.
    apply M_bind_Some in Hrun as (b4 & s0 & Hg & Hrun). injection Hg as _ <-.
    rewrite andb_false_r in Hrun. simpl in Hrun.
    eapply (process_direct_auth task); [done| | |done]; by rewrite Hcmd.
Qed.

Lemma process_processor_task_no_new_auth task :
  c <> aof_client_id ->
  match task with
  | CommandTask t => client_id t <> c \/ is_named (task_command t) "AUTH" = false
  | RegisterClientTask d _ _ => d <> c
  | _ => True
  end ->
  steps no_new_auth (process_processor_task task).
Proof.
  intros Haof Hcase. destruct task; cbn [process_processor_task];
    unfold process_replication_state_installation, process_replication_offset_request,
      process_replica_acknowledgement, process_rdb_load, load_entry,
      process_aof_initialization, process_client_registration,
      process_client_unregistration, forget_transaction, cancel_pending_commands, cancel,
      drop_subscriber.
  - by apply process_task_no_new_auth.
  - solve_steps.
  - solve_steps.
  - solve_steps.
  - solve_steps.
  - solve_steps.
  - assert (forall cmd, steps no_new_auth (process_command aof_client_id cmd AOF))
      by (intros; apply process_command_no_new_auth; by left).
    solve_steps.
  - apply steps_bind; [apply _| |solve_steps].
    apply steps_modify. intros. by apply no_new_auth_other.
  - solve_steps.
Qed.

Lemma retry_expire_no_new_auth : steps no_new_auth (retry_all ;; expire_all).
Proof.
  unfold retry_all, expire_all, retry_pending_list_pops, retry_list_pop,
    retry_pending_stream_reads, retry_stream_read, retry_pending_waits, retry_wait,
    expire_pending_list_pops, expire_pending_stream_reads, expire_pending_waits, serve_pop,
    persist_blocking_pop, append_client_replication_frame, append_replication_frame.
  solve_steps.
Qed.

Lemma expire_no_new_auth : steps no_new_auth expire_all.
Proof.
  unfold expire_all, expire_pending_list_pops, expire_pending_stream_reads,
    expire_pending_waits. solve_steps.
Qed.
End NoNewAuthentication.

(** C14: a client becomes authenticated only with the password.  In any step of
    the processor in which a client (other than the pseudo client of the AOF
    replay) turns from not authenticated to authenticated, the worker has taken
    either an AUTH command of that very client whose credentials match the
    default user, or the registration of that client while no password is
    required. *)
Theorem authentication_needs_password allowed (s s' : ProcessorState) (c : Z) :
  c <> aof_client_id ->
  processor_step allowed s s' ->
  is_authenticated s c = false -> is_authenticated s' c = true ->
  exists rest,
    (exists task, _tasks s = CommandTask task :: rest /\ client_id task = c /\
       is_named (task_command task) "AUTH" = true /\
       credentials_match (_default_user s) (task_command task)) \/
    (exists a p, _tasks s = RegisterClientTask c a p :: rest /\
       no_password (_default_user s) = true).
Proof.
  intros Haof Hstep Hno Hyes.
  destruct Hstep as [r s _|s s' Hwake Hrun|a s|a x f x' s|a x r x' n s|a s|a x f x' s|a x s|a s];
    try (unfold is_authenticated in *; simpl in Hyes; congruence).
  unfold run_iteration in Hrun.
  apply M_bind_Some in Hrun as (ts & s0 & Hg & Hrun). injection Hg as <- <-.
  destruct (_tasks s) as [|task rest] eqn:Htasks.
  { pose proof (expire_no_new_auth c _ _ _ Hrun Hyes). congruence. }
  exists rest.
  apply M_bind_Some in Hrun as (u & s0 & Hg & Hrun). injection Hg as <- <-.
  apply M_bind_Some in Hrun as ([] & s1 & Htask & Hrun).
  pose proof (retry_expire_no_new_auth c _ _ _ Hrun Hyes) as Hyes1.
  assert (no_new_auth c (set_tasks rest s) s1 -> False) as Habs.
  { intros Hn. specialize (Hn Hyes1). unfold is_authenticated in *. simpl in Hn. congruence. }
  destruct task as [t| | | | | | |d a p|];
    try (exfalso; apply Habs; eapply process_processor_task_no_new_auth;
      [exact Haof| |exact Htask]; exact I).
  - left. exists t.
    destruct (decide (client_id t = c)) as [Hid|Hid].
    2: { exfalso. apply Habs. eapply process_processor_task_no_new_auth; [done| |exact Htask]. by left. }
    destruct (is_named (task_command t) "AUTH") eqn:Hname.
    2: { exfalso. apply Habs. eapply process_processor_task_no_new_auth; [done| |exact Htask].
         by right. }
    split_and!; try done.
    destruct (credentials_decided (_default_user s) (task_command t)) as [Hm|Hm]; [done|].
    exfalso. apply Habs. by apply (process_task_auth c t).
  - right. exists a, p. destruct (decide (d = c)) as [->|Hd].
    2: { exfalso. apply Habs.
         eapply process_processor_task_no_new_auth; [exact Haof| |exact Htask]. done. }
    split; [done|].
    apply M_bind_Some in Htask as (u & s2 & Hg & Htask). injection Hg as <- <-.
    injection Htask as <-. unfold is_authenticated in Hyes1. simpl in Hyes1.
    by rewrite lookup_insert_eq in Hyes1.
Qed.
(** ** Replicas *)

Section ReadOnly.
Variable c : Z.

(** The queue of client [c] holds no write. *)
Definition queue_readonly (s : ProcessorState) : Prop :=
  forall t, _transactions s !! c = Some t ->
    Forall (fun command => is_write_command command = false) (queued_commands t).

(** A step that changes no data, if the queue held no write, and puts none in
    it. *)
Definition readonly_step (s s' : ProcessorState) : Prop :=
  queue_readonly s -> quiet (_database s) (_database s') /\ queue_readonly s'.

#[export] Instance readonly_step_preorder : PreOrder readonly_step.
Proof.
  split; unfold readonly_step.
  - intros s Hq. split; [reflexivity|done].
  - intros s1 s2 s3 H12 H23 Hq. destruct (H12 Hq) as [Hq1 Hr1].
    destruct (H23 Hr1) as [Hq2 Hr2]. split; [by etrans|done].
Qed.

Lemma readonly_frame s s' :
  quiet (_database s) (_database s') ->
  (_transactions s' !! c = _transactions s !! c \/ _transactions s' !! c = None) ->
  readonly_step s s'.
Proof.
  intros Hq [Heq|Hnone] Hro; (split; [done|]); intros t Ht.
  - apply Hro. congruence.
  - congruence.
Qed.

Lemma on_database_readonly {A} (op : Database -> A * Database) :
  (forall db, quiet db (op db).2) -> steps readonly_step (on_database op).
Proof.
  intros Hop s x s'. unfold on_database. specialize (Hop (_database s)).
  destruct (op (_database s)). intros [= <- <-]. apply readonly_frame; auto.
Qed.

Lemma dispatch_readonly command :
  is_write_command command = false ->
  steps readonly_step (try_database (fun db => dispatch db command)).
Proof.
  intros Hw s x s'. unfold try_database. intros ([y db] & Hd & [= <- <-])%bind_Some.
  apply readonly_frame; [|by left]. eapply dispatch_unreported_quiet; [done|]. by rewrite Hw.
Qed.

Lemma quiet_reads db n :
  (clock_reads db <= n)%nat ->
  quiet db (mkDatabase (entries db) (key_revisions db) (next_revision db) n).
Proof. intros Hn. split; simpl; auto. Qed.

Lemma leaves_readonly :
  (forall a f, steps readonly_step (enqueue_frame a f)) /\
  (forall d, steps readonly_step (append_aof d)) /\
  (forall t, steps readonly_step (count_acknowledged_replicas t)) /\
  (forall d ch, steps readonly_step (subscribe_channel d ch)) /\
  (forall d ch, steps readonly_step (remove_subscription d ch)).
Proof.
  split_and!; intros; intros s x s' Hrun; apply readonly_frame; revert Hrun.
  1,2: unfold enqueue_frame; intros (x0 & _ & Hb)%bind_Some;
    apply bind_Some in Hb as ([[r x'] n] & _ & [= <- <-]); (reflexivity || by left).
  1,2: unfold append_aof; intros (file & _ & Hb)%bind_Some;
    apply bind_Some in Hb as ([[[r f'] n] rd] & Happ%append_reads & [= <- <-]);
    (by apply quiet_reads || by left).
  1-4: intros [= <- <-]; (reflexivity || by left).
  all: unfold remove_subscription; intros Hr; repeat (case_match; simplify_eq/=);
    (reflexivity || by left).
Qed.

#[local] Hint Extern 1 (steps _ (enqueue_frame _ _)) => apply leaves_readonly : steps.
#[local] Hint Extern 1 (steps _ (append_aof _)) => apply leaves_readonly : steps.
#[local] Hint Extern 1 (steps _ (count_acknowledged_replicas _)) => apply leaves_readonly : steps.
#[local] Hint Extern 1 (steps _ (subscribe_channel _ _)) => apply leaves_readonly : steps.
#[local] Hint Extern 1 (steps _ (remove_subscription _ _)) => apply leaves_readonly : steps.
#[local] Hint Extern 1 (steps _ (complete _ _)) =>
  apply steps_modify; intros; apply readonly_frame; [reflexivity|by left] : steps.
#[local] Hint Extern 1 (steps _ (respond _ _)) =>
  apply steps_modify; intros; apply readonly_frame; [reflexivity|by left] : steps.
#[local] Hint Extern 1 (steps _ (read_in_place _)) =>
  apply on_database_readonly; intros; apply read_streams_quiet : steps.
#[local] Hint Extern 1 (steps _ (on_database (key_revision _))) =>
  apply on_database_readonly; intros; apply key_revision_quiet : steps.
#[local] Hint Extern 1 (steps _ (on_database steady_now)) =>
  apply on_database_readonly; intros; apply quiet_tick : steps.
#[local] Hint Extern 1 (steps _ (modify _)) =>
  apply steps_modify; intros; apply readonly_frame;
  [repeat case_match; reflexivity
  |first [by left; repeat case_match|right; apply lookup_delete_eq]] : steps.

Lemma commit_transaction_readonly from t b :
  Forall (fun command => is_write_command command = false) (queued_commands t) ->
  steps readonly_step (commit_transaction c from t b).
Proof.
  intros Ht. unfold commit_transaction, append_client_replication_frame,
    append_replication_frame. solve_steps.
  apply run_transaction_steps; [apply _|]. eapply Forall_impl; [done|].
  apply dispatch_readonly.
Qed.

Lemma execute_transaction_readonly from : steps readonly_step (execute_transaction c from).
Proof.
  unfold execute_transaction. apply steps_bind_gets. intros s y s' Hrun Hro.
  destruct (_transactions s !! c) as [t|] eqn:Ht.
  - assert (readonly_step s s') as Hstep; [|by apply Hstep].
    pose proof (commit_transaction_readonly from t).
    refine ((_ : steps readonly_step _) _ _ _ Hrun). solve_steps.
  - injection Hrun as <- <-. split; [reflexivity|done].
Qed.

Lemma process_command_readonly command from :
  is_write_command command = false ->
  steps readonly_step (process_command c command from).
Proof.
  intros Hw. pose proof (execute_transaction_readonly from).
  pose proof (dispatch_readonly command Hw).
  unfold process_command. destruct command as [|name args]; [solve_steps|].
  apply steps_bind; [apply _|solve_steps|]. intros subscribed.
  apply steps_bind_gets. intros s y s' Hrun Hro.
  assert (forall t, _transactions s !! c = Some t ->
    Forall (fun cmd => is_write_command cmd = false) (queued_commands t ++ [name :: args]))
    as Hpush.
  { intros t Ht. apply Forall_app. split; [by apply Hro|]. by apply Forall_singleton. }
  assert (readonly_step s s') as Hstep; [|by apply Hstep].
  refine ((_ : steps readonly_step _) _ _ _ Hrun). clear Hrun.
  unfold config_get, process_acl_command, acl_whoami, acl_getuser, acl_setuser,
    authenticate, subscribe, unsubscribe, unsubscribe_channel, lock_client_session,
    queue_acknowledgement, publish, publish_to, watch, watch_key.
  destruct (_transactions s !! c) as [t|]; solve_steps;
    apply steps_modify; intros s0 Hs0; (split; [reflexivity|]); intros t0; simpl;
    rewrite lookup_insert_eq; intros [= <-]; [by apply Hpush|done].
Qed.

Lemma blpop_is_write command : is_named command "BLPOP" = true -> is_write_command command = true.
Proof. destruct command as [|name args]; simpl; [done|]. by intros ->%String.eqb_eq. Qed.

(** The guards of [process_task], on a replica. *)
Lemma process_task_readonly task s s' :
  client_id task = c -> source task = CLIENT -> role (_replication_state s) = REPLICA ->
  process_task task s = Some (tt, s') -> readonly_step s s'.
Proof.
  intros Hid Hsrc Hrole. unfold process_task.
  intros (b1 & s0 & Hg & Hrun)%M_bind_Some. injection Hg as _ <-.
  apply M_bind_Some in Hrun as (b2 & s0 & Hg & Hrun). injection Hg as _ <-.
  assert (forall r, steps readonly_step (route_pubsub_response (client_id task) r)) as Hroute.
  { intros r. unfold route_pubsub_response, enqueue_pubsub_response. solve_steps. }
  destruct (bool_decide (source task = CLIENT) && _ && _).
  { refine ((_ : steps readonly_step _) _ _ _ Hrun). solve_steps. }
  destruct (bool_decide (source task = CLIENT) && _ && _).
  { refine ((_ : steps readonly_step _) _ _ _ Hrun). solve_steps. }
  apply M_bind_Some in Hrun as (r & s0 & Hg & Hrun). injection Hg as <- <-.
  apply M_bind_Some in Hrun as (tr & s0 & Hg & Hrun). injection Hg as <- <-.
  rewrite Hrole, Hsrc, !bool_decide_eq_true_2 in Hrun by done. cbn [andb] in Hrun.
  destruct (is_write_command (task_command task)) eqn:Hw.
  - rewrite Hid in Hrun. destruct (_transactions s !! c) as [t|] eqn:Ht.
    + injection Hrun as <-. intros Hro. split; [reflexivity|]. intros t0. simpl.
      rewrite lookup_insert_eq. intros [= <-]. exact (Hro t Ht).
    + injection Hrun as <-. by apply readonly_frame; [|left].
  - destruct (is_named (task_command task) "BLPOP") eqn:Hb;
      [apply blpop_is_write in Hb; congruence|].
    pose proof (process_command_readonly _ (source task) Hw) as Hcmd. rewrite <- Hid in Hcmd.
    refine ((_ : steps readonly_step _) _ _ _ Hrun). clear Hrun.
    unfold process_xread, process_wait, process_direct, append_client_replication_frame,
      append_replication_frame, deadline_of.
    solve_steps.
Qed.
End ReadOnly.

(** C25: a replica is read-only for its clients.  On a replica, a task submitted
    by a client whose transaction queue holds no write changes no data (at most
    expired entries disappear) and leaves its queue without writes; a write
    command is answered with READONLY and poisons the client's open
    transaction.  Queues start empty, so this holds of every sequence of tasks
    of the client. *)
Theorem replica_is_readonly (task : Task) (s s' : ProcessorState) :
  source task = CLIENT -> role (_replication_state s) = REPLICA ->
  queue_readonly (client_id task) s ->
  process_task task s = Some (tt, s') ->
  quiet (_database s) (_database s') /\ queue_readonly (client_id task) s' /\
  (is_write_command (task_command task) = true ->
   is_authenticated s (client_id task) = true -> is_subscribed s (client_id task) = false ->
   completed s' = completed s ++ [(response task, Responded readonly_error)] /\
   forall t, _transactions s' !! client_id task = Some t -> has_error t = true).
Proof.
  intros Hsrc Hrole Hro Hrun.
  destruct (process_task_readonly (client_id task) task s s' eq_refl Hsrc Hrole Hrun Hro)
    as [Hq Hro']. split_and!; [done..|]. intros Hw Hauth Hsub.
  unfold process_task in Hrun.
  apply M_bind_Some in Hrun as (b1 & s0 & Hg & Hrun). injection Hg as <- <-.
  apply M_bind_Some in Hrun as (b2 & s0 & Hg & Hrun). injection Hg as <- <-.
  rewrite Hauth, Hsub, !andb_false_r in Hrun. cbn [andb negb] in Hrun.
  apply M_bind_Some in Hrun as (r & s0 & Hg & Hrun). injection Hg as <- <-.
  apply M_bind_Some in Hrun as (tr & s0 & Hg & Hrun). injection Hg as <- <-.
  rewrite Hrole, Hsrc, Hw, !bool_decide_eq_true_2 in Hrun by done. cbn [andb] in Hrun.
  destruct (_transactions s !! client_id task) as [t|] eqn:Ht; injection Hrun as <-.
  - split; [done|]. intros t0. simpl. rewrite lookup_insert_eq. by intros [= <-].
  - split; [done|]. intros t0. simpl. congruence.
Qed.
End Access.

(** ** Witnesses *)

Section Witnesses.
#[local] Existing Instance millisecond_clock.
#[local] Existing Instance insertion_order.
#[local] Existing Instance perfect_kernel.
#[local] Existing Instance sample_crypto.

Definition protected_master : ProcessorState := after_script two_clients
  (initial_state None default_rdb_config default_aof_config (Some "hsecret") "id").

Definition sample_replica : ProcessorState := after_script two_clients
  (initial_state (Some (mkReplicaConfig "m" 6379)) default_rdb_config default_aof_config
     None "id").


Lemma unauthenticated_is_refused_witness :
  exists s', process_task (mkTask 1 ["SET"; "k"; "v"] CLIENT 0 7) protected_master = Some (tt, s')
    /\ only_replies protected_master s'.
Proof.
  destruct (defined_run (process_task (mkTask 1 ["SET"; "k"; "v"] CLIENT 0 7)) protected_master
    (fun _ => true)) as ([] & s' & Hs' & _); [vm_compute; reflexivity|].
  exists s'. split; [exact Hs'|].
  apply (unauthenticated_is_refused (mkTask 1 ["SET"; "k"; "v"] CLIENT 0 7) protected_master s');
    [reflexivity|reflexivity|vm_compute; reflexivity|exact Hs'].
Defined.

Lemma authenticate_correct_witness :
  exists r s', authenticate 1 ["AUTH"; "secret"] protected_master = Some (r, s') /\
    (r = SimpleString "OK" \/ response_is_error r = true).
Proof.
  destruct (authenticate 1 ["AUTH"; "secret"] protected_master) as [[r s']|] eqn:Hrun.
  - exists r, s'. split; [reflexivity|].
    destruct (authenticate_correct 1 ["AUTH"; "secret"] (mkClientState false 0)
      protected_master s' r) as [(Hr & _)|(Hr & _)];
      [vm_compute; reflexivity|exact Hrun|by left|by right].
  - exfalso. assert (bool_decide (is_Some (authenticate 1 ["AUTH"; "secret"] protected_master))
      = true) as Hb by (vm_compute; reflexivity). by rewrite Hrun in Hb.
Defined.

Definition before_auth : ProcessorState :=
  enqueue (Submit 1 ["AUTH"; "secret"]) protected_master.

Lemma authentication_needs_password_witness :
  exists rest task, _tasks before_auth = CommandTask task :: rest /\
    credentials_match (_default_user before_auth) (task_command task).
Proof.
  destruct (defined_run run_iteration before_auth (fun x => is_authenticated x 1)) as ([] & s' & Hs' & Hyes);
    [vm_compute; reflexivity|].
  destruct (authentication_needs_password any_request before_auth s' 1)
    as [rest [(task & Ht & _ & _ & Hm)|(a & p & Ht & _)]].
  - vm_compute. discriminate.
  - apply step_run; [left; vm_compute; discriminate|exact Hs'].
  - vm_compute. reflexivity.
  - exact Hyes.
  - exists rest, task. split; [exact Ht|exact Hm].
  - exfalso. vm_compute in Ht. discriminate.
Defined.

Lemma replica_is_readonly_witness :
  exists s', process_task (mkTask 1 ["SET"; "k"; "v"] CLIENT 0 7) sample_replica = Some (tt, s') /\
    quiet (_database sample_replica) (_database s').
Proof.
  destruct (defined_run (process_task (mkTask 1 ["SET"; "k"; "v"] CLIENT 0 7)) sample_replica
    (fun _ => true)) as ([] & s' & Hs' & _); [vm_compute; reflexivity|].
  exists s'. split; [exact Hs'|].
  apply (replica_is_readonly (mkTask 1 ["SET"; "k"; "v"] CLIENT 0 7) sample_replica s').
  - reflexivity.
  - vm_compute. reflexivity.
  - intros t Ht. vm_compute in Ht. discriminate.
  - exact Hs'.
Defined.
End Witnesses.
