(* ===== verification/Blocking.v ===== *)
(** * Blocked clients (src/command_processor.cpp, lines 810-900 and 1699-1831)

    BLPOP, XREAD BLOCK and WAIT: who is served, in which order, and that nobody
    stays blocked on data that is there. *)

From stdpp Require Import base option list gmap strings relations.
From Stdlib Require Import ZArith Lia.
From S2P Require Import Prelude CharConv Environment Resp StreamTypes TimeUtils.
From S2P Require Import Database DatabaseFacts Commands Dispatch DispatchFacts Config.
From S2P Require Import Sessions Aof StateMonad ProcessorState Processor ProcessorRun.
From S2P Require Import ProcessorWalk ProcessorFacts.

(** ** Loops that keep some elements *)

(** The elements of a list whose bit is set. *)
Fixpoint mask {A} (bits : list bool) (l : list A) : list A :=
  match bits, l with
  | b :: bits', x :: l' => if b then x :: mask bits' l' else mask bits' l'
  | _, _ => []
  end.

(** A kept element [x] satisfies [Q x] when it is kept, and [Q x] stays. *)
Lemma keepM_establishes {S A} (R : S -> S -> Prop) `{!PreOrder R} (I : S -> Prop)
    (Q : A -> S -> Prop) (f : A -> M S bool) :
  (forall x, steps R (f x)) -> (forall x, steps (keeps I) (f x)) ->
  (forall x s s', R s s' -> Q x s -> Q x s') ->
  (forall x s s', I s -> f x s = Some (true, s') -> Q x s') ->
  forall l s kept s', I s -> keepM f l s = Some (kept, s') -> Forall (fun x => Q x s') kept.
Proof.
  intros HR HI Hstay Hkept l. induction l as [|x l IH]; intros s kept s' Hs Hrun.
  { injection Hrun as <- <-. constructor. }
  cbn [keepM] in Hrun. apply M_bind_Some in Hrun as (b & s1 & Hx & Hrun).
  apply M_bind_Some in Hrun as (rest & s2 & Hl & Hrun). injection Hrun as <- <-.
  assert (I s1) as Hs1 by exact (HI x _ _ _ Hx Hs).
  specialize (IH s1 rest s2 Hs1 Hl). destruct b; [|done]. constructor; [|done].
  apply (Hstay x s1); [|exact (Hkept x s s1 Hs Hx)]. by eapply (steps_keepM R f l HR).
Qed.

(** What is kept is given by a mask; when [x] is kept, and [Q x] then makes a
    later [y] related to it kept too, the mask is closed upwards. *)
Lemma keepM_mask {S A} (R : S -> S -> Prop) `{!PreOrder R} (I : S -> Prop)
    (Q : A -> S -> Prop) (related : A -> A -> Prop) (f : A -> M S bool) :
  (forall x, steps R (f x)) -> (forall x, steps (keeps I) (f x)) ->
  (forall x s s', R s s' -> Q x s -> Q x s') ->
  (forall x s s', I s -> f x s = Some (true, s') -> Q x s') ->
  (forall x y s b s', related x y -> Q x s -> f y s = Some (b, s') -> b = true) ->
  forall l s kept s', I s -> keepM f l s = Some (kept, s') ->
  exists bits, length bits = length l /\ kept = mask bits l /\
    (forall i j x y, (i < j)%nat -> l !! i = Some x -> l !! j = Some y -> related x y ->
       bits !! i = Some true -> bits !! j = Some true) /\
    (forall z s0, Q z s0 -> R s0 s ->
       forall j y, l !! j = Some y -> related z y -> bits !! j = Some true).
Proof.
  intros HR HI Hstay Hkept Hrel l. induction l as [|x l IH]; intros s kept s' Hs Hrun.
  { injection Hrun as <- <-. exists []. split_and!; done. }
  cbn [keepM] in Hrun. apply M_bind_Some in Hrun as (b & s1 & Hx & Hrun).
  apply M_bind_Some in Hrun as (rest & s2 & Hl & Hrun). injection Hrun as <- <-.
  assert (I s1) as Hs1 by exact (HI x _ _ _ Hx Hs).
  assert (R s s1) as HR1 by (by eapply HR).
  destruct (IH s1 rest s2 Hs1 Hl) as (bits & Hlen & -> & Hup & Hfrom).
  exists (b :: bits). split_and!; [simpl; congruence|by destruct b| |].
  - intros [|i] [|j] x0 y Hij Hxi Hyj Hr Hbi; simpl in *; [lia| |lia|].
    + injection Hxi as ->. injection Hbi as ->.
      apply (Hfrom x0 s1) with (j := j) (y := y); [exact (Hkept x0 s s1 Hs Hx)|reflexivity|done..].
    + apply (Hup i j x0 y); [lia|done..].
  - intros z s0 Hz HRz [|j] y Hj Hr; simpl in *.
    + injection Hj as ->. f_equal. eapply Hrel; [done| |done]. by eapply Hstay.
    + apply (Hfrom z s0 Hz) with (y := y); [by etrans|done..].
Qed.

Section Blocking.
Context `{Clock, HashOrder, Kernel, Crypto}.

(** ** Absent keys stay absent *)

Definition keeps_absent (s s' : ProcessorState) : Prop :=
  forall k, entries (_database s) !! k = None -> entries (_database s') !! k = None.

#[export] Instance keeps_absent_preorder : PreOrder keeps_absent.
Proof. split; unfold keeps_absent; [intros s|intros s1 s2 s3]; auto. Qed.

Lemma keeps_absent_same s s' :
  entries (_database s') = entries (_database s) -> keeps_absent s s'.
Proof. unfold keeps_absent. by intros ->. Qed.

Lemma quiet_absent db db' k : quiet db db' -> entries db !! k = None -> entries db' !! k = None.
Proof. intros [_ Hq] Hk. destruct (Hq k) as [->|[-> _]]; done. Qed.

Lemma on_database_absent {A} (op : Database -> A * Database) :
  (forall db k, entries db !! k = None -> entries (op db).2 !! k = None) ->
  steps keeps_absent (on_database op).
Proof.
  intros Hop s x s'. unfold on_database, keeps_absent. specialize (Hop (_database s)).
  destruct (op (_database s)). by intros [= <- <-].
Qed.

Lemma pop_list_element_absent key db k :
  entries db !! k = None -> entries (pop_list_element key db).2 !! k = None.
Proof.
  intros Hk. unfold pop_list_element. pose proof (find_active_quiet key db) as Hq.
  destruct (find_active_spec key db) as (Hf & Hkey & _).
  destruct (find_active_entry key db) as [[e|] db1]; cbn [fst snd] in *;
    [|by eapply quiet_absent].
  pose proof (quiet_absent _ _ k Hq Hk) as Hk1.
  destruct (value e) as [|[|x l]|]; cbn [snd]; try done.
  unfold store_popped. destruct (decide (k = key)) as [->|Hne]; [congruence|].
  destruct l; simpl; [by rewrite lookup_delete_ne|by rewrite lookup_insert_ne].
Qed.

Lemma leaves_absent :
  (forall a f, steps keeps_absent (enqueue_frame a f)) /\
  (forall d, steps keeps_absent (append_aof d)) /\
  (forall t, steps keeps_absent (count_acknowledged_replicas t)).
Proof.
  split_and!; intros; intros s x s' Hrun; apply keeps_absent_same; revert Hrun.
  - unfold enqueue_frame. intros (x0 & _ & Hb)%bind_Some.
    by apply bind_Some in Hb as ([[r x'] n] & _ & [= <- <-]).
  - unfold append_aof. intros (file & _ & Hb)%bind_Some.
    by apply bind_Some in Hb as ([[[r f'] n] rd] & _ & [= <- <-]).
  - by intros [= <- <-].
Qed.

#[local] Hint Extern 1 (steps _ (enqueue_frame _ _)) => apply leaves_absent : steps.
#[local] Hint Extern 1 (steps _ (append_aof _)) => apply leaves_absent : steps.
#[local] Hint Extern 1 (steps _ (count_acknowledged_replicas _)) => apply leaves_absent : steps.
#[local] Hint Extern 1 (steps _ (respond _ _)) =>
  apply steps_modify; intros; by apply keeps_absent_same : steps.
#[local] Hint Extern 1 (steps _ (modify _)) =>
  apply steps_modify; intros; by apply keeps_absent_same : steps.
#[local] Hint Extern 1 (steps _ (on_database (pop_list_element _))) =>
  apply on_database_absent; intros; by apply pop_list_element_absent : steps.

Lemma retry_list_pop_absent p : steps keeps_absent (retry_list_pop p).
Proof.
  unfold retry_list_pop, serve_pop, persist_blocking_pop, append_client_replication_frame,
    append_replication_frame. solve_steps.
Qed.

(** ** Blocked pops *)

Definition waits_on_nothing (p : PendingListPop) (s : ProcessorState) : Prop :=
  entries (_database s) !! pending_key p = None.

Definition db_is_wf (s : ProcessorState) : Prop := db_wf (_database s).

Lemma retry_list_pop_wf p : steps (keeps db_is_wf) (retry_list_pop p).
Proof.
  intros s x s' Hrun. unfold keeps, db_is_wf.
  destruct (retry_list_pop_moves p s x s' Hrun) as [_ Hwf]. exact Hwf.
Qed.

Lemma retry_list_pop_kept p s s' :
  db_is_wf s -> retry_list_pop p s = Some (true, s') -> waits_on_nothing p s'.
Proof.
  intros Hwf. unfold retry_list_pop.
  intros (res & s1 & Hop & Hrun)%M_bind_Some. unfold on_database in Hop.
  unfold pop_list_element in Hop.
  pose proof (find_active_wf (pending_key p) _ Hwf) as Hwf1.
  destruct (find_active_spec (pending_key p) (_database s)) as (_ & Hkey & _).
  destruct (find_active_entry (pending_key p) (_database s)) as [[e|] db1];
    cbn [fst snd] in *.
  - destruct (Hwf1 _ _ Hkey) as [Hv _].
    destruct (value e) as [|[|x l]|]; [|done| |]; injection Hop as <- <-.
    + by apply M_bind_Some in Hrun as (? & ? & _ & [=]).
    + by apply M_bind_Some in Hrun as (? & ? & _ & [=]).
    + by apply M_bind_Some in Hrun as (? & ? & _ & [=]).
  - injection Hop as <- <-. by injection Hrun as <-.
Qed.

Lemma retry_list_pop_stays p s b s' :
  waits_on_nothing p s -> retry_list_pop p s = Some (b, s') -> b = true.
Proof.
  unfold waits_on_nothing. intros Hnone. unfold retry_list_pop.
  intros (res & s1 & Hop & Hrun)%M_bind_Some.
  unfold on_database, pop_list_element, find_active_entry in Hop. rewrite Hnone in Hop.
  injection Hop as <- <-. by injection Hrun as <-.
Qed.

Lemma retry_pops_establishes s s' :
  db_is_wf s -> retry_pending_list_pops s = Some (tt, s') ->
  Forall (fun p => waits_on_nothing p s') (_pending_list_pops s').
Proof.
  intros Hwf. unfold retry_pending_list_pops.
  intros (l & s0 & Hg & Hrun)%M_bind_Some. injection Hg as <- <-.
  apply M_bind_Some in Hrun as (kept & s1 & Hkeep & Hrun). injection Hrun as <-.
  exact (keepM_establishes keeps_absent db_is_wf waits_on_nothing retry_list_pop
    retry_list_pop_absent retry_list_pop_wf (fun p a b Hab => Hab (pending_key p))
    retry_list_pop_kept _ _ _ _ Hwf Hkeep).
Qed.

(** C15: BLPOP is fair and complete.  When the worker goes over the blocked pops,
    in the order in which they blocked, the clients of one key that are served
    are those that blocked first: a client that stays blocked blocks every
    later client of the same key.  And every client that stays blocked waits
    on a key that holds nothing at all. *)
Theorem blocked_pops_served_in_order (s s' : ProcessorState) :
  db_wf (_database s) ->
  retry_pending_list_pops s = Some (tt, s') ->
  exists bits, length bits = length (_pending_list_pops s) /\
    _pending_list_pops s' = mask bits (_pending_list_pops s) /\
    (forall i j p q, (i < j)%nat ->
       _pending_list_pops s !! i = Some p -> _pending_list_pops s !! j = Some q ->
       pending_key p = pending_key q -> bits !! i = Some true -> bits !! j = Some true) /\
    Forall (fun p => entries (_database s') !! pending_key p = None) (_pending_list_pops s').
Proof.
  intros Hwf Hretry. pose proof (retry_pops_establishes s s' Hwf Hretry) as Hall.
  revert Hretry. unfold retry_pending_list_pops.
  intros (l & s0 & Hg & Hrun)%M_bind_Some. injection Hg as <- <-.
  apply M_bind_Some in Hrun as (kept & s1 & Hkeep & Hrun). injection Hrun as <-.
  assert (forall p a b, keeps_absent a b -> waits_on_nothing p a -> waits_on_nothing p b)
    as Hstay by (unfold keeps_absent, waits_on_nothing; auto).
  destruct (keepM_mask keeps_absent db_is_wf waits_on_nothing
    (fun p q => pending_key p = pending_key q) retry_list_pop
    retry_list_pop_absent retry_list_pop_wf Hstay retry_list_pop_kept) with (l := _pending_list_pops s)
    (s := s) (kept := kept) (s' := s1) as (bits & Hlen & Hmask & Hup & _).
  - intros p q a b a' Hkey Hp Hq. eapply retry_list_pop_stays; [|done].
    unfold waits_on_nothing in *. by rewrite <- Hkey.
  - done.
  - done.
  - exists bits. split_and!; [done|done|done|]. exact Hall.
Qed.

(** ** Nobody stays blocked on a list that is there *)

Definition pops_wait (s : ProcessorState) : Prop :=
  Forall (fun p => waits_on_nothing p s) (_pending_list_pops s).

Lemma pops_wait_frame s s' :
  keeps_absent s s' -> _pending_list_pops s' ⊆ _pending_list_pops s -> keeps pops_wait s s'.
Proof.
  unfold keeps, pops_wait, waits_on_nothing. intros Habs Hsub Hall.
  rewrite Forall_forall in *. intros p Hp. apply Habs, Hall, Hsub, Hp.
Qed.

Lemma modify_pops_wait f :
  (forall s, _database (f s) = _database s /\ _pending_list_pops (f s) = _pending_list_pops s) ->
  steps (keeps pops_wait) (modify f).
Proof.
  intros Hf. apply steps_modify. intros s. destruct (Hf s) as [Hd Hp].
  apply pops_wait_frame; [apply keeps_absent_same; by rewrite Hd|by rewrite Hp].
Qed.

Lemma on_database_pops_wait {A} (op : Database -> A * Database) :
  (forall db, quiet db (op db).2) -> steps (keeps pops_wait) (on_database op).
Proof.
  intros Hop s x s' Hrun. apply pops_wait_frame.
  - eapply on_database_absent; [|done]. intros db k. apply quiet_absent, Hop.
  - unfold on_database in Hrun. destruct (op (_database s)). by injection Hrun as <- <-.
Qed.

Lemma count_acknowledged_pops_wait t : steps (keeps pops_wait) (count_acknowledged_replicas t).
Proof. intros s x s' [= <- <-]. by apply pops_wait_frame; [apply keeps_absent_same|]. Qed.

#[local] Hint Resolve count_acknowledged_pops_wait : steps.
#[local] Hint Extern 1 (steps (keeps pops_wait) (respond _ _)) => by apply modify_pops_wait : steps.
#[local] Hint Extern 1 (steps (keeps pops_wait) (modify _)) => by apply modify_pops_wait : steps.
#[local] Hint Extern 1 (steps (keeps pops_wait) (read_in_place _)) =>
  apply on_database_pops_wait; intros; apply read_streams_quiet : steps.
#[local] Hint Extern 1 (steps (keeps pops_wait) (on_database steady_now)) =>
  apply on_database_pops_wait; intros; apply quiet_tick : steps.

Lemma retry_others_pops_wait :
  steps (keeps pops_wait) (retry_pending_stream_reads ;; retry_pending_waits).
Proof.
  unfold retry_pending_stream_reads, retry_stream_read, retry_pending_waits, retry_wait.
  solve_steps.
Qed.

Lemma expire_pops_pops_wait : steps (keeps pops_wait) expire_pending_list_pops.
Proof.
  unfold expire_pending_list_pops. apply steps_bind; [apply _|solve_steps|]. intros now.
  intros s x s' Hrun. apply M_bind_Some in Hrun as (l & s0 & Hg & Hrun). injection Hg as <- <-.
  apply M_bind_Some in Hrun as (kept & s1 & Hkeep & Hrun). injection Hrun as _ <-.
  assert (keeps_absent s s1) as Habs.
  { refine ((_ : steps keeps_absent _) _ _ _ Hkeep). solve_steps. }
  apply keepM_subset in Hkeep. by apply pops_wait_frame.
Qed.

Lemma expire_all_pops_wait : steps (keeps pops_wait) expire_all.
Proof.
  pose proof expire_pops_pops_wait.
  unfold expire_all, expire_pending_stream_reads, expire_pending_waits. solve_steps.
Qed.

Lemma run_iteration_pops_wait s s' :
  db_is_wf s -> run_iteration s = Some (tt, s') -> keeps pops_wait s s'.
Proof.
  intros Hwf. unfold run_iteration.
  intros (ts & s0 & Hg & Hrun)%M_bind_Some. injection Hg as <- <-.
  destruct (_tasks s) as [|task rest]; [by eapply expire_all_pops_wait|].
  apply M_bind_Some in Hrun as (u & s0 & Hg & Hrun). injection Hg as <- <-.
  apply M_bind_Some in Hrun as ([] & s1 & Htask & Hrun).
  apply M_bind_Some in Hrun as ([] & s2 & Hretry & Hexp).
  unfold retry_all in Hretry. apply M_bind_Some in Hretry as ([] & s3 & Hpops & Hretry).
  intros _. apply (expire_all_pops_wait _ _ _ Hexp), (retry_others_pops_wait _ _ _ Hretry).
  apply (retry_pops_establishes s1); [|done].
  destruct (process_processor_task_moves _ _ _ _ Htask) as [_ Hwf1]. by apply Hwf1.
Qed.

(** C12: no blocked pop is forgotten.  In every state the processor can reach,
    between any two actions of the worker thread, every client blocked in BLPOP
    waits on a key that holds nothing: whatever pushed an element, a direct
    RPUSH, a transaction, a replicated command or the replay of a file, the
    waiting clients were served before the worker went on. *)
Theorem no_client_blocked_on_data allowed replica rdb aof hash i (s : ProcessorState) :
  rtc (processor_step allowed) (initial_state replica rdb aof hash i) s ->
  forall p, p ∈ _pending_list_pops s -> entries (_database s) !! pending_key p = None.
Proof.
  intros Hrtc.
  assert (db_is_wf s /\ pops_wait s) as [_ Hp].
  { revert Hrtc. apply (rtc_ind_r (fun s => db_is_wf s /\ pops_wait s)).
    - split; [apply empty_database_wf|constructor].
    - intros y z _ Hstep [Hwf Hpw].
      destruct (processor_step_moves _ _ _ Hstep) as [_ Hwf']. split; [by apply Hwf'|].
      destruct Hstep; try exact Hpw. by eapply run_iteration_pops_wait. }
  unfold pops_wait in Hp. by rewrite Forall_forall in Hp.
Qed.
End Blocking.

(** ** Witnesses *)

Section Witnesses.
#[local] Existing Instance millisecond_clock.
#[local] Existing Instance insertion_order.
#[local] Existing Instance perfect_kernel.
#[local] Existing Instance sample_crypto.

(** Two clients blocked on one key. *)
Definition two_blocked : ProcessorState := after_script
  (two_clients ++ [Submit 1 ["BLPOP"; "k"; "0"]; Submit 2 ["BLPOP"; "k"; "0"]]) sample_master.

Lemma set_database_database db s : _database (set_database db s) = db.
Proof. reflexivity. Qed.

(** An element arrives; the worker has not yet gone over the blocked pops. *)
Definition element_pushed : ProcessorState :=
  set_database (add_list_elements "k" ["a"] APPEND (_database two_blocked)).2 two_blocked.

Lemma blocked_pops_served_in_order_witness :
  exists s' bits, retry_pending_list_pops element_pushed = Some (tt, s') /\
    _pending_list_pops s' = mask bits (_pending_list_pops element_pushed) /\
    length (_pending_list_pops element_pushed) = 2%nat /\
    length (_pending_list_pops s') = 1%nat.
Proof.
  destruct (defined_run retry_pending_list_pops element_pushed
    (fun s => (length (_pending_list_pops s) =? 1)%nat)) as ([] & s' & Hs' & Hlen);
    [vm_compute; reflexivity|].
  destruct (blocked_pops_served_in_order element_pushed s') as (bits & _ & Hmask & _).
  - assert (db_wf (_database two_blocked)) as Hwf.
    { destruct (processor_steps_move any_request sample_master two_blocked) as [_ Hwf].
      - apply after_script_steps. vm_compute. reflexivity.
      - apply Hwf, empty_database_wf. }
    unfold element_pushed. rewrite set_database_database.
    destruct (add_list_elements_step "k" ["a"] APPEND (_database two_blocked)) as [_ Hstep];
      [done|]. exact (Hstep Hwf).
  - exact Hs'.
  - exists s', bits. split_and!; [exact Hs'|exact Hmask|vm_compute; reflexivity|].
    by apply Nat.eqb_eq.
Defined.

Lemma someone_blocked :
  exists p, p ∈ _pending_list_pops two_blocked /\ pending_key p = "k".
Proof.
  assert (pending_key <$> _pending_list_pops two_blocked !! 0%nat = Some "k") as Hk
    by (vm_compute; reflexivity).
  destruct (_pending_list_pops two_blocked !! 0%nat) as [p|] eqn:Hp; [|done].
  exists p. injection Hk as Hk. split; [by apply list_elem_of_lookup_2 in Hp|done].
Qed.

Lemma no_client_blocked_on_data_witness :
  exists p, p ∈ _pending_list_pops two_blocked /\
    entries (_database two_blocked) !! pending_key p = None.
Proof.
  destruct someone_blocked as (p & Hp & _). exists p. split; [exact Hp|]. revert p Hp.
  apply (no_client_blocked_on_data any_request None default_rdb_config default_aof_config None
    "0123456789abcdef" two_blocked).
  apply after_script_steps. vm_compute. reflexivity.
Defined.
End Witnesses.
