(* ===== verification/Promises.v ===== *)
(** * Every call is answered exactly once (src/command_processor.cpp)

    A call of the processor hands out a promise; its task waits in the queue,
    may block in one of the three lists of pending operations, and ends when
    the promise is fulfilled.  A promise that is fulfilled twice throws in the
    worker thread, and one that is dropped leaves its caller waiting forever.
    This file shows that neither happens. *)

From stdpp Require Import base option list gmap strings relations.
From Stdlib Require Import ZArith Lia.
From S2P Require Import Prelude CharConv Environment Resp StreamTypes TimeUtils.
From S2P Require Import Database Commands Dispatch Config Sessions Aof Rdb StateMonad.
From S2P Require Import ProcessorState Processor ProcessorRun ProcessorWalk.

Section Promises.
Context `{Clock, HashOrder, Kernel, Crypto}.

(** ** The books *)

Definition promise_of (task : ProcessorTask) : nat :=
  match task with
  | CommandTask t => response t
  | RegisterReplicaTask _ p | InstallReplicationStateTask _ _ p | GetReplicationOffsetTask p
  | AcknowledgeReplicaTask _ _ p | LoadRdbTask _ p | InitializeAofTask _ _ p
  | RegisterClientTask _ _ p | UnregisterClientTask _ p => p
  end.

Definition blocked (s : ProcessorState) : list nat :=
  map (fun p => response (pop_task p)) (_pending_list_pops s) ++
  map (fun p => response (read_task p)) (_pending_stream_reads s) ++
  map (fun p => response (wait_task p)) (_pending_waits s).

Definition fulfilled (s : ProcessorState) : list nat := (completed s).*1.

(** The promises a step answers or blocks: it touches neither the queue nor the
    promises not yet handed out. *)
Definition accounts (l : list nat) (s s' : ProcessorState) : Prop :=
  promises s' = promises s /\ _tasks s' = _tasks s /\
  blocked s' ++ fulfilled s' ≡ₚ l ++ blocked s ++ fulfilled s.

(** Nothing about calls changes. *)
Definition books (s : ProcessorState) :=
  (promises s, _tasks s, _pending_list_pops s, _pending_stream_reads s, _pending_waits s,
   completed s).
Abbreviation untouched := (same books).

Definition answers {A} (l : list nat) (m : P A) : Prop :=
  forall s x s', m s = Some (x, s') -> accounts l s s'.

Lemma untouched_accounts s s' : untouched s s' -> accounts [] s s'.
Proof.
  unfold same, books, accounts, blocked, fulfilled. intros [= -> -> -> -> -> ->]. done.
Qed.

Lemma accounts_trans l l' s s' s'' :
  accounts l s s' -> accounts l' s' s'' -> accounts (l' ++ l) s s''.
Proof.
  intros (Hp & Ht & Hl) (Hp' & Ht' & Hl'). split_and!; [congruence..|].
  by rewrite Hl', Hl, app_assoc.
Qed.

(** Rules: a part that touches nothing may come before or after. *)
Lemma answers_after {A B} l (m : P A) (f : A -> P B) :
  steps untouched m -> (forall x, answers l (f x)) -> answers l (m ≫= f).
Proof.
  intros Hm Hf s y s'' (x & s' & Hx & Hy)%M_bind_Some.
  rewrite <- (app_nil_r l).
  eapply accounts_trans; [by eapply untouched_accounts, Hm|by eapply Hf].
Qed.

Lemma answers_before {A B} l (m : P A) (f : A -> P B) :
  answers l m -> (forall x, steps untouched (f x)) -> answers l (m ≫= f).
Proof.
  intros Hm Hf s y s'' (x & s' & Hx & Hy)%M_bind_Some.
  apply (accounts_trans l [] s s'); [by eapply Hm|by eapply untouched_accounts, Hf].
Qed.

Lemma answers_then {A B} l l' (m : P A) (f : A -> P B) :
  answers l m -> (forall x, answers l' (f x)) -> answers (l' ++ l) (m ≫= f).
Proof.
  intros Hm Hf s y s'' (x & s' & Hx & Hy)%M_bind_Some.
  eapply accounts_trans; [by eapply Hm|by eapply Hf].
Qed.

Lemma complete_answers p v : answers [p] (complete p v).
Proof.
  intros s x s' [= <- <-]. unfold accounts, blocked, fulfilled. simpl. split_and!; [done..|].
  rewrite fmap_app, app_assoc. symmetry. apply Permutation_cons_append.
Qed.

Lemma respond_answers task r : answers [response task] (respond task r).
Proof. apply complete_answers. Qed.

(** ** What does not touch the books *)

Lemma on_database_untouched {A} (op : Database -> A * Database) :
  steps untouched (on_database op).
Proof.
  intros s x s'. unfold on_database. destruct (op (_database s)). by intros [= <- <-].
Qed.

Lemma try_database_untouched {A} (op : Database -> option (A * Database)) :
  steps untouched (try_database op).
Proof.
  intros s x s'. unfold try_database. by intros ([y db] & _ & [= <- <-])%bind_Some.
Qed.

Lemma leaves_untouched :
  (forall a f, steps untouched (enqueue_frame a f)) /\
  (forall d, steps untouched (append_aof d)) /\
  (forall t, steps untouched (count_acknowledged_replicas t)) /\
  (forall d ch, steps untouched (subscribe_channel d ch)) /\
  (forall d ch, steps untouched (remove_subscription d ch)).
Proof.
  split_and!; intros; intros s x s'.
  - unfold enqueue_frame. intros (x0 & _ & Hb)%bind_Some.
    by apply bind_Some in Hb as ([[r x'] n] & _ & [= <- <-]).
  - unfold append_aof. intros (file & _ & Hb)%bind_Some.
    by apply bind_Some in Hb as ([[[r f'] n] rd] & _ & [= <- <-]).
  - by intros [= <- <-].
  - by intros [= <- <-].
  - unfold remove_subscription. intros Hr. by repeat (case_match; simplify_eq/=).
Qed.

#[local] Hint Extern 1 (steps _ (on_database _)) => apply on_database_untouched : steps.
#[local] Hint Extern 1 (steps _ (try_database _)) => apply try_database_untouched : steps.
#[local] Hint Extern 1 (steps _ (read_in_place _)) => apply on_database_untouched : steps.
#[local] Hint Extern 1 (steps _ (enqueue_frame _ _)) => apply leaves_untouched : steps.
#[local] Hint Extern 1 (steps _ (append_aof _)) => apply leaves_untouched : steps.
#[local] Hint Extern 1 (steps _ (count_acknowledged_replicas _)) => apply leaves_untouched : steps.
#[local] Hint Extern 1 (steps _ (subscribe_channel _ _)) => apply leaves_untouched : steps.
#[local] Hint Extern 1 (steps _ (remove_subscription _ _)) => apply leaves_untouched : steps.
#[local] Hint Extern 1 (steps _ (modify _)) =>
  apply steps_modify; intros; unfold same; repeat case_match; reflexivity : steps.

Lemma run_transaction_untouched b cs data : steps untouched (run_transaction b cs data).
Proof.
  apply run_transaction_steps; [apply _|]. apply Forall_forall. intros. solve_steps.
Qed.
#[local] Hint Resolve run_transaction_untouched : steps.

Lemma append_client_replication_frame_untouched c d :
  steps untouched (append_client_replication_frame c d).
Proof. unfold append_client_replication_frame, append_replication_frame. solve_steps. Qed.
#[local] Hint Resolve append_client_replication_frame_untouched : steps.

Lemma process_command_untouched c command from : steps untouched (process_command c command from).
Proof.
  unfold process_command, execute_transaction, commit_transaction, config_get,
    process_acl_command, acl_whoami, acl_getuser, acl_setuser, authenticate, subscribe,
    unsubscribe, unsubscribe_channel, lock_client_session, queue_acknowledgement, publish,
    publish_to, watch, watch_key. solve_steps.
Qed.
#[local] Hint Resolve process_command_untouched : steps.

Lemma deadline_of_untouched t : steps untouched (deadline_of t).
Proof. unfold deadline_of. solve_steps. Qed.
#[local] Hint Resolve deadline_of_untouched : steps.

Lemma persist_blocking_pop_untouched t k : steps untouched (persist_blocking_pop t k).
Proof. unfold persist_blocking_pop. solve_steps. Qed.
#[local] Hint Resolve persist_blocking_pop_untouched : steps.

Lemma route_pubsub_response_untouched c r : steps untouched (route_pubsub_response c r).
Proof. unfold route_pubsub_response, enqueue_pubsub_response. solve_steps. Qed.
#[local] Hint Resolve route_pubsub_response_untouched : steps.

(** ** Tasks answer or block their own promise *)

Lemma undefined_answers {A} l : answers l (undefined : P A).
Proof. by intros s x s'. Qed.

Lemma perm_mid {A} (a b c d : list A) x :
  (a ++ (b ++ [x]) ++ c) ++ d ≡ₚ x :: (a ++ b ++ c) ++ d.
Proof.
  rewrite <- !app_assoc. simpl. rewrite !(app_assoc a b). symmetry. apply Permutation_middle.
Qed.

Lemma block_pop_answers task key deadline :
  answers [response task] (modify (fun s => set_pending_list_pops
    (_pending_list_pops s ++ [mkPendingListPop task key deadline]) s)).
Proof.
  intros s x s' [= <- <-]. unfold accounts, blocked, fulfilled. simpl. rewrite map_app.
  split_and!; [done..|]. apply (perm_mid []).
Qed.

Lemma block_read_answers task requests deadline :
  answers [response task] (modify (fun s => set_pending_stream_reads
    (_pending_stream_reads s ++ [mkPendingStreamRead task requests deadline]) s)).
Proof.
  intros s x s' [= <- <-]. unfold accounts, blocked, fulfilled. simpl. rewrite map_app.
  split_and!; [done..|]. apply perm_mid.
Qed.

Lemma block_wait_answers task required target deadline :
  answers [response task] (modify (fun s => set_pending_waits
    (_pending_waits s ++ [mkPendingWait task required target deadline]) s)).
Proof.
  intros s x s' [= <- <-]. unfold accounts, blocked, fulfilled. simpl. rewrite map_app.
  split_and!; [done..|]. rewrite (app_assoc (map _ (_pending_list_pops s))).
  rewrite <- (app_nil_r (map _ (_pending_waits s))) at 2.
  rewrite <- (app_nil_r (map _ (_pending_waits s) ++ _)).
  rewrite (app_assoc (map _ (_pending_list_pops s)) (map _ (_pending_stream_reads s))).
  apply perm_mid.
Qed.

Ltac answers_rule :=
  match goal with
  | |- answers _ (match ?x with _ => _ end) => destruct x
  | |- answers _ (if ?x then _ else _) => destruct x
  | |- answers _ (let '(_, _) := ?x in _) => destruct x
  | |- forall _, _ => intro
  | |- answers _ _ =>
      first
        [ apply respond_answers
        | apply complete_answers
        | apply undefined_answers
        | apply block_pop_answers
        | apply block_read_answers
        | apply block_wait_answers
        | assumption
        | apply answers_after; [solve [solve_steps]|] ]
  end.
Ltac solve_answers := repeat answers_rule.

Lemma serve_pop_answers task key v : answers [response task] (serve_pop task key v).
Proof. unfold serve_pop. solve_answers. Qed.

Lemma process_task_answers task : answers [response task] (process_task task).
Proof.
  pose proof (serve_pop_answers task).
  unfold process_task, process_blpop, process_xread, process_wait, process_direct,
    append_replication_frame.
  cbv zeta. solve_answers; auto.
Qed.

(** ** Going over the blocked operations *)

(** A step that only fulfils promises. *)
Definition fulfils (l : list nat) (s s' : ProcessorState) : Prop :=
  promises s' = promises s /\ _tasks s' = _tasks s /\
  _pending_list_pops s' = _pending_list_pops s /\
  _pending_stream_reads s' = _pending_stream_reads s /\ _pending_waits s' = _pending_waits s /\
  fulfilled s' ≡ₚ l ++ fulfilled s.

Lemma untouched_fulfils s s' : untouched s s' -> fulfils [] s s'.
Proof. unfold same, books, fulfils, fulfilled. by intros [= -> -> -> -> -> ->]. Qed.

Lemma fulfils_trans l l' s s' s'' : fulfils l s s' -> fulfils l' s' s'' -> fulfils (l ++ l') s s''.
Proof.
  intros (E1 & E2 & E3 & E4 & E5 & Hl) (F1 & F2 & F3 & F4 & F5 & Hl').
  split_and!; [congruence..|]. rewrite Hl', Hl, app_assoc. by rewrite (Permutation_app_comm l').
Qed.

Lemma respond_fulfils task r s s' : respond task r s = Some (tt, s') -> fulfils [response task] s s'.
Proof.
  intros [= <-]. unfold fulfils, fulfilled. simpl. split_and!; [done..|].
  rewrite fmap_app. symmetry. apply Permutation_cons_append.
Qed.

(** A loop over a list of pending operations settles those it does not keep. *)
Lemma keepM_fulfils {A} (promise : A -> nat) (f : A -> P bool) :
  (forall p s b s', f p s = Some (b, s') -> fulfils (if b : bool then [] else [promise p]) s s') ->
  forall l s kept s', keepM f l s = Some (kept, s') ->
  exists done, fulfils done s s' /\ done ++ map promise kept ≡ₚ map promise l.
Proof.
  intros Hf. induction l as [|p l IH]; intros s kept s'; cbn [keepM].
  { intros [= <- <-]. exists []. split; [by apply untouched_fulfils|done]. }
  intros (b & s1 & Hp & Hrest)%M_bind_Some.
  apply M_bind_Some in Hrest as (kept' & s2 & Hl & Hret). injection Hret as <- <-.
  destruct (IH _ _ _ Hl) as (done' & Hd & Hperm). apply Hf in Hp.
  eexists. split; [by eapply fulfils_trans|]. destruct b; simpl.
  - rewrite <- Permutation_middle. by rewrite Hperm.
  - by rewrite Hperm.
Qed.

Lemma pops_settled done kept s s1 :
  fulfils done s s1 ->
  done ++ map (fun p => response (pop_task p)) kept ≡ₚ
    map (fun p => response (pop_task p)) (_pending_list_pops s) ->
  accounts [] s (set_pending_list_pops kept s1).
Proof.
  intros (E1 & E2 & E3 & E4 & E5 & Hl) Hperm. unfold accounts, blocked. simpl.
  split_and!; [done..|]. rewrite E4, E5. unfold fulfilled in *. simpl. rewrite Hl, <- Hperm.
  solve_Permutation.
Qed.

Lemma reads_settled done kept s s1 :
  fulfils done s s1 ->
  done ++ map (fun p => response (read_task p)) kept ≡ₚ
    map (fun p => response (read_task p)) (_pending_stream_reads s) ->
  accounts [] s (set_pending_stream_reads kept s1).
Proof.
  intros (E1 & E2 & E3 & E4 & E5 & Hl) Hperm. unfold accounts, blocked. simpl.
  split_and!; [done..|]. rewrite E3, E5. unfold fulfilled in *. simpl. rewrite Hl, <- Hperm.
  solve_Permutation.
Qed.

Lemma waits_settled done kept s s1 :
  fulfils done s s1 ->
  done ++ map (fun p => response (wait_task p)) kept ≡ₚ
    map (fun p => response (wait_task p)) (_pending_waits s) ->
  accounts [] s (set_pending_waits kept s1).
Proof.
  intros (E1 & E2 & E3 & E4 & E5 & Hl) Hperm. unfold accounts, blocked. simpl.
  split_and!; [done..|]. rewrite E3, E4. unfold fulfilled in *. simpl. rewrite Hl, <- Hperm.
  solve_Permutation.
Qed.

(** A decision on one operation: keep it untouched, or touch nothing and then
    respond. *)
Lemma decide_fulfils {A} (m : P A) (k : A -> P bool) task :
  steps untouched m ->
  (forall x, (exists r, k x = (respond task r;; mret false)) \/ k x = mret true) ->
  forall s b s', (m ≫= k) s = Some (b, s') ->
  fulfils (if b : bool then [] else [response task]) s s'.
Proof.
  intros Hm Hk s b s' (x & s1 & Hx & Hb)%M_bind_Some.
  apply Hm, untouched_fulfils in Hx. destruct (Hk x) as [[r Hr]|Hr]; rewrite Hr in Hb.
  - apply M_bind_Some in Hb as ([] & s2 & Hresp & Hret). injection Hret as <- <-.
    apply respond_fulfils in Hresp. by apply (fulfils_trans [] _ s s1).
  - by injection Hb as <- <-.
Qed.

Lemma serve_pop_fulfils task key v s s' :
  serve_pop task key v s = Some (tt, s') -> fulfils [response task] s s'.
Proof.
  unfold serve_pop. intros (x & s1 & Hx & Hy)%M_bind_Some.
  apply (persist_blocking_pop_untouched task key), untouched_fulfils in Hx.
  apply (fulfils_trans [] _ s s1); [done|]. by destruct x; apply respond_fulfils in Hy.
Qed.

Lemma retry_list_pop_fulfils p s b s' :
  retry_list_pop p s = Some (b, s') ->
  fulfils (if b : bool then [] else [response (pop_task p)]) s s'.
Proof.
  unfold retry_list_pop. intros (x & s1 & Hx & Hy)%M_bind_Some.
  apply on_database_untouched, untouched_fulfils in Hx.
  assert (forall m : P unit, (forall s2, m s1 = Some (tt, s2) -> fulfils [response (pop_task p)] s1 s2) ->
    ((m;; mret false) : P bool) s1 = Some (b, s') ->
    fulfils (if b then [] else [response (pop_task p)]) s s') as Hdone.
  { intros m Hm ([] & s2 & Hresp & Hret)%M_bind_Some. injection Hret as <- <-.
    apply (fulfils_trans [] _ s s1); auto. }
  destruct x as [v|[]]; try (by injection Hy as <- <-); revert Hy; apply Hdone; intros s2.
  - apply serve_pop_fulfils.
  - apply respond_fulfils.
Qed.

Lemma retry_stream_reads_fulfils l s kept s' :
  retry_stream_reads l s = Some (kept, s') ->
  exists done, fulfils done s s' /\
    done ++ map (fun p => response (read_task p)) kept ≡ₚ map (fun p => response (read_task p)) l.
Proof.
  revert s kept. induction l as [|p l IH]; intros s kept; cbn [retry_stream_reads].
  { intros [= <- <-]. exists []. split; [by apply untouched_fulfils|done]. }
  intros (k & s1 & Hp & Hrest)%M_bind_Some.
  apply M_bind_Some in Hrest as (kept' & s2 & Hl & Hret). injection Hret as <- <-.
  destruct (IH _ _ Hl) as (done' & Hd & Hperm).
  unfold retry_stream_read in Hp. apply M_bind_Some in Hp as ([x resolved] & s3 & Hx & Hp).
  apply on_database_untouched, untouched_fulfils in Hx.
  assert ((exists r, ((respond (read_task p) r;; mret None) : P (option PendingStreamRead)) s3 = Some (k, s1)) \/
    (s1 = s3 /\ exists q, k = Some q /\ read_task q = read_task p)) as [[r Hk]|(-> & q & -> & Hq)].
  { destruct x as [[|]|e]; [right|left|left]; [|by eexists..]. injection Hp as <- <-. eauto. }
  - apply M_bind_Some in Hk as ([] & s4 & Hresp & Hret). injection Hret as <- <-.
    apply respond_fulfils in Hresp. exists (([] ++ [response (read_task p)]) ++ done'). split.
    + eapply fulfils_trans; [by eapply fulfils_trans|done].
    + simpl. by rewrite Hperm.
  - exists ([] ++ done'). split; [by eapply fulfils_trans|]. simpl. rewrite Hq, <- Permutation_middle.
    by rewrite Hperm.
Qed.

Lemma retry_wait_fulfils p s b s' :
  retry_wait p s = Some (b, s') ->
  fulfils (if b : bool then [] else [response (wait_task p)]) s s'.
Proof.
  apply decide_fulfils; [apply leaves_untouched|]. intros x.
  destruct (x <? _); [by right|left; by eexists].
Qed.

(** ** The worker *)

Lemma answers_queue {A} (queue : ProcessorState -> list A) (set : list A -> ProcessorState -> ProcessorState)
    (promise : A -> nat) (loop : list A -> P (list A)) :
  (forall l s kept s', loop l s = Some (kept, s') ->
     exists done, fulfils done s s' /\ done ++ map promise kept ≡ₚ map promise l) ->
  (forall done kept s s1, fulfils done s s1 -> done ++ map promise kept ≡ₚ map promise (queue s) ->
     accounts [] s (set kept s1)) ->
  answers [] (pending ← gets queue; pending ← loop pending; modify (set pending)).
Proof.
  intros Hloop Hset s x s' (l & s0 & Hg & Hrun)%M_bind_Some. injection Hg as <- <-.
  apply M_bind_Some in Hrun as (kept & s1 & Hl & Hm). injection Hm as _ <-.
  destruct (Hloop _ _ _ _ Hl) as (done & Hd & Hperm). by eapply Hset.
Qed.

Lemma retry_all_answers : answers [] retry_all.
Proof.
  unfold retry_all. apply (answers_then [] []).
  { apply (answers_queue _ _ _ _ (keepM_fulfils _ _ retry_list_pop_fulfils)), pops_settled. }
  intros _. apply (answers_then [] []).
  { apply (answers_queue _ _ _ _ retry_stream_reads_fulfils), reads_settled. }
  intros _. apply (answers_queue _ _ _ _ (keepM_fulfils _ _ retry_wait_fulfils)), waits_settled.
Qed.

(** Operations that are over are answered, the others stay. *)
Lemma settle_fulfils {A} (task_of : A -> Task) (stays : A -> bool) (r : Response) p s b s' :
  (if stays p then mret true else respond (task_of p) r;; mret false : P bool) s = Some (b, s') ->
  fulfils (if b : bool then [] else [response (task_of p)]) s s'.
Proof.
  destruct (stays p).
  - intros [= <- <-]. by apply untouched_fulfils.
  - intros ([] & s1 & Hresp & Hret)%M_bind_Some. injection Hret as <- <-.
    by eapply respond_fulfils.
Qed.

Lemma expire_wait_fulfils now p s b s' :
  (if still_waiting now (wait_deadline p) then mret true else
   acknowledged ← count_acknowledged_replicas (target_offset p);
   respond (wait_task p) (Integer acknowledged);; mret false : P bool) s = Some (b, s') ->
  fulfils (if b : bool then [] else [response (wait_task p)]) s s'.
Proof.
  destruct (still_waiting _ _).
  - intros [= <- <-]. by apply untouched_fulfils.
  - apply decide_fulfils; [apply leaves_untouched|]. intros x. left. by eexists.
Qed.

Lemma expire_all_answers : answers [] expire_all.
Proof.
  unfold expire_all. apply (answers_then [] []); [|intros _; apply (answers_then [] []); [|intros _]];
    (apply answers_after; [apply on_database_untouched|]; intros now).
  - eapply answers_queue; [|exact pops_settled]. apply (keepM_fulfils _ _).
    apply (settle_fulfils pop_task (fun p => still_waiting now (pop_deadline p))).
  - eapply answers_queue; [|exact reads_settled]. apply (keepM_fulfils _ _).
    apply (settle_fulfils read_task (fun p => still_waiting now (read_deadline p))).
  - eapply answers_queue; [|exact waits_settled]. apply (keepM_fulfils _ _).
    apply expire_wait_fulfils.
Qed.

Lemma cancel_fulfils {A} (task_of : A -> Task) client l s kept s' :
  cancel task_of client l s = Some (kept, s') ->
  exists done, fulfils done s s' /\
    done ++ map (fun p => response (task_of p)) kept ≡ₚ map (fun p => response (task_of p)) l.
Proof.
  apply (keepM_fulfils (fun p => response (task_of p))).
  apply (settle_fulfils task_of (fun p => negb (client_id (task_of p) =? client))).
Qed.

Lemma cancel_pending_commands_answers client : answers [] (cancel_pending_commands client).
Proof.
  intros s x s'. unfold cancel_pending_commands.
  intros (l1 & s0 & Hg & Hrun)%M_bind_Some. injection Hg as <- <-.
  apply M_bind_Some in Hrun as (k1 & s1 & Hc1 & Hrun).
  apply M_bind_Some in Hrun as ([] & s2 & Hm1 & Hrun). injection Hm1 as <-.
  apply M_bind_Some in Hrun as (l2 & s3 & Hg & Hrun). injection Hg as <- <-.
  apply M_bind_Some in Hrun as (k2 & s4 & Hc2 & Hrun).
  apply M_bind_Some in Hrun as ([] & s5 & Hm2 & Hrun). injection Hm2 as <-.
  apply M_bind_Some in Hrun as (l3 & s6 & Hg & Hrun). injection Hg as <- <-.
  apply M_bind_Some in Hrun as (k3 & s7 & Hc3 & Hrun). injection Hrun as _ <-.
  destruct (cancel_fulfils _ _ _ _ _ _ Hc1) as (d1 & Hd1 & Hp1).
  destruct (cancel_fulfils _ _ _ _ _ _ Hc2) as (d2 & Hd2 & Hp2).
  destruct (cancel_fulfils _ _ _ _ _ _ Hc3) as (d3 & Hd3 & Hp3).
  apply (accounts_trans [] [] s (set_pending_list_pops k1 s1)); [by eapply pops_settled|].
  apply (accounts_trans [] [] _ (set_pending_stream_reads k2 s4)); [by eapply reads_settled|].
  by eapply waits_settled.
Qed.

Lemma process_processor_task_answers task : answers [promise_of task] (process_processor_task task).
Proof.
  destruct task as [t|c p|i o p|p|c o p|es p|f cs p|c a p|c p]; simpl.
  - apply process_task_answers.
  - intros s x s' Hrun. unfold process_replica_registration in Hrun.
    apply complete_answers in Hrun as Hacc. unfold accounts, blocked, fulfilled in *. exact Hacc.
  - unfold process_replication_state_installation. solve_answers.
  - unfold process_replication_offset_request. solve_answers.
  - unfold process_replica_acknowledgement. solve_answers.
  - unfold process_rdb_load. cbv zeta. solve_answers. unfold load_entry. cbv zeta.
    apply answers_after; [solve_steps|]. intros _. apply complete_answers.
  - unfold process_aof_initialization, forget_transaction. solve_answers.
  - unfold process_client_registration. solve_answers.
  - unfold process_client_unregistration, drop_subscriber, forget_transaction.
    apply (answers_then [] [p]); [apply cancel_pending_commands_answers|]. intros _. solve_answers.
Qed.

(** The promises handed out are those of the queue, the blocked ones and the
    fulfilled ones. *)
Definition balanced (s : ProcessorState) : Prop :=
  map promise_of (_tasks s) ++ blocked s ++ fulfilled s ≡ₚ seq 0 (promises s).

Lemma accounts_balanced s s' : accounts [] s s' -> balanced s -> balanced s'.
Proof.
  unfold balanced. intros (-> & -> & Hl) Hb. by rewrite Hl.
Qed.

Lemma run_iteration_balanced s s' :
  run_iteration s = Some (tt, s') -> balanced s -> balanced s'.
Proof.
  unfold run_iteration. intros (l & s0 & Hg & Hrun)%M_bind_Some. injection Hg as <- <-.
  destruct (_tasks s) as [|task rest] eqn:Htasks.
  { by apply accounts_balanced, (expire_all_answers _ _ _ Hrun). }
  apply M_bind_Some in Hrun as (u & s0 & Hg & Hrun). injection Hg as _ <-.
  apply M_bind_Some in Hrun as ([] & s1 & Htask & Hrun).
  apply M_bind_Some in Hrun as ([] & s2 & Hretry & Hexpire).
  apply process_processor_task_answers in Htask as (Hp & Ht & Hl).
  intros Hb. apply (accounts_balanced s2); [by eapply expire_all_answers|].
  apply (accounts_balanced s1); [by eapply retry_all_answers|].
  revert Hb. unfold balanced. rewrite Htasks, Hp, Ht, Hl. simpl.
  intros <-. unfold blocked, fulfilled. simpl. solve_Permutation.
Qed.

(** C4: every call is answered exactly once.  In every state the processor can
    reach, whatever the interleaving of callers, worker and sessions, the
    promises handed out so far are, each of them once, those of the tasks
    still in the queue, those of the operations still blocked, and those
    already fulfilled: no promise is fulfilled twice and no caller is
    forgotten. *)
Theorem calls_answered_once allowed replica rdb aof hash i (s : ProcessorState) :
  rtc (processor_step allowed) (initial_state replica rdb aof hash i) s ->
  map promise_of (_tasks s) ++ blocked s ++ (completed s).*1 ≡ₚ seq 0 (promises s).
Proof.
  apply (rtc_ind_r balanced).
  { unfold balanced. reflexivity. }
  intros x y _ Hstep Hb. destruct Hstep as [r s0 _|s0 s' _ Hrun| | | | | | |]; try exact Hb.
  - change (map promise_of (_tasks s0 ++ [task_of_request r (promises s0)]) ++
      blocked s0 ++ fulfilled s0 ≡ₚ seq 0 (S (promises s0))).
    rewrite map_app, seq_S. unfold balanced in Hb. rewrite <- Hb. simpl.
    assert (promise_of (task_of_request r (promises s0)) = promises s0) as -> by (by destruct r).
    solve_Permutation.
  - by eapply run_iteration_balanced.
Qed.
End Promises.

(** ** Witness *)

Section Witness.
#[local] Existing Instance millisecond_clock.
#[local] Existing Instance insertion_order.
#[local] Existing Instance perfect_kernel.
#[local] Existing Instance sample_crypto.

(** One client blocked and one answered; then a call that is still queued. *)
Definition one_blocked : ProcessorState := after_script
  (two_clients ++ [Submit 1 ["BLPOP"; "k"; "0"]; Submit 2 ["PING"]]) sample_master.
Definition three_calls : ProcessorState := enqueue (Submit 2 ["GET"; "k"]) one_blocked.

Lemma one_blocked_reachable : rtc (processor_step any_request) sample_master one_blocked.
Proof. apply after_script_steps. vm_compute. reflexivity. Qed.

Lemma calls_answered_once_witness :
  blocked three_calls = [2%nat] /\ map promise_of (_tasks three_calls) = [4%nat] /\
  map promise_of (_tasks three_calls) ++ blocked three_calls ++ (completed three_calls).*1
    ≡ₚ seq 0 (promises three_calls).
Proof.
  split; [vm_compute; reflexivity|]. split; [vm_compute; reflexivity|].
  apply (calls_answered_once any_request None default_rdb_config default_aof_config None
    "0123456789abcdef" three_calls).
  apply (rtc_r _ one_blocked); [exact one_blocked_reachable|]. apply step_enqueue. exact I.
Defined.
End Witness.
