(* ===== verification/Framing.v ===== *)
(** * Reading commands off a buffer

    Three threads of the server keep a buffer of received bytes and take the
    commands off its front: the connection of a client, the reader of a
    replica's acknowledgements, and the reader of the master's stream
    (src/server.cpp).  [take_frames] is the inner loop they share, with the
    work on one command as an argument, and the theorems of this file say that
    the way the bytes were cut by the network does not matter. *)

From stdpp Require Import base option list strings.
From Stdlib Require Import ZArith Lia.
From S2P Require Import Prelude Resp StateMonad.

(** What one [recv] gives. *)
Inductive recv_outcome :=
| Received (chunk : string)
| RecvInterrupted
| RecvClosed
| RecvFailed.

Section Framing.
(** [stopped] is the stop request as the loop reads it, [handle] the work on a
    command and the bytes it takes, which may end the loop with an [E], and
    [malformed] the end on bytes that are no command. *)
Context {W E : Type}.
Context (stopped : W -> bool) (malformed : ParseError -> E).
Context (handle : Command -> nat -> M W (option E)).

(** The loop ends with [Some e] when the caller must leave, with [None] when it
    needs more bytes or was stopped; [None] as a whole means that the work on a
    command never ends. *)
Fixpoint take_frames (fuel : nat) (buffer : string) (s : W) : option (option E * string * W) :=
  if String.eqb buffer EmptyString || stopped s then Some (None, buffer, s) else
  match fuel with
  | O => None
  | S fuel' =>
      match parse_command buffer with
      | Incomplete => Some (None, buffer, s)
      | Failed e => Some (Some (malformed e), buffer, s)
      | Parsed r =>
          '(exit, s) ← handle (command r) (bytes_consumed r) s;
          match exit with
          | Some e => Some (Some e, buffer, s)
          | None => take_frames fuel' (drop_string (bytes_consumed r) buffer) s
          end
      end
  end.

(** Every command takes a byte off the buffer. *)
Definition take_all (buffer : string) (s : W) : option (option E * string * W) :=
  take_frames (String.length buffer) buffer s.

(** The outer loop: append what arrived, take the commands, wait for more. *)
Fixpoint feed (chunks : list string) (buffer : string) (s : W) : option (option E * string * W) :=
  match chunks with
  | [] => Some (None, buffer, s)
  | chunk :: chunks' =>
      if stopped s then Some (None, buffer, s) else
      '(exit, buffer, s) ← take_all (buffer +:+ chunk) s;
      match exit with
      | Some e => Some (Some e, buffer, s)
      | None => feed chunks' buffer s
      end
  end.

(** The work on a sequence of commands, up to the one that ends the loop. *)
Fixpoint run_commands (commands : list Command) (s : W) : option (option E * W) :=
  match commands with
  | [] => Some (None, s)
  | c :: rest =>
      if stopped s then Some (None, s) else
      '(exit, s) ← handle c (String.length (serialize_command c)) s;
      match exit with
      | Some e => Some (Some e, s)
      | None => run_commands rest s
      end
  end.

(** Two ends of the loop are the same for the program: the buffer matters only
    to a loop that goes on. *)
Definition same_end (x y : option E * string * W) : Prop :=
  x.1.1 = y.1.1 /\ x.2 = y.2 /\ (x.1.1 = None -> stopped x.2 = false -> x.1.2 = y.1.2).

Definition same_run (x y : option (option E * string * W)) : Prop := option_Forall2 same_end x y.

#[export] Instance same_end_equivalence : Equivalence same_end.
Proof.
  split.
  - intros x. done.
  - intros x y (H1 & H2 & H3). split_and!; [done|done|]. rewrite <- H1, <- H2. intros. symmetry. auto.
  - intros x y z (H1 & H2 & H3) (H4 & H5 & H6).
    split_and!; [congruence|congruence|]. intros He Hs. rewrite H3 by done.
    apply H6; congruence.
Qed.

#[export] Instance same_run_equivalence : Equivalence same_run.
Proof. unfold same_run. apply option_Forall2_equiv, same_end_equivalence. Qed.

(** Enough fuel is enough. *)
Lemma take_frames_fuel fuel fuel' buffer s :
  (String.length buffer <= fuel)%nat -> (String.length buffer <= fuel')%nat ->
  take_frames fuel buffer s = take_frames fuel' buffer s.
Proof.
  revert fuel' buffer s. induction fuel as [|fuel IH]; intros fuel' buffer s Hf Hf';
    cbn [take_frames].
  - destruct buffer; [|simpl in Hf; lia]. by destruct fuel'.
  - destruct fuel' as [|fuel']; cbn [take_frames].
    { destruct buffer; [done|simpl in Hf'; lia]. }
    destruct (_ || _); [done|]. destruct (parse_command buffer) as [r| |e] eqn:Hp; try done.
    destruct (parse_command_bound _ _ Hp) as [Hb _].
    destruct (handle _ _ s) as [[[e|] s']|]; simpl; [done| |done].
    assert (String.length (drop_string (bytes_consumed r) buffer) < String.length buffer)%nat.
    { unfold drop_string. rewrite substring_length; lia. }
    apply IH; lia.
Qed.

Lemma drop_string_app_le n s t :
  (n <= String.length s)%nat -> drop_string n (s +:+ t) = drop_string n s +:+ t.
Proof.
  revert n. induction s as [|c s IH]; intros n Hn; simpl in Hn.
  - assert (n = 0)%nat as -> by lia. by rewrite !drop_string_0.
  - destruct n as [|n]; [by rewrite !drop_string_0|]. apply (IH n). lia.
Qed.

(** Bytes that arrive later can be put behind those that are there. *)
Lemma take_all_app buffer chunk s :
  same_run (take_all (buffer +:+ chunk) s)
    ('(exit, buffer, s) ← take_all buffer s;
     match exit with
     | Some e => Some (Some e, buffer, s)
     | None => if stopped s then Some (None, buffer, s) else take_all (buffer +:+ chunk) s
     end).
Proof.
  unfold take_all.
  remember (String.length buffer) as n eqn:Hn. revert buffer s Hn.
  induction n as [n IH] using (well_founded_induction lt_wf). intros buffer s Hn.
  destruct (stopped s) eqn:Hstop.
  { assert (forall fuel b, take_frames fuel b s = Some (None, b, s)) as Hnow
      by (intros [] b; cbn [take_frames]; by rewrite Hstop, orb_true_r).
    rewrite !Hnow. simpl. rewrite Hstop. constructor. split_and!; simpl; congruence. }
  destruct (decide (buffer = EmptyString)) as [->|Hne].
  { subst n. simpl. rewrite Hstop. reflexivity. }
  destruct n as [|n]; [destruct buffer; done|].
  rewrite string_length_app, <- Hn. cbn [take_frames Nat.add].
  rewrite Hstop, !(proj2 (String.eqb_neq _ _)); [|done|by destruct buffer]. cbn [orb].
  destruct (parse_command buffer) as [r| |e] eqn:Hp.
  - rewrite (parse_command_extend buffer chunk) by congruence. rewrite Hp.
    destruct (parse_command_bound _ _ Hp) as [Hb _].
    destruct (handle _ _ s) as [[[e|] s']|]; simpl.
    + constructor. done.
    + rewrite drop_string_app_le by lia.
      assert (String.length (drop_string (bytes_consumed r) buffer) < String.length buffer)%nat as Hlt.
      { unfold drop_string. rewrite substring_length; lia. }
      rewrite (take_frames_fuel _ (String.length (drop_string (bytes_consumed r) buffer +:+ chunk)))
        by (rewrite ?string_length_app; lia).
      rewrite (take_frames_fuel n (String.length (drop_string (bytes_consumed r) buffer))) by lia.
      apply (IH (String.length (drop_string (bytes_consumed r) buffer))); [lia|done].
    + constructor.
  - simpl. rewrite Hstop.
    rewrite (take_frames_fuel (String.length (buffer +:+ chunk)) (S (n + String.length chunk)))
      by (rewrite string_length_app; lia).
    cbn [take_frames]. rewrite Hstop, (proj2 (String.eqb_neq _ _)); [|by destruct buffer].
    reflexivity.
  - rewrite (parse_command_extend buffer chunk) by congruence. rewrite Hp. by constructor.
Qed.

(** The buffer between two reads: it holds no whole command. *)
Definition settled (buffer : string) : Prop :=
  buffer = EmptyString \/ parse_command buffer = Incomplete.

Lemma take_all_settled buffer s : settled buffer -> take_all buffer s = Some (None, buffer, s).
Proof.
  unfold take_all. intros [->|Hp]; [done|].
  destruct (String.length buffer) eqn:Hn; cbn [take_frames].
  - by destruct buffer.
  - destruct (_ || _); [done|]. by rewrite Hp.
Qed.

Lemma take_all_stopped buffer s : stopped s = true -> take_all buffer s = Some (None, buffer, s).
Proof.
  unfold take_all. intros Hstop.
  destruct (String.length buffer); cbn [take_frames]; by rewrite Hstop, orb_true_r.
Qed.

Lemma take_frames_settles fuel buffer s buffer' s' :
  take_frames fuel buffer s = Some (None, buffer', s') -> stopped s' = true \/ settled buffer'.
Proof.
  revert buffer s. induction fuel as [|fuel IH]; intros buffer s; cbn [take_frames];
    (destruct (String.eqb_spec buffer EmptyString) as [->|];
     [intros [= <- <-]; right; by left|]);
    (destruct (stopped s) eqn:Hstop; [intros [= <- <-]; by left|]); [done|]. simpl.
  destruct (parse_command buffer) as [r| |e] eqn:Hp; [|intros [= <- <-]; right; by right|done].
  destruct (handle _ _ s) as [[[e|] s1]|]; simpl; [done|apply IH|done].
Qed.

(** Cutting the bytes into chunks changes nothing. *)
Lemma feed_whole chunks buffer s :
  settled buffer ->
  same_run (feed chunks buffer s) (take_all (buffer +:+ foldr String.append EmptyString chunks) s).
Proof.
  revert buffer s. induction chunks as [|chunk chunks IH]; intros buffer s Hset; simpl.
  { rewrite string_app_nil_r, take_all_settled by done. reflexivity. }
  destruct (stopped s) eqn:Hstop.
  { rewrite take_all_stopped by done. constructor. split_and!; simpl; congruence. }
  rewrite <- string_app_assoc. etransitivity; [|symmetry; apply take_all_app].
  destruct (take_all (buffer +:+ chunk) s) as [[[[e|] b'] s']|] eqn:Htake; simpl;
    [reflexivity| |reflexivity].
  destruct (stopped s') eqn:Hstop'.
  - destruct chunks as [|c chunks]; simpl; [reflexivity|]. rewrite Hstop'. reflexivity.
  - apply IH. destruct (take_frames_settles _ _ _ _ _ Htake); congruence.
Qed.

(** The frames of commands are worked on one by one, and what follows them
    stays in the buffer. *)
Lemma take_all_frames commands tail s :
  Forall command_fits commands -> settled tail ->
  same_run (take_all (log_bytes commands +:+ tail) s)
    ('(exit, s) ← run_commands commands s; Some (exit, tail, s)).
Proof.
  intros Hfit Htail. revert s. induction Hfit as [|c commands Hc _ IH]; intros s; simpl.
  { rewrite take_all_settled by done. reflexivity. }
  destruct (stopped s) eqn:Hstop.
  { rewrite take_all_stopped by done. constructor. split_and!; simpl; congruence. }
  pose proof (serialize_command_nonempty c) as Hpos. rewrite string_app_assoc.
  unfold take_all. rewrite string_length_app.
  destruct (String.length (serialize_command c)) as [|n] eqn:Hn; [lia|]. cbn [take_frames Nat.add].
  rewrite Hstop, (proj2 (String.eqb_neq _ _)) by (by destruct (serialize_command c)). cbn [orb].
  rewrite parse_command_frame by done. cbn [command bytes_consumed]. rewrite <- Hn.
  destruct (handle c _ s) as [[[e|] s']|]; simpl; [by constructor| |reflexivity].
  rewrite drop_string_app, <- IH. unfold take_all.
  rewrite (take_frames_fuel _ (String.length (log_bytes commands +:+ tail))) by lia. reflexivity.
Qed.

(** Any cut of the frames of commands, with a tail that is no whole command. *)
Lemma feed_frames chunks commands tail s :
  Forall command_fits commands -> settled tail ->
  foldr String.append EmptyString chunks = log_bytes commands +:+ tail ->
  same_run (feed chunks EmptyString s)
    ('(exit, s) ← run_commands commands s; Some (exit, tail, s)).
Proof.
  intros Hfit Htail Hcut. rewrite feed_whole by (by left). rewrite string_app_nil_l, Hcut.
  by apply take_all_frames.
Qed.
End Framing.
