(* ===== verification/Sockets.v ===== *)
(** * Sending on a socket, and the processor as its callers see it
    (src/server.cpp, src/server.hpp)

    [send_bytes] with its short and interrupted sends, and the interface
    [CommandService]: the public functions of the command processor as the
    threads of the server call them, each together with the wait for its
    future.  The theorems on the server are proved against the interface;
    ProcessorService.v shows that the processor implements it. *)

From stdpp Require Import base option list strings.
From Stdlib Require Import ZArith Lia.
From S2P Require Import Prelude Environment Resp Sessions Aof StateMonad ProcessorState.

Section Send.
Context `{Kernel}.

(** How the loop of [send_bytes] ends: every byte was taken, a call failed, or
    the signal [SIGPIPE] killed the process. *)
Inductive SendEnd := AllSent | SendError (message : string) | BrokenPipe.

(** The loop of [send_bytes]: [wire] holds the bytes handed to the socket so
    far.  [None] when it runs out of fuel. *)
Fixpoint send_loop (fuel : nat) (bytes : string) (bytes_sent : nat) (wire : string) (calls : nat)
    : option (SendEnd * string * nat) :=
  if negb (bytes_sent <? String.length bytes)%nat then Some (AllSent, wire, calls) else
  match fuel with
  | O => None
  | S fuel' =>
      let failed reason := SendError ("Failed to send socket data: " +:+ reason) in
      if sys_pipe_broken calls then Some (BrokenPipe, wire, S calls) else
      match sys_write calls (String.length bytes - bytes_sent) with
      | Interrupted => send_loop fuel' bytes bytes_sent wire (S calls)
      | WouldBlock => Some (failed eagain_message, wire, S calls)
      | IoError reason => Some (failed reason, wire, S calls)
      | Completed O => Some (SendError "Connection closed while sending socket data", wire, S calls)
      | Completed n =>
          send_loop fuel' bytes (bytes_sent + n)
            (wire +:+ String.substring bytes_sent n bytes) (S calls)
      end
  end.

(** [None] when it does not return: the process was killed. *)
Definition send_bytes (bytes wire : string) (calls : nat)
    : option (expected unit string * string * nat) :=
  '(ended, wire, calls) ← send_loop (String.length bytes * S eintr_limit) bytes 0 wire calls;
  match ended with
  | AllSent => Some (Expected tt, wire, calls)
  | SendError e => Some (Unexpected e, wire, calls)
  | BrokenPipe => None
  end.

(** Until a pipe breaks, it is the loop that appends to a file, on another
    descriptor. *)
Definition socket_file (wire : string) : AppendOnlyFile := mkAppendOnlyFile EmptyString wire NEVER 0.

Lemma send_loop_append fuel bytes bytes_sent wire calls :
  match send_loop fuel bytes bytes_sent wire calls,
        append_loop fuel bytes bytes_sent (socket_file wire) calls with
  | Some (BrokenPipe, _, c), _ => exists i, c = S i /\ sys_pipe_broken i = true
  | Some (e, w, c), Some (e', f, c') => (e = AllSent <-> e' = None) /\ f = socket_file w /\ c = c'
  | None, None => True
  | _, _ => False
  end.
Proof.
  revert bytes_sent wire calls. induction fuel as [|fuel IH]; intros bytes_sent wire calls;
    cbn [send_loop append_loop]; destruct (negb _); try done.
  destruct (sys_pipe_broken calls) eqn:Hpipe; [by exists calls|].
  destruct (sys_write calls _) as [[|n]| | |]; try done; apply IH.
Qed.
End Send.

Section SendFacts.
Context `{Kernel, !KernelLaws}.

(** [send_bytes] returns, unless a pipe breaks.  The peer gets a prefix of the
    bytes, and all of them when no error is reported. *)
Lemma send_bytes_spec bytes wire calls :
  match send_bytes bytes wire calls with
  | Some (r, wire', calls') =>
      exists n, (n <= String.length bytes)%nat /\ wire' = wire +:+ String.substring 0 n bytes /\
        (r = Expected tt -> wire' = wire +:+ bytes)
  | None => exists i, sys_pipe_broken i = true
  end.
Proof.
  unfold send_bytes.
  destruct (append_loop_total (String.length bytes * S eintr_limit) bytes 0 (socket_file wire) calls)
    as [[[e' f] c'] Happ]; [by rewrite Nat.sub_0_r|].
  pose proof (send_loop_append (String.length bytes * S eintr_limit) bytes 0 wire calls) as Hs.
  rewrite Happ in Hs.
  destruct (send_loop _ bytes 0 wire calls) as [[[e w] c]|]; [|done].
  apply append_loop_spec in Happ as (n & Hn & Hw & Hall); [|lia].
  destruct e as [|e|]; cbn [mbind option_bind]; [| |destruct Hs as (i & _ & Hi); by exists i].
  all: destruct Hs as (He & -> & ->); injection Hw as Hw; exists n; (split_and!; [lia|done|]).
  - intros _. specialize (Hall (proj1 He eq_refl)). simpl in Hall.
    rewrite Hw, Hall. by rewrite substring_full.
  - done.
Qed.
End SendFacts.

(** Calls that take some bytes whenever they are offered any. *)
Class ReliableWrites `{Kernel} :=
  write_progress : forall i n, (0 < n)%nat ->
    (exists m, sys_write i n = Completed (S m)) \/ sys_write i n = Interrupted.

(** A network on which no send fails, to a peer that stays. *)
Class ReliableSend `{Kernel} := {
  send_progress :: ReliableWrites;
  peer_stays : forall i, sys_pipe_broken i = false;
}.

Lemma send_loop_reliable `{Kernel, !ReliableSend} fuel bytes bytes_sent wire calls e w c :
  send_loop fuel bytes bytes_sent wire calls = Some (e, w, c) -> e = AllSent.
Proof.
  revert bytes_sent wire calls. induction fuel as [|fuel IH]; intros bytes_sent wire calls;
    cbn [send_loop]; destruct (Nat.ltb_spec bytes_sent (String.length bytes)) as [Hlt|];
    cbn [negb]; try (by intros [= <- _ _]); try done.
  rewrite peer_stays. destruct (write_progress calls (String.length bytes - bytes_sent)) as [[m ->]| ->]; [lia|..];
    apply IH.
Qed.

Lemma send_bytes_reliable `{Kernel, !KernelLaws, !ReliableSend} bytes wire calls :
  exists calls', send_bytes bytes wire calls = Some (Expected tt, wire +:+ bytes, calls').
Proof.
  pose proof (send_bytes_spec bytes wire calls) as Hspec.
  destruct (send_bytes bytes wire calls) as [[[r w] c]|] eqn:Hs.
  - destruct Hspec as (_ & _ & _ & Hok). exists c. assert (r = Expected tt) as ->; [|by rewrite Hok].
    unfold send_bytes in Hs. destruct (send_loop _ _ _ _ _) as [[[e w'] c']|] eqn:Hl; [|done].
    apply send_loop_reliable in Hl as ->. by injection Hs as <-.
  - destruct Hspec as [i Hi]. by rewrite peer_stays in Hi.
Qed.

Lemma perfect_kernel_writes : @ReliableWrites perfect_kernel.
Proof. intros i [|n] Hn; [lia|]. left. by exists n. Qed.

Lemma perfect_kernel_sends : @ReliableSend perfect_kernel.
Proof. split; [exact perfect_kernel_writes|done]. Qed.

(** ** The processor as a service *)

(** [W] is what the threads share: the processor, the sessions and the stop
    request.  Each operation is a call with the wait for its result; [None]
    means that the future is never ready. *)
Class CommandService (W : Type) := {
  stop_requested : W -> bool;
  register_client : Z -> nat -> M W unit;
  unregister_client : Z -> M W unit;
  submit : Z -> Command -> M W Response;
  register_replica : Z -> M W ReplicaRegistration;
  acknowledge_replica : Z -> Z -> M W unit;
  apply_replication : Command -> Z -> M W Response;
  replication_offset : M W Z;
  install_replication_state : string -> Z -> M W unit;
  session_frames : nat -> W -> nat;
  clear_session : nat -> M W (expected unit string);
  pop_session : nat -> M W (option PubSubFrame);
  wait_frame : nat -> M W (option ReplicationFrame);
  close_replica : nat -> M W unit;
}.

(** What a replica's reader relies on: the offset is that of the processor, and
    a command of the stream that is applied without an error moves it by the
    bytes of its frame. *)
Definition streamed (command : Command) : Prop :=
  match command with
  | [] => False
  | name :: _ => name <> "BLPOP" /\ name <> "XREAD" /\ name <> "WAIT"
  end.

Class ServiceOffset (W : Type) `{CommandService W} := {
  follows : W -> Prop;
  offset_of : W -> Z;
  replication_offset_spec w r w' :
    follows w -> replication_offset w = Some (r, w') ->
    r = offset_of w /\ offset_of w' = offset_of w /\ follows w';
  apply_replication_spec command n w r w' :
    follows w -> streamed command -> apply_replication command n w = Some (r, w') ->
    (forall e, r <> SimpleError e) -> offset_of w' = wrap_u64 (offset_of w + n) /\ follows w';
}.
