(* ===== verification/Journal.v ===== *)
(** * Logs and their replay
    (src/command_processor.cpp, [process_aof_initialization]; src/aof.cpp)

    The append-only file is a sequence of items, single commands and
    transactions.  A fresh server that replays a log whose commands rebuild some
    data ends with these data; what is appended for executed commands extends
    such a log. *)

From stdpp Require Import base option list gmap strings relations.
From Stdlib Require Import ZArith Lia.
From S2P Require Import Prelude CharConv Environment Resp StreamTypes TimeUtils.
From S2P Require Import Database DatabaseFacts Commands Dispatch DispatchFacts Replay Config.
From S2P Require Import Sessions Aof StateMonad ProcessorState Processor ProcessorRun.
From S2P Require Import ProcessorWalk Sockets.

(** ** The log *)

(** A command, or the commands of one transaction. *)
Inductive LogItem :=
| Single (c : Command)
| Block (cs : list Command).

Definition item_commands (item : LogItem) : list Command :=
  match item with Single c => [c] | Block cs => cs end.

Definition item_log (item : LogItem) : list Command :=
  match item with Single c => [c] | Block cs => ["MULTI"] :: cs ++ [["EXEC"]] end.

Definition log_commands (items : list LogItem) : list Command := concat (map item_commands items).
Definition log_lines (items : list LogItem) : list Command := concat (map item_log items).

(** The commands a log holds: writes in their normal form. *)
Definition logged_names : list string := ["SET"; "INCR"; "RPUSH"; "LPUSH"; "LPOP"; "XADD"].

Definition loggable (c : Command) : Prop :=
  command_fits c /\ exists name args, c = name :: args /\ name ∈ logged_names.

(** A file that takes what is written to it. *)
Class ReliableFile `{Kernel} := {
  file_writes :: ReliableWrites;
  file_syncs : forall i, sys_fsync i = None;
}.

Section Journal.
Context `{Clock, HashOrder, Kernel, Crypto}.

(** Without an error, a command makes the entries [e'] of the entries [e],
    whatever the clocks read and whatever the revisions. *)
Definition leads (c : Command) (e e' : gmap string Entry) : Prop :=
  forall db, entries db = e -> exists r db',
    dispatch db c = Some (r, db') /\ response_is_error r = false /\ entries db' = e'.

Inductive leads_all : list Command -> gmap string Entry -> gmap string Entry -> Prop :=
| leads_nil e : leads_all [] e e
| leads_cons c cs e1 e2 e3 : leads c e1 e2 -> leads_all cs e2 e3 -> leads_all (c :: cs) e1 e3.

(** The commands [cs] lead from no data to the entries [m]. *)
Definition rebuilds (cs : list Command) (m : gmap string Entry) : Prop := leads_all cs ∅ m.

Lemma leads_all_app cs cs' e1 e2 e3 :
  leads_all cs e1 e2 -> leads_all cs' e2 e3 -> leads_all (cs ++ cs') e1 e3.
Proof. induction 1; [done|]. intros Hrest. cbn [app]. econstructor; eauto. Qed.

Lemma leads_all_app_inv cs cs' e1 e3 :
  leads_all (cs ++ cs') e1 e3 -> exists e2, leads_all cs e1 e2 /\ leads_all cs' e2 e3.
Proof.
  revert e1. induction cs as [|c cs IH]; intros e1 Hall.
  { exists e1. split; [constructor|done]. }
  inversion Hall as [|? ? ? e2 ? Hc Hcs]; subst. destruct (IH _ Hcs) as (e & ? & ?).
  exists e. split; [by econstructor|done].
Qed.

Lemma leads_all_run cs e e' db :
  leads_all cs e e' -> entries db = e -> exists rs db',
    dispatch_all db cs = Some (rs, db') /\ Forall (fun r => response_is_error r = false) rs /\
    entries db' = e'.
Proof.
  intros Hall. revert db. induction Hall as [e|c cs e1 e2 e3 Hc _ IH]; intros db He.
  { by exists [], db. }
  destruct (Hc db He) as (r & db1 & Hd & Hr & He1). destruct (IH db1 He1) as (rs & db2 & Hrun & ? & ?).
  exists (r :: rs), db2. cbn [dispatch_all]. rewrite Hd. cbn [mbind option_bind]. rewrite Hrun.
  split_and!; [done|by constructor|done].
Qed.

Lemma dispatch_all_app db cs cs' :
  dispatch_all db (cs ++ cs') =
  ('(rs, db) ← dispatch_all db cs; '(rs', db) ← dispatch_all db cs'; Some (rs ++ rs', db)).
Proof.
  revert db. induction cs as [|c cs IH]; intros db; simpl.
  { by destruct (dispatch_all db cs') as [[rs' db']|]. }
  destruct (dispatch db c) as [[r db1]|]; simpl; [|done]. rewrite IH.
  destruct (dispatch_all db1 cs) as [[rs db2]|]; simpl; [|done].
  by destruct (dispatch_all db2 cs') as [[rs' db']|].
Qed.

(** What is logged of a command leads where the command led. *)
Lemma logged_leads `{!PostEpochClock} c db r db' :
  persistent db -> db_wf db -> sets_expiry c = false -> dispatch db c = Some (r, db') ->
  leads_all (logged c r) (entries db) (entries db') /\ persistent db' /\ db_wf db'.
Proof.
  intros Hp Hwf Hexp Hd.
  assert (dispatch_all db [c] = Some ([r], db')) as Hone by (simpl; by rewrite Hd).
  assert (forall db2, entries db2 = entries db -> exists rs2 db2',
    dispatch_all db2 (logged c r) = Some (rs2, db2') /\
    Forall (fun r => response_is_error r = false) rs2 /\ entries db2' = entries db' /\
    persistent db' /\ db_wf db') as Hrep.
  { intros db2 He. pose proof (dispatch_all_replay [c] db [r] db' db2 Hp Hwf) as Hrep.
    unfold log_of in Hrep. cbn [zip_with concat] in Hrep. rewrite app_nil_r in Hrep.
    by apply Hrep; [apply Forall_singleton|..]. }
  destruct (Hrep db eq_refl) as (_ & _ & _ & _ & _ & Hpw). split; [|done].
  unfold logged in *. destruct (is_write_command c && write_modified_database c r).
  - apply (leads_cons _ _ _ (entries db')); [|constructor]. intros db2 He.
    destruct (Hrep db2 He) as (rs2 & db2' & Hall & Hok & He2 & _). cbn [dispatch_all] in Hall.
    apply bind_Some in Hall as ([r2 dbx] & Hd2 & Hret). injection Hret as <- <-.
    rewrite Forall_singleton in Hok. by exists r2, dbx.
  - destruct (Hrep db eq_refl) as (rs2 & db2' & Hall & _ & He2 & _).
    injection Hall as _ <-. rewrite <- He2. constructor.
Qed.

(** Executed commands and what they log extend a log. *)
Lemma leads_grow `{!PostEpochClock} cs0 e0 db cs rs db' :
  leads_all cs0 e0 (entries db) -> persistent db -> db_wf db ->
  Forall (fun c => sets_expiry c = false) cs -> dispatch_all db cs = Some (rs, db') ->
  leads_all (cs0 ++ log_of cs rs) e0 (entries db') /\ persistent db' /\ db_wf db'.
Proof.
  intros Hreb Hp Hwf Hexp. revert cs0 db rs Hreb Hp Hwf.
  induction Hexp as [|c cs Hc _ IH]; intros cs0 db rs Hreb Hp Hwf Hrun; cbn [dispatch_all] in Hrun.
  { injection Hrun as <- <-. by rewrite app_nil_r. }
  apply bind_Some in Hrun as ([r db1] & Hd & Hrun).
  apply bind_Some in Hrun as ([rs' dbx] & Hall & Hret). injection Hret as <- <-.
  destruct (logged_leads c db r db1 Hp Hwf Hc Hd) as (Hlead & Hp1 & Hwf1).
  unfold log_of. cbn [zip_with concat]. rewrite app_assoc.
  apply (IH _ db1); [|done..]. by eapply leads_all_app.
Qed.

(** ** Replaying a log *)

Lemma write_dispatched c k from s (t : option TransactionState) :
  (exists name args, c = name :: args /\ name ∈ write_names) -> _transactions s !! k = t ->
  process_command k c from s =
  match t with
  | Some t => Some (SimpleString "QUEUED", set_transactions (<[k :=
      mkTransactionState (queued_commands t ++ [c]) (has_error t)]> (_transactions s)) s)
  | None => try_database (fun db => dispatch db c) s
  end.
Proof.
  intros (name & args & -> & Hname) Ht. unfold process_command, mbind, M_bind, gets.
  rewrite Ht. unfold write_names in Hname. rewrite !elem_of_cons, elem_of_nil in Hname.
  destruct_or! Hname; subst name; cbn [String.eqb Ascii.eqb Bool.eqb];
    rewrite ?andb_false_r; by destruct t.
Qed.

Lemma loggable_write c : loggable c -> exists name args, c = name :: args /\ name ∈ write_names.
Proof.
  intros (_ & name & args & -> & Hname). exists name, args. split; [done|].
  unfold logged_names, write_names in *. set_solver.
Qed.

(** A server about to replay its file. *)
Definition ready_to_replay (s : ProcessorState) : Prop :=
  _transactions s !! aof_client_id = None /\ _watched_keys s !! aof_client_id = None.

Lemma try_dispatch_run c s r db' :
  dispatch (_database s) c = Some (r, db') ->
  try_database (fun db => dispatch db c) s = Some (r, set_database db' s).
Proof. intros Hd. unfold try_database. by rewrite Hd. Qed.

Lemma run_transaction_silent cs data s rs db' :
  dispatch_all (_database s) cs = Some (rs, db') ->
  run_transaction false cs data s = Some ((rs, data), set_database db' s).
Proof.
  revert data s rs. induction cs as [|c cs IH]; intros data s rs; simpl.
  { intros [= <- <-]. by destruct s. }
  intros ([r db1] & Hd & Hrest)%bind_Some.
  apply bind_Some in Hrest as ([rs' dbx] & Hall & [= <- <-]).
  unfold mbind, M_bind. rewrite (try_dispatch_run c s r db1 Hd).
  by rewrite (IH data (set_database db1 s) rs' Hall).
Qed.

(** The commands of a block are queued. *)
Lemma replay_queue cs s q rest :
  Forall loggable cs -> _transactions s !! aof_client_id = Some (mkTransactionState q false) ->
  replay_commands (cs ++ rest) s =
  replay_commands rest (set_transactions (<[aof_client_id := mkTransactionState (q ++ cs) false]>
    (_transactions s)) s).
Proof.
  intros Hall. revert s q. induction Hall as [|c cs Hc _ IH]; intros s q Hs.
  { simpl. rewrite app_nil_r, insert_id by done. by destruct s. }
  cbn [app replay_commands]. unfold mbind, M_bind.
  rewrite (write_dispatched c _ _ s _ (loggable_write c Hc) Hs). cbn [queued_commands has_error].
  rewrite (IH _ (q ++ [c])) by (simpl; apply lookup_insert_eq). simpl.
  by rewrite <- app_assoc, insert_insert_eq.
Qed.

Lemma exec_replayed s cs rs db' :
  _transactions s !! aof_client_id = Some (mkTransactionState cs false) ->
  _watched_keys s !! aof_client_id = None -> cs <> [] ->
  dispatch_all (_database s) cs = Some (rs, db') ->
  process_command aof_client_id ["EXEC"] AOF s = Some (ResponseArray rs,
    set_database db' (set_watched_keys (delete aof_client_id (_watched_keys s))
      (set_transactions (delete aof_client_id (_transactions s)) s))).
Proof.
  intros Ht Hw Hcs Hall.
  unfold process_command, mbind, M_bind, gets. cbn [String.eqb Ascii.eqb Bool.eqb].
  rewrite andb_false_r. unfold execute_transaction, mbind, M_bind, gets. rewrite Ht.
  unfold watched_list. rewrite Hw. cbn [watched_changed]. unfold mret, M_ret.
  unfold commit_transaction, mbind, M_bind, modify, gets. cbn [has_error queued_commands].
  destruct cs as [|c cs]; [done|]. cbn [length Nat.eqb].
  rewrite (bool_decide_eq_false_2 (AOF = CLIENT)), (bool_decide_eq_false_2 (AOF <> AOF)) by auto.
  rewrite !andb_false_r. cbn [orb].
  rewrite (run_transaction_silent _ _ _ rs db') by (simpl; done). done.
Qed.

Definition item_ok (item : LogItem) : Prop :=
  item_commands item <> [] /\ Forall loggable (item_commands item).

Lemma item_log_fits item : item_ok item -> Forall command_fits (item_log item).
Proof.
  intros [_ Hok].
  assert (Forall command_fits (item_commands item)) as Hc
    by (eapply List.Forall_impl; [|exact Hok]; by intros c []).
  destruct item as [c|cs]; [done|]. constructor; [split; [done|by repeat constructor]|].
  apply Forall_app. split; [done|]. apply Forall_singleton. split; [done|by repeat constructor].
Qed.

Lemma log_lines_fit items : Forall item_ok items -> Forall command_fits (log_lines items).
Proof.
  induction 1 as [|item items Hi _ IH]; [constructor|]. unfold log_lines. cbn [map concat].
  apply Forall_app. split; [by apply item_log_fits|done].
Qed.

Lemma set_database_same_fields db s :
  set_database db (set_watched_keys (_watched_keys s) (set_transactions (_transactions s) s))
  = set_database db s.
Proof. by destruct s. Qed.

Lemma replay_item item s rs db' rest :
  ready_to_replay s -> item_ok item ->
  dispatch_all (_database s) (item_commands item) = Some (rs, db') ->
  Forall (fun r => response_is_error r = false) rs ->
  replay_commands (item_log item ++ rest) s = replay_commands rest (set_database db' s).
Proof.
  intros [Ht Hw] [Hne Hlog] Hall Hok. destruct item as [c|cs];
    cbn [item_commands item_log app replay_commands dispatch_all] in *.
  - rewrite Forall_singleton in Hlog. apply bind_Some in Hall as ([r db1] & Hd & Hret).
    injection Hret as <- <-. rewrite Forall_singleton in Hok. unfold mbind, M_bind.
    rewrite (write_dispatched c _ _ s None (loggable_write c Hlog) Ht), (try_dispatch_run c s r db1 Hd).
    by destruct r.
  - unfold mbind, M_bind.
    assert (process_command aof_client_id ["MULTI"] AOF s = Some (SimpleString "OK",
      set_transactions (<[aof_client_id := mkTransactionState [] false]> (_transactions s)) s))
      as Hmulti.
    { unfold process_command, mbind, M_bind, gets. cbn [String.eqb Ascii.eqb Bool.eqb].
      by rewrite andb_false_r, Ht. }
    rewrite Hmulti, <- app_assoc. cbn [app].
    rewrite (replay_queue cs _ []) by (done || (simpl; apply lookup_insert_eq)). cbn [app].
    cbn [replay_commands]. unfold mbind, M_bind.
    erewrite (exec_replayed _ cs rs db'); [|simpl; apply lookup_insert_eq|done..].
    simpl. rewrite !insert_insert_eq, delete_insert_id, (delete_id (_watched_keys s)) by done.
    by rewrite <- (set_database_same_fields db' s).
Qed.

Lemma replay_log items s rs db' :
  ready_to_replay s -> Forall item_ok items ->
  dispatch_all (_database s) (log_commands items) = Some (rs, db') ->
  Forall (fun r => response_is_error r = false) rs ->
  replay_commands (log_lines items) s = Some (None, set_database db' s).
Proof.
  intros Hready Hitems. revert s rs Hready. induction Hitems as [|item items Hitem _ IH];
    intros s rs Hready; unfold log_commands, log_lines; cbn [map concat].
  { intros [= <- <-] _. by destruct s. }
  rewrite dispatch_all_app. intros ([rs1 db1] & Hall1 & Hrest)%bind_Some Hok.
  apply bind_Some in Hrest as ([rs2 dbx] & Hall2 & Hret). injection Hret as <- <-.
  apply Forall_app in Hok as [Hok1 Hok2].
  rewrite (replay_item item s rs1 db1) by done. exact (IH (set_database db1 s) rs2 Hready Hall2 Hok2).
Qed.

(** The start from a file that holds a log. *)
Lemma initialization_replays file items (s : ProcessorState) m p :
  ready_to_replay s -> entries (_database s) = ∅ -> Forall item_ok items ->
  rebuilds (log_commands items) m ->
  exists s', process_aof_initialization file (log_lines items) p s = Some (tt, s') /\
    entries (_database s') = m /\ _aof_file s' = Some file /\
    completed s' = completed s ++ [(p, AofInitialized (Expected tt))] /\
    _tasks s' = _tasks s /\ _transactions s' = delete aof_client_id (_transactions s) /\
    _pending_list_pops s' = _pending_list_pops s /\
    _pending_stream_reads s' = _pending_stream_reads s /\ _pending_waits s' = _pending_waits s.
Proof.
  intros Hready Hempty Hitems Hreb.
  destruct (leads_all_run _ _ _ (_database s) Hreb Hempty) as (rs & db' & Hall & Hok & Hm).
  unfold process_aof_initialization, mbind, M_bind.
  rewrite (replay_log items s rs db' Hready Hitems Hall Hok). unfold gets.
  destruct Hready as [Ht _]. simpl. rewrite Ht. by eexists.
Qed.

(** ** What is logged *)

Lemma id_to_string_fits i : id_fits i -> argument_fits (id_to_string i).
Proof.
  intros [Hm Hs]. unfold argument_fits, size_of, id_to_string.
  rewrite !string_length_app. simpl.
  pose proof (to_string_length_bound _ Hm). pose proof (to_string_length_bound _ Hs).
  unfold u64_max. lia.
Qed.

Lemma xadd_response_fits `{!PostEpochClock} db args v db' :
  persistent db -> db_wf db -> dispatch db ("XADD" :: args) = Some (BulkString v, db') ->
  argument_fits v.
Proof.
  intros Hp Hwf Hd. change (xadd db ("XADD" :: args) = Some (BulkString v, db')) in Hd.
  unfold xadd in Hd. destruct (length ("XADD" :: args) <? 5)%nat; [done|].
  destruct args as [|key [|idt rest]]; [done..|]. cbn [nth skipn] in Hd. rewrite drop_0 in Hd.
  destruct (parse_id idt) as [rq|] eqn:Hid; [|done]. apply parse_id_fits in Hid.
  destruct (bool_decide (mode rq = EXPLICIT) && _ && _) eqn:Hzero; [done|].
  destruct (parse_value_list rest) as [vs|]; [|done].
  destruct (add_stream key rq vs db) as [[i|e] db1] eqn:Ha; [|by destruct e].
  simplify_eq.
  destruct (add_stream_replay key rq vs db db i db' Hp Hwf Hid) as (_ & _ & Hfit & _); [|done..|].
  - intros He [= Hms Hsq]. by rewrite bool_decide_eq_true_2, Hms, Hsq in Hzero.
  - by apply id_to_string_fits.
Qed.

(** The logged form of a command is one a log may hold. *)
Lemma logged_loggable `{!PostEpochClock} db c r db' :
  persistent db -> db_wf db -> command_fits c -> dispatch db c = Some (r, db') ->
  Forall loggable (logged c r).
Proof.
  intros Hp Hwf [Hlen Hfit] Hd. unfold logged.
  destruct (is_write_command c) eqn:Hw; [|constructor].
  destruct (write_modified_database c r); [|constructor]. cbn [andb]. apply Forall_singleton.
  destruct c as [|name args]; [done|]. rewrite is_write_names in Hw.
  apply bool_decide_eq_true in Hw. unfold write_names in Hw.
  rewrite !elem_of_cons, elem_of_nil in Hw.
  assert (name ∈ logged_names -> loggable (name :: args)) as Hsame.
  { intros Hn. split; [done|]. by exists name, args. }
  destruct_or! Hw; subst name; try (by apply Hsame; unfold logged_names; set_solver).
  - split; [|exists "LPOP", [arg ("BLPOP" :: args) 1]; split; [done|];
             unfold logged_names; set_solver].
    split; [done|]. repeat constructor; [done|].
    destruct args as [|key args]; [done|]. by apply Forall_cons in Hfit as [_ [? _]%Forall_cons].
  - unfold normalize_replication_command.
    change (String.eqb (arg ("XADD" :: args) 0) "XADD") with true. cbv iota.
    destruct r; try (by apply Hsame; unfold logged_names; set_solver).
    apply xadd_response_fits in Hd; [|done..]. cbn [insert list_insert].
    change (String.eqb (arg ("XADD" :: ?x) 0) "BLPOP") with false. cbv iota.
    split; [|eexists _, _; split; [done|]; unfold logged_names; set_solver].
    change (Z.of_nat (length ("XADD" :: <[1%nat := value]> args)) <= u64_max /\
      Forall argument_fits ("XADD" :: <[1%nat := value]> args)).
    split; [by rewrite length_cons, length_insert|].
    apply Forall_cons in Hfit as [Hx Hargs]. constructor; [done|]. by apply Forall_insert.
Qed.

Lemma log_of_loggable `{!PostEpochClock} cs db rs db' :
  persistent db -> db_wf db -> Forall (fun c => command_fits c /\ sets_expiry c = false) cs ->
  dispatch_all db cs = Some (rs, db') -> Forall loggable (log_of cs rs).
Proof.
  revert db rs. induction cs as [|c cs IH]; intros db rs Hp Hwf Hcs Hrun.
  { simpl in Hrun. simplify_eq. constructor. }
  apply Forall_cons in Hcs as [[Hc Hexp] Hcs]. simpl in Hrun.
  apply bind_Some in Hrun as ([r db1] & Hd & Hrun).
  apply bind_Some in Hrun as ([rs' dbx] & Hall & Hrun). simplify_eq.
  unfold log_of. cbn [zip_with concat]. apply Forall_app. split; [by eapply logged_loggable|].
  assert (dispatch_all db [c] = Some ([r], db1)) as Hone by (simpl; by rewrite Hd).
  destruct (dispatch_all_replay [c] db [r] db1 db) as (_ & _ & _ & _ & _ & Hp1 & Hwf1);
    [done|done|by apply Forall_singleton|done|done|].
  by eapply (IH db1).
Qed.

(** ** Appending *)

Lemma append_loop_reliable `{!ReliableWrites} fuel data written file calls e f c :
  append_loop fuel data written file calls = Some (e, f, c) -> e = None.
Proof.
  revert written file calls. induction fuel as [|fuel IH]; intros written file calls;
    cbn [append_loop]; destruct (Nat.ltb_spec written (String.length data)) as [Hlt|];
    cbn [negb]; try (by intros [= <- _ _]); try done.
  destruct (write_progress calls (String.length data - written)) as [[m ->]| ->]; [lia|..];
    apply IH.
Qed.

Lemma append_reliable `{!KernelLaws, !ReliableFile} data file calls reads :
  exists file' calls' reads', append data file calls reads = Some (Expected tt, file', calls', reads') /\
    contents file' = contents file +:+ data.
Proof.
  destruct (append_spec data file calls reads)
    as (r & file' & calls' & reads' & Happ & _ & _ & _ & _ & Hok).
  assert (r = Expected tt) as ->; [|by eauto 6].
  unfold append in Happ. apply bind_Some in Happ as ([[e f] c] & Hloop & Happ).
  apply append_loop_reliable in Hloop as ->. unfold sync in Happ.
  rewrite !file_syncs in Happ. by repeat case_match; simplify_eq.
Qed.
End Journal.
