(* ===== verification/WriteLog.v ===== *)
(** * Every write reaches the log
    (src/command_processor.cpp)

    A write is appended to the append-only file and to the backlog of the
    replicas, at several places of the worker.  The invariant of this file is
    about either of the two: at every instant what was written to it is a log of
    commands and transactions, and this log leads from the data at its
    beginning to the data of the server.  It holds under any interleaving of clients, blocked operations,
    transactions and replication, as long as no expiry is set and the file takes
    what is written to it. *)

From stdpp Require Import base option list gmap strings relations.
From Stdlib Require Import ZArith Lia.
From S2P Require Import Prelude CharConv Environment Resp StreamTypes TimeUtils.
From S2P Require Import Database DatabaseFacts Commands Dispatch DispatchFacts Replay Config.
From S2P Require Import Sessions Aof StateMonad ProcessorState Processor ProcessorRun.
From S2P Require Import ProcessorWalk Sockets Journal.

(** Where the writes go: to the file, or to the backlog after what it held when
    the data were [base]. *)
Inductive Sink := ToFile | ToBacklog (before : list ReplicationFrame) (base : gmap string Entry).

(** The data a log starts from. *)
Definition base_of (sink : Sink) : gmap string Entry :=
  match sink with ToFile => ∅ | ToBacklog _ base => base end.

Definition getack : Command := ["REPLCONF"; "GETACK"; "*"].

(** Frames that carry a log: an item each, but for the requests for an
    acknowledgement. *)
Inductive carries : list ReplicationFrame -> list LogItem -> Prop :=
| carries_nil : carries [] []
| carries_getack frames items f :
    carries frames items -> payload f = serialize_command getack -> carries (frames ++ [f]) items
| carries_item frames items f item :
    carries frames items -> payload f = log_bytes (item_log item) ->
    carries (frames ++ [f]) (items ++ [item]).

Section Invariant.
Context `{Clock, HashOrder, Kernel, Crypto} (sink : Sink).

(** ** What the processor holds *)

(** The sources whose writes are recorded. *)
Definition recorded (from : CommandSource) : Prop :=
  match sink with ToFile => from <> AOF | ToBacklog _ _ => from = CLIENT end.

Definition plain (c : Command) : Prop := command_fits c /\ sets_expiry c = false.

(** The calls considered: no expiry is set, and the server has been started. *)
Definition request_ok (r : Request) : Prop :=
  match r with
  | Submit _ c => plain c
  | ApplyReplication c _ => plain c /\ sink = ToFile
  | LoadRdbEntries _ | InitializeAof _ _ => False
  | _ => True
  end.

Definition task_ok (task : ProcessorTask) : Prop :=
  match task with
  | CommandTask t => plain (task_command t) /\ recorded (source t)
  | LoadRdbTask _ _ | InitializeAofTask _ _ _ => False
  | _ => True
  end.

Definition pop_ok (p : PendingListPop) : Prop :=
  argument_fits (pending_key p) /\ recorded (source (pop_task p)).

Definition held (s : ProcessorState) : Prop :=
  Forall task_ok (_tasks s) /\
  (forall k t, _transactions s !! k = Some t -> Forall plain (queued_commands t)) /\
  Forall pop_ok (_pending_list_pops s).

(** What was written is the log of these items. *)
Definition written (s : ProcessorState) (items : list LogItem) : Prop :=
  match sink with
  | ToFile => exists file, _aof_file s = Some file /\ contents file = log_bytes (log_lines items)
  | ToBacklog before _ => role (_replication_state s) = MASTER /\
      exists frames, _replication_backlog s = before ++ frames /\ carries frames items
  end.

(** It leads to the data. *)
Definition journaled (s : ProcessorState) : Prop :=
  exists items, written s items /\ Forall item_ok items /\
    leads_all (log_commands items) (base_of sink) (entries (_database s)) /\
    persistent (_database s) /\ db_wf (_database s).

Definition good (s : ProcessorState) : Prop := journaled s /\ held s.

(** The log is not touched. *)
Definition same_log (s s' : ProcessorState) : Prop :=
  match sink with
  | ToFile => _aof_file s' = _aof_file s
  | ToBacklog _ _ => _replication_backlog s' = _replication_backlog s /\
      role (_replication_state s') = role (_replication_state s)
  end.

#[export] Instance same_log_preorder : PreOrder same_log.
Proof.
  split; unfold same_log; [by intros s; destruct sink|]. intros s1 s2 s3.
  destruct sink; [congruence|]. intros [? ?] [? ?]. split; congruence.
Qed.

Lemma written_frame s s' items : same_log s s' -> written s items -> written s' items.
Proof. unfold same_log, written. destruct sink; [by intros ->|]. by intros [-> ->]. Qed.

Lemma journaled_frame s s' :
  entries (_database s') = entries (_database s) -> same_log s s' -> journaled s -> journaled s'.
Proof.
  intros He Hl (items & Hw & Hok & Hreb & Hp & Hwf). exists items.
  split; [by eapply written_frame|]. unfold persistent, db_wf in *. by rewrite He.
Qed.

Lemma held_frame s s' :
  _tasks s' = _tasks s ->
  (forall k t, _transactions s' !! k = Some t ->
     _transactions s !! k = Some t \/ Forall plain (queued_commands t)) ->
  (forall p, p ∈ _pending_list_pops s' -> p ∈ _pending_list_pops s \/ pop_ok p) ->
  held s -> held s'.
Proof.
  intros Ht Htr Hp (Hs1 & Hs2 & Hs3). split_and!.
  - by rewrite Ht.
  - intros k t Hk. destruct (Htr k t Hk); [by eapply Hs2|done].
  - rewrite Forall_forall in Hs3 |- *. intros p Hin. destruct (Hp p Hin); auto.
Qed.

Lemma held_same s s' :
  _tasks s' = _tasks s -> _transactions s' = _transactions s ->
  _pending_list_pops s' = _pending_list_pops s -> held s -> held s'.
Proof. unfold held. by intros -> -> ->. Qed.

(** ** Actions that write nothing *)

(** At most expired entries go, and nothing the invariant speaks of changes. *)
Definition calm (s s' : ProcessorState) : Prop :=
  quiet (_database s) (_database s') /\ same_log s s' /\ _tasks s' = _tasks s /\
  _transactions s' = _transactions s /\ _pending_list_pops s' = _pending_list_pops s.

#[export] Instance calm_preorder : PreOrder calm.
Proof.
  split; unfold calm.
  - intros s. split; [reflexivity|]. split; [reflexivity|done].
  - intros a b c (Q1 & F1 & T1 & R1 & P1) (Q2 & F2 & T2 & R2 & P2).
    split; [by etrans|]. split; [by etrans|]. split_and!; congruence.
Qed.

(** What the sinks and the calls waiting depend on, but for the data. *)
Definition outline (s : ProcessorState) :=
  (_aof_file s, _replication_backlog s, role (_replication_state s), _tasks s, _transactions s,
   _pending_list_pops s).

Lemma calm_outline s s' :
  quiet (_database s) (_database s') -> outline s' = outline s -> calm s s'.
Proof.
  unfold outline. intros Hq [= Ha Hb Hr Ht Htr Hp]. split; [done|].
  split; [|done]. unfold same_log. by destruct sink.
Qed.

Lemma calm_same s s' : _database s' = _database s -> outline s' = outline s -> calm s s'.
Proof. intros Hd. apply calm_outline. rewrite Hd. reflexivity. Qed.

Lemma calm_good s s' : calm s s' -> keeps good s s'.
Proof.
  intros (Hq & Hf & Ht & Htr & Hp) [Hj Hh]. split; [|by eapply held_same].
  pose proof Hj as (_ & _ & _ & _ & Hper & _).
  eapply journaled_frame; [by apply quiet_persistent|done|done].
Qed.

Lemma calm_steps {A} (m : P A) : steps calm m -> steps (keeps good) m.
Proof. intros Hm s x s' Hrun. by eapply calm_good, Hm. Qed.

Lemma on_database_calm {A} (op : Database -> A * Database) :
  (forall db, quiet db (op db).2) -> steps calm (on_database op).
Proof.
  intros Hop s x s'. unfold on_database. specialize (Hop (_database s)).
  destruct (op (_database s)). intros [= <- <-]. by apply calm_outline.
Qed.

Lemma leaves_calm :
  (forall a f, steps calm (enqueue_frame a f)) /\
  (forall t, steps calm (count_acknowledged_replicas t)) /\
  (forall c ch, steps calm (subscribe_channel c ch)) /\
  (forall c ch, steps calm (remove_subscription c ch)) /\
  (forall p v, steps calm (complete p v)) /\
  (forall c p, steps calm (process_replica_registration c p)).
Proof.
  split_and!; try (by intros; intros s x s' [= <- <-]; apply calm_same).
  - intros a f s x s'. unfold enqueue_frame. intros (x0 & _ & Hb)%bind_Some.
    apply bind_Some in Hb as ([[r x'] n] & _ & [= <- <-]). by apply calm_same.
  - intros c ch s x s'. unfold remove_subscription. intros Hr.
    repeat (case_match; simplify_eq/=); by apply calm_same.
Qed.

Lemma enqueue_frame_calm a f : steps calm (enqueue_frame a f).
Proof. apply leaves_calm. Qed.
Lemma count_acknowledged_calm t : steps calm (count_acknowledged_replicas t).
Proof. apply leaves_calm. Qed.
Lemma subscribe_channel_calm c ch : steps calm (subscribe_channel c ch).
Proof. apply leaves_calm. Qed.
Lemma remove_subscription_calm c ch : steps calm (remove_subscription c ch).
Proof. apply leaves_calm. Qed.
Lemma complete_calm p v : steps calm (complete p v).
Proof. apply leaves_calm. Qed.
Lemma respond_calm task r : steps calm (respond task r).
Proof. apply complete_calm. Qed.

#[local] Hint Resolve enqueue_frame_calm count_acknowledged_calm subscribe_channel_calm
  remove_subscription_calm complete_calm respond_calm key_revision_quiet read_streams_quiet
  quiet_tick : steps.
#[local] Hint Extern 1 (steps calm (modify _)) =>
  apply steps_modify; intros; repeat case_match; by apply calm_same : steps.
#[local] Hint Extern 1 (steps calm (on_database _)) =>
  apply on_database_calm; intros; solve [auto with steps] : steps.

Lemma route_calm c r : steps calm (route_pubsub_response c r).
Proof. unfold route_pubsub_response, enqueue_pubsub_response. solve_steps. Qed.

Lemma pubsub_calm c command :
  steps calm (subscribe c command) /\ steps calm (unsubscribe c command) /\
  steps calm (publish command).
Proof.
  unfold subscribe, unsubscribe, publish, lock_client_session, queue_acknowledgement,
    unsubscribe_channel, publish_to. split_and!; solve_steps. 
Qed.

Lemma accounts_calm c command :
  steps calm (authenticate c command) /\ steps calm (process_acl_command c command) /\
  steps calm (config_get command) /\ steps calm (watch c command).
Proof.
  unfold authenticate, process_acl_command, acl_whoami, acl_getuser, acl_setuser, config_get,
    watch, watch_key. split_and!; solve_steps.
Qed.
#[local] Hint Resolve route_calm : steps.

(** ** Writes reach the file *)

Section Writes.
Context `{!PostEpochClock, !KernelLaws, !ReliableFile}.

Lemma plain_expiry cs : Forall plain cs -> Forall (fun c => sets_expiry c = false) cs.
Proof. apply List.Forall_impl. by intros c []. Qed.

(** Appending a frame. *)
Lemma append_frame_outline data s x s' :
  append_replication_frame data s = Some (x, s') ->
  _database s' = _database s /\ exists f, payload f = data /\
    outline s' = (_aof_file s, _replication_backlog s ++ [f], role (_replication_state s), _tasks s,
      _transactions s, _pending_list_pops s).
Proof.
  unfold append_replication_frame. intros ([] & s1 & Hm & Hrun)%M_bind_Some. injection Hm as <-.
  apply M_bind_Some in Hrun as (o & s1 & Hg & Hrun). injection Hg as <- <-.
  apply M_bind_Some in Hrun as ([] & s1 & Hm & Hrun). injection Hm as <-.
  apply M_bind_Some in Hrun as (l & s1 & Hg & Hrun). injection Hg as <- <-.
  apply M_bind_Some in Hrun as (kept & s1 & Hk & Hrun). injection Hrun as _ <-.
  eapply (steps_keepM (same (fun s => (_database s, outline s)))) in Hk.
  2: { intros a. apply steps_bind_gets. intros s2.
       destruct (replica_heap s2 !! a); [|apply steps_ret; apply _].
       apply steps_bind; [apply _|by apply steps_modify|]. intros _. apply steps_ret; apply _. }
  unfold same in Hk. injection Hk as Hd Ha Hb Hr Ht Htr Hp. split; [exact Hd|].
  eexists. split; [|unfold outline; cbn; rewrite Ha, Hb, Hr, Ht, Htr, Hp; reflexivity]. done.
Qed.

(** A request for an acknowledgement is no write. *)
Lemma getack_good : steps (keeps good) (append_replication_frame (serialize_command getack)).
Proof.
  intros s x s' Hrun [(items & Hw & Hok & Hreb & Hp & Hwf) Hh].
  apply append_frame_outline in Hrun as (Hd & f & Hf & Ho).
  unfold outline in Ho. injection Ho as Ha Hb Hr Ht Htr Hpops.
  split; [|by eapply held_same]. exists items. rewrite Hd. split; [|done].
  unfold written in *. destruct sink as [|before base]; [by rewrite Ha|].
  destruct Hw as [Hrole (frames & Hlog & Hc)]. rewrite Hr, Hb, Hlog. split; [done|].
  exists (frames ++ [f]). split; [by rewrite app_assoc|by apply carries_getack].
Qed.

Lemma append_aof_reliable data s r s' :
  append_aof data s = Some (r, s') -> r = Expected tt /\ entries (_database s') = entries (_database s) /\
  exists file file', _aof_file s = Some file /\ contents file' = contents file +:+ data /\
    outline s' = (Some file', _replication_backlog s, role (_replication_state s), _tasks s,
      _transactions s, _pending_list_pops s).
Proof.
  unfold append_aof. intros (file & Hf & Hrun)%bind_Some. cbn zeta in Hrun.
  destruct (append_reliable data file (io_calls s) (clock_reads (_database s)))
    as (file' & calls & reads & Happ & Hc). rewrite Happ in Hrun. injection Hrun as <- <-.
  split; [done|]. split; [done|]. by exists file, file'.
Qed.

(** The log after one more item, for what some commands did: appended to the
    file when writes are persisted, then queued for the replicas. *)
Lemma write_recorded (persist replicate : bool) c cs rs db' item s r s1 :
  good s -> Forall plain cs -> dispatch_all (_database s) cs = Some (rs, db') ->
  item_commands item = log_of cs rs -> item_ok item ->
  match sink with ToFile => persist = true | ToBacklog _ _ => replicate = true end ->
  (if persist then append_aof (log_bytes (item_log item)) else mret (Expected tt))
    (set_database db' s) = Some (r, s1) ->
  r = Expected tt /\ forall x s2,
    (if replicate then append_client_replication_frame c (log_bytes (item_log item)) else mret tt)
      s1 = Some (x, s2) -> good s2.
Proof.
  intros [(old & Hw & Hok & Hreb & Hper & Hwf) Hheld] Hcs Hrun Hitem Hnew Hsink Happ.
  destruct (leads_grow (log_commands old) _ (_database s) cs rs db' Hreb Hper Hwf)
    as (Hreb' & Hper' & Hwf'); [by apply plain_expiry|done|].
  assert (r = Expected tt /\ entries (_database s1) = entries db' /\ _tasks s1 = _tasks s /\
    _transactions s1 = _transactions s /\ _pending_list_pops s1 = _pending_list_pops s /\
    match sink with
    | ToFile => written s1 (old ++ [item])
    | ToBacklog _ _ => written s1 old
    end) as (-> & He & Ht & Htr & Hp & Hw1).
  { destruct persist.
    - apply append_aof_reliable in Happ as (-> & He & file & file' & Hf & Hc & Ho).
      unfold outline in Ho. injection Ho as Ha Hb Hr Ht Htr Hp. simpl in *. split_and!; try done.
      unfold written in *. destruct sink; [|by rewrite Hb, Hr].
      destruct Hw as (file0 & Hf0 & Hc0). exists file'. split; [done|].
      unfold log_lines. rewrite map_app, concat_app, log_bytes_app. cbn [map concat].
      rewrite app_nil_r, Hc. simplify_eq. by rewrite Hc0.
    - injection Happ as <- <-. split_and!; try done. by destruct sink. }
  split; [done|]. intros x s2 Hframe.
  assert (leads_all (log_commands (old ++ [item])) (base_of sink) (entries db')) as Hreb2.
  { unfold log_commands. rewrite map_app, concat_app. cbn [map concat].
    by rewrite app_nil_r, Hitem. }
  assert (entries (_database s2) = entries (_database s1) /\ _tasks s2 = _tasks s1 /\
    _transactions s2 = _transactions s1 /\ _pending_list_pops s2 = _pending_list_pops s1 /\
    written s2 (old ++ [item])) as (He2 & Ht2 & Htr2 & Hp2 & Hw2).
  { destruct replicate.
    - apply M_bind_Some in Hframe as (u & s3 & Hframe & Hm). injection Hm as _ <-.
      apply append_frame_outline in Hframe as (Hd & f & Hf & Ho).
      unfold outline in Ho. injection Ho as Ha Hb Hr Ht2 Htr2 Hp2. simpl. rewrite Hd.
      split_and!; try done. unfold written in *. simpl. destruct sink as [|before base]; [by rewrite Ha|].
      destruct Hw1 as [Hrole (frames & Hlog & Hc)]. rewrite Hr, Hb, Hlog. split; [done|].
      exists (frames ++ [f]). split; [by rewrite app_assoc|by apply carries_item].
    - injection Hframe as _ <-. split_and!; try done. by destruct sink. }
  split; [|by apply (held_same s); [by rewrite Ht2|by rewrite Htr2|by rewrite Hp2|]].
  exists (old ++ [item]). unfold persistent, db_wf in *. rewrite He2, He. split; [done|].
  split; [apply Forall_app; split; [done|by apply Forall_singleton]|done].
Qed.

(** Commands that log nothing. *)
Lemma journaled_silent cs rs db' s :
  good s -> Forall plain cs -> dispatch_all (_database s) cs = Some (rs, db') ->
  log_of cs rs = [] -> good (set_database db' s).
Proof.
  intros [(old & Hw & Hok & Hreb & Hper & Hwf) Hheld] Hcs Hrun Hlog.
  split; [|done].
  destruct (leads_grow (log_commands old) _ (_database s) cs rs db' Hreb Hper Hwf)
    as (Hreb' & Hper' & Hwf'); [by apply plain_expiry|done|].
  rewrite Hlog, app_nil_r in Hreb'. by exists old.
Qed.

Lemma logs_loggable cs rs db' s :
  good s -> Forall plain cs -> dispatch_all (_database s) cs = Some (rs, db') ->
  Forall loggable (log_of cs rs).
Proof.
  intros [(? & _ & _ & _ & Hper & Hwf) _] Hcs Hrun. by eapply log_of_loggable.
Qed.

(** A write of one of these sources is recorded. *)
Lemma good_records s from :
  good s -> recorded from ->
  let persist := bool_decide (is_Some (_aof_file s)) && bool_decide (from <> AOF) in
  let replicate := bool_decide (role (_replication_state s) = MASTER) &&
                   bool_decide (from = CLIENT) in
  match sink with ToFile => persist = true | ToBacklog _ _ => replicate = true end.
Proof.
  intros [(items & Hw & _) _] Hfrom. unfold written, recorded in *. cbn zeta.
  destruct sink; apply andb_true_iff; rewrite !bool_decide_eq_true.
  - destruct Hw as (file & Hf & _). rewrite Hf. eauto.
  - destruct Hw as [Hr _]. done.
Qed.

(** ** Transactions *)

(** The payload a transaction builds: the logged commands, after a MULTI when
    there are any. *)
Lemma run_transaction_log cs data s rs data' s' :
  run_transaction true cs data s = Some ((rs, data'), s') ->
  exists db', dispatch_all (_database s) cs = Some (rs, db') /\ s' = set_database db' s /\
    data' = match log_of cs rs with
            | [] => data
            | log => (if String.eqb data EmptyString then serialize_command ["MULTI"] else data)
                     +:+ log_bytes log
            end.
Proof.
  revert data s rs data'. induction cs as [|c cs IH]; intros data s rs data'; cbn [run_transaction].
  { intros [= <- <- <-]. exists (_database s). by destruct s. }
  intros (r & s1 & Hd & Hrun)%M_bind_Some.
  apply M_bind_Some in Hrun as ([rs' data1] & s2 & Hrun & Hret). injection Hret as <- <- <-.
  unfold try_database in Hd. apply bind_Some in Hd as ([r' db1] & Hd & Hs). injection Hs as -> <-.
  apply IH in Hrun as (db' & Hall & -> & ->). exists db'. simpl dispatch_all. rewrite Hd. simpl.
  simpl in Hall. rewrite Hall. split_and!; [done..|].
  unfold log_of. cbn [zip_with concat]. fold (log_of cs rs'). unfold logged. cbn [andb].
  destruct (is_write_command c && write_modified_database c r); [|done]. cbn [app].
  set (d := if String.eqb data EmptyString then _ else data).
  assert (String.eqb (d +:+ serialize_command (normalize_replication_command c r)) EmptyString
    = false) as Hne.
  { apply String.eqb_neq. intros Heq. apply (f_equal String.length) in Heq.
    rewrite string_length_app in Heq. simpl in Heq.
    pose proof (serialize_command_nonempty (normalize_replication_command c r)). lia. }
  destruct (log_of cs rs') as [|x log].
  - simpl. by rewrite string_app_nil_r.
  - rewrite Hne. simpl. by rewrite string_app_assoc.
Qed.

Lemma good_no_transaction c s :
  good s -> good (set_watched_keys (delete c (_watched_keys s))
    (set_transactions (delete c (_transactions s)) s)).
Proof.
  intros [Hj Hh]. split; [done|]. apply (held_frame s); [done| |intros p Hp; by left|done].
  intros k t Hk. simpl in Hk. apply lookup_delete_Some in Hk as [_ Hk]. by left.
Qed.

Lemma commit_transaction_good c from t b :
  recorded from -> Forall plain (queued_commands t) ->
  steps (keeps good) (commit_transaction c from t b).
Proof.
  intros Hfrom Hq s x s' Hrun Hgood. unfold commit_transaction in Hrun.
  apply M_bind_Some in Hrun as ([] & s1 & Hm & Hrun). injection Hm as <-.
  apply M_bind_Some in Hrun as ([] & s1 & Hm & Hrun). injection Hm as <-.
  apply (good_no_transaction c) in Hgood. simpl in Hrun.
  remember (set_watched_keys _ _) as s1 eqn:E in Hrun. rewrite <- E in Hgood. clear E.
  destruct (has_error t); [by injection Hrun as _ <-|]. destruct b; [by injection Hrun as _ <-|].
  destruct (length _ =? 0)%nat; [by injection Hrun as _ <-|].
  apply M_bind_Some in Hrun as (rep & s2 & Hg & Hrun). injection Hg as Hrep <-.
  apply M_bind_Some in Hrun as (per & s2 & Hg & Hrun). injection Hg as Hper <-.
  pose proof (good_records s1 from Hgood Hfrom) as Hsink. cbn zeta in Hsink.
  rewrite Hrep, Hper in Hsink. clear Hrep Hper.
  assert (rep || per = true) as Hrec by (destruct sink, rep, per; done). rewrite Hrec in Hrun.
  apply M_bind_Some in Hrun as ([rs data] & s2 & Htrans & Hrun).
  apply run_transaction_log in Htrans as (db' & Hall & -> & Hdata).
  destruct (log_of (queued_commands t) rs) as [|w log] eqn:Hlog.
  { subst data. injection Hrun as _ <-. by eapply journaled_silent. }
  pose proof (logs_loggable _ _ _ _ Hgood Hq Hall) as Hloggable. rewrite Hlog in Hloggable.
  assert (data +:+ serialize_command ["EXEC"] = log_bytes (item_log (Block (w :: log)))) as Hbytes.
  { rewrite Hdata. cbn [String.eqb item_log]. change (["MULTI"] :: ?l) with ([["MULTI"]] ++ l).
    rewrite !log_bytes_app. unfold log_bytes at 2 4. cbn [foldr].
    by rewrite !string_app_nil_r, !string_app_assoc. }
  assert (String.eqb data EmptyString = false) as Hne.
  { apply String.eqb_neq. rewrite Hdata. intros Heq. apply (f_equal String.length) in Heq.
    rewrite string_length_app in Heq. cbn [String.eqb] in Heq.
    pose proof (serialize_command_nonempty ["MULTI"]). simpl in Heq. lia. }
  rewrite Hne, Hbytes in Hrun.
  apply M_bind_Some in Hrun as (res & s2 & Happ & Hrun).
  destruct (write_recorded per rep c (queued_commands t) rs db' (Block (w :: log)) s1 res s2)
    as [-> Hframe]; [done..|].
  apply M_bind_Some in Hrun as ([] & s3 & Hrun & Hret). injection Hret as _ <-.
  by apply (Hframe tt).
Qed.

Lemma execute_transaction_good c from :
  recorded from -> steps (keeps good) (execute_transaction c from).
Proof.
  intros Hfrom s x s' Hrun Hgood. unfold execute_transaction in Hrun.
  apply M_bind_Some in Hrun as (tr & s1 & Hg & Hrun). injection Hg as Htr <-.
  destruct tr as [t|]; [|by injection Hrun as _ <-].
  apply M_bind_Some in Hrun as (w & s1 & Hg & Hrun). injection Hg as _ <-.
  apply M_bind_Some in Hrun as (ch & s1 & Hw & Hrun).
  assert (Forall plain (queued_commands t)) as Hq by (destruct Hgood as [_ (_ & Hh & _)]; eauto).
  eapply commit_transaction_good; [done|done|done|].
  eapply calm_good; [|done]. eapply (watched_changed_steps calm); [|done].
  intros key. apply on_database_calm, key_revision_quiet.
Qed.

(** ** Commands *)

Lemma good_transaction k t s :
  Forall plain (queued_commands t) -> good s ->
  good (set_transactions (<[k := t]> (_transactions s)) s).
Proof.
  intros Ht [Hj Hh]. split; [done|]. apply (held_frame s); [done| |intros p Hp; by left|done].
  intros k' t' Hk. simpl in Hk. apply lookup_insert_Some in Hk as [[_ <-]|[_ Hk]]; auto.
Qed.

(** A branch whose run is calm, or changes nothing. *)
Ltac calm_branch :=
  match goal with
  | Hgood : good _, Hrun : ?m _ = Some _, Hcalm : steps calm ?m |- _ =>
      exact (calm_good _ _ (Hcalm _ _ _ Hrun) Hgood)
  | Hrun : mret _ _ = Some _ |- _ => by injection Hrun as _ <-
  end.

(** A command that is queued, or that is not a write. *)
Lemma process_command_good c command from s r s' :
  recorded from -> plain command -> good s ->
  (_transactions s !! c = None -> is_write_command command = false) ->
  process_command c command from s = Some (r, s') -> good s'.
Proof.
  intros Hfrom Hplain Hgood Hread Hrun. unfold process_command in Hrun.
  destruct command as [|name args]; [by injection Hrun as _ <-|].
  apply M_bind_Some in Hrun as (sub & s1 & Hg & Hrun). injection Hg as _ <-.
  apply M_bind_Some in Hrun as (tr & s1 & Hg & Hrun). injection Hg as Htr <-.
  destruct (pubsub_calm c (name :: args)) as (Hsub & Hunsub & Hpub).
  destruct (accounts_calm c (name :: args)) as (Hauth & Hacl & Hconf & Hwatch).
  do 2 (destruct (String.eqb name _); [calm_branch|]).
  destruct (sub && _); [calm_branch|].
  do 3 (destruct (String.eqb name _); [calm_branch|]).
  destruct (String.eqb name _); [by injection Hrun as _ <-|].
  destruct (String.eqb name _); [calm_branch|].
  destruct (String.eqb name _); [calm_branch|].
  destruct (String.eqb name _); [by injection Hrun as _ <-|].
  destruct (String.eqb name _); [calm_branch|].
  destruct (String.eqb name _).
  { destruct (negb _); [by injection Hrun as _ <-|]. injection Hrun as _ <-.
    eapply calm_good; [|done]. by apply calm_same. }
  destruct (String.eqb name _).
  { destruct tr; [by injection Hrun as _ <-|]. injection Hrun as _ <-.
    by apply good_transaction. }
  destruct (String.eqb name _); [by eapply execute_transaction_good|].
  destruct (String.eqb name _).
  { destruct tr; [|by injection Hrun as _ <-]. injection Hrun as _ <-.
    by apply good_no_transaction. }
  destruct tr as [t|].
  { injection Hrun as _ <-. apply good_transaction; [|done]. simpl.
    apply Forall_app. split; [|by apply Forall_singleton].
    destruct Hgood as [_ (_ & Hh & _)]. by eapply Hh. }
  unfold try_database in Hrun. apply bind_Some in Hrun as ([r' db'] & Hd & Hs).
  injection Hs as -> <-. eapply calm_good; [|done]. apply calm_outline; [|done].
  eapply dispatch_unreported_quiet; [done|]. by rewrite (Hread Htr).
Qed.

(** A write outside a transaction, and what is appended for it. *)
Lemma dispatched_good (persist replicate : bool) c command s r db' :
  good s -> plain command -> is_write_command command = true ->
  match sink with ToFile => persist = true | ToBacklog _ _ => replicate = true end ->
  dispatch (_database s) command = Some (r, db') ->
  let data := serialize_command (normalize_replication_command command r) in
  if write_modified_database command r then
    forall res s1, (if persist then append_aof data else mret (Expected tt))
      (set_database db' s) = Some (res, s1) ->
    res = Expected tt /\ forall x s2,
      (if replicate then append_client_replication_frame c data else mret tt) s1 = Some (x, s2) ->
      good s2
  else good (set_database db' s).
Proof.
  intros Hgood Hplain Hw Hsink Hd. cbn zeta.
  assert (dispatch_all (_database s) [command] = Some ([r], db')) as Hall by (simpl; by rewrite Hd).
  assert (log_of [command] [r] = logged command r) as Hlog by apply app_nil_r.
  assert (Forall plain [command]) as Hplains by (by apply Forall_singleton).
  pose proof (logs_loggable [command] [r] db' s Hgood Hplains Hall) as Hok.
  rewrite Hlog in Hok. unfold logged in Hlog, Hok. rewrite Hw in Hlog, Hok.
  cbn [andb] in Hlog, Hok. destruct (write_modified_database command r).
  - intros res s1 Happ. set (item := Single (normalize_replication_command command r)).
    assert (serialize_command (normalize_replication_command command r) = log_bytes (item_log item))
      as Hdata by (simpl; by rewrite string_app_nil_r).
    rewrite Hdata in *. by eapply (write_recorded persist replicate c [command] [r] db' item s).
  - by eapply (journaled_silent [command] [r]).
Qed.

Lemma modified_no_error command r :
  write_modified_database command r = true -> response_is_error r = false.
Proof. unfold write_modified_database. by destruct (response_is_error r). Qed.

Lemma process_direct_good task s x s' :
  recorded (source task) -> plain (task_command task) ->
  process_direct task (bool_decide (is_Some (_transactions s !! client_id task))) s = Some (x, s') ->
  good s -> good s'.
Proof.
  intros Hsrc Hplain Hrun Hgood. unfold process_direct in Hrun.
  apply M_bind_Some in Hrun as (rep & s0 & Hg & Hrun). injection Hg as Hrep <-.
  apply M_bind_Some in Hrun as (per & s0 & Hg & Hrun). injection Hg as Hper <-.
  pose proof (good_records s _ Hgood Hsrc) as Hsink. cbn zeta in Hsink.
  apply M_bind_Some in Hrun as (r1 & s1 & Hcmd & Hrun).
  apply M_bind_Some in Hrun as (r2 & s2 & Hlog & Hrun).
  assert (good s2) as Hgood2; [|eapply (calm_steps _); [|exact Hrun|done]; solve_steps].
  destruct (negb _ && is_write_command (task_command task)) eqn:Hwrite;
    rewrite ?andb_true_r, ?andb_false_r in *.
  - rewrite Hper, Hrep in Hsink. apply andb_true_iff in Hwrite as [Htr Hw].
    apply negb_true_iff, bool_decide_eq_false in Htr. rewrite <- eq_None_not_Some in Htr.
    assert (exists name args, task_command task = name :: args /\ name ∈ write_names) as Hname.
    { destruct (task_command task) as [|name args]; [done|]. rewrite is_write_names in Hw.
      apply bool_decide_eq_true in Hw. eauto. }
    rewrite (write_dispatched _ _ _ s None Hname Htr) in Hcmd. unfold try_database in Hcmd.
    apply bind_Some in Hcmd as ([r' db'] & Hd & Hs). injection Hs as -> <-.
    pose proof (dispatched_good per rep (client_id task) _ _ _ _ Hgood Hplain Hw Hsink Hd) as Hdis.
    cbn zeta in Hdis. assert (rep || per = true) as Hrec by (destruct sink, rep, per; done).
    rewrite Hrec in Hlog. cbn [andb] in Hlog.
    destruct (write_modified_database _ r1) eqn:Hmod; [|by injection Hlog as _ <-].
    apply modified_no_error in Hmod. apply M_bind_Some in Hlog as (res & s3 & Happ & Hlog).
    apply Hdis in Happ as [-> Hframe]. rewrite Hmod, andb_true_r in Hlog.
    apply M_bind_Some in Hlog as (u & s4 & Hlog & Hret). injection Hret as _ <-. by eapply Hframe.
  - subst rep per. injection Hlog as _ <-.
    eapply process_command_good; [done|done|done| |done]. intros Hnone.
    rewrite Hnone in Hwrite. by destruct (is_write_command (task_command task)).
Qed.

(** ** Pops for clients that block *)

Lemma pop_dispatched key db v db' :
  pop_list_element key db = (Expected v, db') ->
  dispatch db ["LPOP"; key] = Some (BulkString v, db').
Proof.
  intros Hpop. change (Some (lpop db ["LPOP"; key]) = Some (BulkString v, db')).
  unfold lpop. cbn [length Nat.eqb negb andb]. change (arg ["LPOP"; ?x] 1) with x.
  by rewrite Hpop.
Qed.

Lemma serve_pop_good task key v s db' x s' :
  good s -> recorded (source task) -> argument_fits key ->
  pop_list_element key (_database s) = (Expected v, db') ->
  serve_pop task key v (set_database db' s) = Some (x, s') -> good s'.
Proof.
  intros Hgood Hsrc Hkey Hpop%pop_dispatched Hrun.
  assert (plain ["LPOP"; key]) as Hplain by (split; [split; [done|by repeat constructor]|done]).
  pose proof (good_records s _ Hgood Hsrc) as Hsink. cbn zeta in Hsink.
  rewrite (andb_comm (bool_decide (is_Some (_aof_file s)))) in Hsink.
  unfold serve_pop, persist_blocking_pop in Hrun.
  apply M_bind_Some in Hrun as (p & s1 & Hp & Hrun).
  apply M_bind_Some in Hp as (f & s2 & Hg & Hp). injection Hg as <- <-. simpl in Hp.
  apply M_bind_Some in Hp as (res & s2 & Happ & Hp).
  assert (role (_replication_state s2) = role (_replication_state s)) as Hrole.
  { destruct (bool_decide (source task <> AOF) && _).
    - apply append_aof_reliable in Happ as (_ & _ & ? & ? & _ & _ & Ho).
      unfold outline in Ho. by injection Ho as _ _ -> _ _ _.
    - by injection Happ as _ <-. }
  pose proof (dispatched_good _ _ (client_id task) _ _ _ _ Hgood Hplain eq_refl Hsink Hpop) as Hdis.
  change (normalize_replication_command _ _) with ["LPOP"; key] in Hdis.
  change (write_modified_database _ _) with true in Hdis. cbn zeta iota in Hdis.
  apply Hdis in Happ as [-> Hframe].
  apply M_bind_Some in Hp as (r & s3 & Hg & Hp). injection Hg as <- <-. rewrite Hrole in Hp.
  apply M_bind_Some in Hp as (u & s3 & Hf & Hret). injection Hret as <- <-.
  apply Hframe in Hf. eapply (calm_steps _); [|exact Hrun|done]. solve_steps.
Qed.

(** The other outcomes of a pop change nothing. *)
Lemma pop_failed_calm key s e db' :
  pop_list_element key (_database s) = (Unexpected e, db') -> calm s (set_database db' s).
Proof. intros Hpop. apply calm_outline; [|done]. by eapply pop_list_element_error. Qed.

Lemma retry_list_pop_good p : pop_ok p -> steps (keeps good) (retry_list_pop p).
Proof.
  intros [Hkey Hsrc] s x s' Hrun Hgood. unfold retry_list_pop in Hrun.
  apply M_bind_Some in Hrun as (res & s1 & Hpop & Hrun). unfold on_database in Hpop.
  destruct (pop_list_element _ (_database s)) as [res' db'] eqn:Hp. injection Hpop as -> <-.
  destruct res as [v|e].
  - apply M_bind_Some in Hrun as (u & s1 & Hserve & Hret). injection Hret as _ <-.
    by eapply serve_pop_good.
  - eapply (calm_steps _); [|exact Hrun|]; [solve_steps|].
    eapply calm_good; [by eapply pop_failed_calm|done].
Qed.

Lemma parse_blpop_key command rq :
  parse_blpop command = Some (Expected rq) -> pop_key rq = arg command 1.
Proof.
  unfold parse_blpop. case_match; [done|]. case_match; [|done].
  by intros (? & _ & [= <-])%bind_Some.
Qed.

Lemma argument_arg_fits command i : command_fits command -> argument_fits (arg command i).
Proof.
  intros [_ Hc]. rewrite Forall_forall in Hc.
  destruct (nth_in_or_default i command EmptyString) as [Hin|Hd].
  - apply Hc. by apply list_elem_of_In.
  - unfold argument_fits. rewrite Hd. vm_compute. discriminate.
Qed.

Lemma deadline_of_calm t : steps calm (deadline_of t).
Proof. unfold deadline_of. solve_steps. Qed.
#[local] Hint Resolve deadline_of_calm : steps.

Lemma process_blpop_good task :
  recorded (source task) -> plain (task_command task) -> steps (keeps good) (process_blpop task).
Proof.
  intros Hsrc [Hfits _] s x s' Hrun Hgood. unfold process_blpop in Hrun.
  destruct (parse_blpop (task_command task)) as [[rq|e]|] eqn:Hparse; [| |done].
  2: { eapply (calm_steps _); [|exact Hrun|done]. solve_steps. }
  apply parse_blpop_key in Hparse. pose proof (argument_arg_fits _ 1 Hfits) as Hkey.
  rewrite <- Hparse in Hkey.
  apply M_bind_Some in Hrun as (res & s1 & Hpop & Hrun). unfold on_database in Hpop.
  destruct (pop_list_element _ (_database s)) as [res' db'] eqn:Hp. injection Hpop as -> <-.
  destruct res as [v|e]; [by eapply serve_pop_good|].
  apply pop_failed_calm in Hp. apply (calm_good _ _ Hp) in Hgood.
  assert (steps (keeps good) (deadline ← deadline_of (pop_timeout rq);
    modify (fun s => set_pending_list_pops (_pending_list_pops s ++
      [mkPendingListPop task (pop_key rq) deadline]) s))) as Hblock.
  { apply steps_bind; [apply _|by apply calm_steps, deadline_of_calm|]. intros d.
    apply steps_modify. intros s1 [Hj Hh]. split; [done|].
    apply (held_frame s1); [done|by left| |done]. simpl. intros p [?|Hin]%elem_of_app; [by left|].
    right. apply list_elem_of_singleton in Hin as ->. done. }
  destruct e; try (by eapply Hblock).
  eapply (calm_steps _); [|exact Hrun|done]. solve_steps.
Qed.

Lemma process_wait_good task : steps (keeps good) (process_wait task).
Proof.
  unfold process_wait.
  apply steps_bind; [apply _|apply calm_steps; solve_steps|]. intros r.
  destruct (negb _); [apply calm_steps; solve_steps|].
  destruct (parse_wait_request _) as [request|e]; [|apply calm_steps; solve_steps].
  do 2 (apply steps_bind; [apply _|apply calm_steps; solve_steps|]; intros ?).
  destruct (_ || _); [apply calm_steps; solve_steps|].
  apply steps_bind; [apply _|apply getack_good|]. intros _. apply calm_steps. solve_steps.
Qed.

Lemma process_task_good task :
  recorded (source task) -> plain (task_command task) -> steps (keeps good) (process_task task).
Proof.
  intros Hsrc Hplain s x s' Hrun Hgood. unfold process_task in Hrun.
  apply M_bind_Some in Hrun as (au & s1 & Hg & Hrun). injection Hg as _ <-.
  apply M_bind_Some in Hrun as (sub & s1 & Hg & Hrun). injection Hg as _ <-.
  destruct (_ && negb au).
  { eapply (calm_steps _); [|exact Hrun|done]. solve_steps. }
  destruct (_ && sub && _).
  { eapply (calm_steps _); [|exact Hrun|done]. solve_steps. }
  apply M_bind_Some in Hrun as (ro & s1 & Hg & Hrun). injection Hg as _ <-.
  apply M_bind_Some in Hrun as (tr & s1 & Hg & Hrun). injection Hg as Htr <-.
  destruct (_ && is_write_command _).
  { destruct tr as [t|]; [|by eapply (calm_steps _); [|exact Hrun|done]; solve_steps].
    apply M_bind_Some in Hrun as (u & s1 & Hm & Hrun). injection Hm as _ <-.
    eapply (calm_steps _); [|exact Hrun|]; [solve_steps|]. apply good_transaction; [|done].
    destruct Hgood as [_ (_ & Hh & _)]. exact (Hh _ _ Htr). }
  subst tr. destruct (is_named _ "BLPOP" && _); [by eapply process_blpop_good|].
  destruct (is_named _ "XREAD" && _).
  { eapply (calm_steps _); [|exact Hrun|done]. unfold process_xread, read_in_place. solve_steps. }
  destruct (is_named _ "WAIT" && _).
  { by eapply process_wait_good. }
  by eapply process_direct_good.
Qed.

(** ** The worker loop *)

Lemma good_fewer_pops pops s :
  pops ⊆ _pending_list_pops s -> good s -> good (set_pending_list_pops pops s).
Proof.
  intros Hsub [Hj Hh]. split; [done|]. apply (held_frame s); [done|by left| |done].
  intros p Hp. left. by apply Hsub.
Qed.

Lemma keepM_calm_subset {A} (f : A -> P bool) l s kept s' :
  (forall x, steps calm (f x)) -> keepM f l s = Some (kept, s') ->
  kept ⊆ l /\ calm s s'.
Proof.
  intros Hf Hrun. split; [by eapply keepM_subset|]. eapply (steps_keepM calm); [done|done].
Qed.

(** Dropping some of the blocked pops. *)
Lemma drop_pops_good f :
  (forall p, steps calm (f p)) ->
  steps (keeps good)
    (pending ← gets _pending_list_pops; pending ← keepM f pending;
     modify (set_pending_list_pops pending)).
Proof.
  intros Hf s x s' Hrun Hgood. apply M_bind_Some in Hrun as (l & s1 & Hg & Hrun).
  injection Hg as <- <-. apply M_bind_Some in Hrun as (kept & s1 & Hk & Hm). injection Hm as _ <-.
  apply keepM_calm_subset in Hk as [Hsub Hcalm]; [|done].
  apply good_fewer_pops; [|by eapply calm_good]. destruct Hcalm as (_ & _ & _ & _ & ->). done.
Qed.

Lemma retry_pending_list_pops_good : steps (keeps good) retry_pending_list_pops.
Proof.
  intros s x s' Hrun Hgood. unfold retry_pending_list_pops in Hrun.
  apply M_bind_Some in Hrun as (l & s1 & Hg & Hrun). injection Hg as <- <-.
  apply M_bind_Some in Hrun as (kept & s1 & Hk & Hm). injection Hm as _ <-.
  pose proof Hgood as [_ (_ & _ & Hpops)].
  assert (good s1) as [Hj Hh].
  { eapply (steps_keepM_Forall (keeps good)); [|exact Hk|done].
    eapply List.Forall_impl; [|exact Hpops]. exact retry_list_pop_good. }
  split; [done|]. apply (held_frame s1); [done|by left| |done].
  intros p Hp. right. rewrite Forall_forall in Hpops. apply Hpops.
  apply keepM_subset in Hk. by apply Hk.
Qed.

Lemma retry_stream_read_calm p : steps calm (retry_stream_read p).
Proof. unfold retry_stream_read, read_in_place. solve_steps. Qed.
#[local] Hint Resolve retry_stream_read_calm : steps.

Lemma retry_all_good : steps (keeps good) retry_all.
Proof.
  unfold retry_all. apply steps_bind; [apply _|apply retry_pending_list_pops_good|]. intros _.
  apply calm_steps.
  unfold retry_pending_stream_reads, retry_pending_waits, retry_wait. solve_steps.
Qed.

Lemma expire_all_good : steps (keeps good) expire_all.
Proof.
  unfold expire_all, expire_pending_list_pops.
  apply steps_bind; [apply _| |intros _; apply calm_steps;
    unfold expire_pending_stream_reads, expire_pending_waits; solve_steps].
  apply steps_bind; [apply _|apply calm_steps; solve_steps|]. intros now.
  apply drop_pops_good. solve_steps.
Qed.

Lemma unregistration_good c p : steps (keeps good) (process_client_unregistration c p).
Proof.
  unfold process_client_unregistration, cancel_pending_commands, cancel, forget_transaction,
    drop_subscriber.
  apply steps_bind; [apply _| |intros _].
  - intros s x s' Hrun Hgood. apply M_bind_Some in Hrun as (l & s1 & Hg & Hrun).
    injection Hg as <- <-. apply M_bind_Some in Hrun as (kept & s1 & Hk & Hrun).
    apply M_bind_Some in Hrun as ([] & s2 & Hm & Hrun). injection Hm as <-.
    apply keepM_calm_subset in Hk as [Hsub Hcalm]; [|solve_steps].
    eapply (calm_steps _); [|exact Hrun|]; [solve_steps|].
    apply good_fewer_pops; [|by eapply calm_good]. destruct Hcalm as (_ & _ & _ & _ & ->). done.
  - repeat (apply steps_bind; [apply _| |intros ?]); try solve [apply calm_steps; solve_steps].
    apply steps_modify. intros s [Hj Hh]. split; [done|].
    apply (held_frame s); [done| |by left|done]. simpl.
    intros k t [_ Hk]%lookup_delete_Some. by left.
Qed.

Lemma process_processor_task_good task :
  task_ok task -> steps (keeps good) (process_processor_task task).
Proof.
  intros Hok. destruct task; cbn [process_processor_task]; try done.
  - destruct Hok. by apply process_task_good.
  - apply calm_steps. apply leaves_calm.
  - apply calm_steps. unfold process_replication_state_installation. solve_steps.
  - apply calm_steps. unfold process_replication_offset_request. solve_steps.
  - apply calm_steps. unfold process_replica_acknowledgement. solve_steps.
  - apply calm_steps. unfold process_client_registration. solve_steps.
  - apply unregistration_good.
Qed.

Lemma run_iteration_good : steps (keeps good) run_iteration.
Proof.
  intros s x s' Hrun Hgood. unfold run_iteration in Hrun.
  apply M_bind_Some in Hrun as (l & s1 & Hg & Hrun). injection Hg as Htasks <-.
  destruct l as [|task rest]; [by eapply expire_all_good|].
  apply M_bind_Some in Hrun as (u & s1 & Hm & Hrun). injection Hm as _ <-.
  destruct Hgood as [Hj (Ht & Htr & Hp)]. rewrite Htasks in Ht.
  apply Forall_cons in Ht as [Hok Hrest].
  assert (good (set_tasks rest s)) as Hgood by (split; [done|by split_and!]).
  apply M_bind_Some in Hrun as (u' & s1 & Htask & Hrun).
  pose proof (process_processor_task_good _ Hok _ _ _ Htask Hgood) as Hgood1.
  apply M_bind_Some in Hrun as (u'' & s2 & Hretry & Hexpire).
  eapply expire_all_good; [done|]. by eapply retry_all_good.
Qed.

Lemma processor_step_good s s' : processor_step request_ok s s' -> good s -> good s'.
Proof.
  intros Hstep. destruct Hstep as [r s Hr| | | | | | | |]; try (apply calm_good; by apply calm_same).
  - intros [Hj (Ht & Htr & Hp)]. split; [done|]. split_and!; [|done..]. simpl.
    apply Forall_app. split; [done|]. apply Forall_singleton. destruct r; try done; cbn in *.
    + split; [done|]. unfold recorded. by destruct sink.
    + destruct Hr as [Hplain Hfile]. split; [done|]. unfold recorded. by rewrite Hfile.
  - by eapply run_iteration_good.
Qed.

End Writes.
End Invariant.
