(* ===== verification/Durability.v ===== *)
(** * The append-only file rebuilds the data
    (src/command_processor.cpp, src/aof.cpp)

    The life of a server that persists its writes, with its stops and restarts.
    At every instant the bytes of its file are the log of WriteLog.v, and a
    fresh server that replays them ends with the same data. *)

From stdpp Require Import base option list gmap strings relations.
From Stdlib Require Import ZArith Lia.
From S2P Require Import Prelude CharConv Environment Resp StreamTypes TimeUtils.
From S2P Require Import Database DatabaseFacts Commands Dispatch DispatchFacts Replay Config.
From S2P Require Import Sessions Aof StateMonad ProcessorState Processor ProcessorRun.
From S2P Require Import ProcessorWalk Sockets Journal WriteLog.

Section Life.
Context `{Clock, HashOrder, Kernel, Crypto}.

(** ** Starting and restarting *)

(** A server that has just been constructed, on clocks that were read and a
    kernel that was called before. *)
Definition constructed (replica : option ReplicaConfig) (rdb : RDBConfig) (aof : AOFConfig)
    (hash : option string) (id : string) (reads calls : nat) : ProcessorState :=
  set_io_calls calls (set_database (mkDatabase ∅ ∅ 1 reads) (initial_state replica rdb aof hash id)).

Definition fresh_server (t : ProcessorState) : Prop :=
  exists replica rdb aof hash id reads calls, t = constructed replica rdb aof hash id reads calls.

(** The task [initialize_aof] of the start, with the rest of its iteration. *)
Definition start_from (file : AppendOnlyFile) (commands : list Command) (t : ProcessorState)
    : option (unit * ProcessorState) :=
  run_iteration (enqueue (InitializeAof file commands) t).

(** With nothing blocked, the end of an iteration only reads the clock. *)
Lemma retry_nothing s :
  _pending_list_pops s = [] -> _pending_stream_reads s = [] -> _pending_waits s = [] ->
  retry_all s = Some (tt, s).
Proof. destruct s. cbn. by intros -> -> ->. Qed.

Lemma expire_nothing s :
  _pending_list_pops s = [] -> _pending_stream_reads s = [] -> _pending_waits s = [] ->
  expire_all s = Some (tt, set_database (mkDatabase (entries (_database s))
    (key_revisions (_database s)) (next_revision (_database s))
    (S (S (S (clock_reads (_database s)))))) s).
Proof. destruct s. cbn. by intros -> -> ->. Qed.

Lemma nothing_blocked s :
  _pending_list_pops s = [] -> _pending_stream_reads s = [] -> _pending_waits s = [] ->
  exists s', (retry_all;; expire_all : P unit) s = Some (tt, s') /\ calm ToFile s s' /\
    completed s' = completed s /\ entries (_database s') = entries (_database s).
Proof.
  intros Hp Hr Hw. eexists. split.
  - unfold mbind, M_bind. rewrite (retry_nothing s Hp Hr Hw). by apply expire_nothing.
  - split; [|done]. split; [|done]. split; simpl; [lia|by left].
Qed.

Lemma start_replays file items m t :
  fresh_server t -> Forall item_ok items -> rebuilds (log_commands items) m ->
  exists s, start_from file (log_lines items) t = Some (tt, s) /\
    entries (_database s) = m /\ _aof_file s = Some file /\
    completed s = [(0%nat, AofInitialized (Expected tt))] /\ held ToFile s.
Proof.
  intros (replica & rdb & aof & hash & id & reads & calls & ->) Hitems Hreb.
  set (t := constructed replica rdb aof hash id reads calls).
  destruct (initialization_replays file items (set_tasks [] (enqueue (InitializeAof file []) t)) m 0)
    as (s1 & Hrun & He & Hf & Hc & Htasks & Htr & Hp & Hr & Hw); [done..|].
  destruct (nothing_blocked s1) as (s & Hend & (_ & Hf' & Ht' & Htr' & Hp') & Hc' & He');
    [by rewrite ?Hp, ?Hr, ?Hw..|].
  exists s. split_and!.
  - unfold start_from, run_iteration. unfold mbind at 1, M_bind at 1. unfold gets at 1.
    change (_tasks (enqueue ?r t)) with [task_of_request r 0]. cbn [task_of_request].
    unfold mbind at 1, M_bind at 1. unfold modify at 1. cbn [process_processor_task].
    unfold mbind at 1, M_bind at 1. change (set_tasks [] (enqueue (InitializeAof file ?c) t))
      with (set_tasks [] (enqueue (InitializeAof file []) t)). by rewrite Hrun.
  - by rewrite He'.
  - by rewrite Hf'.
  - by rewrite Hc', Hc.
  - unfold held. rewrite Ht', Htr', Hp', Htasks, Htr, Hp. split_and!; [constructor| |constructor].
    intros k x Hk. simpl in Hk. by rewrite delete_empty, lookup_empty in Hk.
Qed.

(** The life of a server and of its file: it is started on an empty file, runs,
    stops or crashes between two steps, and is started again from the commands
    of the file. *)
Inductive server_life : ProcessorState -> Prop :=
| life_created file t s :
    contents file = EmptyString -> fresh_server t -> start_from file [] t = Some (tt, s) ->
    server_life s
| life_runs s s' : server_life s -> processor_step (request_ok ToFile) s s' -> server_life s'
| life_restarted s file commands t s' :
    server_life s -> _aof_file s = Some file ->
    commands_of_bytes (contents file) = Some (Expected commands) ->
    fresh_server t -> start_from file commands t = Some (tt, s') -> server_life s'.

Section Restarts.
Context `{!PostEpochClock, !KernelLaws, !ReliableFile}.

Lemma server_life_good s : server_life s -> good ToFile s.
Proof.
  induction 1 as [file t s Hempty Hfresh Hstart|s s' _ IH Hstep|s file commands t s' _ IH Hfile Hread Hfresh Hstart].
  - assert (rebuilds (log_commands []) ∅) as Hreb by constructor.
    destruct (start_replays file [] ∅ t Hfresh (List.Forall_nil _) Hreb) as (s1 & Hs & He & Hf & _ & Hh).
    change (log_lines []) with (@nil Command) in Hs. rewrite Hs in Hstart. injection Hstart as <-.
    assert (forall k e, entries (_database s1) !! k <> Some e) as Hnone
      by (intros k e; by rewrite He, lookup_empty).
    split; [|done]. exists []. rewrite He. split; [by exists file|]. split; [constructor|].
    split; [done|]. split; intros k e Hk; by destruct (Hnone k e).
  - by eapply processor_step_good.
  - destruct IH as [(items & (file' & Hf & Hc) & Hitems & Hreb & Hper & Hwf) _].
    assert (file' = file) as -> by congruence.
    rewrite Hc, commands_of_log_bytes in Hread by (by apply log_lines_fit). injection Hread as <-.
    destruct (start_replays file items _ t Hfresh Hitems Hreb) as (s1 & Hs & He & Hf1 & _ & Hh).
    rewrite Hs in Hstart. injection Hstart as <-. split; [|done]. exists items.
    unfold persistent, db_wf in *. rewrite He. split; [by exists file|done].
Qed.
End Restarts.
End Life.

(** C5: the data survive a restart.  Take a server that persists its writes to
    a file that accepts them, at any instant of its life: started on an empty
    file, serving any calls of any number of clients and of a master (blocked
    pops, transactions, replication and all, but no expiry), stopped and
    restarted any number of times.  Its file then reads back as a list of
    commands, and a server constructed with any configuration that is started
    from them succeeds and holds exactly the data of the first one. *)
Theorem restart_recovers `{Clock, HashOrder, Kernel, Crypto} `{!PostEpochClock, !KernelLaws, !ReliableFile}
    (s : ProcessorState) :
  server_life s ->
  exists file commands, _aof_file s = Some file /\
    commands_of_bytes (contents file) = Some (Expected commands) /\
    forall t, fresh_server t ->
      exists s', start_from file commands t = Some (tt, s') /\
        entries (_database s') = entries (_database s) /\ _aof_file s' = Some file /\
        completed s' = [(0%nat, AofInitialized (Expected tt))].
Proof.
  intros [(items & (file & Hf & Hc) & Hitems & Hreb & _ & _) _]%server_life_good.
  exists file, (log_lines items). split; [done|].
  split; [rewrite Hc; by apply commands_of_log_bytes, log_lines_fit|].
  intros t Ht. destruct (start_replays file items _ t Ht Hitems Hreb) as (s1 & ? & ? & ? & ? & _).
  eauto.
Qed.

(** ** Witness *)

Section Witness.
#[local] Existing Instance millisecond_clock.
#[local] Existing Instance insertion_order.
#[local] Existing Instance perfect_kernel.
#[local] Existing Instance perfect_kernel_laws.
#[local] Existing Instance sample_crypto.
#[local] Existing Instance millisecond_clock_post_epoch.

#[local] Instance perfect_file : ReliableFile.
Proof. split; [exact perfect_kernel_writes|done]. Qed.

Definition new_file : AppendOnlyFile := mkAppendOnlyFile "a.aof" EmptyString ALWAYS 0.

Definition started_server : ProcessorState :=
  match start_from new_file [] sample_master with Some (_, s) => s | None => sample_master end.

(** A blocked pop, served by a transaction that also adds to a stream. *)
Definition busy_day : list Request :=
  [RegisterClient 1 0; RegisterClient 2 1; Submit 1 ["BLPOP"; "l"; "0"]; Submit 2 ["MULTI"];
   Submit 2 ["XADD"; "s"; "*"; "f"; "v"]; Submit 2 ["RPUSH"; "l"; "a"; "b"]; Submit 2 ["EXEC"];
   Submit 2 ["INCR"; "n"]].

Definition after_busy_day : ProcessorState := after_script busy_day started_server.

Lemma sample_master_fresh : fresh_server sample_master.
Proof.
  exists None, default_rdb_config, default_aof_config, None, "0123456789abcdef", 0%nat, 0%nat.
  reflexivity.
Qed.

Lemma busy_day_lives : server_life after_busy_day.
Proof.
  assert (server_life started_server) as Hstart.
  { apply (life_created new_file sample_master); [reflexivity|exact sample_master_fresh|].
    vm_compute. reflexivity. }
  assert (rtc (processor_step (request_ok ToFile)) started_server after_busy_day) as Hsteps.
  { apply after_script_allowed; [|vm_compute; reflexivity].
    unfold busy_day. repeat constructor; vm_compute; discriminate. }
  revert Hstart. induction Hsteps as [|x y z Hxy _ IH]; [done|]. intros Hx.
  apply IH. by eapply life_runs.
Qed.

Lemma restart_recovers_witness :
  map (fun k => value <$> entries (_database after_busy_day) !! k) ["l"; "n"]
    = [Some (ListValue ["b"]); Some (StringValue "1")] /\
  exists file commands, _aof_file after_busy_day = Some file /\
    commands_of_bytes (contents file) = Some (Expected commands) /\
    forall t, fresh_server t ->
      exists s', start_from file commands t = Some (tt, s') /\
        entries (_database s') = entries (_database after_busy_day) /\ _aof_file s' = Some file /\
        completed s' = [(0%nat, AofInitialized (Expected tt))].
Proof.
  split; [vm_compute; reflexivity|].
  apply (restart_recovers after_busy_day). exact busy_day_lives.
Defined.
End Witness.
