(* ===== verification/ReplicationStream.v ===== *)
(** * The replication stream of a master
    (src/command_processor.cpp, [append_replication_frame],
    [process_replica_registration]; src/replication.cpp)

    The backlog numbers its frames by the bytes written so far, and the queue
    of a replica is fed so that what its thread has taken, followed by what is
    still queued, is the backlog since the registration: nothing is lost,
    repeated or reordered, whatever the threads do. *)

From stdpp Require Import base option list gmap strings relations.
From Stdlib Require Import ZArith Lia.
From S2P Require Import Prelude CharConv Environment Resp StreamTypes TimeUtils.
From S2P Require Import Database Commands Dispatch Config.
From S2P Require Import Sessions Aof StateMonad ProcessorState Processor ProcessorRun.
From S2P Require Import ProcessorWalk WorkerWalk.

(** The bytes of some frames. *)
Definition stream_bytes (frames : list ReplicationFrame) : Z :=
  foldr (fun f n => size_of (payload f) + n) 0 frames.

Lemma stream_bytes_app l l' : stream_bytes (l ++ l') = stream_bytes l + stream_bytes l'.
Proof. induction l as [|f l IH]; simpl; lia. Qed.

(** The calls a master gets: no stream of its own to follow. *)
Definition master_request (r : Request) : Prop :=
  match r with
  | ApplyReplication _ _ | InstallReplicationState _ _ => False
  | _ => True
  end.

Definition master_task : ProcessorTask -> Prop :=
  task_from (fun src => src <> FROM_MASTER) (fun _ _ => False).

Section Stream.
Context `{Clock, HashOrder, Kernel, Crypto}.

(** ** What the threads of the replicas have taken *)

(** A processor together with the frames taken from each session so far. *)
Definition Deliveries : Type := ProcessorState * (nat -> list ReplicationFrame).

(** A session that does not exist has delivered nothing. *)
Definition reset (s : ProcessorState) (taken : nat -> list ReplicationFrame)
    : nat -> list ReplicationFrame :=
  fun a => match replica_heap s !! a with Some _ => taken a | None => [] end.

Inductive delivery_step : Deliveries -> Deliveries -> Prop :=
(** The thread of a replica takes a frame. *)
| deliver_frame a x frame x' s taken :
    replica_heap s !! a = Some x -> wait_for_frame false x = Some (Some frame, x') ->
    delivery_step (s, taken)
      (set_replica_heap (<[a := x']> (replica_heap s)) s,
       fun b => if decide (b = a) then taken a ++ [frame] else taken b)
(** Any step that takes nothing from a queue. *)
| deliver_nothing s s' taken :
    processor_step master_request s s' ->
    (forall a x x', replica_heap s !! a = Some x -> replica_heap s' !! a = Some x' ->
       exists new, replica_frames x' = replica_frames x ++ new) ->
    delivery_step (s, taken) (s', reset s taken).

(** ** The invariant *)

(** The frames carry the offsets they end at. *)
Definition numbered (backlog : list ReplicationFrame) : Prop :=
  forall before f after, backlog = before ++ f :: after ->
    ending_offset f = wrap_u64 (stream_bytes (before ++ [f])).

(** What was taken and what is queued is the backlog since the registration. *)
Definition fed (backlog taken : list ReplicationFrame) (x : ReplicaSession) : Prop :=
  closed x = false ->
  exists before, backlog = before ++ taken ++ replica_frames x /\
    starting_offset x = wrap_u64 (stream_bytes before).

Definition streaming (taken : nat -> list ReplicationFrame) (s : ProcessorState) : Prop :=
  numbered (_replication_backlog s) /\
  offset (_replication_state s) = wrap_u64 (stream_bytes (_replication_backlog s)) /\
  NoDup (_replica_sessions s) /\
  (forall a x, replica_heap s !! a = Some x ->
     a ∈ _replica_sessions s /\ fed (_replication_backlog s) (taken a) x).

(** Between the steps of the replicas' threads. *)
Definition clean (taken : nat -> list ReplicationFrame) (s : ProcessorState) : Prop :=
  streaming taken s /\ (forall a, replica_heap s !! a = None -> taken a = []) /\
  Forall master_task (_tasks s).

(** ** Actions that have nothing to do with replicas *)

Lemma aside_streaming taken s s' : aside s s' -> streaming taken s -> streaming taken s'.
Proof. unfold streaming. by intros (-> & -> & -> & -> & _). Qed.

Lemma aside_clean taken s s' : aside s s' -> keeps (clean taken) s s'.
Proof.
  intros Ha (Hs & Ht & Hm). split; [by eapply aside_streaming|].
  destruct Ha as (_ & _ & _ & -> & ->). done.
Qed.

(** ** A frame is appended *)

(** The loop over the sessions: every one that is alive gets the frame, the
    others leave the list. *)
Lemma feed_sessions frame l s kept s' :
  keepM (fun address =>
    session ← gets (fun s => replica_heap s !! address);
    match session with
    | None => mret false
    | Some session =>
        modify (fun s => set_replica_heap
          (<[address := replica_enqueue frame session]> (replica_heap s)) s);;
        mret true
    end : P bool) l s = Some (kept, s') ->
  NoDup l ->
  (exists heap, s' = set_replica_heap heap s /\
    (forall a, heap !! a = if decide (a ∈ l) then replica_enqueue frame <$> replica_heap s !! a
                           else replica_heap s !! a)) /\
  NoDup kept /\ (forall a, a ∈ kept <-> a ∈ l /\ is_Some (replica_heap s !! a)).
Proof.
  revert s kept. induction l as [|b l IH]; intros s kept Hrun Hnd; cbn [keepM] in Hrun.
  { injection Hrun as <- <-. split; [|split; [done|set_solver]].
    exists (replica_heap s). split; [by destruct s|done]. }
  apply NoDup_cons in Hnd as [Hb Hnd].
  apply M_bind_Some in Hrun as (keep & s1 & Hone & Hrun).
  apply M_bind_Some in Hrun as (rest & s2 & Hl & Hret). injection Hret as <- <-.
  destruct (IH _ _ Hl Hnd) as ((heap & -> & Hheap) & Hnd' & Hkept).
  apply M_bind_Some in Hone as (x & s0 & Hg & Hone). injection Hg as Hx <-.
  destruct x as [x|].
  - apply M_bind_Some in Hone as ([] & s0 & Hm & Hret). injection Hret as <- <-.
    injection Hm as <-. simpl in *. split; [exists heap; split; [done|]|split].
    + intros a. rewrite Hheap. destruct (decide (a = b)) as [->|Hab].
      * rewrite decide_False, decide_True, lookup_insert_eq, Hx by set_solver. done.
      * rewrite lookup_insert_ne by done. destruct (decide (a ∈ l)).
        -- by rewrite decide_True by set_solver.
        -- by rewrite decide_False by set_solver.
    + apply NoDup_cons. split; [|done]. intros [Hin _]%Hkept. done.
    + intros a. rewrite elem_of_cons, Hkept, elem_of_cons. destruct (decide (a = b)) as [->|Hab].
      * rewrite Hx. naive_solver eauto.
      * rewrite lookup_insert_ne by done. naive_solver.
  - injection Hone as <- <-. split; [exists heap; split; [done|]|split; [done|]].
    + intros a. rewrite Hheap. destruct (decide (a = b)) as [->|Hab].
      * by rewrite decide_False, decide_True, Hx by set_solver.
      * destruct (decide (a ∈ l)).
        -- by rewrite decide_True by set_solver.
        -- by rewrite decide_False by set_solver.
    + intros a. rewrite Hkept, elem_of_cons. split; [naive_solver|]. intros [[->|?] ?]; [|done].
      rewrite Hx in *. by destruct H3.
Qed.

Lemma numbered_snoc backlog f :
  numbered backlog -> ending_offset f = wrap_u64 (stream_bytes (backlog ++ [f])) ->
  numbered (backlog ++ [f]).
Proof.
  intros Hn Hf before g after Heq. destruct after as [|h after _] using rev_ind.
  - apply app_inj_tail in Heq as [<- <-]. done.
  - rewrite app_comm_cons, app_assoc in Heq. apply app_inj_tail in Heq as [Heq _].
    by apply (Hn before g after).
Qed.

Lemma fed_enqueue backlog taken frame x :
  fed backlog taken x -> fed (backlog ++ [frame]) taken (replica_enqueue frame x).
Proof.
  unfold fed, replica_enqueue. destruct (closed x) eqn:Hc; simpl; [by rewrite Hc|].
  intros Hfed _. destruct (Hfed eq_refl) as (before & -> & Hb). exists before.
  split; [|done]. by rewrite <- !app_assoc.
Qed.

Lemma append_frame_clean taken data : steps (keeps (clean taken)) (append_replication_frame data).
Proof.
  intros s x s' Hrun ((Hn & Ho & Hnd & Hs) & Ht & Hm). unfold append_replication_frame in Hrun.
  apply M_bind_Some in Hrun as ([] & s1 & Hmo & Hrun). injection Hmo as <-.
  apply M_bind_Some in Hrun as (o & s1 & Hg & Hrun). injection Hg as <- <-.
  apply M_bind_Some in Hrun as ([] & s1 & Hmo & Hrun). injection Hmo as <-.
  apply M_bind_Some in Hrun as (l & s1 & Hg & Hrun). injection Hg as <- <-.
  apply M_bind_Some in Hrun as (kept & s1 & Hk & Hrun). injection Hrun as _ <-.
  cbn [_replica_sessions set_replication_backlog set_replication_state] in Hk.
  apply feed_sessions in Hk as ((heap & -> & Hheap) & Hnd' & Hkept); [|done]. simpl in *.
  assert (wrap_u64 (offset (_replication_state s) + size_of data)
    = wrap_u64 (stream_bytes (_replication_backlog s ++ [mkReplicationFrame data
        (wrap_u64 (offset (_replication_state s) + size_of data))]))) as Hnew.
  { rewrite stream_bytes_app, Ho. simpl. rewrite Z.add_0_r. apply wrap_u64_add. }
  split; [|split; [|done]].
  - split; [by apply numbered_snoc|]. split; [exact Hnew|]. split; [done|]. simpl.
    intros a y Hy. rewrite Hheap in Hy. destruct (decide (a ∈ _replica_sessions s)) as [Hin|Hin].
    + apply fmap_Some in Hy as (x0 & Hx0 & ->). destruct (Hs a x0 Hx0) as [_ Hfed].
      split; [apply Hkept; eauto|]. by apply fed_enqueue.
    + by destruct (Hs a y Hy).
  - intros a Ha. apply Ht. simpl in Ha. rewrite Hheap in Ha.
    destruct (decide _); [|done]. by apply fmap_None in Ha.
Qed.

Lemma count_acknowledged_clean taken target :
  steps (keeps (clean taken)) (count_acknowledged_replicas target).
Proof.
  intros s x s' Hrun ((Hn & Ho & Hnd & Hs) & Ht & Hm). injection Hrun as _ <-.
  split; [|done]. split; [done|]. split; [done|]. simpl. split; [by apply NoDup_filter|].
  intros a y Hy. destruct (Hs a y Hy) as [Hin Hfed]. split; [|done].
  apply list_elem_of_filter. by rewrite Hy.
Qed.

(** A new replica starts at the end of the backlog. *)
Lemma registration_clean taken c p :
  steps (keeps (clean taken)) (process_replica_registration c p).
Proof.
  intros s x s' Hrun ((Hn & Ho & Hnd & Hs) & Ht & Hm). unfold process_replica_registration in Hrun.
  set (b := fresh _) in Hrun.
  assert (b ∉ dom (replica_heap s) ∪ list_to_set (_replica_sessions s)) as Hb by apply is_fresh.
  apply not_elem_of_union in Hb as [Hb Hl]. rewrite not_elem_of_dom in Hb.
  rewrite elem_of_list_to_set in Hl. injection Hrun as _ <-. simpl.
  split; [|split; [|done]]; simpl.
  - split; [done|]. split; [done|]. split.
    { apply NoDup_app. split; [done|]. split; [|apply NoDup_singleton].
      intros a Ha ->%list_elem_of_singleton. done. }
    intros a y Hy. simpl in Hy. apply lookup_insert_Some in Hy as [[<- <-]|[Hab Hy]].
    + split; [apply elem_of_app; right; by apply list_elem_of_singleton|].
      intros _. exists (_replication_backlog s). rewrite (Ht b Hb). simpl.
      by rewrite app_nil_r.
    + destruct (Hs a y Hy). split; [|done]. apply elem_of_app. by left.
  - intros a Ha. simpl in Ha. apply lookup_insert_None in Ha as [Ha _]. by apply Ht.
Qed.

Lemma run_iteration_clean taken : steps (keeps (clean taken)) run_iteration.
Proof.
  intros s x s' Hrun Hclean. pose proof Hclean as (_ & _ & Hm). revert Hclean.
  refine (run_iteration_walk (keeps (clean taken)) (aside_clean taken) (append_frame_clean taken)
    (count_acknowledged_clean taken) (registration_clean taken) _ _ _ _ s x s' _ Hm Hrun); try done.
  intros task rest s0 Htasks (Hs & Ht & Hm0). rewrite Htasks in Hm0.
  by apply Forall_cons in Hm0 as [_ Hrest].
Qed.

(** ** Steps *)

Lemma reset_clean s taken :
  streaming taken s -> Forall master_task (_tasks s) -> clean (reset s taken) s.
Proof.
  intros (Hn & Ho & Hnd & Hs) Hm. unfold clean, reset. split; [|split; [|done]].
  - split_and!; try done. intros a x Hx. rewrite Hx. by apply Hs.
  - intros a Ha. by rewrite Ha.
Qed.

(** The sessions after a step: an old one that stays open is as it was. *)
Lemma streaming_heap taken s heap :
  streaming taken s ->
  (forall a x, heap !! a = Some x -> exists x0, replica_heap s !! a = Some x0 /\
     (closed x = false -> closed x0 = false /\ replica_frames x = replica_frames x0 /\
      starting_offset x = starting_offset x0)) ->
  streaming taken (set_replica_heap heap s).
Proof.
  intros (Hn & Ho & Hnd & Hs) Hheap. split_and!; try done. simpl. intros a x Hx.
  destruct (Hheap a x Hx) as (x0 & Hx0 & Hsame). destruct (Hs a x0 Hx0) as [Hin Hfed].
  split; [done|]. intros Hopen. destruct (Hsame Hopen) as (Hc & -> & ->). by apply Hfed.
Qed.

Lemma wait_for_frame_pop x frame x' :
  wait_for_frame false x = Some (Some frame, x') ->
  closed x = false /\ closed x' = false /\ replica_frames x = frame :: replica_frames x' /\
  starting_offset x' = starting_offset x.
Proof.
  unfold wait_for_frame. cbn [orb]. destruct (closed x); [done|].
  destruct (replica_frames x); [done|]. by intros [= <- <-].
Qed.

Definition following (d : Deliveries) : Prop := streaming d.2 d.1 /\ Forall master_task (_tasks d.1).

Lemma delivery_step_following d d' : delivery_step d d' -> following d -> following d'.
Proof.
  unfold following. destruct 1 as [a x frame x' s taken Hx Hpop|s s' taken Hstep Hnone]; simpl.
  - intros [(Hn & Ho & Hnd & Hs) Hm]. split; [|done]. split_and!; try done. simpl.
    apply wait_for_frame_pop in Hpop as (Hc & Hc' & Hfr & Hst). intros b y Hy.
    apply lookup_insert_Some in Hy as [[<- <-]|[Hab Hy]].
    + destruct (Hs a x Hx) as [Hin Hfed]. split; [done|]. rewrite decide_True by done.
      intros _. destruct (Hfed Hc) as (before & Hb & Hoff). exists before.
      rewrite Hb, Hfr, Hst, <- app_assoc. done.
    + rewrite decide_False by done. by apply Hs.
  - intros [Hs Hm]. pose proof (reset_clean s taken Hs Hm) as Hclean.
    destruct Hstep as [r s Hr|s s' _ Hrun|b s|b x frame x' s|b x r x' calls s|b s|b x f x' s Hx Hpop|b x s Hx|b s];
      try (split; [apply (aside_streaming _ s); [by split_and!|apply Hclean]|done]).
    + destruct Hclean as (Hs' & _). split; [done|]. simpl. apply Forall_app. split; [done|].
      apply Forall_singleton. destruct r; cbn in *; done.
    + destruct (run_iteration_clean _ _ _ _ Hrun Hclean) as (? & _ & ?). by split.
    + exfalso. apply wait_for_frame_pop in Hpop as (_ & _ & Hfr & _).
      destruct (Hnone b x x' Hx) as [new Hnew]; [by apply lookup_insert_eq|].
      rewrite Hfr in Hnew. apply (f_equal length) in Hnew. rewrite length_app in Hnew.
      simpl in Hnew. lia.
    + split; [|done]. apply streaming_heap; [apply Hclean|]. intros c y Hy.
      apply lookup_insert_Some in Hy as [[<- <-]|[_ Hy]].
      * by exists x.
      * by exists y.
    + split; [|done]. apply streaming_heap; [apply Hclean|]. intros c y Hy.
      apply lookup_delete_Some in Hy as [_ Hy]. by exists y.
Qed.

Lemma deliveries_following d d' : rtc delivery_step d d' -> following d -> following d'.
Proof. induction 1 as [|x y z Hxy _ IH]; [done|]. intros Hf. by eapply IH, delivery_step_following. Qed.

(** ** Every step of the processor is a delivery step *)

Definition queues_grow (s s' : ProcessorState) : Prop :=
  forall a x, replica_heap s !! a = Some x ->
    exists x' new, replica_heap s' !! a = Some x' /\ replica_frames x' = replica_frames x ++ new.

#[export] Instance queues_grow_preorder : PreOrder queues_grow.
Proof.
  split; unfold queues_grow.
  - intros s a x Hx. exists x, []. by rewrite app_nil_r.
  - intros s1 s2 s3 H12 H23 a x Hx. destruct (H12 a x Hx) as (y & l & Hy & Hl).
    destruct (H23 a y Hy) as (z & l' & Hz & Hl'). exists z, (l ++ l').
    by rewrite Hl', Hl, app_assoc.
Qed.

Lemma queues_grow_same s s' : replica_heap s' = replica_heap s -> queues_grow s s'.
Proof. intros Heq a x Hx. exists x, []. by rewrite Heq, app_nil_r. Qed.

Lemma aside_grows s s' : aside s s' -> queues_grow s s'.
Proof. intros (_ & _ & _ & Heq & _). by apply queues_grow_same. Qed.

Lemma append_frame_grows data : steps queues_grow (append_replication_frame data).
Proof.
  unfold append_replication_frame.
  repeat (apply steps_bind; [apply _| |intros ?]);
    try (apply steps_modify; intros; by apply queues_grow_same); try (apply steps_gets; apply _).
  apply steps_keepM; [apply _|]. intros b. apply steps_bind_gets. intros s y s'.
  destruct (replica_heap s !! b) as [v|] eqn:Hv; [|intros [= <- <-]; reflexivity].
  intros ([] & s1 & Hm & Hret)%M_bind_Some. injection Hm as <-. injection Hret as _ <-.
  intros c z Hz. simpl. destruct (decide (c = b)) as [->|Hcb].
  - rewrite lookup_insert_eq. rewrite Hv in Hz. injection Hz as <-. unfold replica_enqueue.
    destruct (closed v); [exists v, []; by rewrite app_nil_r|]. by eexists _, _.
  - rewrite lookup_insert_ne by done. exists z, []. by rewrite app_nil_r.
Qed.

Lemma count_acknowledged_grows t : steps queues_grow (count_acknowledged_replicas t).
Proof. intros s x s' [= _ <-]. by apply queues_grow_same. Qed.

Lemma registration_grows c p : steps queues_grow (process_replica_registration c p).
Proof.
  intros s x s' Hrun. unfold process_replica_registration in Hrun. set (b := fresh _) in Hrun.
  assert (b ∉ dom (replica_heap s) ∪ list_to_set (_replica_sessions s)) as Hb by apply is_fresh.
  apply not_elem_of_union in Hb as [Hb _]. rewrite not_elem_of_dom in Hb.
  injection Hrun as _ <-. intros a y Hy. exists y, []. rewrite app_nil_r. split; [|done]. simpl.
  rewrite lookup_insert_ne; [done|]. intros ->. congruence.
Qed.

Lemma run_iteration_grows s x s' :
  Forall master_task (_tasks s) -> run_iteration s = Some (x, s') -> queues_grow s s'.
Proof.
  intros Hm Hrun.
  refine (run_iteration_walk queues_grow aside_grows append_frame_grows count_acknowledged_grows
    registration_grows _ _ _ _ s x s' _ Hm Hrun); try done.
  intros. by apply queues_grow_same.
Qed.

Lemma grows_delivers s s' taken :
  processor_step master_request s s' -> queues_grow s s' ->
  delivery_step (s, taken) (s', reset s taken).
Proof.
  intros Hstep Hgrow. apply deliver_nothing; [done|]. intros a x x' Hx Hx'.
  destruct (Hgrow a x Hx) as (y & new & Hy & Hnew). exists new. congruence.
Qed.

Lemma step_delivers s s' taken :
  Forall master_task (_tasks s) -> processor_step master_request s s' ->
  exists taken', delivery_step (s, taken) (s', taken').
Proof.
  intros Hm Hstep. pose proof Hstep as Hcase.
  destruct Hcase as [r s Hr|s s' Hdue Hrun|b s Hb Hc|b x f x' s Hx Hp|b x r x' calls s Hx Hcl|b s
    |b x f x' s Hx Hpop|b x s Hx|b s];
    try (eexists; apply grows_delivers; [done|by apply queues_grow_same]).
  - eexists. apply grows_delivers; [done|]. by eapply run_iteration_grows.
  - eexists. by eapply deliver_frame.
  - eexists. apply grows_delivers; [done|]. intros a y Hy. simpl.
    destruct (decide (a = b)) as [->|Hab].
    + rewrite lookup_insert_eq. exists (close_session x), [].
      rewrite app_nil_r. split; [done|]. simpl. congruence.
    + rewrite lookup_insert_ne by done. exists y, []. by rewrite app_nil_r.
  - eexists. apply deliver_nothing; [done|]. intros a y y' Hy Hy'. simpl in Hy'.
    apply lookup_delete_Some in Hy' as [_ Hy']. exists []. rewrite app_nil_r. congruence.
Qed.

Lemma initial_following replica rdb aof hash i :
  following (initial_state replica rdb aof hash i, fun _ => []).
Proof.
  split; [|constructor]. split; [|split; [done|split; [constructor|done]]].
  intros before f after Heq. by destruct before.
Qed.

(** The instrumented runs are the runs of the processor. *)
Lemma runs_deliver s0 s taken :
  following (s0, taken) -> rtc (processor_step master_request) s0 s ->
  exists taken', rtc delivery_step (s0, taken) (s, taken').
Proof.
  intros Hf Hrun. revert taken Hf. induction Hrun as [s|s1 s2 s3 H12 _ IH]; intros taken Hf.
  { by exists taken. }
  destruct (step_delivers s1 s2 taken (proj2 Hf) H12) as [taken2 Hd].
  destruct (IH taken2) as [taken3 Hrest]; [by eapply delivery_step_following|].
  exists taken3. by eapply rtc_l.
Qed.
End Stream.

(** C9: replicas miss nothing.  In every reachable state of a server that follows
    no master itself, each frame of the replication backlog carries the number
    of bytes written up to its end, modulo 2^64, and the offset of the server
    is that of the whole backlog.  For a registered replica whose session is
    open, the frames its thread has taken, followed by those in its queue, are
    exactly the backlog after the offset it was given when it registered: under
    any interleaving no frame is lost, repeated or reordered. *)
Theorem replica_misses_nothing `{Clock, HashOrder, Kernel, Crypto}
    (replica : option ReplicaConfig) (rdb : RDBConfig) (aof : AOFConfig) (hash : option string)
    (id : string) (s : ProcessorState) (taken : nat -> list ReplicationFrame) :
  rtc delivery_step (initial_state replica rdb aof hash id, fun _ => []) (s, taken) ->
  (forall before f after, _replication_backlog s = before ++ f :: after ->
     ending_offset f = wrap_u64 (stream_bytes (before ++ [f]))) /\
  offset (_replication_state s) = wrap_u64 (stream_bytes (_replication_backlog s)) /\
  forall a x, replica_heap s !! a = Some x -> closed x = false ->
    exists before, _replication_backlog s = before ++ taken a ++ replica_frames x /\
      starting_offset x = wrap_u64 (stream_bytes before).
Proof.
  intros Hrun. apply deliveries_following in Hrun as [(Hn & Ho & _ & Hs) _];
    [|apply initial_following].
  split; [done|]. split; [done|]. intros a x Hx Hopen. destruct (Hs a x Hx) as [_ Hfed].
  by apply Hfed.
Qed.

(** ** Witness *)

Section Witness.
#[local] Existing Instance millisecond_clock.
#[local] Existing Instance insertion_order.
#[local] Existing Instance perfect_kernel.
#[local] Existing Instance sample_crypto.

(** A write, a replica, and two more writes. *)
Definition fed_replica : ProcessorState :=
  after_script [RegisterClient 1 0; Submit 1 ["SET"; "n"; "1"]; RegisterReplica 7;
    Submit 1 ["INCR"; "n"]; Submit 1 ["RPUSH"; "l"; "a"]] sample_master.

Lemma fed_replica_reachable : rtc (processor_step master_request) sample_master fed_replica.
Proof.
  apply after_script_allowed; [repeat constructor|vm_compute; reflexivity].
Qed.

Lemma replica_misses_nothing_witness :
  (length <$> (replica_frames <$> replica_heap fed_replica !! 0%nat)) = Some 2%nat /\
  exists taken, rtc delivery_step (sample_master, fun _ => []) (fed_replica, taken) /\
    (forall before f after, _replication_backlog fed_replica = before ++ f :: after ->
       ending_offset f = wrap_u64 (stream_bytes (before ++ [f]))) /\
    offset (_replication_state fed_replica)
      = wrap_u64 (stream_bytes (_replication_backlog fed_replica)) /\
    forall a x, replica_heap fed_replica !! a = Some x -> closed x = false ->
      exists before, _replication_backlog fed_replica = before ++ taken a ++ replica_frames x /\
        starting_offset x = wrap_u64 (stream_bytes before).
Proof.
  split; [vm_compute; reflexivity|].
  destruct (runs_deliver sample_master fed_replica (fun _ => [])) as [taken Hrun];
    [apply initial_following|exact fed_replica_reachable|].
  exists taken. split; [exact Hrun|].
  exact (replica_misses_nothing None default_rdb_config default_aof_config None
    "0123456789abcdef" fed_replica taken Hrun).
Defined.
End Witness.
