(* ===== verification/PubSub.v ===== *)
(** * Subscriptions (src/command_processor.cpp, [subscribe], [unsubscribe],
    [publish], [process_client_unregistration])

    The processor keeps who listens twice: the subscribers of each channel, and
    the channels of each client.  The two always say the same, and neither holds
    an empty set. *)

From stdpp Require Import base option list gmap sets strings relations.
From Stdlib Require Import ZArith Lia.
From S2P Require Import Prelude CharConv Environment Resp StreamTypes TimeUtils.
From S2P Require Import Database Commands Dispatch Config.
From S2P Require Import Sessions Aof StateMonad ProcessorState Processor ProcessorRun.
From S2P Require Import ProcessorWalk.

(** A map of sets that holds no empty set. *)
Definition no_empty {K A} `{Countable K, Countable A} (m : gmap K (gset A)) : Prop :=
  forall k, m !! k <> Some ∅.

Definition members {K A} `{Countable K, Countable A} (m : gmap K (gset A)) (k : K) : gset A :=
  default ∅ (m !! k).

Section Members.
Context {K A} `{Countable K, Countable A}.
Implicit Types (m : gmap K (gset A)) (X : gset A).

Lemma members_insert m k X j :
  members (<[k := X]> m) j = if decide (j = k) then X else members m j.
Proof.
  unfold members. destruct (decide (j = k)) as [->|]; [by rewrite lookup_insert_eq|].
  by rewrite lookup_insert_ne.
Qed.

Lemma members_delete m k j :
  members (delete k m) j = if decide (j = k) then ∅ else members m j.
Proof.
  unfold members. destruct (decide (j = k)) as [->|]; [by rewrite lookup_delete_eq|].
  by rewrite lookup_delete_ne.
Qed.

Lemma no_empty_insert m k X : X <> ∅ -> no_empty m -> no_empty (<[k := X]> m).
Proof.
  intros HX Hm j Hj. apply lookup_insert_Some in Hj as [[_ ->]|[_ Hj]]; [done|]. by apply (Hm j).
Qed.

Lemma no_empty_delete m k : no_empty m -> no_empty (delete k m).
Proof. intros Hm j Hj. apply lookup_delete_Some in Hj as [_ Hj]. by apply (Hm j). Qed.
End Members.

Lemma members_store_subscribers ch (X : gset Z) m j :
  members (store_subscribers ch X m) j = if decide (j = ch) then X else members m j.
Proof.
  unfold store_subscribers. destruct (decide (X = ∅)) as [->|]; [apply members_delete|].
  apply members_insert.
Qed.

Lemma members_store_subscriptions c (X : gset string) m j :
  members (store_subscriptions c X m) j = if decide (j = c) then X else members m j.
Proof.
  unfold store_subscriptions. destruct (decide (X = ∅)) as [->|]; [apply members_delete|].
  apply members_insert.
Qed.

Lemma no_empty_store_subscribers ch X m : no_empty m -> no_empty (store_subscribers ch X m).
Proof.
  intros Hm. unfold store_subscribers.
  destruct (decide _); [by apply no_empty_delete|by apply no_empty_insert].
Qed.

Lemma no_empty_store_subscriptions c X m : no_empty m -> no_empty (store_subscriptions c X m).
Proof.
  intros Hm. unfold store_subscriptions.
  destruct (decide _); [by apply no_empty_delete|by apply no_empty_insert].
Qed.

Section PubSub.
Context `{Clock, HashOrder, Kernel, Crypto}.

(** The two maps agree, with the subscribers [who] of a channel as given. *)
Definition agrees (who : string -> gset Z) (s : ProcessorState) : Prop :=
  (forall c ch, ch ∈ members (_client_subscriptions s) c <-> c ∈ who ch) /\
  no_empty (_client_subscriptions s) /\ no_empty (_channel_subscribers s).

Definition consistent (s : ProcessorState) : Prop := agrees (members (_channel_subscribers s)) s.

(** ** Actions that route nothing *)

Definition same_routes (s s' : ProcessorState) : Prop :=
  _channel_subscribers s' = _channel_subscribers s /\
  _client_subscriptions s' = _client_subscriptions s.

#[export] Instance same_routes_preorder : PreOrder same_routes.
Proof.
  split; unfold same_routes; [done|]. intros a b c [? ?] [? ?]. split; congruence.
Qed.

Lemma same_routes_keeps s s' : same_routes s s' -> keeps consistent s s'.
Proof. intros [Hc Hs] Hcons. unfold consistent, agrees. by rewrite Hc, Hs. Qed.

Lemma same_routes_steps {A} (m : P A) : steps same_routes m -> steps (keeps consistent) m.
Proof. intros Hm s x s' Hrun. by eapply same_routes_keeps, Hm. Qed.

Lemma on_database_same {A} (op : Database -> A * Database) : steps same_routes (on_database op).
Proof.
  intros s x s'. unfold on_database. destruct (op (_database s)). by intros [= <- <-].
Qed.

Lemma try_database_same {A} (op : Database -> option (A * Database)) :
  steps same_routes (try_database op).
Proof. intros s x s'. unfold try_database. by intros ([y db] & _ & [= <- <-])%bind_Some. Qed.

Lemma leaves_same_routes :
  (forall a f, steps same_routes (enqueue_frame a f)) /\
  (forall d, steps same_routes (append_aof d)) /\
  (forall t, steps same_routes (count_acknowledged_replicas t)) /\
  (forall p v, steps same_routes (complete p v)) /\
  (forall c p, steps same_routes (process_replica_registration c p)).
Proof.
  split_and!; try (by intros; intros s x s' [= <- <-]).
  - intros a f s x s'. unfold enqueue_frame. intros (x0 & _ & Hb)%bind_Some.
    by apply bind_Some in Hb as ([[r x'] n] & _ & [= <- <-]).
  - intros d s x s'. unfold append_aof. intros (f & _ & Hb)%bind_Some.
    by apply bind_Some in Hb as ([[[r f'] n] rd] & _ & [= <- <-]).
Qed.

Lemma enqueue_frame_same a f : steps same_routes (enqueue_frame a f).
Proof. apply leaves_same_routes. Qed.
Lemma append_aof_same d : steps same_routes (append_aof d).
Proof. apply leaves_same_routes. Qed.
Lemma count_acknowledged_same t : steps same_routes (count_acknowledged_replicas t).
Proof. apply leaves_same_routes. Qed.
Lemma complete_same p v : steps same_routes (complete p v).
Proof. apply leaves_same_routes. Qed.
Lemma respond_same task r : steps same_routes (respond task r).
Proof. apply complete_same. Qed.

#[local] Hint Resolve enqueue_frame_same append_aof_same count_acknowledged_same complete_same
  respond_same on_database_same try_database_same : steps.
#[local] Hint Extern 1 (steps same_routes (modify _)) =>
  apply steps_modify; intros; repeat case_match; by split : steps.

Lemma append_client_frame_same c data :
  steps same_routes (append_client_replication_frame c data).
Proof. unfold append_client_replication_frame, append_replication_frame. solve_steps. Qed.

Lemma route_same c r : steps same_routes (route_pubsub_response c r).
Proof. unfold route_pubsub_response, enqueue_pubsub_response. solve_steps. Qed.

Lemma deadline_of_same t : steps same_routes (deadline_of t).
Proof. unfold deadline_of. solve_steps. Qed.

Lemma run_transaction_same b cs data : steps same_routes (run_transaction b cs data).
Proof. apply run_transaction_steps; [apply _|]. apply Forall_true. auto with steps. Qed.

Lemma lock_session_same c : steps same_routes (lock_client_session c).
Proof. unfold lock_client_session. solve_steps. Qed.
#[local] Hint Resolve append_client_frame_same route_same deadline_of_same run_transaction_same
  lock_session_same : steps.

Lemma commit_transaction_same c from t b : steps same_routes (commit_transaction c from t b).
Proof. unfold commit_transaction. solve_steps. Qed.

Lemma accounts_same c command :
  steps same_routes (authenticate c command) /\ steps same_routes (process_acl_command c command) /\
  steps same_routes (config_get command) /\ steps same_routes (watch c command).
Proof.
  unfold authenticate, process_acl_command, acl_whoami, acl_getuser, acl_setuser, config_get,
    watch, watch_key. split_and!; solve_steps.
Qed.

Lemma queue_acknowledgement_same a data : steps same_routes (queue_acknowledgement a data).
Proof. unfold queue_acknowledgement. solve_steps. Qed.
#[local] Hint Resolve commit_transaction_same queue_acknowledgement_same : steps.
#[local] Hint Extern 2 (steps (keeps consistent) _) =>
  apply same_routes_steps; solve [auto with steps] : steps.

(** ** Subscribing and unsubscribing *)

Lemma subscribe_channel_consistent c ch :
  steps (keeps consistent) (subscribe_channel c ch).
Proof.
  intros s x s' [= _ <-] (Hag & Hs & Hc). unfold consistent, agrees. simpl. split_and!.
  - intros c' ch'. rewrite !members_insert. specialize (Hag c' ch').
    unfold subscriptions_of in *. fold (members (_client_subscriptions s) c).
    fold (members (_channel_subscribers s) ch).
    repeat case_decide; subst; set_solver.
  - apply no_empty_insert; [set_solver|done].
  - apply no_empty_insert; [set_solver|done].
Qed.

(** Taking client [c] off channel [ch]. *)
Definition without (c : Z) (ch : string) (who : string -> gset Z) : string -> gset Z :=
  fun j => if decide (j = ch) then who ch ∖ {[ c ]} else who j.

Lemma drop_subscriber_members c ch m j :
  members (match m !! ch with
           | None => m
           | Some subscribers => store_subscribers ch (subscribers ∖ {[ c ]}) m
           end) j = without c ch (members m) j.
Proof.
  unfold without. destruct (m !! ch) as [X|] eqn:HX.
  - rewrite members_store_subscribers. unfold members at 2. by rewrite HX.
  - case_decide as Hj; [|done]. subst. unfold members. rewrite HX. simpl. set_solver.
Qed.

Lemma remove_subscription_consistent c ch :
  steps (keeps consistent) (remove_subscription c ch).
Proof.
  intros s x s' Hrun (Hag & Hs & Hc). unfold remove_subscription in Hrun.
  destruct (_client_subscriptions s !! c) as [channels|] eqn:Hch; [|by injection Hrun as _ <-].
  assert (members (_client_subscriptions s) c = channels) as Hmem by (unfold members; by rewrite Hch).
  injection Hrun as _ <-.
  match goal with |- consistent (set_client_subscriptions _ ?s) => set (s1 := s) end.
  assert (_client_subscriptions s1 = _client_subscriptions s /\ no_empty (_channel_subscribers s1) /\
    forall j, members (_channel_subscribers s1) j = without c ch (members (_channel_subscribers s)) j)
    as (Hsub & Hne & Hmem1).
  { subst s1. destruct (decide (ch ∈ channels)) as [Hin|Hin].
    - pose proof (drop_subscriber_members c ch (_channel_subscribers s)) as Hdrop.
      destruct (_channel_subscribers s !! ch); split_and!; try done.
      by apply no_empty_store_subscribers.
    - split_and!; [done..|]. intros j. unfold without. case_decide as Hj; [|done]. subst j.
      specialize (Hag c ch). rewrite Hmem in Hag. set_solver. }
  clearbody s1. unfold consistent, agrees. simpl. rewrite Hsub.
  split; [|split; [by apply no_empty_store_subscriptions|done]].
  intros c' ch'. rewrite Hmem1, members_store_subscriptions. unfold without.
  specialize (Hag c' ch'). repeat case_decide; subst; set_solver.
Qed.
#[local] Hint Resolve subscribe_channel_consistent remove_subscription_consistent : steps.

Lemma subscribe_consistent c command : steps (keeps consistent) (subscribe c command).
Proof. unfold subscribe. solve_steps. Qed.

Lemma unsubscribe_consistent c command : steps (keeps consistent) (unsubscribe c command).
Proof. unfold unsubscribe, unsubscribe_channel. solve_steps. Qed.

(** ** Publishing drops the clients that are gone *)

(** While the loop runs, [kept] stands for the subscribers of the channel. *)
Definition publishing (ch : string) (kept : gset Z) (s : ProcessorState) : Prop :=
  agrees (fun j => if decide (j = ch) then kept else members (_channel_subscribers s) j) s.

Lemma same_routes_publishing ch kept s s' :
  same_routes s s' -> publishing ch kept s -> publishing ch kept s'.
Proof. intros [Hc Hs]. unfold publishing, agrees. by rewrite Hc, Hs. Qed.

Lemma publish_to_publishing ch frame c n kept s keep n' s' :
  publish_to ch frame c n s = Some ((keep, n'), s') -> publishing ch kept s ->
  publishing ch (if keep : bool then kept else kept ∖ {[ c ]}) s'.
Proof.
  intros Hrun Hpub. unfold publish_to in Hrun.
  apply M_bind_Some in Hrun as (cl & s1 & Hg & Hrun). injection Hg as _ <-.
  apply M_bind_Some in Hrun as (se & s1 & Hg & Hrun). injection Hg as _ <-. destruct se as [a|].
  - apply M_bind_Some in Hrun as (res & s1 & Hq & Hret). injection Hret as <- _ <-.
    eapply same_routes_publishing; [|done]. by eapply enqueue_frame_same.
  - apply M_bind_Some in Hrun as ([] & s1 & Hm & Hrun). injection Hm as <-.
    apply M_bind_Some in Hrun as ([] & s2 & Hm & Hret). injection Hm as <-. injection Hret as <- _ <-.
    destruct Hpub as (Hag & Hs & Hc).
    eapply (same_routes_publishing _ _ (match _client_subscriptions s !! c with
      | Some channels => set_client_subscriptions (store_subscriptions c (channels ∖ {[ch]})
          (_client_subscriptions s)) s
      | None => s end)); [by destruct (_client_subscriptions s !! c)|].
    destruct (_client_subscriptions s !! c) as [channels|] eqn:Hch.
    + assert (members (_client_subscriptions s) c = channels) as Hmem
        by (unfold members; by rewrite Hch).
      split; [|split; [by apply no_empty_store_subscriptions|done]]. simpl.
      intros c' ch'. rewrite members_store_subscriptions. specialize (Hag c' ch').
      simpl in Hag. repeat case_decide; subst; set_solver.
    + assert (members (_client_subscriptions s) c = ∅) as Hmem
        by (unfold members; by rewrite Hch).
      split; [|done]. intros c' ch'. specialize (Hag c' ch') as Hag'. specialize (Hag c ch).
      simpl in *. repeat case_decide; subst; set_solver.
Qed.

Lemma publish_loop_publishing ch frame l kept n s kept' n' s' :
  publish_loop ch frame l kept n s = Some ((kept', n'), s') -> publishing ch kept s ->
  publishing ch kept' s'.
Proof.
  revert kept n s. induction l as [|c l IH]; intros kept n s; cbn [publish_loop].
  { by intros [= <- _ <-]. }
  intros ([keep n1] & s1 & Hone & Hrun)%M_bind_Some Hpub. eapply IH; [exact Hrun|].
  by eapply publish_to_publishing.
Qed.

Lemma publish_consistent command : steps (keeps consistent) (publish command).
Proof.
  intros s x s' Hrun Hcons. unfold publish in Hrun.
  destruct (negb _); [by injection Hrun as _ <-|].
  set (ch := nth 1 command EmptyString) in *.
  apply M_bind_Some in Hrun as (subs & s1 & Hg & Hrun). injection Hg as Hsubs <-.
  destruct subs as [subs|]; [|by injection Hrun as _ <-].
  apply M_bind_Some in Hrun as ([kept n] & s1 & Hloop & Hrun).
  apply M_bind_Some in Hrun as ([] & s2 & Hm & Hret). injection Hm as <-. injection Hret as _ <-.
  apply publish_loop_publishing in Hloop as (Hag & Hs & Hc).
  - unfold consistent, agrees. simpl. split; [|split; [done|by apply no_empty_store_subscribers]].
    intros c' ch'. rewrite members_store_subscribers. specialize (Hag c' ch'). simpl in Hag.
    by case_decide.
  - destruct Hcons as (Hag & Hs & Hc). split; [|done]. intros c' ch'. rewrite Hag.
    case_decide as Hj; [|done]. subst ch'. unfold members. by rewrite Hsubs.
Qed.
#[local] Hint Resolve subscribe_consistent unsubscribe_consistent publish_consistent : steps.

(** ** A client leaves *)

(** Dropping a client from channels of its own. *)
Lemma drop_subscribers_members c channels s u s' :
  forM_ channels (drop_subscriber c) s = Some (u, s') ->
  _client_subscriptions s' = _client_subscriptions s /\
  (no_empty (_channel_subscribers s) -> no_empty (_channel_subscribers s')) /\
  forall j, members (_channel_subscribers s') j =
    if decide (j ∈ channels) then members (_channel_subscribers s) j ∖ {[ c ]}
    else members (_channel_subscribers s) j.
Proof.
  revert s. induction channels as [|ch channels IH]; intros s Hrun; cbn [forM_] in Hrun.
  { injection Hrun as _ <-. split_and!; [done..|]. intros j. by rewrite decide_False by set_solver. }
  apply M_bind_Some in Hrun as ([] & s1 & Hone & Hrun). injection Hone as <-.
  destruct (IH _ Hrun) as (Hsub & Hne & Hmem). clear IH Hrun.
  pose proof (drop_subscriber_members c ch (_channel_subscribers s)) as Hdrop.
  destruct (_channel_subscribers s !! ch) as [X|] eqn:HX; simpl in *.
  - split; [done|]. split; [intros Hs; apply Hne; by apply no_empty_store_subscribers|].
    intros j. rewrite Hmem, Hdrop. unfold without. repeat case_decide; subst; set_solver.
  - split; [done|]. split; [done|]. intros j. rewrite Hmem. specialize (Hdrop j).
    unfold without in Hdrop. repeat case_decide; subst; set_solver.
Qed.

Lemma unregistration_consistent c p :
  steps (keeps consistent) (process_client_unregistration c p).
Proof.
  unfold process_client_unregistration, cancel_pending_commands, cancel, forget_transaction.
  apply steps_bind; [apply _|solve_steps|]. intros _.
  intros s x s' Hrun Hcons.
  apply M_bind_Some in Hrun as (channels & s1 & Hg & Hrun). injection Hg as <- <-.
  apply M_bind_Some in Hrun as (u & s1 & Hdrop & Hrun).
  apply M_bind_Some in Hrun as ([] & s2 & Hm & Hrun). injection Hm as <-.
  eapply (same_routes_steps _); [|exact Hrun|]; [solve_steps|].
  apply drop_subscribers_members in Hdrop as (Hsub & Hne & Hmem).
  destruct Hcons as (Hag & Hs & Hc). unfold consistent, agrees. simpl. rewrite Hsub.
  split; [|split; [by apply no_empty_delete|by apply Hne]].
  intros c' ch. rewrite members_delete, Hmem. specialize (Hag c' ch) as Hag1.
  assert (ch ∈ hash_order (elements (subscriptions_of s c))
    <-> ch ∈ members (_client_subscriptions s) c) as Hin
    by (rewrite hash_order_perm, elem_of_elements; done).
  repeat case_decide; subst; set_solver.
Qed.
#[local] Hint Resolve unregistration_consistent : steps.

(** ** Every step *)

Lemma process_command_consistent c command from :
  steps (keeps consistent) (process_command c command from).
Proof.
  pose proof (accounts_same c command) as (? & ? & ? & ?).
  assert (forall l, steps same_routes (watched_changed l))
    by (intros l; apply watched_changed_steps; [apply _|]; solve_steps).
  unfold process_command, execute_transaction. solve_steps.
Qed.
#[local] Hint Resolve process_command_consistent : steps.

Lemma serve_pop_same task key v : steps same_routes (serve_pop task key v).
Proof. unfold serve_pop, persist_blocking_pop. solve_steps. Qed.
#[local] Hint Resolve serve_pop_same : steps.

Lemma process_task_consistent task : steps (keeps consistent) (process_task task).
Proof.
  unfold process_task, process_blpop, process_xread, process_wait, append_replication_frame,
    process_direct, read_in_place. solve_steps.
Qed.

Lemma process_processor_task_consistent task :
  steps (keeps consistent) (process_processor_task task).
Proof.
  destruct task; cbn [process_processor_task].
  1: apply process_task_consistent.
  1: apply same_routes_steps, leaves_same_routes.
  all: unfold process_replication_state_installation, process_replication_offset_request,
    process_replica_acknowledgement, process_rdb_load, load_entry, process_aof_initialization,
    forget_transaction, process_client_registration; solve_steps.
Qed.

Lemma retry_stream_read_same p : steps same_routes (retry_stream_read p).
Proof. unfold retry_stream_read, read_in_place. solve_steps. Qed.
#[local] Hint Resolve retry_stream_read_same process_processor_task_consistent : steps.

Lemma run_iteration_consistent : steps (keeps consistent) run_iteration.
Proof.
  unfold run_iteration, retry_all, expire_all, retry_pending_list_pops, retry_list_pop,
    retry_pending_stream_reads, retry_pending_waits, retry_wait, expire_pending_list_pops,
    expire_pending_stream_reads, expire_pending_waits. solve_steps.
Qed.

Lemma processor_steps_consistent allowed s s' :
  rtc (processor_step allowed) s s' -> consistent s -> consistent s'.
Proof.
  induction 1 as [|s1 s2 s3 H12 _ IH]; [done|]. intros Hs. apply IH.
  destruct H12; try (by apply (same_routes_keeps s)). by eapply run_iteration_consistent.
Qed.
End PubSub.

(** C33: the two halves of the subscription state agree.  In every reachable
    state of the processor, whatever clients subscribe, unsubscribe, publish,
    disconnect or lose their sessions in the middle of a message, a client is
    among the subscribers of a channel exactly when the channel is among the
    subscriptions of the client, and no channel without subscribers and no
    client without subscriptions is kept. *)
Theorem subscriptions_agree `{Clock, HashOrder, Kernel, Crypto} (allowed : Request -> Prop)
    (replica : option ReplicaConfig) (rdb : RDBConfig) (aof : AOFConfig) (hash : option string)
    (id : string) (s : ProcessorState) :
  rtc (processor_step allowed) (initial_state replica rdb aof hash id) s ->
  (forall c ch, ch ∈ subscriptions_of s c <-> c ∈ default ∅ (_channel_subscribers s !! ch)) /\
  (forall c, _client_subscriptions s !! c <> Some ∅) /\
  (forall ch, _channel_subscribers s !! ch <> Some ∅).
Proof.
  intros Hrun. apply processor_steps_consistent in Hrun as (Hag & Hs & Hc); [done|].
  split; [|done]. intros c ch. unfold members. simpl. set_solver.
Qed.

(** ** Witness *)

Section Witness.
#[local] Existing Instance millisecond_clock.
#[local] Existing Instance insertion_order.
#[local] Existing Instance perfect_kernel.
#[local] Existing Instance sample_crypto.

(** Two clients listen to two channels, one leaves a channel, and the session of
    the other is gone when a third client publishes. *)
Definition opened (a : nat) (s : ProcessorState) : ProcessorState :=
  set_pubsub_heap (<[a := create_session]> (pubsub_heap s)) s.
Definition listening : ProcessorState := after_script
  (two_clients ++ [Submit 1 ["SUBSCRIBE"; "a"; "b"]; Submit 2 ["SUBSCRIBE"; "a"; "b"];
                   Submit 1 ["UNSUBSCRIBE"; "b"]]) (opened 1 (opened 0 sample_master)).
Definition disconnected : ProcessorState :=
  set_pubsub_heap (delete 1%nat (pubsub_heap listening)) listening.
Definition published : ProcessorState :=
  after_script [RegisterClient 3 5; Submit 3 ["PUBLISH"; "a"; "hello"]] disconnected.

Lemma published_reachable : rtc (processor_step any_request) sample_master published.
Proof.
  eapply rtc_l; [apply (step_session_create _ 0); [reflexivity|done]|].
  eapply rtc_l; [apply (step_session_create _ 1); [reflexivity|done]|].
  transitivity listening; [apply after_script_steps; vm_compute; reflexivity|].
  eapply rtc_l; [apply (step_session_end _ 1)|].
  apply after_script_steps. vm_compute. reflexivity.
Qed.

Lemma subscriptions_agree_witness :
  map (fun ch => elements <$> _channel_subscribers published !! ch) ["a"; "b"]
    = [Some [1]; Some [2]] /\
  (forall c ch, ch ∈ subscriptions_of published c <->
     c ∈ default ∅ (_channel_subscribers published !! ch)) /\
  (forall c, _client_subscriptions published !! c <> Some ∅) /\
  (forall ch, _channel_subscribers published !! ch <> Some ∅).
Proof.
  split; [vm_compute; reflexivity|].
  apply (subscriptions_agree any_request None default_rdb_config default_aof_config None
    "0123456789abcdef" published).
  exact published_reachable.
Defined.
End Witness.
