(* ===== verification/Connection.v ===== *)
(** * The connection of a client (src/server.cpp, [TcpServer::handle_connection])

    The thread of one connection: it polls its socket and its pub/sub session,
    takes commands off its buffer, has each of them executed by the processor
    and sends the response.  What [poll] and [recv] report is a list of events;
    the processor is a [CommandService]. *)

From stdpp Require Import base option list strings.
From Stdlib Require Import ZArith Lia.
From S2P Require Import Prelude Environment Resp Sessions StateMonad ProcessorState.
From S2P Require Import Framing Sockets.

(** What the thread has besides its buffer: the bytes it has sent, the system
    calls it has made, and the world it shares with the other threads. *)
Record Conn (W : Type) := mkConn {
  wire : string;
  calls : nat;
  world : W;
}.
Arguments mkConn {W} _ _ _.
Arguments wire {W} _.
Arguments calls {W} _.
Arguments world {W} _.

(** How the loop of a connection ends, other than by a stop request. *)
Inductive ConnectionEnd :=
| Malformed
| SendFailed
| Stopped
| PollEnded
| Disconnected
| BecomesReplica (registration : ReplicaRegistration).

(** The results of [poll], with what [recv] then gives: which descriptors are
    readable and which report an error. *)
Inductive PollEvent :=
| PollInterrupted
| PollFails
| Polled (session_readable session_error client_readable client_error : bool)
    (recv : recv_outcome).

(** Bytes arrive and nothing else happens. *)
Definition readable (chunk : string) : PollEvent :=
  Polled false false true false (Received chunk).

Section Connection.
Context {W : Type} `{Kernel, CommandService W}.
Context (client_id : Z) (session : nat).

(** A call of the processor. *)
Definition call {A} (m : M W A) : M (Conn W) A := fun c =>
  '(x, w) ← m (world c); Some (x, mkConn (wire c) (calls c) w).

Definition send (bytes : string) : M (Conn W) (expected unit string) := fun c =>
  '(r, w, n) ← send_bytes bytes (wire c) (calls c); Some (r, mkConn w n (world c)).

(** The loop over [pop_frame]. *)
Fixpoint send_frames (fuel : nat) : M (Conn W) (expected unit string) :=
  match fuel with
  | O => undefined
  | S fuel' =>
      frame ← call (pop_session session);
      match frame with
      | None => mret (Expected tt)
      | Some f =>
          r ← send (frame_payload f);
          match r with
          | Unexpected e => mret (Unexpected e)
          | Expected _ => send_frames fuel'
          end
      end
  end.

Definition send_pending_pubsub_frames : M (Conn W) (expected unit string) :=
  cleared ← call (clear_session session);
  match cleared with
  | Unexpected e => mret (Unexpected e)
  | Expected _ => n ← gets (fun c => session_frames session (world c)); send_frames (S n)
  end.

Definition starts_replication (command : Command) : bool :=
  (length command =? 3)%nat &&
  match command with [] => false | first :: _ => String.eqb first "PSYNC" end.

(** The work on one command. *)
Definition handle_command (command : Command) (bytes_consumed : nat)
    : M (Conn W) (option ConnectionEnd) :=
  if starts_replication command then
    call (unregister_client client_id);;
    registration ← call (register_replica client_id);
    mret (Some (BecomesReplica registration))
  else
  result ← call (submit client_id command);
  stop ← gets (fun c => stop_requested (world c));
  if stop : bool then mret (Some Stopped) else
  sent ← send (serialize_response result);
  match sent with
  | Unexpected _ => mret (Some SendFailed)
  | Expected _ =>
      match result with
      | NoResponse =>
          queued ← send_pending_pubsub_frames;
          match queued with
          | Unexpected _ => mret (Some SendFailed)
          | Expected _ => mret None
          end
      | _ => mret None
      end
  end.

Definition conn_stopped (c : Conn W) : bool := stop_requested (world c).

Definition serve_buffer : string -> Conn W -> option (option ConnectionEnd * string * Conn W) :=
  take_all conn_stopped (fun _ => Malformed) handle_command.

(** One iteration of the loop of [handle_connection]. *)
Definition connection_iteration (event : PollEvent) (buffer : string) (c : Conn W)
    : option (option ConnectionEnd * string * Conn W) :=
  match event with
  | PollInterrupted => Some (None, buffer, c)
  | PollFails => Some (Some PollEnded, buffer, c)
  | Polled session_readable session_error client_readable client_error recv =>
      '(sent, c) ← (if session_readable then send_pending_pubsub_frames c
                    else Some (Expected tt, c));
      match sent with
      | Unexpected _ => Some (Some SendFailed, buffer, c)
      | Expected _ =>
          if session_error then Some (Some PollEnded, buffer, c) else
          if negb client_readable
          then Some (if client_error then Some PollEnded else None, buffer, c) else
          match recv with
          | Received chunk =>
              '(exit, buffer, c) ← serve_buffer (buffer +:+ chunk) c;
              Some (match exit with
                    | Some e => Some e
                    | None => if client_error then Some PollEnded else None
                    end, buffer, c)
          | _ => Some (Some Disconnected, buffer, c)
          end
      end
  end.

Fixpoint connection_loop (events : list PollEvent) (buffer : string) (c : Conn W)
    : option (option ConnectionEnd * string * Conn W) :=
  match events with
  | [] => Some (None, buffer, c)
  | event :: events' =>
      if conn_stopped c then Some (None, buffer, c) else
      '(exit, buffer, c) ← connection_iteration event buffer c;
      match exit with
      | Some e => Some (Some e, buffer, c)
      | None => connection_loop events' buffer c
      end
  end.

(** The whole thread up to the end of its loop: [None] as the first result when
    it is still polling.  A connection that becomes a replica's goes on in
    [run_replica_connection] (ReplicationLink.v) and is unregistered after it. *)
Definition handle_connection (created : expected unit string) (events : list PollEvent)
    : M (Conn W) (option ConnectionEnd) := fun c =>
  match created with
  | Unexpected _ => Some (Some PollEnded, c)
  | Expected _ =>
      '(_, c) ← call (register_client client_id session) c;
      if conn_stopped c then
        '(_, c) ← call (unregister_client client_id) c; Some (Some Stopped, c)
      else
      '(exit, _, c) ← connection_loop events EmptyString c;
      match exit with
      | Some (BecomesReplica registration) => Some (Some (BecomesReplica registration), c)
      | Some e => '(_, c) ← call (unregister_client client_id) c; Some (Some e, c)
      | None =>
          if conn_stopped c
          then '(_, c) ← call (unregister_client client_id) c; Some (Some Stopped, c)
          else Some (None, c)
      end
  end.

(** ** What the network does to the bytes *)

Lemma connection_loop_feed chunks buffer c :
  connection_loop (map readable chunks) buffer c =
  feed conn_stopped (fun _ => Malformed) handle_command chunks buffer c.
Proof.
  revert buffer c. induction chunks as [|chunk chunks IH]; intros buffer c; [done|].
  cbn [map connection_loop feed]. destruct (conn_stopped c); [done|].
  unfold connection_iteration, readable, serve_buffer. cbn [negb].
  change (Some (Expected tt, c) ≫= ?f) with (f (Expected tt : expected unit string, c)). cbv beta iota.
  destruct (take_all conn_stopped (fun _ => Malformed) handle_command (buffer +:+ chunk) c)
    as [[[[e|] b] c']|]; [done| |done]. apply IH.
Qed.

(** C18: the cut of the bytes does not matter.  Whatever the client sends,
    well-formed or not, and however the network cuts it into received pieces,
    the connection executes the same commands against the processor in the
    same order, sends the same bytes, ends in the same way, and keeps the same
    unfinished bytes if it goes on. *)
Theorem connection_ignores_cuts (chunks chunks' : list string) (c : Conn W) :
  foldr String.append EmptyString chunks = foldr String.append EmptyString chunks' ->
  same_run conn_stopped (connection_loop (map readable chunks) EmptyString c)
    (connection_loop (map readable chunks') EmptyString c).
Proof.
  intros Hcut. rewrite !connection_loop_feed.
  etransitivity; [apply feed_whole; by left|].
  rewrite Hcut. symmetry. apply feed_whole. by left.
Qed.

(** ** Pipelined commands are answered in order *)

(** The processor executes the commands one after the other. *)
Fixpoint submit_all (commands : list Command) : M W (list Response) :=
  match commands with
  | [] => mret []
  | command :: rest =>
      r ← submit client_id command;
      rs ← submit_all rest;
      mret (r :: rs)
  end.

Definition responses_bytes (rs : list Response) : string :=
  foldr (fun r s => serialize_response r +:+ s) EmptyString rs.

Context `{!KernelLaws, !ReliableSend}.

Lemma handle_command_submit command k w r w' out n :
  stop_requested w' = false -> starts_replication command = false ->
  submit client_id command w = Some (r, w') -> r <> NoResponse ->
  exists n', handle_command command k (mkConn out n w) =
    Some (None, mkConn (out +:+ serialize_response r) n' w').
Proof.
  intros Hnever Hc Hr Hno. unfold handle_command. rewrite Hc.
  destruct (send_bytes_reliable (serialize_response r) out n) as [n' Hsend]. exists n'.
  apply M_bind_Some. exists r, (mkConn out n w'). split; [unfold call; simpl; by rewrite Hr|].
  apply M_bind_Some. do 2 eexists. split; [done|]. simpl. rewrite Hnever.
  apply M_bind_Some. exists (Expected tt). eexists. split; [unfold send; simpl; by rewrite Hsend|].
  by destruct r.
Qed.

Lemma run_commands_submit commands w rs w' (out : string) (n : nat) :
  (forall w, stop_requested w = false) ->
  Forall (fun command => starts_replication command = false) commands ->
  submit_all commands w = Some (rs, w') -> NoResponse ∉ rs ->
  exists n', run_commands conn_stopped handle_command commands (mkConn out n w) =
    Some (None, mkConn (out +:+ responses_bytes rs) n' w').
Proof.
  intros Hnever Hall. revert w rs out n.
  induction Hall as [|command commands Hc _ IH]; intros w rs out n.
  { intros [= <- <-] _. exists n. simpl. by rewrite string_app_nil_r. }
  cbn [submit_all]. intros (r & w1 & Hr & Hrest)%M_bind_Some Hno.
  apply M_bind_Some in Hrest as (rs' & w2 & Hrs & Hret). injection Hret as <- <-.
  rewrite not_elem_of_cons in Hno. destruct Hno as [Hnr Hno].
  cbn [run_commands]. unfold conn_stopped at 1. rewrite Hnever.
  destruct (handle_command_submit command (String.length (serialize_command command)) w r w1 out n)
    as [n1 ->]; [auto..|]. cbn [mbind option_bind].
  destruct (IH w1 rs' (out +:+ serialize_response r) n1 Hrs Hno) as [n' Hn']. exists n'.
  rewrite Hn'. do 3 f_equal. apply string_app_assoc.
Qed.

(** C16: pipelined commands are answered in order.  A client may send any
    commands back to back, cut by the network in any way and followed by the
    beginning of another command; if the processor answers them, one after the
    other, with [rs], the connection has sent exactly the serialized responses
    in that order, the processor is where executing the commands one by one
    leaves it, and only the unfinished bytes stay in the buffer. *)
Theorem connection_answers_in_order (chunks : list string) (commands : list Command)
    (tail : string) (c : Conn W) (rs : list Response) (w' : W) :
  (forall w, stop_requested w = false) ->
  Forall command_fits commands -> settled tail ->
  foldr String.append EmptyString chunks = log_bytes commands +:+ tail ->
  Forall (fun command => starts_replication command = false) commands ->
  submit_all commands (world c) = Some (rs, w') -> NoResponse ∉ rs ->
  exists n', connection_loop (map readable chunks) EmptyString c =
    Some (None, tail, mkConn (wire c +:+ responses_bytes rs) n' w').
Proof.
  intros Hnever Hfit Htail Hcut Hplain Hrs Hno. rewrite connection_loop_feed.
  pose proof (feed_frames conn_stopped (fun _ => Malformed) handle_command chunks commands tail c
    Hfit Htail Hcut) as Hrun.
  destruct c as [out n w].
  destruct (run_commands_submit commands w rs w' out n Hnever Hplain Hrs Hno) as [n' Hn'].
  rewrite Hn' in Hrun. simpl in Hrun. exists n'.
  inversion Hrun as [[[e b] c] y (He & Hc & Hb) Hfeed|]; subst. simpl in *. subst.
  rewrite Hb; [done|done|apply Hnever].
Qed.
End Connection.
