(* ===== verification/ProcessorService.v ===== *)
(** * The processor implements the interface of the server

    [CommandService] for the state of the processor: a call enqueues its task,
    lets the worker take the tasks of the queue, and returns what its promise
    was fulfilled with.  A replica whose queue is empty satisfies what the
    reader of the replication stream relies on ([ServiceOffset]). *)

From stdpp Require Import base option list gmap strings relations.
From Stdlib Require Import ZArith Lia.
From S2P Require Import Prelude CharConv Environment Resp StreamTypes TimeUtils.
From S2P Require Import Database Commands Dispatch Config Sessions Aof Rdb StateMonad.
From S2P Require Import ProcessorState Processor ProcessorRun ProcessorWalk Promises Sockets.

Section Service.
Context `{Clock, HashOrder, Kernel, Crypto}.

(** The worker takes [n] tasks. *)
Fixpoint run_tasks (n : nat) : P unit :=
  match n with
  | O => mret tt
  | S n' => run_iteration;; run_tasks n'
  end.

(** What a promise was fulfilled with. *)
Definition outcome (promise : nat) (s : ProcessorState) : option Completion :=
  snd <$> (list_find (fun c => c.1 = promise) (completed s) ≫= fun x => Some x.2).

(** A call and the wait for its future; [None] when the operation blocks. *)
Definition await (r : Request) : P Completion := fun s =>
  '(_, s') ← run_tasks (length (_tasks (enqueue r s))) (enqueue r s);
  v ← outcome (promises s) s';
  Some (v, s').

Definition await_done (r : Request) : P unit := await r;; mret tt.

Definition await_response (r : Request) : P Response :=
  v ← await r; match v with Responded x => mret x | _ => undefined end.

Definition await_offset : P Z :=
  v ← await AskReplicationOffset; match v with OffsetReported x => mret x | _ => undefined end.

Definition await_registration (c : Z) : P ReplicaRegistration :=
  v ← await (RegisterReplica c); match v with Registered x => mret x | _ => undefined end.

(** The operations of a connection on its own session. *)
Definition clear_session_at (a : nat) : P (expected unit string) := fun s =>
  x ← pubsub_heap s !! a;
  '(r, x, n) ← clear_notification x (io_calls s);
  Some (r, set_io_calls n (set_pubsub_heap (<[a := x]> (pubsub_heap s)) s)).

Definition pop_session_at (a : nat) : P (option PubSubFrame) := fun s =>
  x ← pubsub_heap s !! a;
  let '(frame, x) := pop_frame x in
  Some (frame, set_pubsub_heap (<[a := x]> (pubsub_heap s)) s).

(** The operations of a replica's connection on its session. *)
Definition wait_frame_at (a : nat) : P (option ReplicationFrame) := fun s =>
  x ← replica_heap s !! a;
  '(frame, x) ← wait_for_frame false x;
  Some (frame, set_replica_heap (<[a := x]> (replica_heap s)) s).

Definition close_replica_at (a : nat) : P unit := fun s =>
  x ← replica_heap s !! a;
  Some (tt, set_replica_heap (<[a := close_session x]> (replica_heap s)) s).

#[export] Instance processor_service : CommandService ProcessorState := {|
  stop_requested _ := false;
  register_client c a := await_done (RegisterClient c a);
  unregister_client c := await_done (UnregisterClient c);
  submit c command := await_response (Submit c command);
  register_replica := await_registration;
  acknowledge_replica c o := await_done (AcknowledgeReplica c o);
  apply_replication command n := await_response (ApplyReplication command n);
  replication_offset := await_offset;
  install_replication_state i o := await_done (InstallReplicationState i o);
  session_frames a s := default 0%nat ((fun x => length (pending_frames x)) <$> pubsub_heap s !! a);
  clear_session := clear_session_at;
  pop_session := pop_session_at;
  wait_frame := wait_frame_at;
  close_replica := close_replica_at;
|}.

(** ** What a replica's worker leaves alone *)

(** Fulfilled promises stay. *)
Definition grows (s s' : ProcessorState) : Prop := completed s `prefix_of` completed s'.

#[export] Instance grows_preorder : PreOrder grows.
Proof.
  split; unfold grows; [intros s; reflexivity|]. intros s1 s2 s3 ??. by etransitivity.
Qed.

(** A replica follows the offsets of its master only. *)
Definition same_offset (s s' : ProcessorState) : Prop :=
  role (_replication_state s) = REPLICA -> _replication_state s' = _replication_state s.

#[export] Instance same_offset_preorder : PreOrder same_offset.
Proof.
  split; unfold same_offset; [done|]. intros s1 s2 s3 H12 H23 Hr.
  rewrite <- (H12 Hr). apply H23. by rewrite (H12 Hr).
Qed.

Lemma untouched_grows {A} (m : P A) : steps (same books) m -> steps grows m.
Proof.
  intros Hm s x s' Hrun. apply Hm in Hrun. unfold grows. by injection Hrun as _ _ _ _ _ ->.
Qed.

Lemma complete_grows p v : steps grows (complete p v).
Proof. intros s x s' [= <- <-]. by apply prefix_app_r. Qed.

Section Grows.
#[local] Hint Extern 1 (steps _ (respond _ _)) => apply complete_grows : steps.
#[local] Hint Extern 1 (steps _ (on_database _)) =>
  apply untouched_grows, on_database_untouched : steps.
#[local] Hint Extern 1 (steps _ (read_in_place _)) =>
  apply untouched_grows, on_database_untouched : steps.
#[local] Hint Extern 1 (steps _ (count_acknowledged_replicas _)) =>
  apply untouched_grows, leaves_untouched : steps.
#[local] Hint Extern 1 (steps _ (persist_blocking_pop _ _)) =>
  apply untouched_grows, persist_blocking_pop_untouched : steps.
#[local] Hint Extern 1 (steps _ (modify _)) => apply steps_modify; intros; exact (reflexivity _) : steps.

Lemma retry_stream_read_grows p : steps grows (retry_stream_read p).
Proof. unfold retry_stream_read. solve_steps. Qed.
#[local] Hint Resolve retry_stream_read_grows : steps.

Lemma retry_expire_grows : steps grows (retry_all;; expire_all).
Proof.
  unfold retry_all, expire_all, retry_pending_list_pops, retry_list_pop, serve_pop,
    retry_pending_stream_reads, retry_pending_waits, retry_wait,
    expire_pending_list_pops, expire_pending_stream_reads, expire_pending_waits.
  solve_steps.
Qed.
End Grows.

Section Offsets.
Lemma same_offset_frame s s' : _replication_state s' = _replication_state s -> same_offset s s'.
Proof. by intros ? _. Qed.

Lemma on_database_same_offset {A} (op : Database -> A * Database) : steps same_offset (on_database op).
Proof.
  intros s x s'. unfold on_database. destruct (op (_database s)). by intros [= <- <-].
Qed.

Lemma try_database_same_offset {A} (op : Database -> option (A * Database)) :
  steps same_offset (try_database op).
Proof.
  intros s x s'. unfold try_database. by intros ([y db] & _ & [= <- <-])%bind_Some.
Qed.

Lemma leaves_same_offset :
  (forall a f, steps same_offset (enqueue_frame a f)) /\
  (forall d, steps same_offset (append_aof d)) /\
  (forall t, steps same_offset (count_acknowledged_replicas t)) /\
  (forall d ch, steps same_offset (subscribe_channel d ch)) /\
  (forall d ch, steps same_offset (remove_subscription d ch)).
Proof.
  split_and!; intros; intros s x s'.
  - unfold enqueue_frame. intros (x0 & _ & Hb)%bind_Some.
    by apply bind_Some in Hb as ([[r x'] n] & _ & [= <- <-]).
  - unfold append_aof. intros (file & _ & Hb)%bind_Some.
    by apply bind_Some in Hb as ([[[r f'] n] rd] & _ & [= <- <-]).
  - by intros [= <- <-].
  - by intros [= <- <-].
  - unfold remove_subscription. intros Hr. by repeat (case_match; simplify_eq/=).
Qed.

#[local] Hint Extern 1 (steps _ (on_database _)) => apply on_database_same_offset : steps.
#[local] Hint Extern 1 (steps _ (try_database _)) => apply try_database_same_offset : steps.
#[local] Hint Extern 1 (steps _ (read_in_place _)) => apply on_database_same_offset : steps.
#[local] Hint Extern 1 (steps _ (enqueue_frame _ _)) => apply leaves_same_offset : steps.
#[local] Hint Extern 1 (steps _ (append_aof _)) => apply leaves_same_offset : steps.
#[local] Hint Extern 1 (steps _ (count_acknowledged_replicas _)) => apply leaves_same_offset : steps.
#[local] Hint Extern 1 (steps _ (subscribe_channel _ _)) => apply leaves_same_offset : steps.
#[local] Hint Extern 1 (steps _ (remove_subscription _ _)) => apply leaves_same_offset : steps.
#[local] Hint Extern 1 (steps _ (complete _ _)) =>
  apply steps_modify; intros; apply same_offset_frame; reflexivity : steps.
#[local] Hint Extern 1 (steps _ (respond _ _)) =>
  apply steps_modify; intros; apply same_offset_frame; reflexivity : steps.
#[local] Hint Extern 1 (steps _ (modify _)) =>
  apply steps_modify; intros; apply same_offset_frame; repeat case_match; reflexivity : steps.

(** What follows a test of the role need only be looked at on a replica. *)
Lemma steps_on_replica {A B} (g : ProcessorState -> A) (f : A -> P B) :
  (forall s, role (_replication_state s) = REPLICA -> steps same_offset (f (g s))) ->
  steps same_offset (gets g ≫= f).
Proof.
  intros Hf. apply steps_bind_gets. intros s y s' Hrun Hrole. by apply (Hf s Hrole s y s').
Qed.

Lemma persist_blocking_pop_same_offset t k : steps same_offset (persist_blocking_pop t k).
Proof.
  unfold persist_blocking_pop.
  apply steps_bind; [apply _|solve_steps|]. intros file.
  apply steps_bind; [apply _|solve_steps|]. intros result.
  destruct result as [u|e]; [|solve_steps].
  apply steps_on_replica. intros s ->. solve_steps.
Qed.
#[local] Hint Resolve persist_blocking_pop_same_offset : steps.

Lemma retry_stream_read_same_offset p : steps same_offset (retry_stream_read p).
Proof. unfold retry_stream_read. solve_steps. Qed.
#[local] Hint Resolve retry_stream_read_same_offset : steps.

Lemma retry_expire_same_offset : steps same_offset (retry_all;; expire_all).
Proof.
  unfold retry_all, expire_all, retry_pending_list_pops, retry_list_pop, serve_pop,
    retry_pending_stream_reads, retry_pending_waits, retry_wait,
    expire_pending_list_pops, expire_pending_stream_reads, expire_pending_waits.
  solve_steps.
Qed.

Lemma commit_transaction_same_offset c from t b :
  steps same_offset (commit_transaction c from t b).
Proof.
  unfold commit_transaction.
  apply steps_bind; [apply _|solve_steps|]. intros _.
  apply steps_bind; [apply _|solve_steps|]. intros _.
  destruct (has_error t); [solve_steps|]. destruct b; [solve_steps|].
  destruct (_ =? 0)%nat; [solve_steps|].
  apply steps_on_replica. intros s ->. cbn [andb].
  pose proof (fun b cs data => run_transaction_steps same_offset b cs data
    (Forall_true _ cs (fun c => try_database_same_offset _))).
  solve_steps.
Qed.
#[local] Hint Resolve commit_transaction_same_offset : steps.

Lemma process_command_same_offset c command from :
  steps same_offset (process_command c command from).
Proof.
  unfold process_command, execute_transaction, config_get, process_acl_command, acl_whoami,
    acl_getuser, acl_setuser, authenticate, subscribe, unsubscribe, unsubscribe_channel,
    lock_client_session, queue_acknowledgement, publish, publish_to, watch, watch_key.
  solve_steps.
Qed.
End Offsets.

(** ** A command of the replication stream *)

Lemma append_aof_quietly data s r s' :
  append_aof data s = Some (r, s') -> books s' = books s /\ _replication_state s' = _replication_state s.
Proof.
  unfold append_aof. intros (file & _ & Hb)%bind_Some.
  by apply bind_Some in Hb as ([[[r' f'] n] rd] & _ & [= <- <-]).
Qed.

Definition moved (n : Z) (s s' : ProcessorState) : Prop :=
  _replication_state s' = mkReplicationState (role (_replication_state s))
    (replication_id (_replication_state s)) (wrap_u64 (offset (_replication_state s) + n)).

Lemma process_direct_stream task active s s' :
  source task = FROM_MASTER -> role (_replication_state s) = REPLICA ->
  process_direct task active s = Some (tt, s') ->
  exists r, completed s' = completed s ++ [(response task, Responded r)] /\
    _tasks s' = _tasks s /\
    ((forall e, r <> SimpleError e) -> moved (replication_bytes task) s s') /\
    role (_replication_state s') = REPLICA.
Proof.
  intros Hsrc Hrole. unfold process_direct.
  intros (rep & s0 & Hg & Hrun)%M_bind_Some. injection Hg as <- <-.
  apply M_bind_Some in Hrun as (per & s0 & Hg & Hrun). injection Hg as _ <-.
  rewrite Hrole, Hsrc, (bool_decide_eq_false_2 (REPLICA = MASTER)) in Hrun by done.
  cbn [andb orb] in Hrun.
  apply M_bind_Some in Hrun as (r1 & s1 & Hcmd & Hrun).
  pose proof (process_command_untouched _ _ _ _ _ _ Hcmd) as Hb1.
  pose proof (process_command_same_offset _ _ _ _ _ _ Hcmd Hrole) as Ho1.
  apply M_bind_Some in Hrun as (r2 & s2 & Hlog & Hrun).
  assert (books s2 = books s1 /\ _replication_state s2 = _replication_state s1 /\
    (response_is_error r2 = false -> response_is_error r1 = false)) as (Hb2 & Ho2 & Herr).
  { destruct (per && _).
    - apply M_bind_Some in Hlog as (res & s3 & Happ & Hlog).
      apply M_bind_Some in Hlog as ([] & s4 & Hnone & Hret).
      injection Hnone as <-. injection Hret as <- <-.
      assert (books s3 = books s1 /\ _replication_state s3 = _replication_state s1) as [-> ->].
      { destruct per; [by eapply append_aof_quietly|]. by injection Happ as _ <-. }
      split_and!; [done..|]. by destruct res.
    - by injection Hlog as <- <-. }
  apply M_bind_Some in Hrun as ([] & s3 & Hmove & Hrun).
  apply M_bind_Some in Hrun as (sub & s4 & Hg & Hrun). injection Hg as _ <-.
  rewrite (bool_decide_eq_false_2 (FROM_MASTER = CLIENT)) in Hrun by done. cbn [andb] in Hrun.
  apply M_bind_Some in Hrun as (r3 & s4 & Hret & Hresp). injection Hret as <- <-.
  injection Hresp as <-. unfold same in Hb1. rewrite <- Hb2 in Hb1. clear Hb2.
  unfold books in Hb1. injection Hb1 as _ Htk _ _ _ Hcomp.
  rewrite (bool_decide_eq_true_2 (FROM_MASTER = FROM_MASTER)) in Hmove by done. cbn [andb] in Hmove.
  exists r2. destruct (response_is_error r1) eqn:Hr1; cbn [negb] in Hmove; injection Hmove as <-;
    simpl; (split; [by rewrite Hcomp|]); (split; [done|]).
  - split; [|by rewrite Ho2, Ho1]. intros Hno. exfalso.
    destruct r2; try (discriminate (Herr eq_refl)). by eapply Hno.
  - split; [|by rewrite Ho2, Ho1]. intros _. unfold moved. simpl. by rewrite Ho2, Ho1.
Qed.

(** A command of the stream is no client's. *)
Lemma process_task_direct task s :
  source task = FROM_MASTER -> streamed (task_command task) ->
  process_task task s =
    process_direct task (bool_decide (is_Some (_transactions s !! client_id task))) s.
Proof.
  intros Hsrc Hstr.
  assert (is_named (task_command task) "BLPOP" = false /\ is_named (task_command task) "XREAD" = false
    /\ is_named (task_command task) "WAIT" = false) as (E1 & E2 & E3).
  { destruct (task_command task) as [|name args]; [done|]. destruct Hstr as (N1 & N2 & N3).
    by rewrite <- !String.eqb_neq in N1, N2, N3. }
  unfold process_task, mbind, M_bind, gets.
  rewrite Hsrc, (bool_decide_eq_false_2 (FROM_MASTER = CLIENT)) by done. cbn [andb].
  by rewrite andb_false_r, E1, E2, E3.
Qed.

Lemma process_task_stream task s s' :
  source task = FROM_MASTER -> role (_replication_state s) = REPLICA ->
  streamed (task_command task) -> process_task task s = Some (tt, s') ->
  exists r, completed s' = completed s ++ [(response task, Responded r)] /\
    _tasks s' = _tasks s /\
    ((forall e, r <> SimpleError e) -> moved (replication_bytes task) s s') /\
    role (_replication_state s') = REPLICA.
Proof.
  intros Hsrc Hrole Hstr. rewrite process_task_direct by done. by apply process_direct_stream.
Qed.

(** ** The interface holds *)

Lemma list_find_app_new {A} (l l' : list (nat * A)) p v :
  p ∉ l.*1 -> list_find (fun c => c.1 = p) (l ++ (p, v) :: l') = Some (length l, (p, v)).
Proof.
  intros Hp. apply list_find_Some. split_and!.
  - by rewrite lookup_app_r, Nat.sub_diag.
  - done.
  - intros j y Hj Hlt. rewrite lookup_app_l in Hj by done. intros Heq. apply Hp.
    apply list_elem_of_fmap. exists y. split; [done|]. by apply list_elem_of_lookup_2 in Hj.
Qed.

Lemma outcome_new s s1 s' p v :
  p ∉ fulfilled s -> completed s1 = completed s ++ [(p, v)] -> grows s1 s' ->
  outcome p s' = Some v.
Proof.
  unfold grows, outcome, fulfilled. intros Hp Hc [k Hk]. rewrite Hk, Hc, <- app_assoc.
  simpl. by rewrite list_find_app_new.
Qed.

(** The next promise is a new one. *)
Lemma balanced_new s : balanced s -> promises s ∉ fulfilled s.
Proof.
  unfold balanced. intros Hbal Hin. assert (promises s ∈ seq 0 (promises s)) as Hs.
  { rewrite <- Hbal. rewrite !elem_of_app. auto. }
  apply elem_of_seq in Hs. lia.
Qed.

(** A replica between two tasks. *)
Definition idle_replica (s : ProcessorState) : Prop :=
  balanced s /\ _tasks s = [] /\ role (_replication_state s) = REPLICA.

(** One call of an idle replica, whose own task does nothing but answer and
    perhaps move the offset: the answer comes back. *)
Lemma await_idle r s v s' (task := task_of_request r (promises s)) :
  idle_replica s -> await r s = Some (v, s') ->
  exists s1, process_processor_task task (set_tasks [] (enqueue r s)) = Some (tt, s1) /\
    balanced s' /\ _tasks s' = [] /\
    (role (_replication_state s1) = REPLICA -> _replication_state s' = _replication_state s1) /\
    (forall x, completed s1 = completed s ++ [(promises s, x)] -> v = x).
Proof.
  intros (Hbal & Htasks & Hrole) Hrun. unfold await in Hrun.
  apply bind_Some in Hrun as ([[] s2] & Hrun & Hout).
  apply bind_Some in Hout as (v' & Hv & [= -> ->]).
  assert (_tasks (enqueue r s) = [task]) as Hq by (simpl; by rewrite Htasks).
  rewrite Hq in Hrun. cbn [length run_tasks] in Hrun.
  apply M_bind_Some in Hrun as ([] & s3 & Hrun & Hret). injection Hret as <-.
  assert (balanced (enqueue r s)) as Hbal1.
  { unfold balanced. rewrite Hq. simpl promises. rewrite seq_S. unfold balanced in Hbal.
    rewrite Htasks in Hbal. rewrite <- Hbal. simpl.
    assert (promise_of task = promises s) as -> by (by destruct r).
    unfold blocked, fulfilled. simpl. solve_Permutation. }
  pose proof (run_iteration_balanced _ _ Hrun Hbal1) as Hbal2.
  unfold run_iteration in Hrun. apply M_bind_Some in Hrun as (l & s4 & Hg & Hrun).
  assert (l = [task]) as -> by (injection Hg as <- _; exact Hq). injection Hg as _ <-.
  apply M_bind_Some in Hrun as (u & s4 & Hg & Hrun). injection Hg as _ <-.
  apply M_bind_Some in Hrun as ([] & s1 & Htask & Hrest).
  exists s1. split; [done|]. split; [done|].
  pose proof Hrest as Hacc. apply M_bind_Some in Hacc as ([] & s5 & Hretry & Hexpire).
  destruct (process_processor_task_answers _ _ _ _ Htask) as (_ & Ht1 & _).
  destruct (retry_all_answers _ _ _ Hretry) as (_ & Ht2 & _).
  destruct (expire_all_answers _ _ _ Hexpire) as (_ & Ht3 & _).
  split; [by rewrite Ht3, Ht2, Ht1|].
  split; [intros Hr1; by apply (retry_expire_same_offset _ _ _ Hrest)|].
  intros x Hx. apply (retry_expire_grows _ _ _) in Hrest.
  rewrite (outcome_new s s1 _ _ x (balanced_new s Hbal) Hx Hrest) in Hv. congruence.
Qed.

Lemma processor_offset_spec s r s' :
  idle_replica s -> await_offset s = Some (r, s') ->
  r = offset (_replication_state s) /\ offset (_replication_state s') = offset (_replication_state s)
  /\ idle_replica s'.
Proof.
  intros Hs (v & s1 & Hv & Hret)%M_bind_Some.
  destruct (await_idle _ _ _ _ Hs Hv) as (s2 & Htask & Hb & Ht & Ho & Hc).
  injection Htask as <-. specialize (Hc _ eq_refl) as ->. injection Hret as <- <-.
  destruct Hs as (_ & _ & Hrole). specialize (Ho Hrole). rewrite Ho. split_and!; try done.
  split_and!; [done..|]. by rewrite Ho.
Qed.

Lemma processor_apply_spec command n s r s' :
  idle_replica s -> streamed command ->
  await_response (ApplyReplication command n) s = Some (r, s') ->
  (forall e, r <> SimpleError e) ->
  offset (_replication_state s') = wrap_u64 (offset (_replication_state s) + n) /\ idle_replica s'.
Proof.
  intros Hs Hstr (v & s1 & Hv & Hret)%M_bind_Some Hno.
  destruct (await_idle _ _ _ _ Hs Hv) as (s2 & Htask & Hb & Ht & Ho & Hc).
  destruct Hs as (_ & _ & Hrole).
  apply process_task_stream in Htask as (r' & Hcomp & _ & Hmoved & Hrole2); [|done|done|done].
  specialize (Hc _ Hcomp) as ->. injection Hret as <- <-.
  specialize (Hmoved Hno). specialize (Ho Hrole2). unfold moved in Hmoved. simpl in Hmoved.
  split; [by rewrite Ho, Hmoved|]. split_and!; [done..|]. by rewrite Ho.
Qed.

#[export] Instance processor_offset : ServiceOffset ProcessorState := {|
  follows := idle_replica;
  offset_of s := offset (_replication_state s);
  replication_offset_spec := processor_offset_spec;
  apply_replication_spec := fun command n w r w' Hw Hs => processor_apply_spec command n w r w' Hw Hs;
|}.
End Service.
