(* ===== verification/ReplicationLink.v ===== *)
(** * The link between a master and a replica (src/server.cpp)

    The master's side of a connection that became a replica's: the full
    resynchronization it sends and the acknowledgements it reads.  The
    replica's side: the handshake, the resynchronization it receives, and the
    stream of commands it applies.  The bytes received are a list of [recv]
    outcomes, the processor is a [CommandService]. *)

From stdpp Require Import base option list strings.
From Stdlib Require Import ZArith Lia.
From S2P Require Import Prelude CharConv Environment Resp Rdb Sessions StateMonad.
From S2P Require Import ProcessorState Framing Sockets Connection.

(** Eighteen bytes: a version 11 file without sections, and its checksum. *)
Definition empty_rdb_payload : string :=
  "REDIS0011" +:+ bytes_of [255; 0; 0; 0; 0; 0; 0; 0; 0].

(** The payload is an empty file for the RDB reader too. *)
Example empty_rdb_payload_parses `{VectorMemory} :
  parse empty_rdb_payload = Returned (Expected []).
Proof. vm_compute. reflexivity. Qed.

Record FullResync := mkFullResync {
  resync_id : string;
  resync_offset : Z;
}.

Section Link.
Context {W : Type} `{Kernel, CommandService W}.

(** ** The master's side *)

Definition send_command (command : Command) : M (Conn W) (expected unit string) :=
  send (serialize_command command).

Definition send_full_resync (registration : ReplicaRegistration) : M (Conn W) (expected unit string) :=
  result ← send ("+FULLRESYNC " +:+ registered_id registration +:+ " " +:+
                 to_string (registered_offset registration) +:+ crlf);
  match result with
  | Unexpected e => mret (Unexpected e)
  | Expected _ =>
      result ← send (String dollar (to_string (size_of empty_rdb_payload)) +:+ crlf);
      match result with
      | Unexpected e => mret (Unexpected e)
      | Expected _ => send empty_rdb_payload
      end
  end.

(** The work on one command of a replica: its acknowledgements. *)
Definition handle_acknowledgement (client_id : Z) (command : Command) (bytes_consumed : nat)
    : M (Conn W) (option string) :=
  match command with
  | [name; kind; offset_text] =>
      if negb (String.eqb name "REPLCONF") || negb (String.eqb kind "ACK")
      then mret (Some "Expected REPLCONF ACK from replica") else
      let r := from_chars 0 u64_max offset_text 0 in
      if String.eqb offset_text EmptyString || conversion_failed r offset_text
      then mret (Some "Invalid replication offset in replica ACK") else
      call (acknowledge_replica client_id (fc_value r));;
      mret None
  | _ => mret (Some "Expected REPLCONF ACK from replica")
  end.

Definition invalid_acknowledgement (e : ParseError) : string :=
  "Invalid response from replica: " +:+ message e.

(** [None] as the first result: the thread still reads. *)
Fixpoint consume_replica_acknowledgements (client_id : Z) (incoming : list recv_outcome)
    (buffer : string) (c : Conn W) : option (option (expected unit string) * string * Conn W) :=
  if stop_requested (world c) then Some (Some (Expected tt), buffer, c) else
  match incoming with
  | [] => Some (None, buffer, c)
  | RecvInterrupted :: incoming =>
      consume_replica_acknowledgements client_id incoming buffer c
  | RecvFailed :: _ => Some (Some (Unexpected "Failed to read replica acknowledgement"), buffer, c)
  | RecvClosed :: _ => Some (Some (Unexpected "Replica closed the connection"), buffer, c)
  | Received chunk :: incoming =>
      '(exit, buffer, c) ← take_all (fun _ => false) invalid_acknowledgement
        (handle_acknowledgement client_id) (buffer +:+ chunk) c;
      match exit with
      | Some e => Some (Some (Unexpected e), buffer, c)
      | None => consume_replica_acknowledgements client_id incoming buffer c
      end
  end.

(** [run_replica_connection] without its sender thread: the resynchronization,
    then the acknowledgements until the connection ends. *)
Definition run_replica_connection (client_id : Z) (registration : ReplicaRegistration)
    (incoming : list recv_outcome) (c : Conn W)
    : option (option (expected unit string) * Conn W) :=
  '(result, c) ← send_full_resync registration c;
  match result with
  | Unexpected e =>
      '(_, c) ← call (close_replica (registered_session registration)) c;
      Some (Some (Unexpected e), c)
  | Expected _ =>
      '(result, _, c) ← consume_replica_acknowledgements client_id incoming EmptyString c;
      match result with
      | None => Some (None, c)
      | Some result =>
          '(_, c) ← call (close_replica (registered_session registration)) c;
          Some (Some result, c)
      end
  end.

(** The sender thread: [n] iterations of its loop; whether it goes on. *)
Fixpoint send_replication_frames (n : nat) (session : nat) : M (Conn W) bool :=
  match n with
  | O => mret true
  | S n' =>
      frame ← call (wait_frame session);
      match frame with
      | None => mret false
      | Some f =>
          sent ← send (payload f);
          match sent with
          | Unexpected _ => call (close_replica session);; mret false
          | Expected _ => send_replication_frames n' session
          end
      end
  end.

(** ** The replica's side: the handshake *)

(** The bytes the master has sent: the buffer, and what [recv] gives next. *)
Record Inbox := mkInbox {
  _master_input_buffer : string;
  incoming : list recv_outcome;
}.

Fixpoint read_line_loop (incoming : list recv_outcome) (buffer : string) : option (expected string string * Inbox) :=
  match String.index 0 crlf buffer with
  | Some line_end =>
      Some (Expected (String.substring 0 line_end buffer),
            mkInbox (drop_string (line_end + 2) buffer) incoming)
  | None =>
      match incoming with
      | [] => None
      | RecvInterrupted :: incoming => read_line_loop incoming buffer
      | RecvFailed :: incoming =>
          Some (Unexpected "Failed to read response from master", mkInbox buffer incoming)
      | RecvClosed :: incoming =>
          Some (Unexpected "Master closed the connection", mkInbox buffer incoming)
      | Received chunk :: incoming => read_line_loop incoming (buffer +:+ chunk)
      end
  end.

Definition read_master_response_line (inbox : Inbox) : option (expected string string * Inbox) :=
  read_line_loop (incoming inbox) (_master_input_buffer inbox).

(** A send followed by the wait for a line. *)
Definition send_command_and_expect (command : Command) (expected_response : string)
    (inbox : Inbox) (c : Conn W) : option (expected unit string * Inbox * Conn W) :=
  '(sent, c) ← send_command command c;
  match sent with
  | Unexpected e => Some (Unexpected e, inbox, c)
  | Expected _ =>
      '(response, inbox) ← read_master_response_line inbox;
      match response with
      | Unexpected e => Some (Unexpected e, inbox, c)
      | Expected line =>
          if negb (String.eqb line expected_response)
          then Some (Unexpected ("Expected response " +:+ expected_response +:+ ", received " +:+
                                 line), inbox, c)
          else Some (Expected tt, inbox, c)
      end
  end.

Definition perform_replication_handshake (port : Z) (inbox : Inbox) (c : Conn W)
    : option (expected unit string * Inbox * Conn W) :=
  '(result, inbox, c) ← send_command_and_expect ["PING"] "+PONG" inbox c;
  match result with
  | Unexpected e => Some (Unexpected e, inbox, c)
  | Expected _ =>
  '(result, inbox, c) ←
    send_command_and_expect ["REPLCONF"; "listening-port"; to_string port] "+OK" inbox c;
  match result with
  | Unexpected e => Some (Unexpected e, inbox, c)
  | Expected _ =>
  '(result, inbox, c) ← send_command_and_expect ["REPLCONF"; "capa"; "psync2"] "+OK" inbox c;
  match result with
  | Unexpected e => Some (Unexpected e, inbox, c)
  | Expected _ => '(result, c) ← send_command ["PSYNC"; "?"; "-1"] c; Some (result, inbox, c)
  end end end.

Definition is_hexadecimal (c : Ascii.ascii) : bool :=
  let n := Ascii.nat_of_ascii c in
  (((48 <=? n) && (n <=? 57)) || ((97 <=? n) && (n <=? 102)) || ((65 <=? n) && (n <=? 70)))%nat.

Definition space : string := " ".

Definition receive_full_resync (inbox : Inbox) : option (expected FullResync string * Inbox) :=
  '(response, inbox) ← read_master_response_line inbox;
  match response with
  | Unexpected e => Some (Unexpected e, inbox)
  | Expected line =>
      if negb (String.prefix "+FULLRESYNC " line)
      then Some (Unexpected ("Expected FULLRESYNC response, received " +:+ line), inbox) else
      let payload := drop_string 12 line in
      match String.index 0 space payload with
      | None => Some (Unexpected "Invalid FULLRESYNC response", inbox)
      | Some separator =>
          let id := String.substring 0 separator payload in
          let offset_text := drop_string (separator + 1) payload in
          if negb (String.length id =? 40)%nat || String.eqb offset_text EmptyString
          then Some (Unexpected "Invalid FULLRESYNC response", inbox) else
          if negb (all_chars is_hexadecimal id)
          then Some (Unexpected "Invalid replication ID in FULLRESYNC response", inbox) else
          let r := from_chars 0 u64_max offset_text 0 in
          if conversion_failed r offset_text
          then Some (Unexpected "Invalid replication offset in FULLRESYNC response", inbox) else
          Some (Expected (mkFullResync id (fc_value r)), inbox)
      end
  end.

(** The loop of [receive_rdb_payload]. *)
Fixpoint read_payload_loop (payload_size : Z) (incoming : list recv_outcome) (buffer : string)
    : option (expected string string * Inbox) :=
  if negb (size_of buffer <? payload_size) then
    Some (Expected (String.substring 0 (Z.to_nat payload_size) buffer),
          mkInbox (drop_string (Z.to_nat payload_size) buffer) incoming)
  else
  match incoming with
  | [] => None
  | RecvInterrupted :: incoming => read_payload_loop payload_size incoming buffer
  | RecvFailed :: incoming =>
      Some (Unexpected "Failed to read RDB payload from master", mkInbox buffer incoming)
  | RecvClosed :: incoming =>
      Some (Unexpected "Master closed the connection while sending RDB payload",
            mkInbox buffer incoming)
  | Received chunk :: incoming => read_payload_loop payload_size incoming (buffer +:+ chunk)
  end.

Definition receive_rdb_payload (inbox : Inbox) : option (expected string string * Inbox) :=
  '(header, inbox) ← read_master_response_line inbox;
  match header with
  | Unexpected e => Some (Unexpected e, inbox)
  | Expected header =>
      match header with
      | String c length_text =>
          if negb (Ascii.eqb c dollar)
          then Some (Unexpected ("Expected RDB bulk length, received " +:+ header), inbox) else
          let r := from_chars 0 u64_max length_text 0 in
          if String.eqb length_text EmptyString || conversion_failed r length_text
          then Some (Unexpected "Invalid RDB payload length", inbox) else
          read_payload_loop (fc_value r) (incoming inbox) (_master_input_buffer inbox)
      | EmptyString =>
          Some (Unexpected ("Expected RDB bulk length, received " +:+ header), inbox)
      end
  end.

(** ** The replica's side: the stream *)

Definition is_getack (command : Command) : bool :=
  match command with
  | [a; b; c] => String.eqb a "REPLCONF" && String.eqb b "GETACK" && String.eqb c "*"
  | _ => false
  end.

(** The work on one command of the stream. *)
Definition apply_frame (command : Command) (bytes_consumed : nat) : M (Conn W) (option string) :=
  acknowledged ← (if is_getack command then o ← call replication_offset; mret (Some o)
                  else mret None);
  response ← call (apply_replication command (Z.of_nat bytes_consumed));
  match response with
  | SimpleError e => mret (Some ("Failed to apply replicated command: " +:+ e))
  | _ =>
      match acknowledged with
      | None => mret None
      | Some o =>
          sent ← send_command ["REPLCONF"; "ACK"; to_string o];
          match sent with
          | Unexpected e => mret (Some ("Failed to acknowledge replication offset: " +:+ e))
          | Expected _ => mret None
          end
      end
  end.

Definition invalid_stream (e : ParseError) : string :=
  "Invalid command in replication stream: " +:+ message e.

Fixpoint consume_replication_stream (incoming : list recv_outcome) (buffer : string) (c : Conn W)
    : option (option (expected unit string) * string * Conn W) :=
  if stop_requested (world c) then Some (Some (Expected tt), buffer, c) else
  '(exit, buffer, c) ← take_all (fun _ => false) invalid_stream apply_frame buffer c;
  match exit with
  | Some e => Some (Some (Unexpected e), buffer, c)
  | None =>
      let ended e := if stop_requested (world c) then Expected tt else Unexpected e in
      match incoming with
      | [] => Some (None, buffer, c)
      | RecvInterrupted :: incoming => consume_replication_stream incoming buffer c
      | RecvFailed :: _ =>
          Some (Some (ended "Failed to read replication stream from master"), buffer, c)
      | RecvClosed :: _ => Some (Some (ended "Master closed the replication stream"), buffer, c)
      | Received chunk :: incoming => consume_replication_stream incoming (buffer +:+ chunk) c
      end
  end.

(** [replication_loop] after the connection to the master; an error ends the
    thread, and is printed unless a stop was requested. *)
Definition replication_loop (port : Z) (inbox : Inbox) (c : Conn W)
    : option (option (expected unit string) * Conn W) :=
  '(handshake, inbox, c) ← perform_replication_handshake port inbox c;
  match handshake with
  | Unexpected e => Some (Some (Unexpected e), c)
  | Expected _ =>
  if stop_requested (world c) then Some (Some (Expected tt), c) else
  '(resync, inbox) ← receive_full_resync inbox;
  match resync with
  | Unexpected e => Some (Some (Unexpected e), c)
  | Expected resync =>
  if stop_requested (world c) then Some (Some (Expected tt), c) else
  '(payload, inbox) ← receive_rdb_payload inbox;
  match payload with
  | Unexpected e => Some (Some (Unexpected e), c)
  | Expected _ =>
  '(_, c) ← call (install_replication_state (resync_id resync) (resync_offset resync)) c;
  '(result, _, c) ← consume_replication_stream (incoming inbox) (_master_input_buffer inbox) c;
  Some (result, c)
  end end end.
End Link.

(** ** Reading across cuts *)

(** [bytes] are in the buffer or arrive next, in any cut; then comes [more]. *)
Definition holds (bytes : string) (more : list recv_outcome) (inbox : Inbox) : Prop :=
  exists chunks, incoming inbox = map Received chunks ++ more /\
    _master_input_buffer inbox +:+ foldr String.append EmptyString chunks = bytes.

Lemma drop_string_plus n m s t u :
  s = t +:+ u -> String.length t = n -> drop_string (n + m) s = drop_string m u.
Proof.
  intros -> <-. induction t as [|c t IH]; [done|]. exact IH.
Qed.

Lemma read_line_holds line rest more inbox :
  all_chars not_cr line = true -> holds (line +:+ crlf +:+ rest) more inbox ->
  exists inbox', read_master_response_line inbox = Some (Expected line, inbox') /\
    holds rest more inbox'.
Proof.
  intros Hline (chunks & Hin & Hbytes). unfold read_master_response_line. rewrite Hin. clear Hin.
  pose proof (index_crlf_after EmptyString line rest Hline) as Hidx. simpl in Hidx.
  revert Hbytes. generalize (_master_input_buffer inbox). clear inbox.
  induction chunks as [|chunk chunks IH]; intros b Hbytes.
  - simpl in Hbytes. rewrite string_app_nil_r in Hbytes. subst b.
    assert (forall inc, read_line_loop inc (line +:+ crlf +:+ rest) =
      Some (Expected line, mkInbox rest inc)) as Hread.
    { intros inc. destruct inc; simpl; rewrite string_app_nil_l in Hidx; rewrite Hidx;
        rewrite substring_app_l, (drop_string_plus _ _ _ _ _ eq_refl eq_refl);
        by rewrite (drop_string_app crlf rest : drop_string 2 _ = _). }
    rewrite Hread. eexists. split; [done|]. exists []. simpl. by rewrite string_app_nil_r.
  - destruct (String.index 0 crlf b) as [e|] eqn:Hb.
    + apply (index_extend _ _ _ (foldr String.append EmptyString (chunk :: chunks))) in Hb as Hb'.
      rewrite Hbytes in Hb'. rewrite string_app_nil_l in Hidx. rewrite Hidx in Hb'.
      injection Hb' as <-. pose proof (index_bound _ _ _ _ Hb) as [_ Hle]. simpl in Hle.
      simpl. rewrite Hb. eexists. split; [f_equal; f_equal; f_equal|].
      * rewrite <- (substring_extend _ _ _ (foldr String.append EmptyString (chunk :: chunks)))
          by lia. rewrite Hbytes. apply substring_app_l.
      * exists (chunk :: chunks). split; [done|]. simpl _master_input_buffer.
        rewrite <- drop_string_app_le by lia. rewrite Hbytes.
        rewrite (drop_string_plus _ _ _ _ _ eq_refl eq_refl). apply (drop_string_app crlf).
    + simpl. rewrite Hb. apply IH. simpl in Hbytes. by rewrite string_app_assoc.
Qed.

Lemma read_payload_holds (payload : string) rest more inbox n :
  size_of payload = n -> holds (payload +:+ rest) more inbox ->
  exists inbox', read_payload_loop n (incoming inbox) (_master_input_buffer inbox) =
    Some (Expected payload, inbox') /\ holds rest more inbox'.
Proof.
  unfold size_of. intros <- (chunks & Hin & Hbytes). rewrite Hin. clear Hin.
  revert Hbytes. generalize (_master_input_buffer inbox). clear inbox.
  induction chunks as [|chunk chunks IH]; intros b Hbytes.
  - simpl in Hbytes. rewrite string_app_nil_r in Hbytes. subst b.
    exists (mkInbox rest more). split; [|exists []; by rewrite string_app_nil_r].
    assert ((size_of (payload +:+ rest) <? Z.of_nat (String.length payload)) = false) as Hlt
      by (apply Z.ltb_ge; unfold size_of; rewrite string_length_app; lia).
    destruct more; simpl; rewrite Hlt; simpl; by rewrite Nat2Z.id, substring_app_l, drop_string_app.
  - simpl. destruct (Z.ltb_spec (size_of b) (Z.of_nat (String.length payload))) as [_|Hge].
    + apply IH. simpl in Hbytes. by rewrite string_app_assoc.
    + unfold size_of in Hge. eexists. split; [f_equal; f_equal; f_equal|].
      * rewrite Nat2Z.id.
        rewrite <- (substring_extend _ _ _ (foldr String.append EmptyString (chunk :: chunks)))
          by lia. rewrite Hbytes. apply substring_app_l.
      * exists (chunk :: chunks). split; [done|]. simpl _master_input_buffer. rewrite Nat2Z.id.
        rewrite <- drop_string_app_le by lia. rewrite Hbytes. apply drop_string_app.
Qed.

(** ** The full resynchronization *)

Lemma index_char_after (p : Ascii.ascii -> bool) c s rest :
  p c = false -> all_chars p s = true ->
  String.index 0 (String c EmptyString) (s +:+ String c rest) = Some (String.length s).
Proof.
  intros Hc. induction s as [|d s IH]; intros Hs.
  - rewrite string_app_nil_l. cbn [String.index String.prefix].
    destruct (Ascii.ascii_dec c c); [by destruct rest|done].
  - simpl in Hs. apply andb_true_iff in Hs as [Hd Hs]. rewrite string_app_cons.
    cbn [String.index String.prefix String.length]. rewrite (IH Hs).
    destruct (Ascii.ascii_dec c d); [congruence|done].
Qed.

(** The bytes of [send_full_resync]. *)
Definition resync_bytes (registration : ReplicaRegistration) : string :=
  ("+FULLRESYNC " +:+ registered_id registration +:+ " " +:+
     to_string (registered_offset registration) +:+ crlf) +:+
  (String dollar (to_string (size_of empty_rdb_payload)) +:+ crlf) +:+ empty_rdb_payload.

(** An identifier and an offset as the processor hands them out. *)
Definition valid_registration (registration : ReplicaRegistration) : Prop :=
  String.length (registered_id registration) = 40%nat /\
  all_chars is_hexadecimal (registered_id registration) = true /\
  0 <= registered_offset registration <= u64_max.

Lemma hexadecimal_not_cr c : is_hexadecimal c = true -> not_cr c = true.
Proof. by destruct c as [[] [] [] [] [] [] [] []]. Qed.

Lemma receive_full_resync_holds registration rest more inbox :
  valid_registration registration ->
  holds ("+FULLRESYNC " +:+ registered_id registration +:+ " " +:+
         to_string (registered_offset registration) +:+ crlf +:+ rest) more inbox ->
  exists inbox', receive_full_resync inbox =
    Some (Expected (mkFullResync (registered_id registration) (registered_offset registration)),
          inbox') /\ holds rest more inbox'.
Proof.
  destruct registration as [id off a]. unfold valid_registration. simpl registered_id.
  simpl registered_offset. intros (Hlen & Hhex & Hoff) Hh.
  set (line := "+FULLRESYNC " +:+ (id +:+ (" " +:+ to_string off))).
  destruct (read_line_holds line rest more inbox) as (inbox' & Hread & Hrest).
  { unfold line. rewrite !all_chars_app, to_string_no_cr, andb_true_r.
    rewrite (all_chars_impl _ _ _ hexadecimal_not_cr Hhex). done. }
  { unfold line. by rewrite !string_app_assoc. }
  exists inbox'. split; [|done]. unfold receive_full_resync. rewrite Hread. cbn [mbind option_bind].
  unfold line at 1. rewrite prefix_app. cbn [negb].
  rewrite (drop_string_app "+FULLRESYNC " _ : drop_string 12 line = _).
  assert (String.index 0 space (id +:+ " " +:+ to_string off) = Some (String.length id)) as ->
    by exact (index_char_after is_hexadecimal (Ascii.ascii_of_nat 32) id (to_string off)
      eq_refl Hhex).
  rewrite substring_app_l, Hlen, (drop_string_plus _ _ _ _ _ eq_refl Hlen).
  rewrite (drop_string_app " " (to_string off) : drop_string 1 _ = _). cbn [Nat.eqb negb orb].
  destruct (String.eqb_spec (to_string off) EmptyString) as [He|_].
  { pose proof (to_string_length_pos off) as Hp. rewrite He in Hp. simpl in Hp. lia. }
  rewrite Hhex. cbn [negb]. rewrite conversion_to_string by done.
  by rewrite from_chars_to_string.
Qed.

Lemma receive_rdb_payload_holds (payload : string) rest more inbox :
  size_of payload <= u64_max ->
  holds (String dollar (to_string (size_of payload)) +:+ crlf +:+ payload +:+ rest) more inbox ->
  exists inbox', receive_rdb_payload inbox = Some (Expected payload, inbox') /\
    holds rest more inbox'.
Proof.
  intros Hsize Hh. assert (0 <= size_of payload) by (unfold size_of; lia).
  destruct (read_line_holds (String dollar (to_string (size_of payload))) (payload +:+ rest) more inbox)
    as (inbox1 & Hread & Hrest); [simpl; apply to_string_no_cr|done|].
  destruct (read_payload_holds payload rest more inbox1 (size_of payload) eq_refl Hrest)
    as (inbox2 & Hpay & Hrest2).
  exists inbox2. split; [|done]. unfold receive_rdb_payload. rewrite Hread.
  cbn [mbind option_bind]. rewrite Ascii.eqb_refl. cbn [negb].
  rewrite conversion_to_string by done. rewrite from_chars_to_string by done. cbn [fc_value].
  destruct (String.eqb_spec (to_string (size_of payload)) EmptyString) as [He|_]; [|done].
  pose proof (to_string_length_pos (size_of payload)) as Hp. rewrite He in Hp. simpl in Hp. lia.
Qed.

Section Resync.
Context {W : Type} `{Kernel, CommandService W, !KernelLaws, !ReliableSend}.

Lemma send_reliable bytes (c : Conn W) :
  exists n, send bytes c = Some (Expected tt, mkConn (wire c +:+ bytes) n (world c)).
Proof.
  destruct (send_bytes_reliable bytes (wire c) (calls c)) as [n Hn]. exists n.
  unfold send. by rewrite Hn.
Qed.

(** C21: a full resynchronization arrives.  What a master sends for a
    registration is read back by a replica, whatever the cut of the bytes and
    whatever the stream that follows, as exactly the identifier, the offset and
    the payload, and the bytes of the stream stay for the reader of the
    stream. *)
Theorem resync_roundtrip (registration : ReplicaRegistration) (c : Conn W)
    (stream : string) (more : list recv_outcome) (inbox : Inbox) :
  valid_registration registration ->
  holds (resync_bytes registration +:+ stream) more inbox ->
  (exists n, send_full_resync registration c =
     Some (Expected tt, mkConn (wire c +:+ resync_bytes registration) n (world c))) /\
  exists inbox1 inbox2,
    receive_full_resync inbox = Some (Expected (mkFullResync (registered_id registration)
      (registered_offset registration)), inbox1) /\
    receive_rdb_payload inbox1 = Some (Expected empty_rdb_payload, inbox2) /\
    holds stream more inbox2.
Proof.
  intros Hv Hh. split.
  - unfold send_full_resync, resync_bytes.
    set (a := "+FULLRESYNC " +:+ _). set (b := String dollar _ +:+ _).
    destruct (send_reliable a c) as [n1 Hs1].
    destruct (send_reliable b (mkConn (wire c +:+ a) n1 (world c))) as [n2 Hs2].
    destruct (send_reliable empty_rdb_payload (mkConn ((wire c +:+ a) +:+ b) n2 (world c))) as [n3 Hs3].
    cbn [wire world] in Hs2, Hs3. exists n3. apply M_bind_Some. do 2 eexists. split; [exact Hs1|]. cbv iota.
    apply M_bind_Some. do 2 eexists. split; [exact Hs2|]. cbv iota. rewrite Hs3.
    by rewrite !string_app_assoc.
  - unfold resync_bytes in Hh. rewrite !string_app_assoc in Hh.
    destruct (receive_full_resync_holds registration _ more inbox Hv Hh) as (inbox1 & Hf & Hrest).
    destruct (receive_rdb_payload_holds empty_rdb_payload stream more inbox1) as (inbox2 & Hp & Hs);
      [done|exact Hrest|]. eauto.
Qed.
End Resync.

(** ** The stream *)

Section Stream.
Context {W : Type} `{Kernel, CommandService W}.

(** The reader of the stream is the shared loop on its buffer. *)
Lemma consume_stream_feed chunks buffer (c : Conn W) :
  (forall w, stop_requested w = false) ->
  consume_replication_stream (map Received chunks) buffer c =
  match take_all (fun _ => false) invalid_stream apply_frame buffer c with
  | Some (Some e, buffer, c) => Some (Some (Unexpected e), buffer, c)
  | Some (None, buffer, c) =>
      match feed (fun _ => false) invalid_stream apply_frame chunks buffer c with
      | Some (exit, buffer, c) => Some (option_map Unexpected exit, buffer, c)
      | None => None
      end
  | None => None
  end.
Proof.
  intros Hnever. revert buffer c. induction chunks as [|chunk chunks IH]; intros buffer c;
    cbn [map consume_replication_stream]; rewrite Hnever;
    (destruct (take_all _ _ _ buffer c) as [[[[e|] b] c']|]; [done| |done]); [done|].
  cbn [mbind option_bind feed]. rewrite IH.
  by destruct (take_all _ _ _ (b +:+ chunk) c') as [[[[e|] b'] c'']|].
Qed.

(** The commands applied one after the other, none with an error. *)
Fixpoint apply_all (commands : list Command) : M W unit :=
  match commands with
  | [] => mret tt
  | command :: rest =>
      (if is_getack command then replication_offset;; mret tt else mret tt);;
      r ← apply_replication command (size_of (serialize_command command));
      match r with
      | SimpleError _ => undefined
      | _ => apply_all rest
      end
  end.

(** The acknowledgements of a stream that starts at an offset: each request is
    answered with the offset before it. *)
Fixpoint acknowledgements (offset : Z) (commands : list Command) : list Z :=
  match commands with
  | [] => []
  | command :: rest =>
      (if is_getack command then [offset] else []) ++
      acknowledgements (wrap_u64 (offset + size_of (serialize_command command))) rest
  end.

Definition ack_command (offset : Z) : Command := ["REPLCONF"; "ACK"; to_string offset].

Context `{!KernelLaws, !ReliableSend, !ServiceOffset W}.

Lemma apply_frame_one command (w w1 : W) r out n (w0 := w) :
  follows w -> streamed command ->
  ((if is_getack command then replication_offset;; mret tt else mret tt)
     ≫= (fun _ => apply_replication command (size_of (serialize_command command))) : M W Response) w
    = Some (r, w1) ->
  (forall e, r <> SimpleError e) ->
  (exists n', apply_frame command (String.length (serialize_command command)) (mkConn out n w) =
     Some (None, mkConn (out +:+ log_bytes (map ack_command
       (if is_getack command then [offset_of w] else []))) n' w1)) /\
  follows w1 /\ offset_of w1 = wrap_u64 (offset_of w + size_of (serialize_command command)).
Proof.
  intros Hf Hstr (u & w2 & Hget & Happ)%M_bind_Some Hno.
  assert (exists o, (if is_getack command then o ← call replication_offset; mret (Some o)
      else mret None : M (Conn W) (option Z)) (mkConn out n w) = Some (o, mkConn out n w2) /\
    o = (if is_getack command then Some (offset_of w) else None) /\
    follows w2 /\ offset_of w2 = offset_of w) as (o & Ho & Hoeq & Hf2 & Hoff2).
  { destruct (is_getack command).
    - apply M_bind_Some in Hget as (o & w3 & Ho & Hret). injection Hret as _ <-.
      destruct (replication_offset_spec _ _ _ Hf Ho) as (-> & Hoff & Hf3).
      exists (Some (offset_of w)). split_and!; try done.
      apply M_bind_Some. do 2 eexists. split; [unfold call; simpl; by rewrite Ho|done].
    - injection Hget as _ <-. by exists None. }
  destruct (apply_replication_spec _ _ _ _ _ Hf2 Hstr Happ Hno) as [Hoff Hf1].
  rewrite Hoff2 in Hoff. split; [|done].
  destruct (send_reliable (serialize_command (ack_command (offset_of w))) (mkConn out n w1))
    as [n' Hsend].
  exists (if is_getack command then n' else n). unfold apply_frame.
  apply M_bind_Some. exists o, (mkConn out n w2). split; [exact Ho|].
  apply M_bind_Some. exists r, (mkConn out n w1). split; [unfold call; cbn [world]; by
    rewrite (Happ : apply_replication command (Z.of_nat _) w2 = _)|].
  subst o. destruct (is_getack command); simpl; rewrite ?string_app_nil_r.
  - destruct r; try (by destruct (Hno _ eq_refl));
      (apply M_bind_Some; do 2 eexists; split; [exact Hsend|done]).
  - destruct r; try (by destruct (Hno _ eq_refl)); done.
Qed.

Lemma run_commands_apply commands (w w' : W) out n :
  follows w -> 0 <= offset_of w <= u64_max -> Forall streamed commands ->
  apply_all commands w = Some (tt, w') ->
  exists n', run_commands (fun _ => false) apply_frame commands (mkConn out n w) =
    Some (None, mkConn (out +:+ log_bytes (map ack_command
      (acknowledgements (offset_of w) commands))) n' w') /\
  follows w' /\ offset_of w' = wrap_u64 (offset_of w + size_of (log_bytes commands)).
Proof.
  intros Hf Hrange Hall. revert w out n Hf Hrange.
  induction Hall as [|command commands Hc _ IH]; intros w out n Hf Hrange; cbn [apply_all].
  { intros [= <-]. exists n. simpl. unfold size_of. simpl. rewrite string_app_nil_r, Z.add_0_r.
    by rewrite wrap_u64_small. }
  intros (u & w2 & Hget & Hrun)%M_bind_Some.
  apply M_bind_Some in Hrun as (r & w1 & Happ & Hrun).
  assert (forall e, r <> SimpleError e) as Hno by (intros e ->; done).
  assert (apply_all commands w1 = Some (tt, w')) as Hrest by (by destruct r). clear Hrun.
  destruct (apply_frame_one command w w1 r out n Hf Hc) as ([n1 Hone] & Hf1 & Hoff1);
    [apply M_bind_Some; eauto|done|].
  destruct (IH w1 (out +:+ log_bytes (map ack_command (if is_getack command then [offset_of w] else [])))
    n1 Hf1 ltac:(rewrite Hoff1; apply wrap_u64_range) Hrest) as (n' & Hrun & Hf' & Hoff').
  exists n'. split; [|split; [done|]].
  - cbn [run_commands]. rewrite Hone. cbn [mbind option_bind]. rewrite Hrun.
    cbn [acknowledgements]. rewrite map_app, log_bytes_app, Hoff1. by rewrite string_app_assoc.
  - rewrite Hoff', Hoff1, wrap_u64_add. f_equal. cbn [log_bytes foldr].
    unfold size_of. rewrite string_length_app. unfold log_bytes. lia.
Qed.

(** C17: a replica applies the stream of its master.  However the bytes of the
    stream are cut, the replica applies its commands once each and in order;
    its offset then counts exactly the bytes of the commands it applied, the
    beginning of an unfinished command stays in the buffer, and each request
    for an acknowledgement has been answered with the offset before it. *)
Theorem stream_applied (chunks : list string) (commands : list Command) (tail : string)
    (c : Conn W) (w' : W) :
  (forall w, stop_requested w = false) ->
  Forall command_fits commands -> Forall streamed commands -> settled tail ->
  foldr String.append EmptyString chunks = log_bytes commands +:+ tail ->
  follows (world c) -> 0 <= offset_of (world c) <= u64_max ->
  apply_all commands (world c) = Some (tt, w') ->
  offset_of w' = wrap_u64 (offset_of (world c) + size_of (log_bytes commands)) /\
  exists n, consume_replication_stream (map Received chunks) EmptyString c =
    Some (None, tail, mkConn (wire c +:+ log_bytes (map ack_command
      (acknowledgements (offset_of (world c)) commands))) n w').
Proof.
  intros Hnever Hfit Hstr Htail Hcut Hf Hrange Hall. destruct c as [out n w].
  destruct (run_commands_apply commands w w' out n Hf Hrange Hstr Hall) as (n' & Hrun & Hf' & Hoff).
  split; [done|]. exists n'. rewrite consume_stream_feed by done.
  rewrite (take_all_settled _ _ _ EmptyString) by (by left). cbn [mbind option_bind].
  pose proof (feed_frames (fun _ => false) invalid_stream apply_frame chunks commands tail
    (mkConn out n w) Hfit Htail Hcut) as Hfeed.
  rewrite Hrun in Hfeed. simpl in Hfeed.
  inversion Hfeed as [[[e b] c] y (He & Hc & Hb) Hf1|]; subst. simpl in *. subst.
  by rewrite Hb.
Qed.
End Stream.

(** ** The acknowledgements *)

Section Acknowledgements.
Context {W : Type} `{Kernel, CommandService W}.

Lemma consume_acknowledgements_feed client chunks buffer (c : Conn W) :
  (forall w, stop_requested w = false) ->
  consume_replica_acknowledgements client (map Received chunks) buffer c =
  match feed (fun _ => false) invalid_acknowledgement (handle_acknowledgement client)
          chunks buffer c with
  | Some (exit, buffer, c) => Some (option_map Unexpected exit, buffer, c)
  | None => None
  end.
Proof.
  intros Hnever. revert buffer c. induction chunks as [|chunk chunks IH]; intros buffer c;
    cbn [map consume_replica_acknowledgements feed]; rewrite Hnever; [done|].
  destruct (take_all _ _ _ (buffer +:+ chunk) c) as [[[[e|] b] c']|]; [done| |done]. apply IH.
Qed.

Fixpoint acknowledge_all (client : Z) (offsets : list Z) : M W unit :=
  match offsets with
  | [] => mret tt
  | o :: rest => acknowledge_replica client o;; acknowledge_all client rest
  end.

Lemma handle_acknowledgement_one client o k (w w1 : W) out n :
  0 <= o <= u64_max -> acknowledge_replica client o w = Some (tt, w1) ->
  handle_acknowledgement client (ack_command o) k (mkConn out n w) =
    Some (None, mkConn out n w1).
Proof.
  intros Ho Hack. unfold handle_acknowledgement, ack_command. rewrite !String.eqb_refl.
  rewrite conversion_to_string, from_chars_to_string by done. cbn [fc_value negb orb].
  destruct (String.eqb_spec (to_string o) EmptyString) as [He|_].
  { pose proof (to_string_length_pos o) as Hp. rewrite He in Hp. simpl in Hp. lia. }
  apply M_bind_Some. do 2 eexists. split; [unfold call; cbn [world]; by rewrite Hack|done].
Qed.

Lemma run_commands_acknowledge client offsets (w w' : W) out n :
  Forall (fun o => 0 <= o <= u64_max) offsets ->
  acknowledge_all client offsets w = Some (tt, w') ->
  run_commands (fun _ => false) (handle_acknowledgement client) (map ack_command offsets)
    (mkConn out n w) = Some (None, mkConn out n w').
Proof.
  intros Hall. revert w. induction Hall as [|o offsets Ho _ IH]; intros w.
  { by intros [= <-]. }
  intros ([] & w1 & Hack & Hrest)%M_bind_Some. cbn [map run_commands].
  rewrite (handle_acknowledgement_one client o _ w w1) by done. cbn [mbind option_bind].
  by apply IH.
Qed.

(** Acknowledgements reach the processor.  However the network cuts the
    acknowledgements that a replica sends, the master's reader hands exactly
    their offsets to the processor, in order, and reports no error. *)
Theorem acknowledgements_read (client : Z) (chunks : list string) (offsets : list Z)
    (tail : string) (c : Conn W) (w' : W) :
  (forall w, stop_requested w = false) ->
  Forall (fun o => 0 <= o <= u64_max) offsets -> settled tail ->
  foldr String.append EmptyString chunks = log_bytes (map ack_command offsets) +:+ tail ->
  acknowledge_all client offsets (world c) = Some (tt, w') ->
  consume_replica_acknowledgements client (map Received chunks) EmptyString c =
    Some (None, tail, mkConn (wire c) (calls c) w').
Proof.
  intros Hnever Hall Htail Hcut Hack. destruct c as [out n w].
  assert (Forall command_fits (map ack_command offsets)) as Hfit.
  { apply Forall_fmap. eapply Forall_impl; [exact Hall|]. intros o Ho. split; [done|].
    repeat constructor; unfold argument_fits; try done. unfold size_of.
    pose proof (to_string_length_bound o Ho). unfold u64_max. lia. }
  rewrite consume_acknowledgements_feed by done.
  pose proof (feed_frames (fun _ => false) invalid_acknowledgement (handle_acknowledgement client)
    chunks _ tail (mkConn out n w) Hfit Htail Hcut) as Hfeed.
  rewrite (run_commands_acknowledge client offsets w w' out n Hall Hack) in Hfeed. simpl in Hfeed.
  inversion Hfeed as [[[e b] c] y (He & Hc & Hb) Hf1|]; subst. simpl in *. subst.
  by rewrite Hb.
Qed.
End Acknowledgements.

(** ** The handshake *)

Definition handshake_commands (port : Z) : list Command :=
  [["PING"]; ["REPLCONF"; "listening-port"; to_string port]; ["REPLCONF"; "capa"; "psync2"];
   ["PSYNC"; "?"; "-1"]].

Section Handshake.
Context {W : Type} `{Kernel, CommandService W, !KernelLaws, !ReliableSend}.

Lemma send_command_and_expect_holds command line rest more inbox (c : Conn W) :
  all_chars not_cr line = true -> holds (line +:+ crlf +:+ rest) more inbox ->
  exists inbox' n, send_command_and_expect command line inbox c =
    Some (Expected tt, inbox', mkConn (wire c +:+ serialize_command command) n (world c)) /\
    holds rest more inbox'.
Proof.
  intros Hline Hh. destruct (read_line_holds _ _ _ _ Hline Hh) as (inbox' & Hread & Hrest).
  destruct (send_reliable (serialize_command command) c) as [n Hsend].
  exists inbox', n. split; [|done]. unfold send_command_and_expect, send_command.
  rewrite Hsend. cbn [mbind option_bind]. rewrite Hread. cbn [mbind option_bind].
  by rewrite String.eqb_refl.
Qed.

(** The handshake of a replica.  When the master answers PONG and twice OK,
    in whatever pieces, the replica has sent PING, its port, its capability
    and PSYNC, in this order and nothing else, and what follows the answers is
    left for the resynchronization. *)
Theorem handshake_completes (port : Z) (c : Conn W) (rest : string) (more : list recv_outcome)
    (inbox : Inbox) :
  holds ("+PONG" +:+ crlf +:+ "+OK" +:+ crlf +:+ "+OK" +:+ crlf +:+ rest) more inbox ->
  exists inbox' n, perform_replication_handshake port inbox c =
    Some (Expected tt, inbox',
          mkConn (wire c +:+ log_bytes (handshake_commands port)) n (world c)) /\
    holds rest more inbox'.
Proof.
  intros Hh. unfold perform_replication_handshake.
  destruct (send_command_and_expect_holds ["PING"] "+PONG" _ _ _ c eq_refl Hh) as (i1 & n1 & -> & Hh1).
  cbn [mbind option_bind].
  pose proof (fun c => send_command_and_expect_holds
    ["REPLCONF"; "listening-port"; to_string port] "+OK" _ _ _ c eq_refl Hh1) as Hport.
  edestruct Hport as (i2 & n2 & -> & Hh2). cbn [mbind option_bind].
  pose proof (fun c => send_command_and_expect_holds
    ["REPLCONF"; "capa"; "psync2"] "+OK" _ _ _ c eq_refl Hh2) as Hcapa.
  edestruct Hcapa as (i3 & n3 & -> & Hh3). cbn [mbind option_bind]. unfold send_command.
  edestruct (send_reliable (W := W) (serialize_command ["PSYNC"; "?"; "-1"])) as [n4 ->].
  cbn [mbind option_bind wire calls world]. exists i3, n4. split; [|exact Hh3].
  do 2 f_equal. unfold handshake_commands. cbn [log_bytes foldr].
  rewrite string_app_nil_r. by rewrite !string_app_assoc.
Qed.
End Handshake.
