(* ===== verification/Convergence.v ===== *)
(** * A replica ends with the data of its master
    (src/server.cpp, [consume_replication_stream];
    src/command_processor.cpp, [append_replication_frame], [process_direct])

    The theorems on the two ends of a replication link, put together.  The
    backlog of a master that started without data is a log that rebuilds its
    data (WriteLog.v); the queue of a replica holds the backlog
    (ReplicationStream.v); the replica reads the commands of its stream
    whatever the network does to the bytes (ReplicationLink.v); and what its own
    processor makes of these commands is the subject of this file. *)

From stdpp Require Import base option list gmap strings relations.
From Stdlib Require Import ZArith Lia.
From S2P Require Import Prelude CharConv Environment Resp StreamTypes TimeUtils.
From S2P Require Import Database DatabaseFacts Commands Dispatch DispatchFacts Replay Config.
From S2P Require Import Sessions Aof StateMonad ProcessorState Processor ProcessorRun.
From S2P Require Import ProcessorWalk Promises Framing Sockets Journal WriteLog Durability.
From S2P Require Import ReplicationStream Connection ProcessorService ReplicationLink.

Section Convergence.
Context `{Clock, HashOrder, Kernel, Crypto}.

(** ** A call of an idle replica *)

(** No client waits in an operation that blocks. *)
Definition unblocked (s : ProcessorState) : Prop :=
  _pending_list_pops s = [] /\ _pending_stream_reads s = [] /\ _pending_waits s = [].

(** A replica between two commands of its stream, with what the stream has begun
    in a transaction. *)
Definition applying (t : option TransactionState) (s : ProcessorState) : Prop :=
  idle_replica s /\ unblocked s /\ _transactions s !! 0 = t /\ _watched_keys s !! 0 = None.

(** What the task of a call leaves, but for its answer and the data. *)
Definition bystanders (s : ProcessorState) :=
  (_pending_list_pops s, _pending_stream_reads s, _pending_waits s, role (_replication_state s)).

(** The worker takes the only task, and nothing else is due. *)
Lemma await_runs r s v s1 (task := task_of_request r (promises s)) :
  idle_replica s -> unblocked s1 ->
  process_processor_task task (set_tasks [] (enqueue r s)) = Some (tt, s1) ->
  completed s1 = completed s ++ [(promises s, v)] ->
  exists s', await r s = Some (v, s') /\ entries (_database s') = entries (_database s1) /\
    _transactions s' = _transactions s1 /\ _watched_keys s' = _watched_keys s1 /\
    bystanders s' = bystanders s1.
Proof.
  intros (Hbal & Htasks & _) (Hp & Hr & Hw) Htask Hdone.
  set (s' := set_database (mkDatabase (entries (_database s1)) (key_revisions (_database s1))
    (next_revision (_database s1)) (S (S (S (clock_reads (_database s1)))))) s1).
  assert (promises s ∉ fulfilled s) as Hnew by (by apply balanced_new).
  assert (run_iteration (enqueue r s) = Some (tt, s')) as Hrun.
  { unfold run_iteration. apply M_bind_Some. exists [task], (enqueue r s).
    split; [unfold gets; simpl; by rewrite Htasks|].
    apply M_bind_Some. exists tt, (set_tasks [] (enqueue r s)). split; [done|].
    apply M_bind_Some. exists tt, s1. split; [done|]. apply M_bind_Some. exists tt, s1.
    split; [by apply retry_nothing|by apply expire_nothing]. }
  exists s'. split; [|done]. unfold await.
  assert (length (_tasks (enqueue r s)) = 1%nat) as -> by (simpl; by rewrite Htasks).
  assert (run_tasks 1 (enqueue r s) = Some (tt, s')) as ->
    by (apply M_bind_Some; exists tt, s'; by split).
  cbn [mbind option_bind]. by rewrite (outcome_new s s1 s' _ v Hnew Hdone (reflexivity _)).
Qed.

(** ** A command of the stream *)

Section Apply.
Context `{!PostEpochClock, !KernelLaws, !ReliableFile}.

Lemma append_aof_total data s :
  is_Some (_aof_file s) -> exists s', append_aof data s = Some (Expected tt, s') /\
    entries (_database s') = entries (_database s) /\ completed s' = completed s /\
    _transactions s' = _transactions s /\ _watched_keys s' = _watched_keys s /\
    bystanders s' = bystanders s /\ is_Some (_aof_file s').
Proof.
  intros [file Hf].
  destruct (append_reliable data file (io_calls s) (clock_reads (_database s)))
    as (file' & calls & reads & Happ & _).
  unfold append_aof. rewrite Hf. cbn [mbind option_bind]. rewrite Happ. eexists. split; [done|]. by split_and!.
Qed.

(** A command without an error is answered with its response. *)
Lemma process_direct_applies task active s r s1 :
  source task = FROM_MASTER -> role (_replication_state s) = REPLICA ->
  process_command (client_id task) (task_command task) FROM_MASTER s = Some (r, s1) ->
  response_is_error r = false -> (is_Some (_aof_file s) -> is_Some (_aof_file s1)) ->
  exists s2, process_direct task active s = Some (tt, s2) /\
    completed s2 = completed s1 ++ [(response task, Responded r)] /\
    entries (_database s2) = entries (_database s1) /\
    _transactions s2 = _transactions s1 /\ _watched_keys s2 = _watched_keys s1 /\
    bystanders s2 = bystanders s1.
Proof.
  intros Hsrc Hrole Hcmd Hr Hfile.
  set (persist := bool_decide (is_Some (_aof_file s)) && true &&
    (negb active && is_write_command (task_command task))).
  assert (exists s2, (if persist && write_modified_database (task_command task) r then
      result ← (if persist then append_aof (serialize_command
        (normalize_replication_command (task_command task) r)) else mret (Expected tt));
      let r := match result with Unexpected e => misconf e | Expected _ => r end in
      (mret tt;; mret r)
    else mret r : P Response) s1 = Some (r, s2) /\
    entries (_database s2) = entries (_database s1) /\ completed s2 = completed s1 /\
    _transactions s2 = _transactions s1 /\ _watched_keys s2 = _watched_keys s1 /\
    bystanders s2 = bystanders s1) as (s2 & Hlog & He & Hc & Ht & Hw & Hb).
  { destruct persist eqn:Hp; [|by exists s1]. cbn [andb].
    destruct (write_modified_database _ r); [|by exists s1].
    destruct (append_aof_total (serialize_command
      (normalize_replication_command (task_command task) r)) s1) as (s2 & Happ & Hs2).
    { apply Hfile. unfold persist in Hp. rewrite !andb_true_iff in Hp.
      destruct Hp as [[Hsome _] _]. by apply bool_decide_eq_true in Hsome. }
    exists s2. split; [|destruct Hs2 as (? & ? & ? & ? & ? & ?); by split_and!]. apply M_bind_Some. by exists (Expected tt), s2. }
  eexists. split.
  - unfold process_direct. rewrite Hsrc.
    apply M_bind_Some. exists false, s. split; [unfold gets; by rewrite Hrole|].
    apply M_bind_Some. exists persist, s. split; [done|].
    apply M_bind_Some. exists r, s1. split; [done|].
    apply M_bind_Some. exists r, s2. cbn [orb andb]. split; [exact Hlog|].
    rewrite Hr. cbn [negb andb]. apply M_bind_Some. eexists tt, _. split; [done|].
    apply M_bind_Some. do 2 eexists. split; [done|]. cbn [andb].
    apply M_bind_Some. do 2 eexists. split; done.
  - simpl. by rewrite Hc.
Qed.

(** The state the worker takes the command in. *)
Definition taken_task (r : Request) (s : ProcessorState) : ProcessorState := set_tasks [] (enqueue r s).

Lemma apply_one c n s t r s1 :
  applying t s -> streamed c ->
  process_command 0 c FROM_MASTER (taken_task (ApplyReplication c n) s) = Some (r, s1) ->
  response_is_error r = false -> (is_Some (_aof_file s) -> is_Some (_aof_file s1)) ->
  completed s1 = completed s -> bystanders s1 = bystanders s -> _watched_keys s1 !! 0 = None ->
  exists s', await_response (ApplyReplication c n) s = Some (r, s') /\
    applying (_transactions s1 !! 0) s' /\ entries (_database s') = entries (_database s1).
Proof.
  intros (Hidle & Hun & _ & _) Hstr Hcmd Hr Hfile Hdone Hby Hwatch.
  set (task := mkTask 0 c FROM_MASTER n (promises s)).
  destruct (process_direct_applies task (bool_decide (is_Some (_transactions s !! 0)))
    (taken_task (ApplyReplication c n) s) r s1) as (s2 & Hrun & Hc2 & He2 & Ht2 & Hw2 & Hb2);
    [done|apply Hidle|done..|].
  assert (bystanders s2 = bystanders s) as Hb by congruence.
  unfold bystanders in Hb. injection Hb as Hp Hx Hw Hro.
  destruct (await_runs (ApplyReplication c n) s (Responded r) s2)
    as (s' & Hawait & He & Ht & Hwk & Hb'); [done| | |by rewrite Hc2, Hdone|].
  { unfold unblocked in *. by rewrite Hp, Hx, Hw. }
  { change (process_task task (taken_task (ApplyReplication c n) s) = Some (tt, s2)).
    by rewrite process_task_direct. }
  assert (await_response (ApplyReplication c n) s = Some (r, s')) as Hresp
    by (apply M_bind_Some; by exists (Responded r), s').
  exists s'. split; [done|]. split; [|congruence].
  destruct (processor_apply_spec c n s r s') as [_ Hidle']; [done..|by intros e ->|].
  unfold bystanders in Hb'. injection Hb' as Hp' Hx' Hw' _.
  split; [done|]. split; [|by rewrite Ht, Ht2, Hwk, Hw2].
  unfold unblocked in *. by rewrite Hp', Hx', Hw', Hp, Hx, Hw.
Qed.

(** ** The items of the stream *)

(** [apply_all] on one more command that is answered without an error. *)
Lemma apply_all_cons c cs s r s' :
  is_getack c = false ->
  await_response (ApplyReplication c (size_of (serialize_command c))) s = Some (r, s') ->
  response_is_error r = false -> apply_all (c :: cs) s = apply_all cs s'.
Proof.
  intros Hc Hrun Hr. cbn [apply_all]. rewrite Hc. unfold mbind, M_bind, mret, M_ret.
  change (apply_replication c ?n) with (await_response (ApplyReplication c n)).
  rewrite Hrun. by destruct r.
Qed.

Lemma logged_name_streamed c : loggable c -> streamed c /\ is_getack c = false.
Proof.
  intros (_ & name & args & -> & Hname). unfold logged_names in Hname.
  rewrite !elem_of_cons, elem_of_nil in Hname.
  destruct_or! Hname; subst name; (split; [done|]); by destruct args as [|? [|? [|? ?]]].
Qed.

Lemma apply_single c cs s e' :
  loggable c -> applying None s -> leads c (entries (_database s)) e' ->
  exists s', apply_all (c :: cs) s = apply_all cs s' /\ applying None s' /\
    entries (_database s') = e'.
Proof.
  intros Hc Happ Hlead. destruct (logged_name_streamed c Hc) as [Hstr Hget].
  set (n := size_of (serialize_command c)).
  destruct (Hlead (_database s) eq_refl) as (r & db' & Hd & Hr & He).
  pose proof Happ as (_ & _ & Ht & Hw).
  destruct (apply_one c n s None r (set_database db' (taken_task (ApplyReplication c n) s)))
    as (s' & Hrun & Happ' & He'); [done|done| |done..|].
  - rewrite (write_dispatched c 0 FROM_MASTER _ None (loggable_write c Hc)) by exact Ht.
    by apply try_dispatch_run.
  - exists s'. split; [by eapply apply_all_cons|]. simpl in Happ'. rewrite Ht in Happ'.
    split; [done|]. by rewrite He', <- He.
Qed.

(** The commands of a block are queued. *)
Lemma apply_queue cs rest q s :
  Forall loggable cs -> applying (Some (mkTransactionState q false)) s ->
  exists s', apply_all (cs ++ rest) s = apply_all rest s' /\
    applying (Some (mkTransactionState (q ++ cs) false)) s' /\
    entries (_database s') = entries (_database s).
Proof.
  intros Hall. revert q s. induction Hall as [|c cs Hc _ IH]; intros q s Happ.
  { exists s. by rewrite app_nil_r. }
  destruct (logged_name_streamed c Hc) as [Hstr Hget]. set (n := size_of (serialize_command c)).
  pose proof Happ as (_ & _ & Ht & Hw).
  destruct (apply_one c n s (Some (mkTransactionState q false)) (SimpleString "QUEUED") (set_transactions (<[0 :=
      mkTransactionState (q ++ [c]) false]> (_transactions s)) (taken_task (ApplyReplication c n) s)))
    as (s' & Hrun & Happ' & He'); [done|done| |done..|].
  { by rewrite (write_dispatched c 0 FROM_MASTER (taken_task (ApplyReplication c n) s) _
      (loggable_write c Hc) Ht). }
  simpl in Happ'. rewrite lookup_insert_eq in Happ'.
  destruct (IH (q ++ [c]) s' Happ') as (s2 & Hrest & Happ2 & He2).
  exists s2. rewrite <- app_assoc in Happ2. split; [|split; [done|by rewrite He2, He']].
  rewrite <- Hrest. by eapply apply_all_cons.
Qed.

Lemma apply_multi cs s :
  applying None s -> exists s', apply_all (["MULTI"] :: cs) s = apply_all cs s' /\
    applying (Some (mkTransactionState [] false)) s' /\ entries (_database s') = entries (_database s).
Proof.
  intros Happ. set (c := ["MULTI"]). set (n := size_of (serialize_command c)).
  pose proof Happ as (_ & _ & Ht & Hw).
  destruct (apply_one c n s None (SimpleString "OK") (set_transactions (<[0 :=
      mkTransactionState [] false]> (_transactions s)) (taken_task (ApplyReplication c n) s)))
    as (s' & Hrun & Happ' & He'); [done|done| |done..|].
  { unfold process_command, mbind, M_bind, gets. cbn [c String.eqb Ascii.eqb Bool.eqb].
    rewrite andb_false_r. change (_transactions (taken_task _ s)) with (_transactions s). by rewrite Ht. }
  simpl in Happ'. rewrite lookup_insert_eq in Happ'. exists s'. split; [by eapply apply_all_cons|done].
Qed.

Lemma offset_asked s :
  applying None s -> exists o s', await_offset s = Some (o, s') /\ applying None s' /\
    entries (_database s') = entries (_database s).
Proof.
  intros (Hidle & Hun & Ht & Hw).
  set (o := offset (_replication_state s)).
  destruct (await_runs AskReplicationOffset s (OffsetReported o)
    (set_completed (completed s ++ [(promises s, OffsetReported o)])
      (taken_task AskReplicationOffset s))) as (s' & Hawait & He & Htr & Hwk & Hb); [done..|].
  assert (await_offset s = Some (o, s')) as Hrun
    by (apply M_bind_Some; by exists (OffsetReported o), s').
  exists o, s'. split; [done|]. split; [|done].
  destruct (processor_offset_spec s o s' Hidle Hrun) as (_ & _ & Hidle').
  unfold bystanders in Hb. injection Hb as Hp Hx Hwt _.
  split; [done|]. split; [|by rewrite Htr, Hwk]. unfold unblocked in *. by rewrite Hp, Hx, Hwt.
Qed.

Lemma apply_getack cs s :
  applying None s -> exists s', apply_all (getack :: cs) s = apply_all cs s' /\
    applying None s' /\ entries (_database s') = entries (_database s).
Proof.
  intros Happ. destruct (offset_asked s Happ) as (o & s1 & Ho & Happ1 & He1).
  set (n := size_of (serialize_command getack)). pose proof Happ1 as (_ & _ & Ht & Hw).
  destruct (apply_one getack n s1 None (SimpleString "OK") (taken_task (ApplyReplication getack n) s1))
    as (s' & Hrun & Happ' & He'); [done|done| |done..|].
  { unfold process_command, mbind, M_bind, gets. cbn [getack String.eqb Ascii.eqb Bool.eqb].
    by rewrite andb_false_r. }
  simpl in Happ'. rewrite Ht in Happ'. exists s'. split; [|split; [done|by rewrite He']].
  cbn [apply_all]. change (is_getack getack) with true. cbv iota. unfold mbind at 1 3, M_bind at 1 3.
  change (replication_offset s) with (await_offset s). rewrite Ho. unfold mret at 1, M_ret at 1.
  unfold mbind, M_bind. change (apply_replication getack ?n s1)
    with (await_response (ApplyReplication getack n) s1). fold n. by rewrite Hrun.
Qed.

(** ** Transactions of the stream *)

Lemma run_transaction_total record cs data s rs db' :
  dispatch_all (_database s) cs = Some (rs, db') ->
  exists data', run_transaction record cs data s = Some ((rs, data'), set_database db' s).
Proof.
  revert data s rs. induction cs as [|c cs IH]; intros data s rs; cbn [dispatch_all run_transaction].
  { intros [= <- <-]. exists data. by destruct s. }
  intros ([r db1] & Hd & Hrest)%bind_Some.
  apply bind_Some in Hrest as ([rs' dbx] & Hall & [= <- <-]).
  unfold mbind, M_bind. rewrite (try_dispatch_run c s r db1 Hd).
  match goal with |- context [run_transaction record cs ?d _] =>
    destruct (IH d (set_database db1 s) rs' Hall) as [data' Hrun] end.
  exists data'. by rewrite Hrun.
Qed.

Lemma exec_applies cs s rs db' :
  role (_replication_state s) = REPLICA ->
  _transactions s !! 0 = Some (mkTransactionState cs false) -> _watched_keys s !! 0 = None ->
  cs <> [] -> dispatch_all (_database s) cs = Some (rs, db') ->
  exists s1, process_command 0 ["EXEC"] FROM_MASTER s = Some (ResponseArray rs, s1) /\
    entries (_database s1) = entries db' /\ completed s1 = completed s /\
    _transactions s1 !! 0 = None /\ _watched_keys s1 !! 0 = None /\ bystanders s1 = bystanders s /\
    (is_Some (_aof_file s) -> is_Some (_aof_file s1)).
Proof.
  intros Hrole Ht Hw Hcs Hall.
  set (s0 := set_watched_keys (delete 0 (_watched_keys s))
    (set_transactions (delete 0 (_transactions s)) s)).
  set (persist := bool_decide (is_Some (_aof_file s)) && true).
  destruct (run_transaction_total persist cs EmptyString s0 rs db' Hall) as [data Hrun].
  assert (exists s1, (if String.eqb data EmptyString then mret (ResponseArray rs) else
      result ← (if persist then append_aof (data +:+ serialize_command ["EXEC"])
                else mret (Expected tt));
      match result with
      | Unexpected e => mret (misconf e)
      | Expected _ => mret tt;; mret (ResponseArray rs)
      end : P Response) (set_database db' s0) = Some (ResponseArray rs, s1) /\
    entries (_database s1) = entries db' /\ completed s1 = completed s /\
    _transactions s1 = _transactions s0 /\ _watched_keys s1 = _watched_keys s0 /\
    bystanders s1 = bystanders s /\ (is_Some (_aof_file s) -> is_Some (_aof_file s1)))
    as (s1 & Hlog & He & Hc & Ht1 & Hw1 & Hb & Hf).
  { destruct (String.eqb data EmptyString); [by eexists|]. destruct persist eqn:Hp; [|by eexists].
    destruct (append_aof_total (data +:+ serialize_command ["EXEC"]) (set_database db' s0))
      as (s1 & Happ & Hs1).
    { unfold persist in Hp. apply andb_true_iff in Hp as [Hsome _].
      by apply bool_decide_eq_true in Hsome. }
    exists s1. split; [|destruct Hs1 as (? & ? & ? & ? & ? & ?); by split_and!]. apply M_bind_Some. by exists (Expected tt), s1. }
  exists s1. split; [|rewrite Ht1, Hw1; simpl; by rewrite !lookup_delete_eq].
  unfold process_command, mbind, M_bind, gets. cbn [String.eqb Ascii.eqb Bool.eqb].
  rewrite andb_false_r. unfold execute_transaction, mbind, M_bind, gets. rewrite Ht.
  unfold watched_list. rewrite Hw. cbn [watched_changed]. unfold mret, M_ret.
  unfold commit_transaction. cbn [has_error queued_commands].
  destruct cs as [|c cs]; [done|]. cbn [length Nat.eqb].
  apply M_bind_Some. eexists tt, _. split; [done|].
  apply M_bind_Some. exists tt, s0. split; [done|].
  apply M_bind_Some. exists false, s0. split; [unfold gets; simpl; by rewrite Hrole|].
  apply M_bind_Some. exists persist, s0. split; [done|].
  apply M_bind_Some. exists (rs, data), (set_database db' s0). split; [done|]. exact Hlog.
Qed.

Lemma apply_exec q cs s rs db' :
  q <> [] -> applying (Some (mkTransactionState q false)) s ->
  dispatch_all (_database s) q = Some (rs, db') ->
  exists s', apply_all (["EXEC"] :: cs) s = apply_all cs s' /\ applying None s' /\
    entries (_database s') = entries db'.
Proof.
  intros Hq Happ Hall. set (c := ["EXEC"]). set (n := size_of (serialize_command c)).
  pose proof Happ as ((_ & _ & Hrole) & _ & Ht & Hw).
  destruct (exec_applies q (taken_task (ApplyReplication c n) s) rs db' Hrole Ht Hw Hq Hall)
    as (s1 & Hcmd & He & Hc & Ht1 & Hw1 & Hb & Hf).
  destruct (apply_one c n s _ (ResponseArray rs) s1 Happ) as (s' & Hrun & Happ' & He'); [done..|].
  rewrite Ht1 in Happ'. exists s'. split; [by eapply apply_all_cons|]. by rewrite He', He.
Qed.

Lemma apply_item item rest s e' :
  item_ok item -> applying None s -> leads_all (item_commands item) (entries (_database s)) e' ->
  exists s', apply_all (item_log item ++ rest) s = apply_all rest s' /\ applying None s' /\
    entries (_database s') = e'.
Proof.
  intros [Hne Hok] Happ Hlead. destruct item as [c|q]; cbn [item_commands item_log app] in *.
  - rewrite Forall_singleton in Hok. inversion Hlead as [|? ? ? e2 ? Hc Hnil]; subst.
    inversion Hnil; subst. by apply apply_single.
  - rewrite <- app_assoc.
    destruct (apply_multi (q ++ [["EXEC"]] ++ rest) s Happ) as (s1 & Hrun1 & Happ1 & He1).
    destruct (apply_queue q ([["EXEC"]] ++ rest) [] s1 Hok Happ1) as (s2 & Hrun2 & Happ2 & He2).
    destruct (leads_all_run _ _ _ (_database s2) Hlead) as (rs & db' & Hall & _ & He);
      [by rewrite He2, He1|].
    destruct (apply_exec q rest s2 rs db' Hne Happ2 Hall) as (s3 & Hrun3 & Happ3 & He3).
    exists s3. split; [|split; [done|by rewrite He3]]. rewrite Hrun1, Hrun2. exact Hrun3.
Qed.

(** ** The stream *)

Lemma item_log_streamed item : item_ok item -> Forall streamed (item_log item).
Proof.
  intros [_ Hok].
  assert (Forall streamed (item_commands item)) as Hs
    by (eapply List.Forall_impl; [|exact Hok]; intros c Hc; by apply logged_name_streamed).
  destruct item as [c|q]; [done|]. constructor; [done|].
  apply Forall_app. split; [done|]. by apply Forall_singleton.
Qed.

(** The bytes of some frames. *)
Definition payloads (frames : list ReplicationFrame) : string :=
  foldr (fun f bytes => payload f +:+ bytes) EmptyString frames.

Lemma payloads_app l l' : payloads (l ++ l') = payloads l +:+ payloads l'.
Proof.
  unfold payloads. induction l as [|f l IH]; [done|]. cbn [app foldr].
  by rewrite IH, string_app_assoc.
Qed.

Lemma payloads_size l : size_of (payloads l) = stream_bytes l.
Proof.
  unfold payloads, stream_bytes. induction l as [|f l IH]; [done|]. cbn [foldr].
  rewrite <- IH. unfold size_of. rewrite string_length_app. lia.
Qed.

(** Frames that carry a log, read as commands: a replica with the data the log
    starts from ends with the data it leads to. *)
Lemma carries_applies frames items e e' :
  carries frames items -> Forall item_ok items -> leads_all (log_commands items) e e' ->
  exists lines, payloads frames = log_bytes lines /\ Forall command_fits lines /\
    Forall streamed lines /\ forall s, applying None s -> entries (_database s) = e ->
    forall rest, exists s', apply_all (lines ++ rest) s = apply_all rest s' /\ applying None s' /\
      entries (_database s') = e'.
Proof.
  intros Hc. revert e'. induction Hc as [|frames items f Hc IH Hf|frames items f item Hc IH Hf];
    intros e' Hok Hlead.
  - inversion Hlead; subst. exists []. split_and!; try done. intros s Happ He rest. by exists s.
  - destruct (IH e' Hok Hlead) as (lines & Hb & Hfit & Hstr & Hrun).
    exists (lines ++ [getack]). split_and!.
    + rewrite payloads_app, log_bytes_app, Hb. simpl. by rewrite Hf, !string_app_nil_r.
    + apply Forall_app. split; [done|]. apply Forall_singleton. by split; repeat constructor.
    + apply Forall_app. split; [done|]. by apply Forall_singleton.
    + intros s Happ He rest. destruct (Hrun s Happ He ([getack] ++ rest)) as (s1 & H1' & Happ1 & He1).
      destruct (apply_getack rest s1 Happ1) as (s2 & H2' & Happ2 & He2). exists s2.
      rewrite <- app_assoc, H1'. split; [exact H2'|]. split; [done|congruence].
  - apply Forall_app in Hok as [Hok Hitem]. rewrite Forall_singleton in Hitem.
    unfold log_commands in Hlead. rewrite map_app, concat_app in Hlead. cbn [map concat] in Hlead.
    rewrite app_nil_r in Hlead. apply leads_all_app_inv in Hlead as (e2 & Hlead & Hlast).
    destruct (IH e2 Hok Hlead) as (lines & Hb & Hfit & Hstr & Hrun).
    exists (lines ++ item_log item). split_and!.
    + rewrite payloads_app, log_bytes_app, Hb. simpl. by rewrite Hf, string_app_nil_r.
    + apply Forall_app. split; [done|]. by apply item_log_fits.
    + apply Forall_app. split; [done|]. by apply item_log_streamed.
    + intros s Happ He rest. destruct (Hrun s Happ He (item_log item ++ rest)) as (s1 & H1' & Happ1 & He1).
      subst e2. destruct (apply_item item rest s1 e' Hitem Happ1 Hlast) as (s2 & H2' & Happ2 & He2).
      exists s2. rewrite <- app_assoc, H1'. done.
Qed.
End Apply.

(** ** Both ends *)

(** The calls of the clients of a master that set no expiry. *)
Definition plain_request (r : Request) : Prop :=
  match r with
  | Submit _ c => plain c
  | ApplyReplication _ _ | InstallReplicationState _ _ | LoadRdbEntries _ | InitializeAof _ _ => False
  | _ => True
  end.

Definition plain_delivery (d d' : Deliveries) : Prop :=
  delivery_step d d' /\ processor_step plain_request d.1 d'.1.

(** A master whose data and whose waiting clients set no expiry. *)
Definition plain_master (s : ProcessorState) : Prop :=
  role (_replication_state s) = MASTER /\ persistent (_database s) /\ db_wf (_database s) /\
  held (ToBacklog (_replication_backlog s) (entries (_database s))) s.

Lemma plain_request_ok before base r : plain_request r -> request_ok (ToBacklog before base) r.
Proof. by destruct r. Qed.

Lemma plain_master_good s :
  plain_master s -> good (ToBacklog (_replication_backlog s) (entries (_database s))) s.
Proof.
  intros (Hrole & Hp & Hwf & Hheld). split; [|done]. exists [].
  split_and!; [|constructor..|done|done].
  split; [done|]. exists []. split; [by rewrite app_nil_r|constructor].
Qed.

Lemma plain_deliveries `{!PostEpochClock, !KernelLaws, !ReliableFile} sink d d' :
  (exists before base, sink = ToBacklog before base) ->
  rtc plain_delivery d d' -> following d -> good sink d.1 -> following d' /\ good sink d'.1.
Proof.
  intros (before & base & ->). induction 1 as [|d1 d2 d3 [Hd Hs] _ IH]; [done|].
  intros Hf Hg. apply IH; [by eapply delivery_step_following|].
  refine (processor_step_good _ d1.1 d2.1 _ Hg). eapply processor_step_mono; [|exact Hs].
  apply plain_request_ok.
Qed.

Lemma stream_bytes_split l l1 l2 :
  l = l1 ++ l2 -> 0 <= stream_bytes l1 <= stream_bytes l.
Proof.
  intros ->. rewrite stream_bytes_app, <- !payloads_size. unfold size_of. lia.
Qed.

(** Frames with as many bytes before them are the same bytes. *)
Lemma payloads_after l1 l2 k1 k2 :
  l1 ++ l2 = k1 ++ k2 -> stream_bytes l1 = stream_bytes k1 -> payloads l2 = payloads k2.
Proof.
  intros Heq Hb. rewrite <- !payloads_size in Hb. unfold size_of in Hb.
  apply (f_equal payloads) in Heq. rewrite !payloads_app in Heq.
  apply (f_equal (drop_string (String.length (payloads l1)))) in Heq.
  rewrite drop_string_app in Heq. assert (String.length (payloads l1) = String.length (payloads k1))
    as Hlen by lia. by rewrite Hlen, drop_string_app in Heq.
Qed.

End Convergence.

(** C6: a replica ends with the data of its master.  Take a master that reached
    any state [s0], with any persisted data, in which it and its replica hold
    the same entries, as when both are empty, and the offset that the replica
    was given.  Let clients of the master do anything from then on that sets no
    expiry: writes, transactions, blocking pops, WAIT.  However the network cuts
    what the replica's session was and will be sent, the replica reads all of
    it without an error, answers whatever acknowledgements it is asked for, and
    then holds exactly the entries of the master, at the offset of the master.
    Writes to the file and sends to the master are taken not to fail. *)
Theorem replica_converges `{Clock, HashOrder, Kernel, Crypto}
    `{!PostEpochClock, !KernelLaws, !ReliableFile, !ReliableSend}
    (rdb : RDBConfig) (aof : AOFConfig) (hash : option string) (id : string)
    (s0 s w : ProcessorState) (taken0 taken : nat -> list ReplicationFrame)
    (a : nat) (x : ReplicaSession) (chunks : list string) :
  rtc delivery_step (initial_state None rdb aof hash id, fun _ => []) (s0, taken0) ->
  plain_master s0 -> rtc plain_delivery (s0, taken0) (s, taken) ->
  replica_heap s !! a = Some x -> closed x = false ->
  starting_offset x = offset (_replication_state s0) ->
  stream_bytes (_replication_backlog s) <= u64_max ->
  applying None w -> entries (_database w) = entries (_database s0) ->
  offset (_replication_state w) = offset (_replication_state s0) ->
  foldr String.append EmptyString chunks = payloads (taken a ++ replica_frames x) ->
  exists out n w',
    consume_replication_stream (map Received chunks) EmptyString (mkConn EmptyString 0 w) =
      Some (None, EmptyString, mkConn out n w') /\
    entries (_database w') = entries (_database s) /\
    offset (_replication_state w') = offset (_replication_state s) /\ applying None w'.
Proof.
  intros Hreach Hplain Hrun Hx Hopen Hstart Hsmall Happ He0 Ho0 Hchunks.
  apply deliveries_following in Hreach; [|apply initial_following].
  destruct (plain_deliveries _ _ _ (ex_intro _ _ (ex_intro _ _ eq_refl)) Hrun Hreach
    (plain_master_good s0 Hplain)) as [[(_ & Ho & _ & Hs) _] [(items & Hw & Hok & Hlead & _) _]].
  destruct Hw as [_ (frames & Hlog & Hcarry)]. cbn [base_of] in Hlead.
  destruct (Hs a x Hx) as [_ Hfed]. destruct (Hfed Hopen) as (before & Hback & Hoff).
  destruct Hreach as [(_ & Hoff0 & _) _]. 
  cbn [fst snd] in *.
  pose proof (stream_bytes_split _ _ _ Hlog) as Hb1. pose proof (stream_bytes_split _ _ _ Hback) as Hb2.
  assert (stream_bytes before = stream_bytes (_replication_backlog s0)) as Hsame
    by (rewrite Hoff, Hoff0 in Hstart; do 2 rewrite wrap_u64_small in Hstart by lia; done).
  assert (payloads (taken a ++ replica_frames x) = payloads frames) as Hbytes
    by (apply (payloads_after before _ (_replication_backlog s0)); [congruence|done]).
  destruct (carries_applies frames items _ _ Hcarry Hok Hlead) as (lines & Hlines & Hfit & Hstr & Hall).
  destruct (Hall w Happ He0 []) as (w' & Hw' & Happ' & He').
  rewrite app_nil_r in Hw'. 
  destruct (stream_applied chunks lines EmptyString (mkConn EmptyString 0 w) w') as [Hoff' [n Hread]].
  - done.
  - done.
  - done.
  - by left.
  - by rewrite Hchunks, Hbytes, Hlines, string_app_nil_r.
  - apply Happ.
  - simpl. rewrite Ho0, Hoff0. apply wrap_u64_range.
  - exact Hw'.
  - do 2 eexists. exists w'. split; [exact Hread|]. split; [done|]. split; [|done].
    change (offset_of ?v) with (offset (_replication_state v)) in Hoff'. cbn [world] in Hoff'.
    rewrite Hoff', Ho0, Hoff0, Ho, Hlog, stream_bytes_app, <- Hlines, payloads_size.
    apply wrap_u64_add.
Qed.

(** ** Witness *)

(** The calls of clients, whatever the threads of the replicas take meanwhile. *)
Lemma plain_runs_deliver `{Clock, HashOrder, Kernel, Crypto} s0 s taken0 :
  following (s0, taken0) -> rtc (processor_step plain_request) s0 s ->
  exists taken, rtc plain_delivery (s0, taken0) (s, taken).
Proof.
  intros Hf Hrun. revert taken0 Hf. induction Hrun as [s|s1 s2 s3 H12 _ IH]; intros taken Hf.
  { by exists taken. }
  assert (processor_step master_request s1 s2) as Hstep
    by (eapply processor_step_mono; [|exact H12]; by intros []).
  destruct (step_delivers s1 s2 taken (proj2 Hf) Hstep) as [taken2 Hd].
  destruct (IH taken2) as [taken3 Hrest]; [by eapply delivery_step_following|].
  exists taken3. eapply rtc_l; [|exact Hrest]. by split.
Qed.

Section Witness.
#[local] Existing Instance millisecond_clock.
#[local] Existing Instance insertion_order.
#[local] Existing Instance perfect_kernel.
#[local] Existing Instance perfect_kernel_laws.
#[local] Existing Instance sample_crypto.
#[local] Existing Instance millisecond_clock_post_epoch.
#[local] Existing Instance perfect_file.
#[local] Existing Instance perfect_kernel_sends.

(** A master that persists its writes, with a client and a replica. *)
Definition linked_master : ProcessorState :=
  after_script [InitializeAof new_file []; RegisterClient 1 0; RegisterClient 2 1;
    RegisterReplica 7] sample_master.

(** A blocked pop served by a transaction, and a WAIT. *)
Definition linked_day : list Request :=
  [Submit 2 ["BLPOP"; "l"; "0"]; Submit 1 ["MULTI"]; Submit 1 ["RPUSH"; "l"; "a"; "b"];
   Submit 1 ["XADD"; "s"; "*"; "f"; "v"]; Submit 1 ["EXEC"]; Submit 1 ["INCR"; "n"];
   Submit 1 ["WAIT"; "1"; "0"]; Submit 1 ["INCR"; "n"]].

Definition after_linked_day : ProcessorState := after_script linked_day linked_master.

Definition new_replica : ProcessorState :=
  initial_state (Some (mkReplicaConfig "m" 6379)) default_rdb_config default_aof_config None "id".

Lemma linked_master_reachable : rtc (processor_step master_request) sample_master linked_master.
Proof. apply after_script_allowed; [repeat constructor|vm_compute; reflexivity]. Qed.

Lemma linked_day_runs : rtc (processor_step plain_request) linked_master after_linked_day.
Proof.
  apply after_script_allowed; [|vm_compute; reflexivity].
  unfold linked_day. repeat constructor; vm_compute; discriminate.
Qed.

Lemma linked_master_plain : plain_master linked_master.
Proof.
  assert (entries (_database linked_master) = ∅) as He by (vm_compute; reflexivity).
  split; [vm_compute; reflexivity|]. unfold persistent, db_wf. rewrite He.
  do 2 (split; [intros k e Hk; by rewrite lookup_empty in Hk|]).
  split_and!.
  - assert (_tasks linked_master = []) as -> by (vm_compute; reflexivity). constructor.
  - assert (_transactions linked_master = ∅) as -> by (vm_compute; reflexivity).
    intros k t Hk. by rewrite lookup_empty in Hk.
  - assert (_pending_list_pops linked_master = []) as -> by (vm_compute; reflexivity). constructor.
Qed.

Lemma new_replica_applying : applying None new_replica.
Proof. split; [split; [unfold balanced; reflexivity|split; reflexivity]|]. by repeat split. Qed.

Lemma replica_converges_witness :
  map (fun k => value <$> entries (_database after_linked_day) !! k) ["l"; "n"]
    = [Some (ListValue ["b"]); Some (StringValue "2")] /\
  exists chunks out n w',
    consume_replication_stream (map Received chunks) EmptyString (mkConn EmptyString 0 new_replica) =
      Some (None, EmptyString, mkConn out n w') /\
    entries (_database w') = entries (_database after_linked_day) /\
    offset (_replication_state w') = offset (_replication_state after_linked_day) /\
    applying None w'.
Proof.
  split; [vm_compute; reflexivity|].
  destruct (runs_deliver sample_master linked_master (fun _ => []))
    as [taken0 Hreach]; [apply initial_following|exact linked_master_reachable|].
  pose proof (deliveries_following _ _ Hreach (initial_following _ _ _ _ _)) as Hfollow.
  destruct (plain_runs_deliver _ _ _ Hfollow linked_day_runs) as [taken Hrun].
  assert (exists x, replica_heap after_linked_day !! 0%nat = Some x /\ closed x = false /\
    starting_offset x = 0) as (x & Hx & Hopen & Hstart) by (vm_compute; eauto).
  exists [payloads (taken 0%nat ++ replica_frames x)].
  apply (replica_converges default_rdb_config default_aof_config None "0123456789abcdef"
    linked_master after_linked_day new_replica taken0 taken 0 x).
  - exact Hreach.
  - exact linked_master_plain.
  - exact Hrun.
  - exact Hx.
  - exact Hopen.
  - rewrite Hstart. vm_compute. reflexivity.
  - vm_compute. discriminate.
  - exact new_replica_applying.
  - vm_compute. reflexivity.
  - vm_compute. reflexivity.
  - cbn [foldr]. apply string_app_nil_r.
Defined.
End Witness.
