(* ===== verification/Identity.v ===== *)
(** * The identity of a server
    (src/command_processor.cpp, [generate_replication_id],
    [process_replica_registration]; src/server.cpp, [receive_full_resync])

    A server makes its replication identifier from random digits, or takes over
    the one its master sent; either way what it hands to a replica is an
    identifier and an offset that the replica can read. *)

From stdpp Require Import base option list gmap strings relations.
From Stdlib Require Import ZArith Lia.
From S2P Require Import Prelude CharConv Environment Resp StreamTypes TimeUtils.
From S2P Require Import Database Commands Dispatch Config Hexadecimal.
From S2P Require Import Sessions Aof StateMonad ProcessorState Processor ProcessorRun.
From S2P Require Import ProcessorWalk WorkerWalk Framing Sockets Connection ReplicationLink.

Definition valid_identity (id : string) (off : Z) : Prop :=
  String.length id = 40%nat /\ all_chars is_hexadecimal id = true /\ 0 <= off <= u64_max.

(** ** Where identities come from *)

Lemma lower_hexadecimal c : is_lower_hexadecimal c = true -> is_hexadecimal c = true.
Proof.
  unfold is_lower_hexadecimal, is_hexadecimal. intros ->. by rewrite orb_true_l.
Qed.

Lemma generated_identity `{RandomDevice} draws : valid_identity (generate_replication_id draws) 0.
Proof.
  unfold generate_replication_id.
  destruct (random_digits_spec replication_id_length draws) as [Hl Hd].
  split; [exact Hl|]. split; [|unfold u64_max; lia].
  by apply (all_chars_impl _ _ _ lower_hexadecimal).
Qed.

(** Whatever the master sends, what [receive_full_resync] accepts is valid. *)
Lemma received_identity inbox inbox' id off :
  receive_full_resync inbox = Some (Expected (mkFullResync id off), inbox') ->
  valid_identity id off.
Proof.
  unfold receive_full_resync. intros ([response inbox1] & _ & Hrest)%bind_Some.
  destruct response as [line|e]; [|done].
  destruct (negb (String.prefix _ line)); [done|].
  destruct (String.index 0 space _) as [separator|]; [|done].
  match type of Hrest with (if ?b then _ else _) = _ => destruct b eqn:Hshape; [done|] end.
  apply orb_false_iff in Hshape as [Hlen _]. apply negb_false_iff, Nat.eqb_eq in Hlen.
  match type of Hrest with (if ?b then _ else _) = _ => destruct b eqn:Hhex; [done|] end.
  apply negb_false_iff in Hhex.
  match type of Hrest with (if ?b then _ else _) = _ => destruct b eqn:Hconv; [done|] end.
  injection Hrest as <- <- _. split; [done|]. split; [done|].
  apply conversion_failed_false in Hconv as [Hok _]. by apply from_chars_range.
Qed.

(** A server is told to install what [receive_full_resync] returned, and
    nothing else. *)
Definition resynced (id : string) (off : Z) : Prop :=
  exists inbox inbox', receive_full_resync inbox = Some (Expected (mkFullResync id off), inbox').

Definition identified_request (r : Request) : Prop :=
  match r with
  | InstallReplicationState id off => resynced id off
  | _ => True
  end.

Definition identified_task : ProcessorTask -> Prop := task_from (fun _ => True) resynced.

Section Identity.
Context `{Clock, HashOrder, Kernel, Crypto}.

(** ** The worker keeps the identity *)

Definition has_identity (s : ProcessorState) : Prop :=
  let rs := _replication_state s in valid_identity (replication_id rs) (offset rs).

Definition identified (s : ProcessorState) : Prop :=
  has_identity s /\ Forall identified_task (_tasks s).

Lemma aside_identified s s' : aside s s' -> keeps identified s s'.
Proof. unfold keeps, identified, has_identity. by intros (-> & _ & _ & _ & ->). Qed.

Lemma wrapped_identity id off n : valid_identity id off -> valid_identity id (wrap_u64 n).
Proof. intros (? & ? & _). split; [done|]. split; [done|]. apply wrap_u64_range. Qed.

(** Counting bytes of the stream keeps the identity. *)
Lemma wrapped_identified (f : ReplicationState -> Z) :
  steps (keeps identified) (modify (fun s => let rs := _replication_state s in
    set_replication_state (mkReplicationState (role rs) (replication_id rs)
      (wrap_u64 (f rs))) s)).
Proof.
  apply steps_modify. intros s [Hid Hm]. split; [|done].
  exact (wrapped_identity _ _ (f (_replication_state s)) Hid).
Qed.

Lemma append_frame_identified data : steps (keeps identified) (append_replication_frame data).
Proof.
  unfold append_replication_frame. apply steps_bind; [apply _| |intros _].
  - apply (wrapped_identified (fun rs => offset rs + size_of data)).
  - solve_steps; apply steps_modify; intros s' Hs; exact Hs.
Qed.

Lemma installation_identified id off p :
  resynced id off -> steps (keeps identified) (process_replication_state_installation id off p).
Proof.
  intros (inbox & inbox' & Hr) s x s' [= _ <-] [_ Hm]. split; [|done]. by eapply received_identity.
Qed.

Lemma run_iteration_identified : steps (keeps identified) run_iteration.
Proof.
  intros s x s' Hrun Hs. pose proof Hs as [_ Hm]. revert Hs.
  refine (run_iteration_walk (keeps identified) aside_identified append_frame_identified _ _ _ _ _ _
    s x s' _ Hm Hrun).
  - intros t s0 y s1 [= _ <-] Hs. exact Hs.
  - intros c p s0 y s1 [= _ <-] Hs. exact Hs.
  - intros _ n. apply (wrapped_identified (fun rs => offset rs + n)).
  - apply installation_identified.
  - intros task rest s0 Htasks [Hid Hm0]. rewrite Htasks in Hm0. split; [done|].
    by apply Forall_cons in Hm0 as [_ ?].
Qed.

Lemma step_identified s s' :
  processor_step identified_request s s' -> identified s -> identified s'.
Proof.
  destruct 1 as [r s Hr|s s' _ Hrun| | | | | | |]; try done; intros Hs.
  - destruct Hs as [Hid Hm]. split; [done|]. apply Forall_app. split; [done|].
    apply Forall_singleton. by destruct r.
  - by eapply run_iteration_identified.
Qed.

Lemma steps_identified s s' :
  rtc (processor_step identified_request) s s' -> identified s -> identified s'.
Proof. induction 1 as [|s1 s2 s3 H12 _ IH]; [done|]. intros Hs. by eapply IH, step_identified. Qed.
End Identity.

(** C24: the identity of a server is well formed.  Whatever its clients, its
    replicas and its master do, the replication identifier is 40 hexadecimal
    digits and the offset fits 64 bits: the identifier the server made at its
    start from random digits, or one [receive_full_resync] accepted.  A replica
    that registers gets exactly these, and they are what the handshake of the
    replica requires of a registration. *)
Theorem identity_well_formed `{Clock, HashOrder, Kernel, Crypto, RandomDevice}
    (replica : option ReplicaConfig) (rdb : RDBConfig) (aof : AOFConfig) (hash : option string)
    (draws : nat) (s : ProcessorState) :
  rtc (processor_step identified_request)
    (initial_state replica rdb aof hash (generate_replication_id draws)) s ->
  valid_identity (replication_id (_replication_state s)) (offset (_replication_state s)) /\
  forall client promise, exists registration s',
    process_replica_registration client promise s = Some (tt, s') /\
    completed s' = completed s ++ [(promise, Registered registration)] /\
    valid_registration registration /\
    registered_id registration = replication_id (_replication_state s) /\
    registered_offset registration = offset (_replication_state s).
Proof.
  intros Hrun. assert (identified s) as [Hid _].
  { apply (steps_identified _ _ Hrun). split; [|constructor]. apply generated_identity. }
  split; [exact Hid|]. intros client promise. by do 2 eexists.
Qed.

(** ** Witness *)

Section Witness.
#[local] Existing Instance millisecond_clock.
#[local] Existing Instance insertion_order.
#[local] Existing Instance perfect_kernel.
#[local] Existing Instance sample_crypto.

(** A device that counts. *)
Definition counting_device : RandomDevice.
Proof. refine {| draw i := Z.of_nat i mod 16 |}. intros i. pose proof (Z.mod_pos_bound (Z.of_nat i) 16). lia. Defined.
#[local] Existing Instance counting_device.

Definition identified_start : ProcessorState :=
  initial_state None default_rdb_config default_aof_config None (generate_replication_id 0).

Definition identified_script : ProcessorState :=
  after_script [RegisterClient 1 0; Submit 1 ["SET"; "n"; "1"]] identified_start.

Lemma identity_well_formed_witness :
  rtc (processor_step identified_request) identified_start identified_script /\
  valid_identity (replication_id (_replication_state identified_script))
    (offset (_replication_state identified_script)) /\
  offset (_replication_state identified_script) = 27.
Proof.
  assert (rtc (processor_step identified_request) identified_start identified_script) as Hrun.
  { apply after_script_allowed; [repeat constructor|vm_compute; reflexivity]. }
  split; [exact Hrun|]. split; [|vm_compute; reflexivity].
  exact (proj1 (identity_well_formed None default_rdb_config default_aof_config None 0
    identified_script Hrun)).
Defined.
End Witness.
