(* ===== verification/Server.v ===== *)
(** * The server put together (src/server.cpp)

    The start from persisted data ([TcpServer::initialize_persistence]), and
    the components on one another: a client's connection and a replica's link
    running on the command processor itself. *)

From stdpp Require Import base option list gmap strings relations.
From Stdlib Require Import ZArith Lia.
From S2P Require Import Prelude CharConv Environment Resp StreamTypes Database Config.
From S2P Require Import Sessions Aof Rdb StateMonad ProcessorState Processor ProcessorRun.
From S2P Require Import Promises Framing Sockets Connection ProcessorService ReplicationLink.

Section Startup.
Context `{Clock, HashOrder, Kernel, Crypto, FileSystem, VectorMemory}.

(** [None] when the start does not return: an exception of the RDB reader or
    of the reading of the append-only file ends the program, or the processor does not answer.  [rdb] is what the file
    system holds at the path of the RDB file. *)
Definition initialize_persistence (config : ServerConfig) (rdb : FileState) : P (expected unit string) :=
  if enabled (aof_config config) then
    now ← on_database steady_now;
    match open_aof (dir (rdb_config config)) (aof_config config) now with
    | Unexpected e => mret (Unexpected e)
    | Expected file =>
        match read_commands file with
        | None => undefined
        | Some (Unexpected e) => mret (Unexpected e)
        | Some (Expected commands) =>
            v ← await (InitializeAof file commands);
            match v with AofInitialized result => mret result | _ => undefined end
        end
    end
  else
    match read_file (path_join (dir (rdb_config config)) (db_filename (rdb_config config))) rdb with
    | Returned (Unexpected e) => mret (Unexpected e)
    | Returned (Expected entries) => await_done (LoadRdbEntries entries);; mret (Expected tt)
    | Threw | OutOfFuel => undefined
    end.
End Startup.

(** ** Running on the processor *)

Section Examples.
#[local] Existing Instance millisecond_clock.
#[local] Existing Instance insertion_order.
#[local] Existing Instance perfect_kernel.
#[local] Existing Instance perfect_kernel_laws.
#[local] Existing Instance sample_crypto.

#[local] Existing Instance perfect_kernel_sends.

(** A master with one client connected. *)
Definition connected_master : ProcessorState := after_script [RegisterClient 1 0] sample_master.
Definition first_connection : Conn ProcessorState := mkConn EmptyString 0 connected_master.

(** Two commands, and the beginning of a third, in three pieces. *)
Definition pipelined : list Command := [["SET"; "k"; "v"]; ["GET"; "k"]].
Definition pieces (s : string) : list string :=
  [String.substring 0 9 s; String.substring 9 20 s; drop_string 29 s].

Lemma connection_ignores_cuts_witness :
  same_run conn_stopped
    (connection_loop 1 0 (map readable (pieces (log_bytes pipelined))) EmptyString first_connection)
    (connection_loop 1 0 (map readable [log_bytes pipelined]) EmptyString first_connection).
Proof.
  apply (connection_ignores_cuts 1 0 (pieces (log_bytes pipelined)) [log_bytes pipelined]
    first_connection). vm_compute. reflexivity.
Defined.

Lemma submit_pipelined :
  exists w', submit_all 1 pipelined connected_master = Some ([SimpleString "OK"; BulkString "v"], w').
Proof.
  assert (fst <$> submit_all 1 pipelined connected_master = Some [SimpleString "OK"; BulkString "v"])
    as Hr by (vm_compute; reflexivity).
  destruct (submit_all 1 pipelined connected_master) as [[rs w']|]; [|done].
  exists w'. by injection Hr as ->.
Qed.

Lemma settled_tail : settled "*1".
Proof. right. vm_compute. reflexivity. Qed.

Lemma pipelined_fits : Forall command_fits pipelined.
Proof. repeat constructor; unfold argument_fits; vm_compute; discriminate. Qed.

Lemma connection_answers_in_order_witness :
  exists n' w', connection_loop 1 0 (map readable (pieces (log_bytes pipelined +:+ "*1"))) EmptyString
    first_connection =
  Some (None, "*1", mkConn (responses_bytes [SimpleString "OK"; BulkString "v"]) n' w').
Proof.
  destruct submit_pipelined as [w' Hw'].
  destruct (connection_answers_in_order 1 0 (pieces (log_bytes pipelined +:+ "*1")) pipelined "*1"
    first_connection [SimpleString "OK"; BulkString "v"] w') as [n' Hn'].
  - reflexivity.
  - exact pipelined_fits.
  - exact settled_tail.
  - vm_compute. reflexivity.
  - repeat constructor.
  - exact Hw'.
  - rewrite !not_elem_of_cons. split_and!; try discriminate. apply not_elem_of_nil.
  - exists n', w'. exact Hn'.
Defined.

(** A registration as a master hands it out, and its resynchronization in
    pieces, with the first bytes of the stream behind it. *)
Definition sample_registration : ReplicaRegistration :=
  mkReplicaRegistration "8371b4fb1155b71f4a04d3e1bc3e18c4a990aeeb" 42 0.

Definition sample_inbox : Inbox :=
  mkInbox EmptyString (map Received (pieces (resync_bytes sample_registration +:+ "*3"))).

Lemma resync_roundtrip_witness :
  exists inbox1 inbox2,
    receive_full_resync sample_inbox = Some (Expected (mkFullResync
      "8371b4fb1155b71f4a04d3e1bc3e18c4a990aeeb" 42), inbox1) /\
    receive_rdb_payload inbox1 = Some (Expected empty_rdb_payload, inbox2) /\
    holds "*3" [] inbox2.
Proof.
  apply (resync_roundtrip sample_registration first_connection "*3" [] sample_inbox).
  - split; [reflexivity|]. split; [reflexivity|]. vm_compute. split; discriminate.
  - exists (pieces (resync_bytes sample_registration +:+ "*3")). split; vm_compute; reflexivity.
Defined.

Definition handshake_answers : string :=
  "+PONG" +:+ crlf +:+ "+OK" +:+ crlf +:+ "+OK" +:+ crlf +:+ "+FULL".

Lemma handshake_completes_witness :
  exists inbox' n, perform_replication_handshake 6380
      (mkInbox EmptyString (map Received (pieces handshake_answers))) first_connection =
    Some (Expected tt, inbox',
      mkConn (wire first_connection +:+ log_bytes (handshake_commands 6380)) n
        (world first_connection)) /\
    holds "+FULL" [] inbox'.
Proof.
  apply (handshake_completes 6380 first_connection "+FULL" []
    (mkInbox EmptyString (map Received (pieces handshake_answers)))).
  exists (pieces handshake_answers). split; vm_compute; reflexivity.
Defined.

(** A replica that has just started, and a piece of its master's stream. *)
Definition fresh_replica : ProcessorState :=
  initial_state (Some (mkReplicaConfig "m" 6379)) default_rdb_config default_aof_config None "id".

Definition sample_stream : list Command :=
  [["SET"; "k"; "v"]; ["REPLCONF"; "GETACK"; "*"]; ["INCR"; "n"]].

Lemma fresh_replica_idle : idle_replica fresh_replica.
Proof. split; [unfold balanced; reflexivity|]. split; reflexivity. Qed.

Lemma stream_applied_witness :
  exists n w', offset_of w' = 85 /\
    consume_replication_stream (map Received (pieces (log_bytes sample_stream +:+ "*1"))) EmptyString
      (mkConn EmptyString 0 fresh_replica) =
    Some (None, "*1", mkConn (log_bytes (map ack_command [27])) n w').
Proof.
  destruct (defined_run (apply_all sample_stream) fresh_replica (fun _ => true))
    as ([] & w' & Hw' & _); [vm_compute; reflexivity|].
  destruct (stream_applied (pieces (log_bytes sample_stream +:+ "*1")) sample_stream "*1"
    (mkConn EmptyString 0 fresh_replica) w') as [Hoff [n Hn]].
  - reflexivity.
  - repeat constructor; unfold argument_fits; vm_compute; discriminate.
  - repeat constructor; discriminate.
  - exact settled_tail.
  - vm_compute. reflexivity.
  - exact fresh_replica_idle.
  - vm_compute. split; discriminate.
  - exact Hw'.
  - exists n, w'. split; [rewrite Hoff; vm_compute; reflexivity|]. rewrite Hn. reflexivity.
Defined.

Lemma acknowledgements_read_witness :
  exists w', consume_replica_acknowledgements 7
    (map Received (pieces (log_bytes (map ack_command [0; 42]) +:+ "*1"))) EmptyString first_connection =
    Some (None, "*1", mkConn EmptyString 0 w').
Proof.
  destruct (defined_run (acknowledge_all 7 [0; 42]) connected_master (fun _ => true))
    as ([] & w' & Hw' & _); [vm_compute; reflexivity|].
  exists w'. apply (acknowledgements_read 7 _ [0; 42] "*1" first_connection w').
  - reflexivity.
  - repeat constructor; discriminate.
  - exact settled_tail.
  - vm_compute. reflexivity.
  - exact Hw'.
Defined.
End Examples.

(** The master's side of a handshake, on the processor: the answers the replica
    waits for, then the registration of the replica. *)
Section Conversation.
#[local] Existing Instance millisecond_clock.
#[local] Existing Instance insertion_order.
#[local] Existing Instance perfect_kernel.
#[local] Existing Instance sample_crypto.

Example master_answers_handshake :
  match connection_loop 1 0 (map readable (pieces (log_bytes (handshake_commands 6380)))) EmptyString
          (mkConn EmptyString 0 (after_script [RegisterClient 1 0] sample_master)) with
  | Some (Some (BecomesReplica registration), _, c) =>
      wire c = "+PONG" +:+ crlf +:+ "+OK" +:+ crlf +:+ "+OK" +:+ crlf /\
      registration = mkReplicaRegistration "0123456789abcdef" 0 0
  | _ => False
  end.
Proof. vm_compute. split; reflexivity. Qed.
End Conversation.
