(* ===== verification/Lifecycle.v ===== *)
(** * The life of the server: sockets and threads
    (src/server.cpp, [start_connection], [reap_completed_connections],
    [stop_connection_workers], [stop], [run_connection_loop], [run] and the
    destructor; src/main.cpp, the waiter for signals)

    The main thread accepts connections, a second one waits for a signal, each
    connection has a thread of its own, and a replica has one more for its
    master.  Each thread is a function that makes its next step, or nothing
    when it has to wait; what clients, the master and signals do are events.
    Sockets are numbers that the operating system hands out again once they
    are closed. *)

From stdpp Require Import base option list gmap relations.
From Stdlib Require Import ZArith Lia.
From S2P Require Import Prelude.

(** ** Sockets *)

Inductive Owner := Listening | MasterLink | ClientSocket (client_id : Z).

#[export] Instance owner_eq_dec : EqDecision Owner.
Proof. solve_decision. Defined.

(** An open socket, and whether [shutdown] was called on it. *)
Record Descriptor := mkDescriptor { owner : Owner; is_shut : bool }.

(** ** Connections *)

(** What a connection that is being served does: it polls its socket and its
    session (or is about to), waits for an answer of the processor, or is in a
    [send].  A connection that became a replica's has a second thread for its
    frames, which its first thread joins: it is in [Sending] while either sends. *)
Inductive Activity := Idle | Waiting | Sending.

(** Where the thread of a connection is: it starts, has registered its client,
    serves it, has returned from [handle_connection], has taken the socket back,
    has closed it, has set [finished]. *)
Inductive Stage :=
| Starting
| Registered
| Serving (activity : Activity)
| Returned
| Exchanged (owned_socket : Z)
| ClosedSocket
| Ended.

(** A [ConnectionWorker] with its [ConnectionState], the stop token of its
    thread and the point the thread has reached. *)
Record ConnectionWorker := mkWorker {
  client_id : Z;
  socket_fd : Z;
  finished : bool;
  stop_requested : bool;
  stage : Stage;
}.

(** Where the thread that follows the master is: in [recv] on its link, waiting
    for the processor to apply a command or in a [send] on the link, with [left]
    more whole commands in its buffer, or waiting for a command of the stream
    that the processor answers only when data arrives. *)
Inductive StreamPoint :=
| Reading
| Applying (left : nat)
| Replying (left : nat)
| Blocked.

Record ReplicationThread := mkReplicationThread {
  replication_stop : bool;
  replication_ended : bool;
  replication_point : StreamPoint;
}.

(** The bytes of one [recv], hence a bound on the commands that it completes. *)
Definition receive_buffer_size : nat := 1024.

Definition commands_left (p : StreamPoint) : nat :=
  match p with Applying n | Replying n => n | Reading | Blocked => 0 end.

Definition is_blocked (p : StreamPoint) : bool :=
  match p with Blocked => true | _ => false end.

(** ** Threads *)

(** Where [stop] is, once it has its mutex.  [AtSignal], [AtShutdown] and
    [AtFinishedCheck] are the loop over the connections at position [i], with
    the clients found active so far. *)
Inductive StopPoint :=
| AtExchange
| AtShutdownListening
| AtStopReplication
| AtSignal (i : nat) (active_client_ids : list Z)
| AtShutdown (i : nat) (fd : Z) (active_client_ids : list Z)
| AtFinishedCheck (i : nat) (active_client_ids : list Z)
| AtUnregister (active_client_ids : list Z)
| AtJoin
| AtJoinReplication.

(** The main thread: [run], its loop, the end of [main], the destructor.
    [MStop] and [MDestroy] are about to take the mutex of [stop], [MInStop] and
    [MInDestroy] have it. *)
Inductive MainPoint :=
| MRun
| MCheck
| MReap
| MPoll
| MAccept
| MStart (fd id : Z)
| MStop
| MInStop
| MRequestStop
| MJoinWaiter
| MDestroy
| MInDestroy
| MClose
| MJoinReplication
| MExited.

#[export] Instance main_point_eq_dec : EqDecision MainPoint.
Proof. solve_decision. Defined.

(** The waiter for signals. *)
Inductive WaiterPoint := WWaiting | WStop | WInStop | WDone.

Inductive StopCaller := ByMain | ByWaiter.

(** The members of [TcpServer], the sockets, the clients the processor was told
    to forget, and the threads.  [bad_close] is set by a [close] of a socket
    that is not open or not the caller's; [stopper] is who holds
    [_stop_mutex]. *)
Record ServerState := mkServer {
  _next_client_id : Z;
  _server_fd : Z;
  _master_fd : option Z;
  _replication_thread : option ReplicationThread;
  _stopping : bool;
  _connection_workers : list ConnectionWorker;
  descriptors : gmap Z Descriptor;
  bad_close : bool;
  unregistered : gset Z;
  main_thread : MainPoint;
  waiter_thread : WaiterPoint;
  waiter_stop : bool;
  stopper : option (StopCaller * StopPoint);
}.

Definition set_next_client_id x s := mkServer x (_server_fd s) (_master_fd s)
  (_replication_thread s) (_stopping s) (_connection_workers s) (descriptors s) (bad_close s)
  (unregistered s) (main_thread s) (waiter_thread s) (waiter_stop s) (stopper s).
Definition set_server_fd x s := mkServer (_next_client_id s) x (_master_fd s)
  (_replication_thread s) (_stopping s) (_connection_workers s) (descriptors s) (bad_close s)
  (unregistered s) (main_thread s) (waiter_thread s) (waiter_stop s) (stopper s).
Definition set_master_fd x s := mkServer (_next_client_id s) (_server_fd s) x
  (_replication_thread s) (_stopping s) (_connection_workers s) (descriptors s) (bad_close s)
  (unregistered s) (main_thread s) (waiter_thread s) (waiter_stop s) (stopper s).
Definition set_replication_thread x s := mkServer (_next_client_id s) (_server_fd s) (_master_fd s)
  x (_stopping s) (_connection_workers s) (descriptors s) (bad_close s)
  (unregistered s) (main_thread s) (waiter_thread s) (waiter_stop s) (stopper s).
Definition set_stopping x s := mkServer (_next_client_id s) (_server_fd s) (_master_fd s)
  (_replication_thread s) x (_connection_workers s) (descriptors s) (bad_close s)
  (unregistered s) (main_thread s) (waiter_thread s) (waiter_stop s) (stopper s).
Definition set_workers x s := mkServer (_next_client_id s) (_server_fd s) (_master_fd s)
  (_replication_thread s) (_stopping s) x (descriptors s) (bad_close s)
  (unregistered s) (main_thread s) (waiter_thread s) (waiter_stop s) (stopper s).
Definition set_descriptors x s := mkServer (_next_client_id s) (_server_fd s) (_master_fd s)
  (_replication_thread s) (_stopping s) (_connection_workers s) x (bad_close s)
  (unregistered s) (main_thread s) (waiter_thread s) (waiter_stop s) (stopper s).
Definition set_bad_close x s := mkServer (_next_client_id s) (_server_fd s) (_master_fd s)
  (_replication_thread s) (_stopping s) (_connection_workers s) (descriptors s) x
  (unregistered s) (main_thread s) (waiter_thread s) (waiter_stop s) (stopper s).
Definition set_unregistered x s := mkServer (_next_client_id s) (_server_fd s) (_master_fd s)
  (_replication_thread s) (_stopping s) (_connection_workers s) (descriptors s) (bad_close s)
  x (main_thread s) (waiter_thread s) (waiter_stop s) (stopper s).
Definition set_main x s := mkServer (_next_client_id s) (_server_fd s) (_master_fd s)
  (_replication_thread s) (_stopping s) (_connection_workers s) (descriptors s) (bad_close s)
  (unregistered s) x (waiter_thread s) (waiter_stop s) (stopper s).
Definition set_waiter x s := mkServer (_next_client_id s) (_server_fd s) (_master_fd s)
  (_replication_thread s) (_stopping s) (_connection_workers s) (descriptors s) (bad_close s)
  (unregistered s) (main_thread s) x (waiter_stop s) (stopper s).
Definition set_waiter_stop x s := mkServer (_next_client_id s) (_server_fd s) (_master_fd s)
  (_replication_thread s) (_stopping s) (_connection_workers s) (descriptors s) (bad_close s)
  (unregistered s) (main_thread s) (waiter_thread s) x (stopper s).
Definition set_stopper x s := mkServer (_next_client_id s) (_server_fd s) (_master_fd s)
  (_replication_thread s) (_stopping s) (_connection_workers s) (descriptors s) (bad_close s)
  (unregistered s) (main_thread s) (waiter_thread s) (waiter_stop s) x.

(** ** Calls of the operating system *)

Definition shutdown_fd (fd : Z) (s : ServerState) : ServerState :=
  match descriptors s !! fd with
  | Some d => set_descriptors (<[fd := mkDescriptor (owner d) true]> (descriptors s)) s
  | None => s
  end.

Definition close_fd (o : Owner) (fd : Z) (s : ServerState) : ServerState :=
  match descriptors s !! fd with
  | Some d =>
      if decide (owner d = o) then set_descriptors (delete fd (descriptors s)) s
      else set_bad_close true (set_descriptors (delete fd (descriptors s)) s)
  | None => set_bad_close true s
  end.

Definition fd_shut (fd : Z) (s : ServerState) : bool :=
  match descriptors s !! fd with Some d => is_shut d | None => false end.

(** [_connections_mutex] is held across several steps by the two sections of
    [stop_connection_workers] only. *)
Definition connections_locked (s : ServerState) : bool :=
  match stopper s with
  | Some (_, (AtSignal _ _ | AtShutdown _ _ _ | AtFinishedCheck _ _ | AtJoin)) => true
  | _ => false
  end.

(** ** The functions of the server *)

Definition new_worker (fd id : Z) : ConnectionWorker := mkWorker id fd false false Starting.

Definition start_connection (fd id : Z) (s : ServerState) : ServerState :=
  if _stopping s then close_fd (ClientSocket id) fd s
  else set_workers (_connection_workers s ++ [new_worker fd id]) s.

Definition reap_completed_connections (s : ServerState) : ServerState :=
  set_workers (filter (fun w => finished w = false) (_connection_workers s)) s.

Definition set_worker (i : nat) (w : ConnectionWorker) (s : ServerState) : ServerState :=
  set_workers (<[i := w]> (_connection_workers s)) s.

Definition move_worker (st : Stage) (w : ConnectionWorker) : ConnectionWorker :=
  mkWorker (client_id w) (socket_fd w) (finished w) (stop_requested w) st.

Definition start_replication (s : ServerState) : ServerState :=
  match _master_fd s with
  | Some _ => set_replication_thread (Some (mkReplicationThread false false (Replying 0))) s
  | None => s
  end.

Definition stop_replication (s : ServerState) : ServerState :=
  match _replication_thread s with
  | None => s
  | Some t =>
      let s := set_replication_thread
        (Some (mkReplicationThread true (replication_ended t) (replication_point t))) s in
      match _master_fd s with
      | Some fd => shutdown_fd fd s
      | None => s
      end
  end.

Definition close_sockets (s : ServerState) : ServerState :=
  let s := if 0 <=? _server_fd s
           then set_server_fd (-1) (close_fd Listening (_server_fd s) s) else s in
  match _master_fd s with
  | Some fd => if 0 <=? fd then set_master_fd None (close_fd MasterLink fd s) else s
  | None => s
  end.

(** A connection leaves its loop and has its client unregistered. *)
Definition leave_service (i : nat) (w : ConnectionWorker) (s : ServerState) : ServerState :=
  set_unregistered ({[client_id w]} ∪ unregistered s) (set_worker i (move_worker Returned w) s).

(** [stop] returns to its caller. *)
Definition leave_stop (caller : StopCaller) (s : ServerState) : ServerState :=
  let s := set_stopper None s in
  match caller with
  | ByWaiter => set_waiter WDone s
  | ByMain =>
      match main_thread s with
      | MInDestroy => set_main MClose s
      | _ => set_main MRequestStop s
      end
  end.

(** ** The threads, a step at a time *)

(** [stop_connection_workers]: the loop under the mutex, the clients the
    processor is told to forget, and the joins. *)
Definition stop_connection_workers_step (caller : StopCaller) (point : StopPoint) (s : ServerState)
    : option ServerState :=
  let at_point p s := set_stopper (Some (caller, p)) s in
  match point with
  | AtSignal i ids =>
      match _connection_workers s !! i with
      | None => Some (at_point (AtUnregister ids) s)
      | Some w =>
          Some (at_point (AtShutdown i (socket_fd w) ids)
            (set_worker i (mkWorker (client_id w) (socket_fd w) (finished w) true (stage w)) s))
      end
  | AtShutdown i fd ids =>
      Some (at_point (AtFinishedCheck i ids) (if 0 <=? fd then shutdown_fd fd s else s))
  | AtFinishedCheck i ids =>
      match _connection_workers s !! i with
      | None => None
      | Some w =>
          Some (at_point (AtSignal (S i) (if finished w then ids else ids ++ [client_id w])) s)
      end
  | AtUnregister ids =>
      Some (at_point AtJoin (set_unregistered (list_to_set ids ∪ unregistered s) s))
  | AtJoin =>
      if forallb finished (_connection_workers s)
      then Some (at_point AtJoinReplication (set_workers [] s)) else None
  | _ => None
  end.

(** [stop], by whoever holds its mutex. *)
Definition stop_step (s : ServerState) : option ServerState :=
  match stopper s with
  | None => None
  | Some (caller, point) =>
      let at_point p s := set_stopper (Some (caller, p)) s in
      match point with
      | AtExchange =>
          if _stopping s then Some (leave_stop caller s)
          else Some (at_point AtShutdownListening (set_stopping true s))
      | AtShutdownListening =>
          Some (at_point AtStopReplication
            (if 0 <=? _server_fd s then shutdown_fd (_server_fd s) s else s))
      | AtStopReplication => Some (at_point (AtSignal 0 []) (stop_replication s))
      | AtJoinReplication =>
          match _replication_thread s with
          | None => Some (leave_stop caller s)
          | Some t =>
              if replication_ended t
              then Some (leave_stop caller (set_replication_thread None s)) else None
          end
      | _ => stop_connection_workers_step caller point s
      end
  end.

(** What the loop makes of [poll]. *)
Inductive PollOutcome :=
| PollFailed (interrupted : bool)
| PollTimeout
| PollReady (broken readable : bool).

Definition after_poll (outcome : PollOutcome) : MainPoint :=
  match outcome with
  | PollFailed true => MCheck
  | PollFailed false => MStop
  | PollTimeout => MCheck
  | PollReady true _ => MStop
  | PollReady false false => MCheck
  | PollReady false true => MAccept
  end.

(** The main thread; [poll] times out, and [accept] fails when the listening
    socket was shut down, whatever the clients do. *)
Definition main_step (s : ServerState) : option ServerState :=
  match main_thread s with
  | MRun => Some (set_main MCheck (start_replication s))
  | MCheck => Some (set_main (if _stopping s then MStop else MReap) s)
  | MReap =>
      if connections_locked s then None
      else Some (set_main MPoll (reap_completed_connections s))
  | MPoll => Some (set_main (after_poll PollTimeout) s)
  | MAccept => if fd_shut (_server_fd s) s then Some (set_main MStop s) else None
  | MStart fd id =>
      if connections_locked s then None
      else Some (set_main MCheck (start_connection fd id s))
  | MStop =>
      match stopper s with
      | None => Some (set_main MInStop (set_stopper (Some (ByMain, AtExchange)) s))
      | Some _ => None
      end
  | MInStop | MInDestroy => None
  | MRequestStop => Some (set_main MJoinWaiter (set_waiter_stop true s))
  | MJoinWaiter =>
      match waiter_thread s with
      | WDone => Some (set_main MDestroy s)
      | _ => None
      end
  | MDestroy =>
      match stopper s with
      | None => Some (set_main MInDestroy (set_stopper (Some (ByMain, AtExchange)) s))
      | Some _ => None
      end
  | MClose => Some (set_main MJoinReplication (close_sockets s))
  | MJoinReplication =>
      match _replication_thread s with
      | None => Some (set_main MExited s)
      | Some t =>
          if replication_ended t then Some (set_main MExited (set_replication_thread None s))
          else if replication_stop t then None
          else Some (set_replication_thread
            (Some (mkReplicationThread true false (replication_point t))) s)
      end
  | MExited => None
  end.

(** The waiter sees the request to stop when [sigtimedwait] times out. *)
Definition waiter_step (s : ServerState) : option ServerState :=
  match waiter_thread s with
  | WWaiting => if waiter_stop s then Some (set_waiter WDone s) else None
  | WStop =>
      match stopper s with
      | None => Some (set_waiter WInStop (set_stopper (Some (ByWaiter, AtExchange)) s))
      | Some _ => None
      end
  | WInStop | WDone => None
  end.

(** The thread of a connection: the steps that nothing outside has to happen
    for.  Registering a client makes it known again; a connection that was asked
    to stop ends when its socket was shut down, or when the client it waits for
    was unregistered, as the processor then answers; and a [send] on a socket
    that was shut down does not wait: it fails, unless it kills the process
    (Exit.v). *)
Definition worker_step (i : nat) (s : ServerState) : option ServerState :=
  w ← _connection_workers s !! i;
  match stage w with
  | Starting =>
      Some (set_unregistered (unregistered s ∖ {[client_id w]})
        (set_worker i (move_worker Registered w) s))
  | Registered =>
      if stop_requested w then Some (leave_service i w s)
      else Some (set_worker i (move_worker (Serving Idle) w) s)
  | Serving Idle =>
      if stop_requested w && fd_shut (socket_fd w) s then Some (leave_service i w s) else None
  | Serving Waiting =>
      if stop_requested w && bool_decide (client_id w ∈ unregistered s)
      then Some (leave_service i w s) else None
  | Serving Sending =>
      if fd_shut (socket_fd w) s then Some (leave_service i w s) else None
  | Returned =>
      Some (set_worker i (mkWorker (client_id w) (-1) (finished w) (stop_requested w)
        (Exchanged (socket_fd w))) s)
  | Exchanged fd =>
      let s := set_worker i (move_worker ClosedSocket w) s in
      Some (if 0 <=? fd then close_fd (ClientSocket (client_id w)) fd s else s)
  | ClosedSocket =>
      Some (set_worker i (mkWorker (client_id w) (socket_fd w) true (stop_requested w) Ended) s)
  | Ended => None
  end.

Definition replication_at (p : StreamPoint) (s : ServerState) : ServerState :=
  set_replication_thread (Some (mkReplicationThread true false p)) s.

Definition end_replication (s : ServerState) : ServerState :=
  set_replication_thread (Some (mkReplicationThread true true Reading)) s.

(** The thread that follows the master, once it was asked to stop.  It does not
    look at the request before its next [recv]: it first applies what is left in
    its buffer.  [recv] returns when the link was shut down, and fails when it is
    called on a link that was closed; a [send] on such a link fails, unless it
    kills the process. *)
Definition replication_step (s : ServerState) : option ServerState :=
  match _replication_thread s with
  | Some (mkReplicationThread true false p) =>
      match p, _master_fd s with
      | Reading, Some fd => if fd_shut fd s then Some (end_replication s) else None
      | Reading, None => None
      | Applying (S n), _ => Some (replication_at (Applying n) s)
      | Applying O, Some _ => Some (replication_at Reading s)
      | Applying O, None => Some (end_replication s)
      | Replying _, Some fd => if fd_shut fd s then Some (end_replication s) else None
      | Replying _, None => Some (end_replication s)
      | Blocked, _ => None
      end
  | _ => None
  end.

(** ** What the surroundings do

    A client sends a command, which is submitted; it is answered, and the answer
    is sent unless a stop was asked for meanwhile; a frame of its session arrives
    and is sent; a [send] returns; the client leaves, or a [send] to it fails.
    Until it is asked to stop, the thread of the master reads, applies, replies
    as the stream makes it; afterwards a command it applies may still ask for an
    acknowledgement.  [MasterLeaves] also stands for a command that fails, and
    for bytes that arrive once a stop was asked for: they end the thread too.
    A socket that [accept] returns has a number that is not in use, and the
    server has not yet handed out all the identifiers of its 64-bit counter. *)

Inductive Event :=
| PollReturns (outcome : PollOutcome)
| AcceptReturns (fd : Z)
| AcceptFails (interrupted : bool)
| SignalArrives
| SignalWaitFails
| ClientSends (i : nat)
| FrameArrives (i : nat)
| ClientAnswered (i : nat)
| SendReturns (i : nat)
| ClientLeaves (i : nat)
| SessionFails (i : nat)
| StreamMoves (point : StreamPoint)
| StreamBlocks
| AsksAck
| MasterLeaves.

(** A connection that is being served moves on. *)
Definition serving_event (i : nat) (s : ServerState)
    (f : ConnectionWorker -> Activity -> option ServerState) : option ServerState :=
  w ← _connection_workers s !! i;
  match stage w with Serving activity => f w activity | _ => None end.

Definition event_step (e : Event) (s : ServerState) : option ServerState :=
  match e with
  | PollReturns outcome =>
      match main_thread s with MPoll => Some (set_main (after_poll outcome) s) | _ => None end
  | AcceptReturns fd =>
      match main_thread s with
      | MAccept =>
          if bool_decide (0 <= fd) && bool_decide (descriptors s !! fd = None)
             && negb (fd_shut (_server_fd s) s) && (_next_client_id s <? u64_max)
          then Some (set_main (MStart fd (_next_client_id s))
            (set_next_client_id (_next_client_id s + 1)
              (set_descriptors (<[fd := mkDescriptor (ClientSocket (_next_client_id s)) false]>
                (descriptors s)) s)))
          else None
      | _ => None
      end
  | AcceptFails interrupted =>
      match main_thread s with
      | MAccept => Some (set_main (if interrupted then MCheck else MStop) s)
      | _ => None
      end
  | SignalArrives =>
      match waiter_thread s with WWaiting => Some (set_waiter WStop s) | _ => None end
  | SignalWaitFails =>
      match waiter_thread s with WWaiting => Some (set_waiter WDone s) | _ => None end
  | ClientSends i => serving_event i s (fun w activity =>
      match activity with
      | Idle => Some (set_worker i (move_worker (Serving Waiting) w) s)
      | _ => None
      end)
  | FrameArrives i => serving_event i s (fun w activity =>
      match activity with
      | Idle => Some (set_worker i (move_worker (Serving Sending) w) s)
      | _ => None
      end)
  | ClientAnswered i => serving_event i s (fun w activity =>
      match activity with
      | Waiting =>
          if stop_requested w then Some (leave_service i w s)
          else Some (set_worker i (move_worker (Serving Sending) w) s)
      | _ => None
      end)
  | SendReturns i => serving_event i s (fun w activity =>
      match activity with
      | Sending =>
          if fd_shut (socket_fd w) s then None
          else Some (set_worker i (move_worker (Serving Idle) w) s)
      | _ => None
      end)
  | ClientLeaves i => serving_event i s (fun w activity =>
      match activity with
      | Idle | Sending => Some (leave_service i w s)
      | Waiting => None
      end)
  | SessionFails i =>
      w ← _connection_workers s !! i;
      match stage w with
      | Starting => Some (set_worker i (move_worker Returned w) s)
      | _ => None
      end
  | StreamMoves point =>
      match _replication_thread s with
      | Some (mkReplicationThread false false _) =>
          if (commands_left point <=? receive_buffer_size)%nat && negb (is_blocked point)
          then Some (set_replication_thread (Some (mkReplicationThread false false point)) s)
          else None
      | _ => None
      end
  | StreamBlocks =>
      match _replication_thread s with
      | Some (mkReplicationThread b false (Applying _)) =>
          Some (set_replication_thread (Some (mkReplicationThread b false Blocked)) s)
      | _ => None
      end
  | AsksAck =>
      match _replication_thread s with
      | Some (mkReplicationThread true false (Applying n)) => Some (replication_at (Replying n) s)
      | _ => None
      end
  | MasterLeaves =>
      match _replication_thread s with
      | Some (mkReplicationThread b false p) =>
          if is_blocked p then None
          else Some (set_replication_thread (Some (mkReplicationThread b true p)) s)
      | _ => None
      end
  end.

(** A step of one of the threads. *)
Inductive thread_step (s s' : ServerState) : Prop :=
| main_steps : main_step s = Some s' -> thread_step s s'
| waiter_steps : waiter_step s = Some s' -> thread_step s s'
| stop_steps : stop_step s = Some s' -> thread_step s s'
| worker_steps i : worker_step i s = Some s' -> thread_step s s'
| replication_steps : replication_step s = Some s' -> thread_step s s'.

(** Surroundings may be [unruly].  Otherwise a signal comes only after [run] has
    started the thread of a replica, and the stream of the master holds no
    command that waits (BLPOP, XREAD or WAIT), as that of this server never does. *)
Definition timely (unruly : bool) (e : Event) (s : ServerState) : Prop :=
  unruly = true \/
  (e <> SignalArrives \/ main_thread s <> MRun \/ _master_fd s = None) /\ e <> StreamBlocks.

Inductive server_step (unruly : bool) (s s' : ServerState) : Prop :=
| server_thread : thread_step s s' -> server_step unruly s s'
| server_event e : timely unruly e s -> event_step e s = Some s' -> server_step unruly s s'.

(** The server when [main] calls [run]: it listens on [fd], and has its link when
    it is a replica. *)
Definition started (fd : Z) (master : option Z) : ServerState :=
  mkServer 1 fd master None false []
    (match master with
     | Some m => {[ fd := mkDescriptor Listening false; m := mkDescriptor MasterLink false ]}
     | None => {[ fd := mkDescriptor Listening false ]}
     end) false ∅ MRun WWaiting false None.

Definition valid_start (fd : Z) (master : option Z) : Prop :=
  0 <= fd /\ match master with Some m => 0 <= m /\ m <> fd | None => True end.

(** ** Who owns which socket *)

Definition worker_socket (w : ConnectionWorker) : option (Z * Owner) :=
  match stage w with
  | Starting | Registered | Serving _ | Returned => Some (socket_fd w, ClientSocket (client_id w))
  | Exchanged fd => Some (fd, ClientSocket (client_id w))
  | ClosedSocket | Ended => None
  end.

Definition own_sockets (s : ServerState) : list (Z * Owner) :=
  (if 0 <=? _server_fd s then [(_server_fd s, Listening)] else []) ++
  (match _master_fd s with Some fd => [(fd, MasterLink)] | None => [] end) ++
  (match main_thread s with MStart fd id => [(fd, ClientSocket id)] | _ => [] end).

Definition owns (s : ServerState) : list (Z * Owner) :=
  own_sockets s ++ omap worker_socket (_connection_workers s).

(** The owners are those of the open sockets, each socket has one. *)
Definition accounts (s : ServerState) : Prop :=
  NoDup (owns s).*1 /\ list_to_map (owns s) = owner <$> descriptors s /\
  Forall (fun p => 0 <= p.1) (owns s) /\ bad_close s = false.

(** [finished] is set by the last step of a thread. *)
Definition worker_ok (w : ConnectionWorker) : Prop :=
  finished w = match stage w with Ended => true | _ => false end.

Lemma omap_insert_same {A B} (f : A -> option B) (l : list A) i x y :
  l !! i = Some x -> f y = f x -> omap f (<[i := y]> l) = omap f l.
Proof.
  revert i. induction l as [|a l IH]; intros [|i] Hi Hf; [done..| |].
  - injection Hi as ->. simpl. by rewrite Hf.
  - pose proof (IH _ Hi Hf) as Hl. simpl. destruct (f a); [f_equal|]; exact Hl.
Qed.

Lemma omap_insert_gone {A B} (f : A -> option B) (l : list A) i x y b :
  l !! i = Some x -> f x = Some b -> f y = None ->
  omap f l ≡ₚ b :: omap f (<[i := y]> l).
Proof.
  revert i. induction l as [|a l IH]; intros [|i] Hi Hx Hy; [done..| |].
  - injection Hi as ->. simpl. by rewrite Hx, Hy.
  - pose proof (IH _ Hi Hx Hy) as Hl. simpl. destruct (f a) as [c|]; [|exact Hl].
    etrans; [apply perm_skip, Hl|apply perm_swap].
Qed.

Lemma omap_filter_none {A B} (f : A -> option B) (P : A -> Prop)
    `{forall x, Decision (P x)} (l : list A) :
  (forall x, x ∈ l -> ~ P x -> f x = None) -> omap f (filter P l) = omap f l.
Proof.
  induction l as [|a l IH]; intros Hnone; [done|]. rewrite filter_cons.
  pose proof (IH (fun x Hx => Hnone x (list_elem_of_further x a l Hx))) as Hl.
  destruct (decide (P a)) as [|Hn]; simpl.
  - destruct (f a); [f_equal|]; exact Hl.
  - by rewrite (Hnone a (list_elem_of_here a l) Hn).
Qed.

Section Accounts.
Implicit Types s : ServerState.

Lemma owners_same s s' :
  owns s' ≡ₚ owns s -> owner <$> descriptors s' = owner <$> descriptors s ->
  bad_close s' = bad_close s -> accounts s -> accounts s'.
Proof.
  intros Hp Hd Hb (Hnd & Hmap & Hpos & Hbad).
  assert (NoDup (owns s').*1) as Hnd' by (by rewrite Hp).
  split; [done|]. split; [|split; [by rewrite Hp|congruence]].
  rewrite Hd, <- Hmap. by apply list_to_map_proper.
Qed.

Lemma accounts_open s s' fd o :
  owns s' ≡ₚ (fd, o) :: owns s -> descriptors s !! fd = None -> 0 <= fd ->
  descriptors s' = <[fd := mkDescriptor o false]> (descriptors s) ->
  bad_close s' = bad_close s -> accounts s -> accounts s'.
Proof.
  intros Hp Hfree Hfd Hd Hb (Hnd & Hmap & Hpos & Hbad).
  assert (fd ∉ (owns s).*1) as Hnew.
  { apply not_elem_of_list_to_map. by rewrite Hmap, lookup_fmap, Hfree. }
  assert (NoDup (owns s').*1) as Hnd' by (rewrite Hp; by constructor).
  split; [done|]. split; [|split; [rewrite Hp; by constructor|congruence]].
  rewrite Hd, fmap_insert, <- Hmap. by rewrite (list_to_map_proper _ _ Hnd' Hp).
Qed.

Lemma owned_descriptor s fd o :
  accounts s -> (fd, o) ∈ owns s <-> exists b, descriptors s !! fd = Some (mkDescriptor o b).
Proof.
  intros (Hnd & Hmap & _ & _). rewrite elem_of_list_to_map by done.
  rewrite Hmap, lookup_fmap. destruct (descriptors s !! fd) as [[o' b]|]; simpl; naive_solver.
Qed.

Lemma close_descriptors o fd s : descriptors (close_fd o fd s) = delete fd (descriptors s).
Proof.
  unfold close_fd. destruct (descriptors s !! fd) as [d|] eqn:Hd; [by case_match|].
  cbn. by rewrite delete_id.
Qed.

Lemma close_owned o fd s b :
  descriptors s !! fd = Some (mkDescriptor o b) ->
  close_fd o fd s = set_descriptors (delete fd (descriptors s)) s.
Proof. intros Hd. unfold close_fd. rewrite Hd. by rewrite decide_True. Qed.

(** The owner closes its socket. *)
Lemma accounts_close s s' fd o :
  owns s ≡ₚ (fd, o) :: owns s' -> accounts s ->
  descriptors s' = descriptors (close_fd o fd s) ->
  (exists b, descriptors s !! fd = Some (mkDescriptor o b)) /\
  (bad_close s' = bad_close (close_fd o fd s) -> accounts s').
Proof.
  intros Hp Hs Hd. rewrite close_descriptors in Hd.
  assert (exists b, descriptors s !! fd = Some (mkDescriptor o b)) as [b Hb].
  { apply (owned_descriptor s fd o Hs). rewrite Hp. apply list_elem_of_here. }
  split; [by exists b|]. rewrite (close_owned _ _ _ _ Hb). cbn [bad_close set_descriptors].
  destruct Hs as (Hnd & Hmap & Hpos & Hbad). intros Hbc.
  assert (NoDup ((fd, o) :: owns s').*1) as Hnd1 by (by rewrite <- Hp).
  rewrite Hp in Hpos. apply Forall_cons in Hpos as [_ Hpos].
  pose proof Hnd1 as Hnd2. apply NoDup_cons in Hnd2 as [Hfresh Hnd2].
  split; [done|]. split; [|split; [done|congruence]].
  rewrite Hd, fmap_delete, <- Hmap, (list_to_map_proper _ _ Hnd Hp). simpl.
  rewrite delete_insert_id; [done|]. by apply not_elem_of_list_to_map.
Qed.

(** *** Each thread keeps the accounts *)

Definition sound (s : ServerState) : Prop :=
  accounts s /\ Forall worker_ok (_connection_workers s).

Lemma shutdown_owners fd s : owner <$> descriptors (shutdown_fd fd s) = owner <$> descriptors s.
Proof.
  unfold shutdown_fd. destruct (descriptors s !! fd) as [d|] eqn:Hd; [|done]. cbn.
  rewrite fmap_insert. apply insert_id. by rewrite lookup_fmap, Hd.
Qed.

Lemma shutdown_rest fd s :
  exists ds, shutdown_fd fd s = set_descriptors ds s /\ owner <$> ds = owner <$> descriptors s.
Proof.
  pose proof (shutdown_owners fd s) as Ho. unfold shutdown_fd in *.
  destruct (descriptors s !! fd); [by eexists|]. exists (descriptors s). by destruct s.
Qed.

(** Nothing of the accounts changes. *)
Lemma sound_same s s' :
  _server_fd s' = _server_fd s -> _master_fd s' = _master_fd s ->
  _connection_workers s' = _connection_workers s ->
  owner <$> descriptors s' = owner <$> descriptors s -> bad_close s' = bad_close s ->
  main_thread s' = main_thread s \/
    ((forall fd id, main_thread s <> MStart fd id) /\ forall fd id, main_thread s' <> MStart fd id) ->
  sound s -> sound s'.
Proof.
  intros Hs Hm Hw Hd Hb Hmain [Ha Hok]. split; [|by rewrite Hw]. revert Ha.
  apply owners_same; [|done|done]. unfold owns, own_sockets. rewrite Hs, Hm, Hw.
  destruct Hmain as [->|[Hn Hn']]; [done|].
  destruct (main_thread s); try (by destruct (Hn fd id));
    destruct (main_thread s'); try done; by destruct (Hn' fd id).
Qed.

(** A worker moves on with its socket. *)
Lemma sound_worker i w w' s s' :
  _connection_workers s !! i = Some w -> worker_socket w' = worker_socket w -> worker_ok w' ->
  _server_fd s' = _server_fd s -> _master_fd s' = _master_fd s -> main_thread s' = main_thread s ->
  descriptors s' = descriptors s -> bad_close s' = bad_close s ->
  _connection_workers s' = <[i := w']> (_connection_workers s) ->
  sound s -> sound s'.
Proof.
  intros Hi Hsock Hw' Hs Hm Hmain Hd Hb Hws [Ha Hok]. split.
  - revert Ha. apply owners_same; [|by rewrite Hd|done]. unfold owns, own_sockets.
    rewrite Hs, Hm, Hmain, Hws. by rewrite (omap_insert_same _ _ _ _ _ Hi Hsock).
  - rewrite Hws. by apply Forall_insert.
Qed.

Lemma worker_at i w s : sound s -> _connection_workers s !! i = Some w -> worker_ok w.
Proof. intros [_ Hok] Hi. by apply (Forall_lookup_1 _ _ i w) in Hok. Qed.

(** A worker closes its socket. *)
Lemma close_worker_owns i w fd s :
  _connection_workers s !! i = Some w -> stage w = Exchanged fd ->
  owns s ≡ₚ (fd, ClientSocket (client_id w)) :: owns (set_worker i (move_worker ClosedSocket w) s).
Proof.
  intros Hi Hst. unfold owns. change (own_sockets (set_worker _ _ s)) with (own_sockets s).
  cbn [_connection_workers set_worker set_workers].
  rewrite (omap_insert_gone worker_socket _ i w (move_worker ClosedSocket w)
    (fd, ClientSocket (client_id w)) Hi); [|unfold worker_socket; by rewrite Hst|done].
  solve_Permutation.
Qed.

Lemma close_worker_sound i w fd s :
  _connection_workers s !! i = Some w -> stage w = Exchanged fd -> sound s ->
  let s1 := set_worker i (move_worker ClosedSocket w) s in
  sound (if 0 <=? fd then close_fd (ClientSocket (client_id w)) fd s1 else s1).
Proof.
  intros Hi Hst Hs s1. pose proof (worker_at _ _ _ Hs Hi) as Hw. unfold worker_ok in Hw.
  rewrite Hst in Hw. destruct Hs as [Ha Hok].
  pose proof (close_worker_owns _ _ _ _ Hi Hst) as Hp. fold s1 in Hp.
  assert (0 <= fd) as Hfd.
  { destruct Ha as (_ & _ & Hpos & _). rewrite Hp in Hpos. by apply Forall_cons in Hpos as [? _]. }
  rewrite (proj2 (Z.leb_le 0 fd) Hfd).
  set (s' := close_fd _ fd s1).
  assert (_connection_workers s' = _connection_workers s1 /\ owns s' = owns s1) as [Hws Ho].
  { unfold s', close_fd. destruct (descriptors s1 !! fd); [case_match|]; done. }
  split.
  - destruct (accounts_close s s' fd (ClientSocket (client_id w))) as [_ Hclose]; [by rewrite Ho|done| |].
    + unfold s'. by rewrite !close_descriptors.
    + apply Hclose. unfold s', close_fd. change (descriptors s1) with (descriptors s).
      destruct (descriptors s !! fd); [case_match|]; done.
  - rewrite Hws. apply Forall_insert; [done|]. unfold worker_ok. by cbn.
Qed.

Lemma worker_sound i s s' : worker_step i s = Some s' -> sound s -> sound s'.
Proof.
  unfold worker_step, leave_service. intros (w & Hi & Hstep)%bind_Some Hs.
  pose proof (worker_at _ _ _ Hs Hi) as Hw. unfold worker_ok in Hw.
  destruct (stage w) as [| |activity| |fd| |] eqn:Hst;
    [| | | |injection Hstep as <-; by apply close_worker_sound| |];
    repeat case_match; simplify_eq;
    (match goal with |- sound ?s' =>
       refine (sound_worker i w _ s s' Hi _ _ _ _ _ _ _ eq_refl Hs)
     end; unfold worker_socket, worker_ok; by cbn; rewrite ?Hst).
Qed.

(** Who is inside [stop] holds its mutex. *)
Definition control (s : ServerState) : Prop :=
  (fst <$> stopper s = Some ByMain <-> main_thread s = MInStop \/ main_thread s = MInDestroy) /\
  (fst <$> stopper s = Some ByWaiter <-> waiter_thread s = WInStop).

Lemma leave_stop_main caller p s :
  control s -> stopper s = Some (caller, p) ->
  (caller = ByWaiter /\ waiter_thread s = WInStop /\
     leave_stop caller s = set_waiter WDone (set_stopper None s)) \/
  (caller = ByMain /\ exists m m', main_thread s = m /\ (m = MInStop /\ m' = MRequestStop \/
     m = MInDestroy /\ m' = MClose) /\ leave_stop caller s = set_main m' (set_stopper None s)).
Proof.
  intros [Hm Hw] Hst. rewrite Hst in Hm, Hw. destruct caller.
  - right. split; [done|]. unfold leave_stop. change (main_thread (set_stopper None s)) with
      (main_thread s).
    destruct (proj1 Hm eq_refl) as [->| ->]; do 2 eexists; (split; [done|split; [eauto|done]]).
  - left. split; [done|]. split; [by apply Hw|done].
Qed.

Lemma leave_stop_sound caller p s :
  control s -> stopper s = Some (caller, p) -> sound s -> sound (leave_stop caller s).
Proof.
  intros Hc Hst. destruct (leave_stop_main _ _ _ Hc Hst) as
    [(-> & _ & ->)|(-> & m & m' & Hm & Hmm & ->)]; apply sound_same; try done; [by left|].
  right. rewrite Hm. by destruct Hmm as [[-> ->]|[-> ->]].
Qed.

Lemma shutdown_sound fd s : sound s -> sound (shutdown_fd fd s).
Proof.
  destruct (shutdown_rest fd s) as (ds & -> & Ho). apply sound_same; try done. by left.
Qed.

(** What no account speaks of. *)
Lemma sound_aside f s :
  (forall s, own_sockets (f s) = own_sockets s) ->
  (forall s, _connection_workers (f s) = _connection_workers s) ->
  (forall s, descriptors (f s) = descriptors s /\ bad_close (f s) = bad_close s) ->
  sound s -> sound (f s).
Proof.
  intros Ho Hw Hd [Ha Hok]. split; [|by rewrite Hw]. revert Ha. destruct (Hd s) as [Hds Hb].
  apply owners_same; [|by rewrite Hds|done]. unfold owns. by rewrite Ho, Hw.
Qed.

Lemma finished_holds_nothing w : worker_ok w -> finished w = true -> worker_socket w = None.
Proof. unfold worker_ok, worker_socket. intros -> Hf. by destruct (stage w). Qed.

(** Threads that have finished leave the list. *)
Lemma drop_finished_sound (P : ConnectionWorker -> Prop) `{forall w, Decision (P w)} s s' :
  (forall w, w ∈ _connection_workers s -> ~ P w -> finished w = true) ->
  _connection_workers s' = filter P (_connection_workers s) ->
  own_sockets s' = own_sockets s -> descriptors s' = descriptors s -> bad_close s' = bad_close s ->
  sound s -> sound s'.
Proof.
  intros HP Hw Ho Hd Hb [Ha Hok]. split.
  - revert Ha. apply owners_same; [|by rewrite Hd|done]. unfold owns. rewrite Ho, Hw.
    rewrite omap_filter_none; [done|]. intros w Hin Hn. rewrite Forall_forall in Hok.
    apply finished_holds_nothing; [by apply Hok|by apply HP].
  - rewrite Hw. rewrite Forall_forall in *. intros w [_ Hin]%list_elem_of_filter. by apply Hok.
Qed.

Lemma all_finished s :
  forallb finished (_connection_workers s) = true ->
  forall w, w ∈ _connection_workers s -> finished w = true.
Proof. intros Hall w Hin. rewrite forallb_forall in Hall. by apply Hall, list_elem_of_In. Qed.

Lemma join_sound s :
  forallb finished (_connection_workers s) = true -> sound s -> sound (set_workers [] s).
Proof.
  intros Hall. apply (drop_finished_sound (fun _ => False)); try done.
  - intros w Hin _. by apply (all_finished s).
  - cbn. clear. induction (_connection_workers s) as [|w l IH]; [done|].
    rewrite filter_cons, decide_False; [exact IH|tauto].
Qed.

Lemma stop_sound s s' : stop_step s = Some s' -> control s -> sound s -> sound s'.
Proof.
  unfold stop_step, stop_connection_workers_step. destruct (stopper s) as [[caller point]|] eqn:Hst; [|done]. intros Hstep Hc Hs.
  pose proof (leave_stop_sound _ _ _ Hc Hst Hs) as Hleave.
  assert (forall p s0, sound s0 -> sound (set_stopper p s0)) as Hat.
  { intros p s0. by apply (sound_aside (set_stopper p)). }
  assert (forall t s0, sound s0 -> sound (set_replication_thread t s0)) as Hrep.
  { intros p s0. by apply (sound_aside (set_replication_thread p)). }
  destruct point as [| | |i ids|i fd ids|i ids|ids| |].
  - destruct (_stopping s); injection Hstep as <-; [done|].
    apply Hat. by apply (sound_aside (set_stopping true)).
  - injection Hstep as <-. apply Hat. case_match; [by apply shutdown_sound|done].
  - injection Hstep as <-. apply Hat. unfold stop_replication.
    destruct (_replication_thread s); [|done]. apply (Hrep (Some (mkReplicationThread true
      (replication_ended r) (replication_point r)))) in Hs. case_match; [by apply shutdown_sound|done].
  - destruct (_connection_workers s !! i) as [w|] eqn:Hi; injection Hstep as <-; apply Hat; [|done].
    match goal with |- sound ?s' => refine (sound_worker i w _ s s' Hi _ _ _ _ _ _ _ eq_refl Hs) end;
      try done. exact (worker_at _ _ _ Hs Hi).
  - injection Hstep as <-. apply Hat. case_match; [by apply shutdown_sound|done].
  - destruct (_connection_workers s !! i); [|done]. injection Hstep as <-. by apply Hat.
  - injection Hstep as <-. apply Hat. by apply (sound_aside (set_unregistered _)).
  - destruct (forallb finished (_connection_workers s)) eqn:Hall; [|done]. injection Hstep as <-.
    by apply Hat, join_sound.
  - destruct (_replication_thread s) as [t|]; [|by injection Hstep as <-].
    destruct (replication_ended t); [|done]. injection Hstep as <-.
    by apply (leave_stop_sound _ AtJoinReplication); [|done|apply Hrep].
Qed.

(** The main thread goes on, with no accepted socket in hand. *)
Lemma moves_sound m s :
  (forall fd id, main_thread s <> MStart fd id) -> (forall fd id, m <> MStart fd id) ->
  sound s -> sound (set_main m s).
Proof. intros Hn Hn'. apply sound_same; try done. by right. Qed.

Lemma close_fd_rest o fd s :
  exists ds b, close_fd o fd s = set_bad_close b (set_descriptors ds s).
Proof.
  unfold close_fd. destruct (descriptors s !! fd); [case_decide|].
  - exists (delete fd (descriptors s)), (bad_close s). by destruct s.
  - by do 2 eexists.
  - exists (descriptors s), true. by destruct s.
Qed.

(** A socket of the main thread is closed. *)
Lemma close_sound o fd s s' :
  owns s ≡ₚ (fd, o) :: owns s' -> _connection_workers s' = _connection_workers s ->
  descriptors s' = descriptors (close_fd o fd s) -> bad_close s' = bad_close (close_fd o fd s) ->
  sound s -> sound s'.
Proof.
  intros Hp Hw Hd Hb [Ha Hok]. split; [|by rewrite Hw].
  by destruct (accounts_close s s' fd o Hp Ha Hd) as [_ Hclose]; apply Hclose.
Qed.

Lemma start_connection_sound fd id s :
  main_thread s = MStart fd id -> sound s -> sound (set_main MCheck (start_connection fd id s)).
Proof.
  intros Hm Hs. unfold start_connection. destruct (_stopping s).
  - destruct (close_fd_rest (ClientSocket id) fd s) as (ds & b & Heq).
    apply (close_sound (ClientSocket id) fd s); [|by rewrite Heq..|done]. rewrite Heq.
    unfold owns, own_sockets. cbn. rewrite Hm. solve_Permutation.
  - destruct Hs as [Ha Hok]. split.
    + revert Ha. apply owners_same; [|done|done]. unfold owns, own_sockets. cbn.
      rewrite Hm, omap_app. cbn. solve_Permutation.
    + cbn. apply Forall_app. split; [done|]. by apply Forall_singleton.
Qed.

Lemma master_nonneg s fd : sound s -> _master_fd s = Some fd -> 0 <= fd.
Proof.
  intros [(_ & _ & Hpos & _) _] Hm. unfold owns, own_sockets in Hpos. rewrite Hm in Hpos.
  rewrite Forall_forall in Hpos. apply (Hpos (fd, MasterLink)). set_solver.
Qed.

Lemma close_sockets_sound s : main_thread s = MClose -> sound s -> sound (set_main MJoinReplication (close_sockets s)).
Proof.
  intros Hm Hs. unfold close_sockets.
  set (s1 := if 0 <=? _server_fd s then _ else s).
  assert (sound s1 /\ main_thread s1 = MClose /\ _master_fd s1 = _master_fd s) as (Hs1 & Hm1 & _).
  { unfold s1. destruct (0 <=? _server_fd s) eqn:Hfd; [|done].
    destruct (close_fd_rest Listening (_server_fd s) s) as (ds & b & Heq).
    split; [|by rewrite Heq]. apply (close_sound Listening (_server_fd s) s); [|by rewrite Heq..|done].
    rewrite Heq. unfold owns, own_sockets. cbn. rewrite Hfd. solve_Permutation. }
  clearbody s1. clear Hs. destruct (_master_fd s1) as [fd|] eqn:Hmf.
  - pose proof (master_nonneg _ _ Hs1 Hmf) as Hfd.
    rewrite (proj2 (Z.leb_le 0 fd) Hfd).
    destruct (close_fd_rest MasterLink fd s1) as (ds & b & Heq).
    apply (close_sound MasterLink fd s1); [|by rewrite Heq..|done].
    rewrite Heq. unfold owns, own_sockets. cbn. rewrite Hmf, Hm1. solve_Permutation.
  - apply moves_sound; [|done|done]. by rewrite Hm1.
Qed.

Lemma main_sound s s' : main_step s = Some s' -> sound s -> sound s'.
Proof.
  unfold main_step. intros Hstep Hs.
  assert (forall t s0, sound s0 -> sound (set_replication_thread t s0)) as Hrep.
  { intros p s0. by apply (sound_aside (set_replication_thread p)). }
  destruct (main_thread s) eqn:Hm; try done; repeat case_match; simplify_eq;
    try (by apply moves_sound; [rewrite Hm|..]); try (by apply (moves_sound MExited); [rewrite Hm|..]).
  - apply moves_sound; [|done|]; unfold start_replication; case_match; try apply Hrep; try done;
      cbn; by rewrite Hm.
  - apply (drop_finished_sound (fun w => finished w = false) s); try done.
    + intros w _ Hf. by destruct (finished w).
    + unfold own_sockets. cbn. by rewrite Hm.
  - by apply start_connection_sound.
  - by apply close_sockets_sound.
  - apply moves_sound; [cbn; by rewrite Hm|done|by apply Hrep].
  - by apply Hrep.
Qed.

Lemma waiter_sound s s' : waiter_step s = Some s' -> sound s -> sound s'.
Proof.
  unfold waiter_step. intros Hstep. repeat case_match; simplify_eq; apply sound_same; try done; by left.
Qed.

Lemma replication_sound s s' : replication_step s = Some s' -> sound s -> sound s'.
Proof.
  unfold replication_step, end_replication, replication_at. intros Hstep.
  repeat case_match; simplify_eq; (apply sound_same; try done; by left).
Qed.

Lemma accept_sound fd s :
  main_thread s = MAccept -> 0 <= fd -> descriptors s !! fd = None -> sound s ->
  sound (set_main (MStart fd (_next_client_id s)) (set_next_client_id (_next_client_id s + 1)
    (set_descriptors (<[fd := mkDescriptor (ClientSocket (_next_client_id s)) false]>
      (descriptors s)) s))).
Proof.
  intros Hm Hfd Hfree [Ha Hok]. split; [|done]. revert Ha.
  apply (accounts_open s _ fd (ClientSocket (_next_client_id s))); try done.
  unfold owns, own_sockets. cbn. rewrite Hm. solve_Permutation.
Qed.

Lemma event_sound e s s' : event_step e s = Some s' -> sound s -> sound s'.
Proof.
  unfold event_step, serving_event, leave_service, replication_at. intros Hstep Hs.
  assert (forall i w st, _connection_workers s !! i = Some w ->
    worker_socket (move_worker st w) = worker_socket w -> worker_ok (move_worker st w) ->
    forall s', _server_fd s' = _server_fd s -> _master_fd s' = _master_fd s ->
      main_thread s' = main_thread s -> descriptors s' = descriptors s ->
      bad_close s' = bad_close s ->
      _connection_workers s' = <[i := move_worker st w]> (_connection_workers s) -> sound s') as Hmove.
  { intros. by eapply (sound_worker i w _ s s'0 H). }
  destruct e as [outcome|fd|interrupted| | |i|i|i|i|i|i|point| | |].
  6-11: apply bind_Some in Hstep as (w & Hi & Hstep); pose proof (worker_at _ _ _ Hs Hi) as Hw;
    unfold worker_ok in Hw; destruct (stage w) as [| |[]| | | |] eqn:Hst; try done;
    repeat case_match; simplify_eq; (match goal with |- sound ?s1 =>
      refine (Hmove i w _ Hi _ _ s1 _ _ _ _ _ eq_refl) end; try done;
      unfold worker_socket, worker_ok; cbn; by rewrite ?Hst).
  - destruct (main_thread s) eqn:Hm; try done. injection Hstep as <-.
    apply moves_sound; [by rewrite Hm| |done]. by destruct outcome as [[]| |[] []].
  - destruct (main_thread s) eqn:Hm; try done.
    destruct (bool_decide _) eqn:Hfd; [|done]. apply bool_decide_eq_true in Hfd.
    destruct (bool_decide (descriptors s !! fd = None)) eqn:Hfree; [|done].
    apply bool_decide_eq_true in Hfree. case_match; [|done]. injection Hstep as <-.
    by apply accept_sound.
  - destruct (main_thread s) eqn:Hm; try done. injection Hstep as <-.
    apply moves_sound; [by rewrite Hm|by destruct interrupted|done].
  - destruct (waiter_thread s); try done. injection Hstep as <-. revert Hs.
    apply sound_same; try done; by left.
  - destruct (waiter_thread s); try done. injection Hstep as <-. revert Hs.
    apply sound_same; try done; by left.
  - repeat case_match; simplify_eq. revert Hs. apply sound_same; try done; by left.
  - repeat case_match; simplify_eq. revert Hs. apply sound_same; try done; by left.
  - repeat case_match; simplify_eq. revert Hs. apply sound_same; try done; by left.
  - repeat case_match; simplify_eq. revert Hs. apply sound_same; try done; by left.
Qed.

Lemma thread_sound s s' : thread_step s s' -> control s -> sound s -> sound s'.
Proof.
  intros [Hm|Hw|Hst|i Hi|Hr] Hc; [by apply main_sound|by apply waiter_sound|by apply stop_sound|
    by eapply worker_sound|by apply replication_sound].
Qed.


(** *** The mutex of [stop] *)

Lemma control_same s s' :
  stopper s' = stopper s -> main_thread s' = main_thread s -> waiter_thread s' = waiter_thread s ->
  control s -> control s'.
Proof. unfold control. by intros -> -> ->. Qed.

(** The main thread is not in [stop] and stays out of it. *)
Definition outside (m : MainPoint) : bool :=
  match m with MInStop | MInDestroy => false | _ => true end.

Lemma outside_spec m : outside m = true -> ~ (m = MInStop \/ m = MInDestroy).
Proof. by intros Ho [-> | ->]. Qed.

Lemma control_outside s s' :
  stopper s' = stopper s -> waiter_thread s' = waiter_thread s ->
  outside (main_thread s) = true -> outside (main_thread s') = true -> control s -> control s'.
Proof.
  unfold control. intros -> -> Ho%outside_spec Ho'%outside_spec [Hm Hw]. split; [|done]. tauto.
Qed.

Lemma shutdown_control fd s : control s -> control (shutdown_fd fd s).
Proof. destruct (shutdown_rest fd s) as (ds & -> & _). by apply control_same. Qed.

Lemma stop_control s s' : stop_step s = Some s' -> control s -> control s'.
Proof.
  unfold stop_step, stop_connection_workers_step. destruct (stopper s) as [[caller point]|] eqn:Hst; [|done]. intros Hstep Hc.
  assert (forall p s0, control s0 -> fst <$> stopper s0 = Some caller ->
    control (set_stopper (Some (caller, p)) s0)) as Hat.
  { unfold control. intros p s0 Hc0 Heq. rewrite Heq in Hc0. exact Hc0. }
  assert (forall s0, main_thread s0 = main_thread s -> waiter_thread s0 = waiter_thread s ->
    stopper s0 = stopper s -> control (leave_stop caller s0)) as Hleave.
  { intros s0 Hm Hw Hs0. rewrite Hst in Hs0. assert (control s0) as Hc0.
    { unfold control. rewrite Hm, Hw, Hs0. unfold control in Hc. by rewrite Hst in Hc. }
    destruct (leave_stop_main _ _ _ Hc0 Hs0) as [(-> & Hwi & ->)|(-> & m & m' & Hmm & Hcases & ->)];
      unfold control in *; rewrite Hs0 in Hc0; cbn in *; naive_solver. }
  assert (forall fd s0, stopper (shutdown_fd fd s0) = stopper s0) as Hsh.
  { intros fd s0. destruct (shutdown_rest fd s0) as (ds & -> & _). done. }
  assert (fst <$> stopper s = Some caller) as Hcaller by (by rewrite Hst).
  destruct point; repeat case_match; simplify_eq; try (by apply Hleave);
    (apply Hat; [|try by cbn; rewrite ?Hsh]); try (by apply shutdown_control); try exact Hc.
  - unfold stop_replication. case_match; [|done]. case_match; [apply shutdown_control|]; exact Hc.
  - unfold stop_replication. case_match; [|done]. case_match; [rewrite Hsh|]; done.
Qed.

Lemma control_enter m s :
  stopper s = None -> m = MInStop \/ m = MInDestroy ->
  control s -> control (set_main m (set_stopper (Some (ByMain, AtExchange)) s)).
Proof.
  unfold control. cbn. intros -> Hm [_ Hw]. split; [by split|]. split; [done|]. intros Hin.
  by apply Hw in Hin.
Qed.

Lemma waiter_control s s' : waiter_step s = Some s' -> control s -> control s'.
Proof.
  unfold waiter_step, control. destruct (waiter_thread s) eqn:Hw; try done;
    [destruct (waiter_stop s)|destruct (stopper s) eqn:Hs]; intros Hstep; simplify_eq;
    cbn; intros [Hm Hw']; rewrite ?Hs in *; (split; [|split]); try done.
  - intros Hin. apply Hw' in Hin. congruence.
  - split; [done|]. intros Hin. by apply Hm in Hin.
Qed.

Lemma thread_control s s' : thread_step s s' -> control s -> control s'.
Proof.
  intros [Hstep|Hstep|Hstep|i Hstep|Hstep] Hc.
  - revert Hc. unfold main_step in Hstep.
    destruct (main_thread s) eqn:Hm; repeat case_match; simplify_eq;
      try (by apply control_outside; rewrite ?Hm).
    + apply control_outside; rewrite ?Hm; try done; unfold start_replication;
        repeat case_match; done.
    + apply control_outside; rewrite ?Hm; try done; unfold start_connection, close_fd;
        repeat case_match; done.
    + apply control_enter; [done|by left].
    + apply control_enter; [done|by right].
    + apply control_outside; rewrite ?Hm; try done; unfold close_sockets, close_fd;
        repeat case_match; done.
    + by apply control_same.
  - by eapply waiter_control.
  - by eapply stop_control.
  - revert Hc. unfold worker_step in Hstep. apply bind_Some in Hstep as (w & _ & Hstep).
    repeat case_match; simplify_eq; apply control_same; unfold close_fd; repeat case_match; done.
  - revert Hc. unfold replication_step in Hstep. repeat case_match; simplify_eq;
      by apply control_same.
Qed.

Lemma event_control e s s' : event_step e s = Some s' -> control s -> control s'.
Proof.
  unfold event_step, serving_event. intros Hstep Hc. revert Hc.
  destruct e as [outcome|fd|interrupted| | |i|i|i|i|i|i|point| | |].
  6-11: (apply bind_Some in Hstep as (w & _ & Hstep); repeat case_match; simplify_eq;
    by apply control_same).
  - destruct (main_thread s) eqn:Hm; simplify_eq. apply control_outside; rewrite ?Hm; try done.
    by destruct outcome as [[]| |[] []].
  - destruct (main_thread s) eqn:Hm; simplify_eq. case_match; simplify_eq.
    by apply control_outside; rewrite ?Hm.
  - destruct (main_thread s) eqn:Hm; simplify_eq. apply control_outside; rewrite ?Hm; try done.
    by destruct interrupted.
  - unfold control. destruct (waiter_thread s) eqn:Hw; simplify_eq. cbn. naive_solver.
  - unfold control. destruct (waiter_thread s) eqn:Hw; simplify_eq. cbn. naive_solver.
  - repeat case_match; simplify_eq. by apply control_same.
  - repeat case_match; simplify_eq. by apply control_same.
  - repeat case_match; simplify_eq. by apply control_same.
  - repeat case_match; simplify_eq. by apply control_same.
Qed.
End Accounts.
