(* ===== verification/Shutdown.v ===== *)
(** * The server shuts down
    (src/server.cpp, [stop], [stop_connection_workers], the destructor;
    src/main.cpp)

    What a stop under way has told the connections so far, and what is left
    open: the invariants of the threads of Lifecycle.v.  They give that no
    socket is closed twice or left open, and that once a stop has begun the
    threads go on to the end of the process, unless a [send] kills it. *)

From stdpp Require Import base option list gmap relations.
From Stdlib Require Import ZArith Lia.
From S2P Require Import Prelude Lifecycle.

(** ** What a step does to the descriptors *)

(** No socket that was shut down comes back to life. *)
Definition shuts (s s' : ServerState) : Prop :=
  forall fd d', descriptors s' !! fd = Some d' -> descriptors s !! fd = None \/
    exists d, descriptors s !! fd = Some d /\ (is_shut d = true -> is_shut d' = true).

Lemma shuts_same s s' : descriptors s' = descriptors s -> shuts s s'.
Proof. intros Heq fd d' Hd. rewrite Heq in Hd. eauto. Qed.

Lemma shuts_shutdown fd s0 s s' :
  descriptors s0 = descriptors s -> descriptors s' = descriptors (shutdown_fd fd s0) -> shuts s s'.
Proof.
  intros H0 Heq fd' d' Hd. rewrite Heq in Hd. unfold shutdown_fd in Hd. rewrite H0 in Hd.
  destruct (descriptors s !! fd) as [d|] eqn:Hfd; [|rewrite H0 in Hd; eauto]. cbn in Hd.
  apply lookup_insert_Some in Hd as [[<- <-]|[_ Hd]]; eauto.
Qed.

Lemma shuts_close o fd s0 s s' :
  descriptors s0 = descriptors s -> descriptors s' = descriptors (close_fd o fd s0) -> shuts s s'.
Proof.
  intros H0 Heq fd' d' Hd. rewrite Heq, close_descriptors, H0 in Hd.
  apply lookup_delete_Some in Hd as [_ Hd]. eauto.
Qed.

Lemma shuts_close_sockets m s : shuts s (set_main m (close_sockets s)).
Proof.
  intros fd d' Hd. right. exists d'. split; [|done]. revert Hd. cbn. unfold close_sockets.
  set (s1 := if 0 <=? _server_fd s then _ else s).
  assert (forall x, descriptors s1 !! fd = Some x -> descriptors s !! fd = Some x) as H1.
  { unfold s1. case_match; [|done]. intros x. cbn. rewrite close_descriptors.
    by intros [_ ?]%lookup_delete_Some. }
  destruct (_master_fd s1); [|apply H1]. case_match; [|apply H1]. cbn. rewrite close_descriptors.
  intros [_ Hx]%lookup_delete_Some. by apply H1.
Qed.

Lemma leave_descriptors caller s : descriptors (leave_stop caller s) = descriptors s.
Proof. unfold leave_stop. destruct caller; [|done]. cbn. by destruct (main_thread s). Qed.

Lemma thread_shuts s s' : thread_step s s' -> shuts s s'.
Proof.
  intros [Hstep|Hstep|Hstep|i Hstep|Hstep].
  - unfold main_step in Hstep. destruct (main_thread s); repeat case_match; simplify_eq;
      try (by apply shuts_same).
    + apply shuts_same. unfold start_replication. by case_match.
    + unfold start_connection. case_match; [|by apply shuts_same].
      by apply (shuts_close (ClientSocket id) fd s).
    + apply shuts_close_sockets.
  - unfold waiter_step in Hstep. repeat case_match; simplify_eq; by apply shuts_same.
  - unfold stop_step, stop_connection_workers_step in Hstep. destruct (stopper s) as [[caller point]|]; [|done].
    destruct point; repeat case_match; simplify_eq; try (by apply shuts_same);
      try (by apply (shuts_shutdown (_server_fd s) s));
      try (by apply (shuts_shutdown fd s)).
    + apply shuts_same, leave_descriptors.
    + unfold stop_replication. case_match; [|by apply shuts_same].
      case_match; [by eapply shuts_shutdown; [|reflexivity]|by apply shuts_same].
    + apply shuts_same. by rewrite leave_descriptors.
    + apply shuts_same, leave_descriptors.
  - unfold worker_step in Hstep. apply bind_Some in Hstep as (w & _ & Hstep).
    repeat case_match; simplify_eq; try (by apply shuts_same).
    by eapply shuts_close; [|reflexivity].
  - unfold replication_step in Hstep. repeat case_match; simplify_eq; by apply shuts_same.
Qed.

Lemma event_shuts e s s' : event_step e s = Some s' -> shuts s s'.
Proof.
  unfold event_step, serving_event. intros Hstep.
  destruct e as [outcome|fd|interrupted| | |i|i|i|i|i|i|point| | |].
  2: { destruct (main_thread s); try done. case_match; [|done]. injection Hstep as <-.
    intros fd' d'. cbn. destruct (decide (fd = fd')) as [->|Hne].
    - intros _. left. destruct (bool_decide_reflect (descriptors s !! fd' = None)); [done|].
      by rewrite andb_false_r in H.
    - rewrite lookup_insert_ne by done. eauto. }
  5-10: (apply bind_Some in Hstep as (w & _ & Hstep)).
  all: repeat case_match; simplify_eq; by apply shuts_same.
Qed.

(** A socket that stays with its owner stays shut. *)
Lemma stays_shut s s' fd o :
  shuts s s' -> sound s' -> (fd, o) ∈ owns s' -> fd_shut fd s = true -> fd_shut fd s' = true.
Proof.
  intros Hsh [Ha _] Hin. apply (owned_descriptor s' fd o Ha) in Hin as [b Hb].
  unfold fd_shut. rewrite Hb. destruct (Hsh fd _ Hb) as [->|(d & -> & Hd)]; [done|exact Hd].
Qed.

(** Where the socket of a connection is accounted for. *)
Lemma worker_owns s i w fd o :
  _connection_workers s !! i = Some w -> worker_socket w = Some (fd, o) -> (fd, o) ∈ owns s.
Proof.
  intros Hi Hw. unfold owns. apply elem_of_app. right. apply list_elem_of_omap. exists w.
  split; [by eapply list_elem_of_lookup_2|done].
Qed.

(** ** Identifiers are handed out once *)

Definition known_ids (s : ServerState) : list Z :=
  (match main_thread s with MStart _ id => [id] | _ => [] end) ++
  (client_id <$> _connection_workers s).

Definition distinct (s : ServerState) : Prop :=
  NoDup (known_ids s) /\ Forall (fun id => id < _next_client_id s) (known_ids s).

Lemma distinct_sub s s' :
  known_ids s' `sublist_of` known_ids s -> _next_client_id s' = _next_client_id s ->
  distinct s -> distinct s'.
Proof.
  intros Hsub Hn [Hnd Hall]. split; [by eapply sublist_NoDup|]. rewrite Hn.
  rewrite Forall_forall in *. intros x Hx. apply Hall.
  by eapply elem_of_submseteq, sublist_submseteq.
Qed.

(** The connections are the same, and no socket is accepted. *)
Lemma distinct_same s s' :
  client_id <$> _connection_workers s' = client_id <$> _connection_workers s ->
  _next_client_id s' = _next_client_id s ->
  main_thread s' = main_thread s \/ (forall fd id, main_thread s' <> MStart fd id) ->
  distinct s -> distinct s'.
Proof.
  intros Hw Hn Hm. apply distinct_sub; [|done]. unfold known_ids. rewrite Hw.
  destruct Hm as [->|Hm]; [done|]. destruct (main_thread s'); try (by apply sublist_inserts_l).
  by destruct (Hm fd id).
Qed.

(** The same connection at its place, one step further. *)
Lemma same_ids i w w' s :
  _connection_workers s !! i = Some w -> client_id w' = client_id w ->
  client_id <$> <[i := w']> (_connection_workers s) = client_id <$> _connection_workers s.
Proof.
  intros Hi Hw. rewrite list_fmap_insert, Hw. apply list_insert_id. by rewrite list_lookup_fmap, Hi.
Qed.

(** What [shutdown], [close] and the return of [stop] leave alone. *)
Lemma shutdown_workers fd s :
  _connection_workers (shutdown_fd fd s) = _connection_workers s /\
  _next_client_id (shutdown_fd fd s) = _next_client_id s /\
  main_thread (shutdown_fd fd s) = main_thread s.
Proof. by destruct (shutdown_rest fd s) as (ds & -> & _). Qed.

Lemma close_workers o fd s :
  _connection_workers (close_fd o fd s) = _connection_workers s /\
  _next_client_id (close_fd o fd s) = _next_client_id s /\
  main_thread (close_fd o fd s) = main_thread s.
Proof. by destruct (close_fd_rest o fd s) as (ds & b & ->). Qed.

Lemma leave_workers caller s :
  _connection_workers (leave_stop caller s) = _connection_workers s /\
  _next_client_id (leave_stop caller s) = _next_client_id s /\
  (main_thread (leave_stop caller s) = main_thread s \/
   forall fd id, main_thread (leave_stop caller s) <> MStart fd id).
Proof.
  unfold leave_stop. destruct caller; [|by eauto]. cbn.
  destruct (main_thread s); (split; [done|split; [done|by right]]).
Qed.

Lemma stop_replication_workers s :
  _connection_workers (stop_replication s) = _connection_workers s /\
  _next_client_id (stop_replication s) = _next_client_id s /\
  main_thread (stop_replication s) = main_thread s.
Proof.
  unfold stop_replication. case_match; [|done]. case_match; [|done].
  by destruct (shutdown_rest z (set_replication_thread
    (Some (mkReplicationThread true (replication_ended r) (replication_point r))) s)) as (ds & -> & _).
Qed.

Lemma close_sockets_workers s :
  _connection_workers (close_sockets s) = _connection_workers s /\
  _next_client_id (close_sockets s) = _next_client_id s /\
  main_thread (close_sockets s) = main_thread s.
Proof.
  unfold close_sockets. set (s1 := if 0 <=? _server_fd s then _ else s).
  assert (_connection_workers s1 = _connection_workers s /\
    _next_client_id s1 = _next_client_id s /\ main_thread s1 = main_thread s) as (<- & <- & <-).
  { unfold s1. case_match; [|done]. apply (close_workers Listening). }
  case_match; [|done]. case_match; [|done]. apply (close_workers MasterLink).
Qed.

Lemma stop_distinct s s' : stop_step s = Some s' -> distinct s -> distinct s'.
Proof.
  unfold stop_step, stop_connection_workers_step. destruct (stopper s) as [[caller point]|]; [|done]. intros Hstep.
  destruct point as [| | |i ids|i fd ids|i ids|ids| |]; repeat case_match; simplify_eq;
    try (apply distinct_same; [done|done|by left]).
  - destruct (leave_workers caller s) as (Hw & Hn & Hm). by apply distinct_same; [rewrite Hw| |].
  - destruct (shutdown_workers (_server_fd s) s) as (Hw & Hn & Hm).
    by apply distinct_same; cbn; [rewrite Hw| |left].
  - destruct (stop_replication_workers s) as (Hw & Hn & Hm).
    by apply distinct_same; cbn; [rewrite Hw| |left].
  - apply distinct_same; [|done|by left]. cbn. by eapply same_ids.
  - destruct (shutdown_workers fd s) as (Hw & Hn & Hm).
    by apply distinct_same; cbn; [rewrite Hw| |left].
  - apply distinct_sub; [|done]. apply sublist_app; [done|]. apply sublist_nil_l.
  - destruct (leave_workers caller (set_replication_thread None s)) as (Hw & Hn & Hm).
    by apply distinct_same; [rewrite Hw| |].
  - destruct (leave_workers caller s) as (Hw & Hn & Hm). by apply distinct_same; [rewrite Hw| |].
Qed.

Lemma thread_distinct s s' : thread_step s s' -> distinct s -> distinct s'.
Proof.
  intros [Hstep|Hstep|Hstep|i Hstep|Hstep].
  - unfold main_step in Hstep. destruct (main_thread s) eqn:Hm; repeat case_match; simplify_eq;
      try (apply distinct_same; [done|done|by right]).
    + apply distinct_same; [|by unfold start_replication; case_match|by right].
      unfold start_replication. by case_match.
    + apply distinct_sub; [|done]. unfold known_ids. rewrite Hm. apply fmap_sublist, sublist_filter.
    + unfold start_connection. destruct (_stopping s).
      * destruct (close_workers (ClientSocket id) fd s) as (Hw & Hn & _).
        by apply distinct_same; cbn; [rewrite Hw| |right].
      * intros [Hnd Hall]. unfold known_ids in *. rewrite Hm in *. split; cbn;
          rewrite fmap_app; cbn [fmap list_fmap]; change (client_id (new_worker fd id)) with id.
        -- by rewrite Permutation_app_comm.
        -- rewrite Forall_app. apply Forall_cons in Hall as [? ?]. by split; [|constructor].
    + destruct (close_sockets_workers s) as (Hw & Hn & _).
      by apply distinct_same; cbn; [rewrite Hw| |right].
    + apply distinct_same; [done|done|by left].
  - unfold waiter_step in Hstep. repeat case_match; simplify_eq; (apply distinct_same; [done|done|by left]).
  - by apply stop_distinct.
  - unfold worker_step in Hstep. apply bind_Some in Hstep as (w & Hi & Hstep).
    repeat case_match; simplify_eq;
    try (apply distinct_same; [cbn; by eapply same_ids|done|by left]).
    destruct (close_workers (ClientSocket (client_id w)) owned_socket
      (set_worker i (move_worker ClosedSocket w) s)) as (Hw & Hn & Hm).
    apply distinct_same; [rewrite Hw; cbn; by eapply same_ids|by rewrite Hn|left; by rewrite Hm].
  - unfold replication_step in Hstep. repeat case_match; simplify_eq;
      (apply distinct_same; [done|done|by left]).
Qed.

Lemma event_distinct e s s' : event_step e s = Some s' -> distinct s -> distinct s'.
Proof.
  unfold event_step, serving_event. intros Hstep.
  destruct e as [outcome|fd|interrupted| | |i|i|i|i|i|i|point| | |].
  6-11: (apply bind_Some in Hstep as (w & Hi & Hstep); repeat case_match; simplify_eq;
    (apply distinct_same; [cbn; by eapply same_ids|done|by left])).
  4-9: (repeat case_match; simplify_eq; (apply distinct_same; [done|done|by left])).
  - destruct (main_thread s); simplify_eq. apply distinct_same; [done|done|right].
    by destruct outcome as [[]| |[] []].
  - destruct (main_thread s) eqn:Hm; simplify_eq. case_match; simplify_eq. intros [Hnd Hall].
    unfold distinct, known_ids in *. rewrite Hm in *. cbn in *. split.
    + constructor; [|done]. intros Hin. rewrite Forall_forall in Hall. apply Hall in Hin. lia.
    + constructor; [lia|]. eapply Forall_impl; [exact Hall|]. cbn. lia.
  - destruct (main_thread s); simplify_eq. apply distinct_same; [done|done|right].
    by destruct interrupted.
Qed.

(** ** How far the stop is *)

Definition late (m : MainPoint) : bool :=
  match m with
  | MRequestStop | MJoinWaiter | MDestroy | MInDestroy | MClose | MJoinReplication | MExited => true
  | _ => false
  end.

Definition asked (m : MainPoint) : bool :=
  match m with
  | MJoinWaiter | MDestroy | MInDestroy | MClose | MJoinReplication | MExited => true
  | _ => false
  end.

Definition alone (m : MainPoint) : bool :=
  match m with MDestroy | MInDestroy | MClose | MJoinReplication | MExited => true | _ => false end.

Definition closed_down (m : MainPoint) : bool :=
  match m with MJoinReplication | MExited => true | _ => false end.

(** No stop is between its first step and the end of the connections. *)
Definition quiet (s : ServerState) : bool :=
  match stopper s with
  | None | Some (_, (AtExchange | AtJoinReplication)) => true
  | _ => false
  end.

(** A stop is past the exchange of [_stopping]. *)
Definition busy (s : ServerState) : bool :=
  match stopper s with
  | None | Some (_, AtExchange) => false
  | _ => true
  end.

Record staged (s : ServerState) : Prop := {
  late_stopping : late (main_thread s) = true -> _stopping s = true;
  busy_stopping : busy s = true -> _stopping s = true;
  quiet_empty : _stopping s = true -> quiet s = true -> _connection_workers s = [];
  alone_waiter : alone (main_thread s) = true -> waiter_thread s = WDone;
  asked_waiter : asked (main_thread s) = true -> waiter_stop s = true;
  closed_descriptors : if closed_down (main_thread s)
    then _server_fd s < 0 /\ _master_fd s = None else 0 <= _server_fd s;
  exited_alone : main_thread s = MExited -> _replication_thread s = None;
}.

(** All that [staged] speaks of. *)
Definition outline (s : ServerState) :=
  (main_thread s, _stopping s, stopper s, _connection_workers s, waiter_thread s, waiter_stop s,
   _server_fd s, _master_fd s, _replication_thread s).

Lemma staged_same s s' : outline s' = outline s -> staged s -> staged s'.
Proof.
  unfold outline. intros Heq [? ? ? ? ? ? ?]. injection Heq as Hm Hp Hst Hw Hwt Hws Hf Hmf Hr.
  split; unfold quiet, busy in *; by rewrite ?Hm, ?Hp, ?Hst, ?Hw, ?Hwt, ?Hws, ?Hf, ?Hmf, ?Hr.
Qed.

Lemma shutdown_outline fd s : outline (shutdown_fd fd s) = outline s.
Proof. by destruct (shutdown_rest fd s) as (ds & -> & _). Qed.

Lemma close_outline o fd s : outline (close_fd o fd s) = outline s.
Proof. by destruct (close_fd_rest o fd s) as (ds & b & ->). Qed.

(** The process is not at its end while a stop runs. *)
Lemma stop_before_exit s : control s -> staged s -> stopper s <> None -> main_thread s <> MExited.
Proof.
  intros [Hm Hw] Hs Hst Hex. pose proof (alone_waiter _ Hs) as Hal. rewrite Hex in Hal, Hm.
  specialize (Hal eq_refl). rewrite Hal in Hw.
  destruct (stopper s) as [[[] p]|]; [|by specialize (proj1 Hw eq_refl)|done].
  by destruct (proj1 Hm eq_refl).
Qed.

(** A stop goes on. *)
Lemma staged_at p s s' caller point :
  control s -> staged s -> stopper s = Some (caller, point) ->
  stopper s' = Some (caller, p) -> _stopping s' = true ->
  main_thread s' = main_thread s -> waiter_thread s' = waiter_thread s ->
  waiter_stop s' = waiter_stop s -> _server_fd s' = _server_fd s -> _master_fd s' = _master_fd s ->
  (quiet s' = true -> _connection_workers s' = []) -> staged s'.
Proof.
  intros Hc Hs Hst Hst' Hp Hm Hw Hws Hf Hmf Hq.
  pose proof (stop_before_exit s Hc Hs ltac:(by rewrite Hst)) as Hex. destruct Hs.
  split; rewrite ?Hm, ?Hw, ?Hws, ?Hf, ?Hmf; done.
Qed.

(** A stop returns. *)
Lemma staged_leave caller p s :
  control s -> staged s -> stopper s = Some (caller, p) -> quiet s = true -> _stopping s = true ->
  staged (leave_stop caller s).
Proof.
  intros Hc Hs Hst Hq Hp. pose proof (quiet_empty _ Hs Hp Hq) as Hw.
  destruct (leave_stop_main _ _ _ Hc Hst) as [(-> & Hwi & ->)|(-> & m & m' & Hm & Hcases & ->)];
    destruct Hs; split; cbn; try done.
  - intros Ha. destruct Hcases as [[-> ->]|[-> ->]]; [done|]. apply alone_waiter0. by rewrite Hm.
  - intros Ha. destruct Hcases as [[-> ->]|[-> ->]]; [done|]. apply asked_waiter0. by rewrite Hm.
  - destruct Hcases as [[-> ->]|[-> ->]]; cbn; by rewrite Hm in closed_descriptors0.
  - by destruct Hcases as [[-> ->]|[-> ->]].
Qed.

Lemma staged_thread t s :
  staged s -> main_thread s <> MExited \/ t = None -> staged (set_replication_thread t s).
Proof. intros [] Hm. split; try done. cbn. by destruct Hm. Qed.

Lemma stop_replication_rest s :
  exists t ds, stop_replication s = set_descriptors ds (set_replication_thread t s) /\
    owner <$> ds = owner <$> descriptors s.
Proof.
  unfold stop_replication. destruct (_replication_thread s) as [r|] eqn:Hr.
  - case_match; [|by exists (Some (mkReplicationThread true (replication_ended r) (replication_point r))), (descriptors s)].
    destruct (shutdown_rest z (set_replication_thread
      (Some (mkReplicationThread true (replication_ended r) (replication_point r))) s)) as (ds & -> & Ho). by do 2 eexists.
  - exists None, (descriptors s). split; [|done]. destruct s. cbn in *. by subst.
Qed.

Ltac stop_goes_on Hc Hs Hst Hp :=
  match goal with |- staged ?s1 =>
    refine (staged_at _ _ s1 _ _ Hc Hs Hst eq_refl _ eq_refl eq_refl eq_refl eq_refl eq_refl _)
  end; [first [done|by apply Hp]|unfold quiet; cbn; first [done|intros; discriminate]].

Lemma stop_staged s s' : stop_step s = Some s' -> control s -> staged s -> staged s'.
Proof.
  unfold stop_step, stop_connection_workers_step. destruct (stopper s) as [[caller point]|] eqn:Hst; [|done]. intros Hstep Hc Hs.
  pose proof (busy_stopping _ Hs) as Hbusy. unfold busy in Hbusy. rewrite Hst in Hbusy.
  assert (point <> AtExchange -> _stopping s = true) as Hp by (intros; by destruct point; auto).
  clear Hbusy. assert (forall t, control (set_replication_thread t s)) as Hrep.
  { intros t. by revert Hc; apply control_same. }
  destruct point; repeat case_match; simplify_eq;
    try (apply (staged_leave _ _ _ Hc Hs Hst); [by unfold quiet; rewrite Hst|auto]);
    try (match goal with |- context [shutdown_fd ?fd s] =>
      destruct (shutdown_rest fd s) as (ds & -> & _) end);
    try (by stop_goes_on Hc Hs Hst Hp).
  - destruct (stop_replication_rest s) as (t & ds & -> & _).
    by stop_goes_on Hc Hs Hst Hp.
  - apply (staged_leave _ AtJoinReplication); [done|by apply staged_thread; [|right]|done| |by apply Hp].
    unfold quiet. cbn. by rewrite Hst.
Qed.

(** The main thread goes on with its work. *)
Lemma staged_move m s :
  late (main_thread s) = false -> late m = false -> staged s -> staged (set_main m s).
Proof.
  intros Hl Hl' Hs. pose proof (closed_descriptors _ Hs) as Hcd. destruct Hs.
  split; cbn; try done; try (by destruct m); by destruct m, (main_thread s).
Qed.

(** The main thread goes on to its end. *)
Lemma staged_late m s :
  late (main_thread s) = true -> closed_down (main_thread s) = closed_down m -> m <> MExited ->
  (alone m = true -> waiter_thread s = WDone) -> (asked m = true -> waiter_stop s = true) ->
  staged s -> staged (set_main m s).
Proof. intros Hl Hcd Hex Ha Has []. split; cbn; try done; [by auto|by rewrite <- Hcd]. Qed.

Lemma staged_enter s :
  stopper s = None -> staged s -> staged (set_stopper (Some (ByMain, AtExchange)) s).
Proof.
  intros Hst []. split; cbn; try done. intros Hp _. apply quiet_empty0; [done|].
  unfold quiet. by rewrite Hst.
Qed.

Lemma close_sockets_closes s :
  sound s -> _server_fd (close_sockets s) < 0 /\ _master_fd (close_sockets s) = None.
Proof.
  intros Hs.
  unfold close_sockets. set (s1 := if 0 <=? _server_fd s then _ else s).
  assert (_server_fd s1 < 0 /\ _master_fd s1 = _master_fd s) as [Hfd1 Hm].
  { unfold s1. destruct (Z.leb_spec 0 (_server_fd s)); [|done].
    destruct (close_fd_rest Listening (_server_fd s) s) as (ds & b & ->). by split. }
  destruct (_master_fd s1) as [fd|] eqn:Hfd; [|done]. rewrite (proj2 (Z.leb_le 0 fd) (master_nonneg _ _ Hs (eq_sym Hm))).
  destruct (close_fd_rest MasterLink fd s1) as (ds & b & ->). done.
Qed.

Lemma close_sockets_outline s :
  let s' := close_sockets s in
  _stopping s' = _stopping s /\ stopper s' = stopper s /\
  _connection_workers s' = _connection_workers s /\ waiter_thread s' = waiter_thread s /\
  waiter_stop s' = waiter_stop s /\ _replication_thread s' = _replication_thread s.
Proof.
  intros s'. subst s'. unfold close_sockets. set (s1 := if 0 <=? _server_fd s then _ else s).
  assert (_stopping s1 = _stopping s /\ stopper s1 = stopper s /\
    _connection_workers s1 = _connection_workers s /\ waiter_thread s1 = waiter_thread s /\
    waiter_stop s1 = waiter_stop s /\ _replication_thread s1 = _replication_thread s)
    as (<- & <- & <- & <- & <- & <-).
  { unfold s1. case_match; [|done].
    by destruct (close_fd_rest Listening (_server_fd s) s) as (ds & b & ->). }
  case_match; [|done]. case_match; [|done].
  by destruct (close_fd_rest MasterLink z s1) as (ds & b & ->).
Qed.

Lemma staged_workers l s :
  staged s -> _connection_workers s <> [] -> staged (set_workers l s).
Proof. intros [] Hne. split; try done. intros Hp Hq. by destruct (Hne (quiet_empty0 Hp Hq)). Qed.

Lemma main_staged s s' : main_step s = Some s' -> sound s -> staged s -> staged s'.
Proof.
  intros Hstep Hsound Hs. unfold main_step in Hstep.
  destruct (main_thread s) eqn:Hm; repeat case_match; simplify_eq;
    try (by apply staged_move; rewrite ?Hm).
  - assert (staged (start_replication s) /\ main_thread (start_replication s) = MRun) as [Hs1 Hm1].
    { unfold start_replication. case_match; [|done]. split; [|done]. apply staged_thread; [done|].
      left. by rewrite Hm. }
    by apply staged_move; rewrite ?Hm1.
  - apply staged_move; [by cbn; rewrite Hm|done|]. destruct Hs. split; try done. cbn.
    intros Hp Hq. by rewrite quiet_empty0.
  - unfold start_connection. destruct (_stopping s) eqn:Hp.
    + assert (staged (close_fd (ClientSocket id) fd s)) as Hs1.
      { by eapply staged_same; [apply close_outline|]. }
      destruct (close_workers (ClientSocket id) fd s) as (_ & _ & Hm1).
      by apply staged_move; rewrite ?Hm1, ?Hm.
    + apply staged_move; [by cbn; rewrite Hm|done|]. destruct Hs. split; try done. cbn. congruence.
  - apply staged_move; [by cbn; rewrite Hm|done|]. by apply staged_enter.
  - destruct Hs. rewrite Hm in *. by split.
  - by apply staged_late; rewrite ?Hm; [..|intros _; apply (asked_waiter s Hs); rewrite Hm|].
  - apply staged_enter in Hs; [|done]. pose proof (alone_waiter _ Hs) as Ha. cbn in Ha.
    pose proof (asked_waiter _ Hs) as Has. cbn in Has. rewrite Hm in Ha, Has.
    by apply staged_late; cbn; rewrite ?Hm.
  - destruct (close_sockets_closes s Hsound) as [Hf Hmf].
    destruct (close_sockets_outline s) as (Hp & Hst & Hw & Hwt & Hws & Hr).
    destruct Hs. rewrite Hm in *.
    split; unfold quiet, busy in *; cbn; rewrite ?Hp, ?Hst, ?Hw, ?Hwt, ?Hws; auto; done.
  - destruct Hs. rewrite Hm in *. by split.
  - apply staged_thread; [done|]. left. by rewrite Hm.
  - destruct Hs. rewrite Hm in *. by split.
Qed.

Lemma thread_staged s s' : thread_step s s' -> sound s -> control s -> staged s -> staged s'.
Proof.
  intros [Hstep|Hstep|Hstep|i Hstep|Hstep] Hsound Hc Hs.
  - by eapply main_staged.
  - destruct Hs as [? ? ? Ha ? ? ?]. unfold waiter_step in Hstep.
    destruct (waiter_thread s) eqn:Hw; try done.
    + destruct (waiter_stop s) eqn:Hws; [|done]. injection Hstep as <-. split; cbn; auto; done.
    + destruct (stopper s) eqn:Hst; [done|]. injection Hstep as <-. split; cbn; try done.
      * intros Hp _. apply quiet_empty0; [done|]. unfold quiet. by rewrite Hst.
      * intros Hal. by specialize (Ha Hal).
  - by eapply stop_staged.
  - unfold worker_step in Hstep. apply bind_Some in Hstep as (w & Hi & Hstep).
    assert (forall w', staged (set_worker i w' s)) as Hmove.
    { intros w'. apply staged_workers; [done|]. intros Hnil. by rewrite Hnil in Hi. }
    repeat case_match; simplify_eq; try (by eapply staged_same; [|apply Hmove]).
    by eapply staged_same; [apply close_outline|].
  - unfold replication_step in Hstep. repeat case_match; simplify_eq;
      (apply staged_thread; [done|]; left; intros Hex;
       pose proof (exited_alone _ Hs Hex); congruence).
Qed.

Lemma event_staged e s s' : event_step e s = Some s' -> staged s -> staged s'.
Proof.
  unfold event_step, serving_event. intros Hstep Hs.
  destruct e as [outcome|fd|interrupted| | |i|i|i|i|i|i|point| | |].
  6-11: (apply bind_Some in Hstep as (w & Hi & Hstep);
    assert (forall w', staged (set_worker i w' s)) as Hmove by
      (intros w'; apply staged_workers; [done|]; intros Hnil; by rewrite Hnil in Hi);
    repeat case_match; simplify_eq; by eapply staged_same; [|apply Hmove]).
  6-9: (repeat case_match; simplify_eq; (apply staged_thread; [done|]; left; intros Hex;
    pose proof (exited_alone _ Hs Hex); congruence)).
  - destruct (main_thread s) eqn:Hm; simplify_eq. apply staged_move; [by rewrite Hm| |done].
    by destruct outcome as [[]| |[] []].
  - destruct (main_thread s) eqn:Hm; simplify_eq. case_match; simplify_eq.
    apply staged_move; [by cbn; rewrite Hm|done|]. by eapply staged_same; [|exact Hs].
  - destruct (main_thread s) eqn:Hm; simplify_eq. apply staged_move; [by rewrite Hm| |done].
    by destruct interrupted.
  - destruct Hs as [? ? ? Ha ? ? ?]. destruct (waiter_thread s) eqn:Hw; simplify_eq.
    split; cbn; try done. intros Hal. by specialize (Ha Hal).
  - destruct Hs. destruct (waiter_thread s) eqn:Hw; simplify_eq. by split.
Qed.

(** ** What the connections have been told *)

Definition live (w : ConnectionWorker) : bool :=
  match stage w with Starting | Registered | Serving _ | Returned => true | _ => false end.

Definition serving (w : ConnectionWorker) : bool :=
  match stage w with Serving _ => true | _ => false end.

(** Asked to stop, and its socket shut down while it has one. *)
Definition told (s : ServerState) (w : ConnectionWorker) : Prop :=
  stop_requested w = true /\ (live w = true -> fd_shut (socket_fd w) s = true).

(** What a stop at point [p] has done for the connection [w] at position [j]. *)
Definition informed (s : ServerState) (p : StopPoint) (j : nat) (w : ConnectionWorker) : Prop :=
  let done ids := told s w /\ (finished w = false -> client_id w ∈ ids) in
  match p with
  | AtSignal i ids => (j < i)%nat -> done ids
  | AtShutdown i fd ids => ((j < i)%nat -> done ids) /\
      (j = i -> stop_requested w = true /\ (live w = true -> socket_fd w = fd))
  | AtFinishedCheck i ids => ((j < i)%nat -> done ids) /\ (j = i -> told s w)
  | AtUnregister ids => done ids
  | AtJoin => told s w /\ (serving w = true -> client_id w ∈ unregistered s)
  | _ => True
  end.

(** The stop walks over the positions. *)
Definition positional (p : StopPoint) : bool :=
  match p with AtSignal _ _ | AtShutdown _ _ _ | AtFinishedCheck _ _ => true | _ => false end.

Definition in_range (p : StopPoint) (n : nat) : Prop :=
  match p with AtShutdown i _ _ | AtFinishedCheck i _ => (i < n)%nat | _ => True end.

Definition all_told (s : ServerState) : Prop :=
  forall caller p, stopper s = Some (caller, p) ->
    (forall j w, _connection_workers s !! j = Some w -> informed s p j w) /\
    in_range p (length (_connection_workers s)).

(** A connection further on, its stop not forgotten. *)
Record later (s s' : ServerState) (w w' : ConnectionWorker) : Prop := {
  later_id : client_id w' = client_id w;
  later_stop : stop_requested w = true -> stop_requested w' = true;
  later_live : live w' = true -> live w = true /\ socket_fd w' = socket_fd w /\
    (fd_shut (socket_fd w) s = true -> fd_shut (socket_fd w) s' = true);
  later_finished : finished w' = false -> finished w = false;
  later_serving : serving w' = true -> stop_requested w = true ->
    serving w = true /\ (client_id w ∈ unregistered s -> client_id w ∈ unregistered s');
}.

Lemma informed_later s s' p j j' w w' :
  informed s p j w -> (positional p = true -> j = j') -> later s s' w w' -> informed s' p j' w'.
Proof.
  intros Hin Hj [Hid Hstop Hlive Hfin Hserv].
  assert (told s w -> told s' w') as Htold.
  { intros [Hst Hsh]. split; [by apply Hstop|]. intros Hl. destruct (Hlive Hl) as (Hl' & -> & Hk).
    auto. }
  assert (forall ids : list Z, told s w /\ (finished w = false -> client_id w ∈ ids) ->
    told s' w' /\ (finished w' = false -> client_id w ∈ ids)) as Hdone.
  { intros ids [Ht Hf]. split; [by apply Htold|]. intros Hf'. by apply Hf, Hfin. }
  destruct p; cbn in *; rewrite ?Hid; try (specialize (Hj eq_refl) as <-); try done.
  - intros Hlt. by apply Hdone, Hin.
  - destruct Hin as [Hin Hi]. split; [intros Hlt; by apply Hdone, Hin|]. intros Heq.
    destruct (Hi Heq) as [Hst Hs]. split; [by apply Hstop|]. intros Hl.
    destruct (Hlive Hl) as (Hl' & -> & _). by apply Hs.
  - destruct Hin as [Hin Hi]. split; [intros Hlt; by apply Hdone, Hin|]. intros Heq.
    by apply Htold, Hi.
  - by apply Hdone.
  - destruct Hin as [Ht Hu]. split; [by apply Htold|]. intros Hsv.
    destruct (Hserv Hsv (proj1 Ht)) as [Hs Hk]. by apply Hk, Hu.
Qed.

(** The stop stays where it is, and the connections go on. *)
Lemma all_told_keep s s' :
  stopper s' = stopper s ->
  (forall caller p, stopper s = Some (caller, p) -> positional p = true ->
     length (_connection_workers s') = length (_connection_workers s)) ->
  (forall caller p, stopper s = Some (caller, p) ->
     forall j' w', _connection_workers s' !! j' = Some w' -> exists j w,
     _connection_workers s !! j = Some w /\ (positional p = true -> j = j') /\ later s s' w w') ->
  all_told s -> all_told s'.
Proof.
  intros Hst Hlen Hw Hall caller p Hp. rewrite Hst in Hp. destruct (Hall caller p Hp) as [Hin Hr].
  split.
  - intros j' w' Hj'. destruct (Hw caller p Hp j' w' Hj') as (j & w & Hj & Hpos & Hl).
    by eapply informed_later; [apply Hin|..].
  - specialize (Hlen caller p Hp). destruct p; cbn in *; try done; by rewrite Hlen.
Qed.

Lemma live_socket w : live w = true -> worker_socket w = Some (socket_fd w, ClientSocket (client_id w)).
Proof. unfold live, worker_socket. by destruct (stage w). Qed.

(** A connection that does not move. *)
Lemma later_same s s' j w :
  shuts s s' -> sound s' -> _connection_workers s' !! j = Some w ->
  (client_id w ∈ unregistered s -> client_id w ∈ unregistered s') -> later s s' w w.
Proof.
  intros Hsh Hs' Hj Hu. split; try done. intros Hl. split; [done|]. split; [done|].
  apply (stays_shut s s' _ (ClientSocket (client_id w)) Hsh Hs').
  eapply worker_owns; [exact Hj|by apply live_socket].
Qed.

(** Nobody moves. *)
Lemma all_told_same s s' :
  stopper s' = stopper s -> _connection_workers s' = _connection_workers s ->
  unregistered s' = unregistered s -> shuts s s' -> sound s' -> all_told s -> all_told s'.
Proof.
  intros Hst Hw Hu Hsh Hs'. apply all_told_keep; [done|by rewrite Hw|]. intros caller p Hp j w Hj.
  exists j, w. rewrite <- Hw. split; [done|]. split; [done|]. apply (later_same s s' j); try done.
  by rewrite Hu.
Qed.

(** One connection moves. *)
Lemma all_told_worker s s' i w w' :
  _connection_workers s !! i = Some w ->
  _connection_workers s' = <[i := w']> (_connection_workers s) -> stopper s' = stopper s ->
  shuts s s' -> sound s' ->
  (forall j x, j <> i -> _connection_workers s !! j = Some x ->
     client_id x ∈ unregistered s -> client_id x ∈ unregistered s') ->
  later s s' w w' -> all_told s -> all_told s'.
Proof.
  intros Hi Hw Hst Hsh Hs' Hu Hl. apply all_told_keep; [done|by rewrite Hw, length_insert|].
  intros caller p Hp j x Hj. pose proof Hj as Hj'. rewrite Hw in Hj.
  destruct (decide (j = i)) as [->|Hne].
  - rewrite list_lookup_insert_eq in Hj by (by eapply lookup_lt_Some). injection Hj as <-. by exists i, w.
  - rewrite list_lookup_insert_ne in Hj by done. exists j, x. split; [done|]. split; [done|].
    apply (later_same s s' j); try done. by apply (Hu j).
Qed.

Lemma all_told_trivial s :
  match stopper s with
  | None | Some (_, (AtExchange | AtShutdownListening | AtStopReplication | AtJoinReplication)) => True
  | _ => False
  end -> all_told s.
Proof. intros Hst caller p Hp. rewrite Hp in Hst. by destruct p. Qed.

Lemma worker_told i s s' :
  worker_step i s = Some s' -> sound s' -> distinct s -> all_told s -> all_told s'.
Proof.
  intros Hstep Hs' [Hnd _].
  assert (shuts s s') as Hsh by (apply thread_shuts; by eapply worker_steps).
  unfold worker_step in Hstep. apply bind_Some in Hstep as (w & Hi & Hstep).
  assert (forall j x, j <> i -> _connection_workers s !! j = Some x -> client_id x <> client_id w)
    as Hother.
  { intros j x Hj Hx Heq. unfold known_ids in Hnd. apply NoDup_app in Hnd as (_ & _ & Hnd).
    apply Hj. eapply (NoDup_lookup _ j i); [exact Hnd|..]; rewrite list_lookup_fmap.
    - by rewrite Hx.
    - by rewrite Hi, Heq. }
  assert (forall s1 w', s' = s1 -> _connection_workers s1 = <[i := w']> (_connection_workers s) ->
    stopper s1 = stopper s ->
    (forall id, id <> client_id w -> id ∈ unregistered s -> id ∈ unregistered s1) ->
    later s s1 w w' -> all_told s -> all_told s') as Hmove.
  { intros s1 w' <- Hw Hst Hu Hl. apply (all_told_worker s s' i w w'); try done.
    intros j x Hj Hx. apply Hu. by eapply Hother. }
  destruct (stage w) as [| |activity| |fd| |] eqn:Hst; repeat case_match; simplify_eq;
    try (destruct (close_fd_rest (ClientSocket (client_id w)) fd
      (set_worker i (move_worker ClosedSocket w) s)) as (ds & b & Heq); rewrite Heq in * );
    (eapply Hmove; [reflexivity|reflexivity|done|cbn; set_solver|]);
    split; unfold live, serving; cbn; rewrite ?Hst; try done. congruence.
Qed.

Lemma main_told s s' :
  main_step s = Some s' -> sound s' -> staged s -> all_told s -> all_told s'.
Proof.
  intros Hstep Hs' Hs. assert (shuts s s') as Hsh by (apply thread_shuts; by apply main_steps).
  unfold main_step in Hstep. destruct (main_thread s) eqn:Hm; repeat case_match; simplify_eq;
    try (by apply all_told_same);
    try (intros _; apply all_told_trivial; by cbn).
  - unfold start_replication in *. by case_match; apply all_told_same.
  - apply all_told_keep; [done|..].
    + intros caller p Hp Hpos. unfold connections_locked in *. rewrite Hp in *. by destruct p.
    + intros caller p Hp j w Hj. cbn in Hj.
      assert (w ∈ _connection_workers s) as [j0 Hj0]%list_elem_of_lookup_1.
      { by apply list_elem_of_lookup_2, list_elem_of_filter in Hj as [_ ?]. }
      exists j0, w. split; [done|]. split; [|by eapply later_same].
      unfold connections_locked in *. rewrite Hp in *. by destruct p.
  - unfold start_connection in *. destruct (_stopping s) eqn:Hst.
    + destruct (close_fd_rest (ClientSocket id) fd s) as (ds & b & Heq). rewrite Heq in *.
      by apply all_told_same.
    + intros _. apply all_told_trivial. cbn. pose proof (busy_stopping _ Hs) as Hb.
      unfold busy in Hb. rewrite Hst in Hb. destruct (stopper s) as [[c p]|]; [|done].
      by destruct p; try specialize (Hb eq_refl).
  - destruct (close_sockets_outline s) as (_ & Hst & Hw & _). apply all_told_same; try done.
    unfold close_sockets, close_fd. by repeat case_match.
Qed.

Lemma event_told e s s' : event_step e s = Some s' -> sound s' -> all_told s -> all_told s'.
Proof.
  intros Hstep Hs'. pose proof (event_shuts _ _ _ Hstep) as Hsh.
  unfold event_step, serving_event in Hstep.
  destruct e as [outcome|fd|interrupted| | |i|i|i|i|i|i|point| | |].
  6-11: (apply bind_Some in Hstep as (w & Hi & Hstep);
    destruct (stage w) as [| |activity| |fd| |] eqn:Hst; try done; repeat case_match; simplify_eq;
    (eapply (all_told_worker _ _ i w); [exact Hi|reflexivity|done|done|done|cbn; set_solver|]);
    split; unfold live, serving; cbn; rewrite ?Hst; try done).
  all: repeat case_match; simplify_eq; by apply all_told_same.
Qed.

Lemma leave_stopper caller s : stopper (leave_stop caller s) = None.
Proof. unfold leave_stop. destruct caller; [|done]. cbn. by destruct (main_thread s). Qed.

(** A connection still has the socket that was shut down. *)
Lemma shut_after_shutdown i w s :
  sound s -> _connection_workers s !! i = Some w -> live w = true ->
  fd_shut (socket_fd w) (if 0 <=? socket_fd w then shutdown_fd (socket_fd w) s else s) = true.
Proof.
  intros [Ha _] Hi Hl.
  pose proof (worker_owns s i w _ _ Hi (live_socket w Hl)) as Ho.
  assert (0 <= socket_fd w) as Hfd.
  { destruct Ha as (_ & _ & Hpos & _). rewrite Forall_forall in Hpos. exact (Hpos _ Ho). }
  apply (owned_descriptor s _ _ Ha) in Ho as [b Hb]. rewrite (proj2 (Z.leb_le _ _) Hfd).
  unfold fd_shut, shutdown_fd. rewrite Hb. cbn. by rewrite lookup_insert_eq.
Qed.

Lemma stop_told s s' :
  stop_step s = Some s' -> sound s -> sound s' -> all_told s -> all_told s'.
Proof.
  intros Hstep Hs Hs' Hall. assert (shuts s s') as Hsh by (apply thread_shuts; by apply stop_steps).
  assert (forall j w, _connection_workers s' !! j = Some w -> told s w -> told s' w) as Hkeep.
  { intros j w Hj [Hq Hl]. split; [done|]. intros Hlive.
    apply (stays_shut s s' _ (ClientSocket (client_id w)) Hsh Hs'); [|by apply Hl].
    eapply worker_owns; [exact Hj|by apply live_socket]. }
  unfold stop_step, stop_connection_workers_step in Hstep. destruct (stopper s) as [[caller p]|] eqn:Hst; [|done].
  destruct (Hall caller p Hst) as [Hin Hr].
  destruct p as [| | |i ids|i fd ids|i ids|ids| |]; simplify_eq/=.
  - case_match; simplify_eq; apply all_told_trivial; by rewrite ?leave_stopper.
  - by apply all_told_trivial.
  - intros caller' p [= <- <-]. split; [|done]. intros j w Hj Hlt. lia.
  - destruct (_connection_workers s !! i) as [w|] eqn:Hi; simplify_eq; intros caller' p [= <- <-].
    + split; [|cbn; rewrite length_insert; by eapply lookup_lt_Some]. intros j x Hj. cbn in Hj |- *.
      destruct (decide (j = i)) as [->|Hne].
      * rewrite list_lookup_insert_eq in Hj by (by eapply lookup_lt_Some). injection Hj as <-.
        split; [intros Hlt; lia|]. by intros _.
      * rewrite list_lookup_insert_ne in Hj by done. split; [|done]. by apply (Hin j x).
    + split; [|done]. intros j x Hj. cbn in Hj. apply lookup_ge_None in Hi. apply (Hin j x Hj).
      apply lookup_lt_Some in Hj. lia.
  - intros caller' p [= <- <-].
    assert (_connection_workers (if 0 <=? fd then shutdown_fd fd s else s) = _connection_workers s)
      as Hw by (case_match; [apply shutdown_workers|done]).
    split; [|cbn; by rewrite Hw]. intros j w Hj. cbn in Hj |- *. pose proof Hj as Hj'.
    rewrite Hw in Hj. destruct (Hin j w Hj) as [Hdone Hi]. split.
    + intros Hlt. destruct (Hdone Hlt) as [Ht Hf]. split; [by apply (Hkeep j)|done].
    + intros ->. destruct (Hi eq_refl) as [Hq Hfd]. split; [done|]. intros Hl.
      rewrite <- (Hfd Hl). exact (shut_after_shutdown i w s Hs Hj Hl).
  - destruct (_connection_workers s !! i) as [w|] eqn:Hi; [|done]. simplify_eq.
    intros caller' p [= <- <-]. split; [|done]. intros j x Hj Hlt. cbn in Hj.
    destruct (Hin j x Hj) as [Hdone Heq]. destruct (decide (j = i)) as [->|Hne].
    + rewrite Hi in Hj. injection Hj as <-. split; [by apply Heq|]. intros ->. set_solver.
    + destruct (Hdone ltac:(lia)) as [Ht Hf]. split; [done|]. intros Hfin. case_match; set_solver.
  - intros caller' p [= <- <-]. split; [|done]. intros j w Hj. cbn in Hj |- *.
    destruct (Hin j w Hj) as [Ht Hf]. split; [by apply (Hkeep j)|]. intros Hsv.
    pose proof (worker_at _ _ _ Hs Hj) as Hok. unfold worker_ok, serving in *.
    destruct (stage w); try done. apply elem_of_union_l, elem_of_list_to_set. by apply Hf.
  - case_match; simplify_eq. by apply all_told_trivial.
  - repeat case_match; simplify_eq; apply all_told_trivial; by rewrite leave_stopper.
Qed.

(** ** The listening socket and the link to the master *)

Definition after_listening (s : ServerState) : bool :=
  match stopper s with Some (_, AtShutdownListening) => false | _ => true end.

Definition after_replication (s : ServerState) : bool :=
  match stopper s with
  | None | Some (_, (AtExchange | AtShutdownListening | AtStopReplication)) => false
  | _ => true
  end.

(** No stop is under way. *)
Definition halted (s : ServerState) : bool := negb (busy s).

(** The waiter is on its way to [stop]. *)
Definition signalled (s : ServerState) : bool :=
  match waiter_thread s with WStop | WInStop => true | _ => false end.

(** The thread of the master does not wait for data, and its buffer is bounded. *)
Definition point_ok (t : ReplicationThread) : Prop :=
  is_blocked (replication_point t) = false /\
  (commands_left (replication_point t) <= receive_buffer_size)%nat.

Record linked (s : ServerState) : Prop := {
  listening_shut : _stopping s = true -> after_listening s = true ->
    closed_down (main_thread s) = false -> fd_shut (_server_fd s) s = true;
  replication_told : forall t, after_replication s = true -> _replication_thread s = Some t ->
    replication_stop t = true /\ exists m, _master_fd s = Some m /\ fd_shut m s = true;
  link_exists : forall t, _replication_thread s = Some t -> closed_down (main_thread s) = false ->
    exists m, _master_fd s = Some m;
  not_started : main_thread s = MRun -> _replication_thread s = None /\
    (_master_fd s = None \/ _stopping s = false /\ signalled s = false);
  replication_over : _stopping s = true -> halted s = true -> _replication_thread s = None;
  stream_flows : forall t, _replication_thread s = Some t -> point_ok t;
}.

Lemma listening_owned s : 0 <= _server_fd s -> (_server_fd s, Listening) ∈ owns s.
Proof.
  intros Hs. unfold owns, own_sockets. rewrite (proj2 (Z.leb_le _ _) Hs). set_solver.
Qed.

Lemma master_owned s m : _master_fd s = Some m -> (m, MasterLink) ∈ owns s.
Proof. intros Hm. unfold owns, own_sockets. rewrite Hm. set_solver. Qed.

(** Nothing here changes, except that sockets are shut down. *)
Lemma linked_keep s s' :
  _stopping s' = _stopping s -> stopper s' = stopper s -> _server_fd s' = _server_fd s ->
  _master_fd s' = _master_fd s ->
  match _replication_thread s' with
  | Some t' => exists t, _replication_thread s = Some t /\
      (replication_stop t = true -> replication_stop t' = true) /\ (point_ok t -> point_ok t')
  | None => True
  end ->
  closed_down (main_thread s') = closed_down (main_thread s) ->
  (main_thread s' = MRun -> main_thread s = MRun /\ waiter_thread s' = waiter_thread s) ->
  shuts s s' -> sound s' -> (closed_down (main_thread s) = false -> 0 <= _server_fd s) ->
  linked s -> linked s'.
Proof.
  intros Hp Hst Hf Hmf Hr Hcd Hm Hsh Hs' Hpos Hl. destruct Hl as [Hl1 Hl2 Hl3 Hl4 Hl5 Hl6].
  assert (after_listening s' = after_listening s /\ after_replication s' = after_replication s /\
    halted s' = halted s) as (Ea & Eb & Ec).
  { unfold after_listening, after_replication, halted, busy. by rewrite Hst. }
  split; rewrite ?Hp, ?Ea, ?Eb, ?Ec, ?Hf, ?Hmf, ?Hcd.
  - intros H1 H2 H3. specialize (Hpos H3). apply (stays_shut s s' _ Listening Hsh Hs'); [|by apply Hl1].
    rewrite <- Hf. apply listening_owned. by rewrite Hf.
  - intros t' Ht Hrt. rewrite Hrt in Hr. destruct Hr as (t & Hrt0 & Himp & _).
    destruct (Hl2 t Ht Hrt0) as [Hstop (m & Hm0 & Hshut)]. split; [by apply Himp|].
    exists m. split; [done|]. apply (stays_shut s s' _ MasterLink Hsh Hs'); [|done].
    apply master_owned. congruence.
  - intros t' Hrt Hc. rewrite Hrt in Hr. destruct Hr as (t & Hrt0 & _). by apply (Hl3 t).
  - intros Hrun. destruct (Hm Hrun) as [Hrun0 Hw]. destruct (Hl4 Hrun0) as [Hn Hor].
    unfold signalled in *. rewrite Hw. split; [|done].
    destruct (_replication_thread s'); [|done]. destruct Hr as (t & Hrt0 & _). congruence.
  - intros H1 H2. pose proof (Hl5 H1 H2) as Hn. destruct (_replication_thread s'); [|done].
    destruct Hr as (t & Hrt0 & _). congruence.
  - intros t' Hrt. rewrite Hrt in Hr. destruct Hr as (t & Hrt0 & _ & Hok). by apply Hok, Hl6.
Qed.

(** The thread of the master as it was, or further on. *)
Lemma same_replication s s' :
  _replication_thread s' = _replication_thread s ->
  match _replication_thread s' with
  | Some t' => exists t, _replication_thread s = Some t /\
      (replication_stop t = true -> replication_stop t' = true) /\ (point_ok t -> point_ok t')
  | None => True
  end.
Proof. intros Hr. destruct (_replication_thread s') as [t|] eqn:Ht; [|done]. by exists t. Qed.

(** A stop comes before the sockets are closed. *)
Lemma stop_before_close s :
  control s -> staged s -> stopper s <> None -> closed_down (main_thread s) = false.
Proof.
  intros [Hm Hw] Hs Hst. destruct (closed_down (main_thread s)) eqn:Hcd; [|done]. exfalso.
  assert (waiter_thread s = WDone) as Hwd.
  { apply (alone_waiter _ Hs). by destruct (main_thread s). }
  rewrite Hwd in Hw. destruct (stopper s) as [[[] p]|]; [|by specialize (proj1 Hw eq_refl)|done].
  by destruct (proj1 Hm eq_refl) as [Heq|Heq]; rewrite Heq in Hcd.
Qed.

Lemma linked_move m s :
  m <> MRun -> closed_down m = closed_down (main_thread s) -> linked s -> linked (set_main m s).
Proof. intros Hne Hcd []. split; cbn; rewrite ?Hcd; try done. Qed.

Lemma linked_enter caller s :
  stopper s = None -> linked s -> linked (set_stopper (Some (caller, AtExchange)) s).
Proof.
  intros Hst [Hl1 Hl2 Hl3 Hl4 Hl5 Hl6].
  unfold after_listening, after_replication, halted, busy in *. rewrite Hst in *.
  by split.
Qed.

(** No stop is under way while [run] has yet to start the thread of the master. *)
Lemma no_stop_yet s :
  control s -> main_thread s = MRun -> signalled s = false -> stopper s = None.
Proof.
  intros [Hm Hw] Hrun Hsig. unfold signalled in Hsig. rewrite Hrun in Hm.
  destruct (stopper s) as [[[] p]|]; [|by rewrite (proj1 Hw eq_refl) in Hsig|done].
  by destruct (proj1 Hm eq_refl).
Qed.

(** Nor once its end is near. *)
Lemma no_stop_left s :
  control s -> staged s -> main_thread s = MClose -> stopper s = None.
Proof.
  intros [Hm Hw] Hs Hcl. pose proof (alone_waiter _ Hs) as Ha. rewrite Hcl in Ha, Hm.
  rewrite (Ha eq_refl) in Hw.
  destruct (stopper s) as [[[] p]|]; [|by specialize (proj1 Hw eq_refl)|done].
  by destruct (proj1 Hm eq_refl).
Qed.

Lemma start_linked s :
  main_thread s = MRun -> control s -> linked s -> linked (set_main MCheck (start_replication s)).
Proof.
  intros Hm Hc Hl. destruct (not_started _ Hl Hm) as [Hr Hor]. unfold start_replication.
  destruct (_master_fd s) as [m|] eqn:Hmf; [|by apply linked_move; rewrite ?Hm].
  destruct Hor as [|[Hp Hsig]]; [done|]. pose proof (no_stop_yet _ Hc Hm Hsig) as Hst.
  split; unfold after_replication; cbn; rewrite ?Hp, ?Hst; try done.
  - intros; by exists m.
  - intros t [= <-]. split; [done|]. cbn. lia.
Qed.

Lemma close_linked s :
  main_thread s = MClose -> control s -> staged s -> linked s ->
  linked (set_main MJoinReplication (close_sockets s)).
Proof.
  intros Hm Hc Hs [_ _ _ _ Hover Hflow]. pose proof (no_stop_left _ Hc Hs Hm) as Hst.
  destruct (close_sockets_outline s) as (Hp & Hst' & _ & _ & _ & Hr).
  split; unfold after_replication, halted, busy in *; cbn; rewrite ?Hp, ?Hst', ?Hst, ?Hr in *; done.
Qed.

Lemma listening_nonneg s : staged s -> closed_down (main_thread s) = false -> 0 <= _server_fd s.
Proof. intros Hs Hcd. pose proof (closed_descriptors _ Hs) as Hpos. by rewrite Hcd in Hpos. Qed.

Lemma main_linked s s' :
  main_step s = Some s' -> sound s' -> control s -> staged s -> linked s -> linked s'.
Proof.
  intros Hstep Hs' Hc Hstg Hl. assert (shuts s s') as Hsh by (apply thread_shuts; by apply main_steps).
  pose proof (listening_nonneg _ Hstg) as Hpos. unfold main_step in Hstep.
  destruct (main_thread s) eqn:Hm; repeat case_match; simplify_eq;
    try (by apply linked_move; rewrite ?Hm).
  - by apply start_linked.
  - apply (linked_keep s); rewrite ?Hm; try done; by apply same_replication.
  - unfold start_connection in *. destruct (_stopping s).
    + destruct (close_fd_rest (ClientSocket id) fd s) as (ds & b & Heq). rewrite Heq in *.
      apply (linked_keep s); rewrite ?Hm; try done; by apply same_replication.
    + apply (linked_keep s); rewrite ?Hm; try done; by apply same_replication.
  - apply linked_move; [done|by cbn; rewrite Hm|]. by apply linked_enter.
  - apply (linked_keep s); rewrite ?Hm; try done; by apply same_replication.
  - apply linked_move; [done|by cbn; rewrite Hm|]. by apply linked_enter.
  - by apply close_linked.
  - apply (linked_keep s); by rewrite ?Hm.
  - apply (linked_keep s); cbn; rewrite ?Hm; try done. by exists r.
Qed.

(** The stop goes on, and nothing else. *)
Lemma linked_point x s :
  after_listening (set_stopper x s) = after_listening s ->
  after_replication (set_stopper x s) = after_replication s ->
  halted (set_stopper x s) = halted s -> linked s -> linked (set_stopper x s).
Proof. intros Ha Hb Hc []. split; rewrite ?Ha, ?Hb, ?Hc; done. Qed.

Lemma shut_owned s fd o : sound s -> (fd, o) ∈ owns s -> fd_shut fd (shutdown_fd fd s) = true.
Proof.
  intros [Ha _] Hin. apply (owned_descriptor s _ _ Ha) in Hin as [b Hb].
  unfold fd_shut, shutdown_fd. rewrite Hb. cbn. by rewrite lookup_insert_eq.
Qed.

(** A stop that ends leaves no thread of the master. *)
Lemma leave_linked caller p s :
  stopper s = Some (caller, p) -> after_listening s = true -> _replication_thread s = None ->
  control s -> linked s -> linked (leave_stop caller s).
Proof.
  intros Hst Ha Hr Hc Hl. destruct Hl as [Hl1 Hl2 Hl3 Hl4 Hl5 Hl6].
  destruct (leave_stop_main _ _ _ Hc Hst) as [(-> & Hw & ->)|(-> & m & m' & Hm & Hcases & ->)].
  - split; cbn; try done; [by intros; apply Hl1|]. intros Hrun. split; [done|]. left.
    destruct (Hl4 Hrun) as [_ [|[_ Hsig]]]; [done|]. unfold signalled in Hsig. by rewrite Hw in Hsig.
  - split; cbn; try done; rewrite ?Hr; try done.
    + intros Hp _ _. apply Hl1; [done|done|]. by destruct Hcases as [[-> _]|[-> _]]; rewrite Hm.
    + by destruct Hcases as [[_ ->]|[_ ->]].
Qed.

(** The exchange that begins a stop. *)
Lemma exchange_linked caller s :
  stopper s = Some (caller, AtExchange) -> control s -> linked s ->
  linked (set_stopper (Some (caller, AtShutdownListening)) (set_stopping true s)).
Proof.
  intros Hst [Hm Hw] [Hl1 Hl2 Hl3 Hl4 Hl5 Hl6]. split; cbn; try done.
  intros Hrun. destruct (Hl4 Hrun) as [Hr Hor]. split; [done|]. left.
  destruct Hor as [|[_ Hsig]]; [done|]. exfalso. rewrite Hst in Hm, Hw. destruct caller.
  - destruct (proj1 Hm eq_refl); congruence.
  - unfold signalled in Hsig. by rewrite (proj1 Hw eq_refl) in Hsig.
Qed.

Lemma shutdown_listening_linked caller s :
  stopper s = Some (caller, AtShutdownListening) -> sound s -> 0 <= _server_fd s -> linked s ->
  linked (set_stopper (Some (caller, AtStopReplication)) (shutdown_fd (_server_fd s) s)).
Proof.
  intros Hst Hs Hpos [Hl1 Hl2 Hl3 Hl4 Hl5 Hl6].
  pose proof (shut_owned s _ _ Hs (listening_owned s Hpos)) as Hshut.
  destruct (shutdown_rest (_server_fd s) s) as (ds & Heq & _). rewrite Heq in *.
  by split.
Qed.

Lemma stop_replication_linked caller s :
  stopper s = Some (caller, AtStopReplication) -> sound s ->
  closed_down (main_thread s) = false ->
  sound (set_stopper (Some (caller, AtSignal 0 [])) (stop_replication s)) ->
  shuts s (set_stopper (Some (caller, AtSignal 0 [])) (stop_replication s)) -> 0 <= _server_fd s ->
  linked s -> linked (set_stopper (Some (caller, AtSignal 0 [])) (stop_replication s)).
Proof.
  intros Hst Hs Hcd Hs' Hsh Hpos Hl. unfold stop_replication in *.
  destruct (_replication_thread s) as [t|] eqn:Hr.
  - destruct (link_exists _ Hl t Hr Hcd) as [m Hm]. destruct Hl as [Hl1 Hl2 Hl3 Hl4 Hl5 Hl6].
    cbn [_master_fd set_replication_thread] in *. rewrite Hm in *.
    set (s1 := set_replication_thread (Some (mkReplicationThread true (replication_ended t) (replication_point t))) s) in *.
    assert (sound s1) as Hs1 by (by apply (sound_aside (set_replication_thread _))).
    pose proof (shut_owned s1 m MasterLink Hs1 (master_owned s m Hm)) as Hshut.
    destruct (shutdown_rest m s1) as (ds & Heq & _). rewrite Heq in *.
    split; cbn; try done.
    + intros Hp _ _. refine (stays_shut _ _ _ Listening Hsh Hs'
        (listening_owned (set_stopper _ (set_descriptors ds s1)) Hpos) _).
      apply Hl1; [done|unfold after_listening; by rewrite Hst|done].
    + intros t' _ [= <-]. split; [done|]. by exists m.
    + intros _ _ _. by exists m.
    + intros Hrun. destruct (Hl4 Hrun) as [Hn _]. congruence.
    + intros t' [= <-]. exact (Hl6 t Hr).
  - destruct Hl as [Hl1 Hl2 Hl3 Hl4 Hl5 Hl6]. split; cbn; try done; rewrite ?Hr; try done.
    intros Hp _ _. apply Hl1; [done|unfold after_listening; by rewrite Hst|done].
Qed.

Lemma stop_linked s s' :
  stop_step s = Some s' -> sound s -> sound s' -> control s -> staged s -> linked s -> linked s'.
Proof.
  intros Hstep Hs Hs' Hc Hstg Hl. assert (shuts s s') as Hsh by (apply thread_shuts; by apply stop_steps).
  pose proof (listening_nonneg _ Hstg) as Hpos.
  unfold stop_step, stop_connection_workers_step in Hstep. destruct (stopper s) as [[caller p]|] eqn:Hst; [|done].
  pose proof (stop_before_close s Hc Hstg ltac:(by rewrite Hst)) as Hcd. specialize (Hpos Hcd).
  assert (forall x s1, s' = set_stopper x s1 -> linked (set_stopper x s) ->
    _stopping s1 = _stopping s -> _server_fd s1 = _server_fd s -> _master_fd s1 = _master_fd s ->
    _replication_thread s1 = _replication_thread s -> main_thread s1 = main_thread s ->
    waiter_thread s1 = waiter_thread s -> linked s') as Hgoes.
  { intros x s1 -> Hl1 Hp Hf Hmf Hr Hm Hw. revert Hl1.
    apply linked_keep; cbn; try done; try (by apply same_replication);
      rewrite ?Hm; by try split. }
  destruct p.
  4-8: (repeat case_match; simplify_eq; (eapply Hgoes; [reflexivity|..]);
    try (apply linked_point; [..|exact Hl]; unfold after_listening, after_replication, halted, busy;
      cbn; by rewrite ?Hst);
    try (match goal with |- context [shutdown_fd ?f ?x] =>
      destruct (shutdown_rest f x) as (ds & -> & _) end); reflexivity).
  - destruct (_stopping s) eqn:Hp; injection Hstep as <-; [|by apply exchange_linked].
    apply (leave_linked _ AtExchange); try done; [unfold after_listening; by rewrite Hst|].
    apply (replication_over _ Hl Hp). unfold halted, busy. by rewrite Hst.
  - rewrite (proj2 (Z.leb_le _ _) Hpos) in Hstep. injection Hstep as <-.
    by apply shutdown_listening_linked.
  - injection Hstep as <-. by apply stop_replication_linked.
  - destruct (_replication_thread s) as [t|] eqn:Hr; repeat case_match; simplify_eq.
    + apply (leave_linked _ AtJoinReplication); try done;
        [unfold after_listening; cbn; by rewrite Hst|].
      apply (linked_keep s); try done. by apply shuts_same.
    + apply (leave_linked _ AtJoinReplication); try done. unfold after_listening. by rewrite Hst.
Qed.

Lemma thread_linked s s' :
  thread_step s s' -> sound s -> sound s' -> control s -> staged s -> linked s -> linked s'.
Proof.
  intros Hstep Hs Hs' Hc Hstg Hl. pose proof (thread_shuts _ _ Hstep) as Hsh.
  pose proof (listening_nonneg _ Hstg) as Hpos.
  destruct Hstep as [Hstep|Hstep|Hstep|i Hstep|Hstep].
  - by eapply main_linked.
  - unfold waiter_step in Hstep. destruct (waiter_thread s) eqn:Hw; try done.
    + destruct (waiter_stop s); [|done]. injection Hstep as <-. destruct Hl as [Hl1 Hl2 Hl3 Hl4 Hl5 Hl6].
      split; cbn; try done. intros Hrun. destruct (Hl4 Hrun) as [Hr [|[Hp _]]]; auto.
    + destruct (stopper s) eqn:Hst; [done|]. injection Hstep as <-.
      apply (linked_enter ByWaiter) in Hl; [|done]. destruct Hl as [Hl1 Hl2 Hl3 Hl4 Hl5 Hl6].
      split; cbn; try done. intros Hrun. destruct (Hl4 Hrun) as [Hr [|[_ Hsig]]]; [auto|].
      unfold signalled in Hsig. cbn in Hsig. by rewrite Hw in Hsig.
  - by eapply stop_linked.
  - unfold worker_step in Hstep. apply bind_Some in Hstep as (w & Hi & Hstep).
    repeat case_match; simplify_eq;
      try (destruct (close_fd_rest (ClientSocket (client_id w)) owned_socket
        (set_worker i (move_worker ClosedSocket w) s)) as (ds & b & Heq); rewrite Heq in * );
      (apply (linked_keep s); try done; by apply same_replication).
  - unfold replication_step in Hstep. repeat case_match; simplify_eq; (apply (linked_keep s); try done);
      eexists; (split; [done|split; [done|]]); unfold point_ok, receive_buffer_size; cbn;
      intros [_ Hle]; (split; [done|lia]).
Qed.

Lemma event_linked e s s' :
  timely false e s -> event_step e s = Some s' -> sound s' -> staged s -> linked s -> linked s'.
Proof.
  intros Htime Hstep Hs' Hstg Hl. pose proof (event_shuts _ _ _ Hstep) as Hsh.
  pose proof (listening_nonneg _ Hstg) as Hpos. unfold event_step, serving_event in Hstep.
  destruct e as [outcome|fd|interrupted| | |i|i|i|i|i|i|point| | |].
  6-11: (apply bind_Some in Hstep as (w & Hi & Hstep); repeat case_match; simplify_eq;
    (apply (linked_keep s); try done; by apply same_replication)).
  - destruct (main_thread s) eqn:Hm; simplify_eq.
    by apply linked_move; rewrite ?Hm; destruct outcome as [[]| |[] []].
  - destruct (main_thread s) eqn:Hm; simplify_eq. case_match; simplify_eq.
    apply (linked_keep s); rewrite ?Hm; try done; by apply same_replication.
  - destruct (main_thread s) eqn:Hm; simplify_eq.
    by apply linked_move; rewrite ?Hm; destruct interrupted.
  - destruct (waiter_thread s) eqn:Hw; simplify_eq. destruct Hl as [Hl1 Hl2 Hl3 Hl4 Hl5 Hl6].
    split; cbn; try done. intros Hrun. destruct (Hl4 Hrun) as [Hr _]. split; [done|]. left.
    by destruct Htime as [|[[|[|]] _]].
  - destruct (waiter_thread s) eqn:Hw; simplify_eq. destruct Hl as [Hl1 Hl2 Hl3 Hl4 Hl5 Hl6].
    split; cbn; try done. intros Hrun. destruct (Hl4 Hrun) as [Hr [|[Hp _]]]; auto.
  - repeat case_match; simplify_eq. apply (linked_keep s); try done.
    eexists. split; [done|]. split; [done|]. intros _.
    match goal with E : _ && _ = true |- _ => apply andb_true_iff in E as [Hle Hno] end.
    apply Nat.leb_le in Hle. apply negb_true_iff in Hno. by split.
  - by destruct Htime as [|[_ Htime]].
  - repeat case_match; simplify_eq. apply (linked_keep s); try done. by eexists.
  - repeat case_match; simplify_eq. apply (linked_keep s); try done. by eexists.
Qed.

(** ** Every reachable state *)

Record kept (s : ServerState) : Prop := {
  kept_sound : sound s;
  kept_control : control s;
  kept_distinct : distinct s;
  kept_staged : staged s;
  kept_told : all_told s;
}.

Lemma step_kept unruly s s' : server_step unruly s s' -> kept s -> kept s'.
Proof.
  intros [Hstep|e Htime Hstep] [Hs Hc Hd Hstg Ht].
  - pose proof (thread_sound _ _ Hstep Hc Hs) as Hs'.
    split; [done|by eapply thread_control|by eapply thread_distinct|by eapply thread_staged|].
    destruct Hstep as [Hstep|Hstep|Hstep|i Hstep|Hstep].
    + by eapply main_told.
    + pose proof (thread_shuts _ _ (waiter_steps _ _ Hstep)) as Hsh. unfold waiter_step in Hstep.
      repeat case_match; simplify_eq; [by apply (all_told_same s)|by apply all_told_trivial].
    + by eapply stop_told.
    + by eapply worker_told.
    + pose proof (thread_shuts _ _ (replication_steps _ _ Hstep)) as Hsh.
      unfold replication_step in Hstep. repeat case_match; simplify_eq; by apply (all_told_same s).
  - pose proof (event_sound _ _ _ Hstep Hs) as Hs'.
    split; [done|by eapply event_control|by eapply event_distinct|by eapply event_staged|
      by eapply event_told].
Qed.

Lemma started_kept fd master : valid_start fd master -> kept (started fd master).
Proof.
  intros [Hfd Hm]. split.
  - split; [|constructor]. unfold accounts, owns, own_sockets, started. cbn.
    rewrite (proj2 (Z.leb_le _ _) Hfd). destruct master as [m|]; cbn.
    + destruct Hm as [Hm Hne]. split; [|split; [|split; [|done]]].
      * repeat constructor; set_solver.
      * by rewrite fmap_insert, map_fmap_singleton.
      * by repeat constructor.
    + split; [|split; [|split; [|done]]].
      * repeat constructor; set_solver.
      * by rewrite map_fmap_singleton.
      * by repeat constructor.
  - split; cbn; split; try done; by intros [|].
  - split; constructor.
  - by split.
  - by apply all_told_trivial.
Qed.

Lemma reachable_kept unruly fd master s :
  valid_start fd master -> rtc (server_step unruly) (started fd master) s -> kept s.
Proof.
  intros Hv Hrun. pose proof (started_kept fd master Hv) as Hk. revert Hk.
  induction Hrun as [|x y z Hxy _ IH]; [done|]. intros Hk. by eapply IH, step_kept.
Qed.

Lemma step_linked s s' : server_step false s s' -> kept s -> linked s -> linked s'.
Proof.
  intros Hxy Hk Hl. pose proof (step_kept _ _ _ Hxy Hk) as Hk'. destruct Hk, Hk'.
  destruct Hxy as [Hstep|e Htime Hstep]; [by eapply thread_linked|by eapply event_linked].
Qed.

Lemma reachable_linked fd master s :
  valid_start fd master -> rtc (server_step false) (started fd master) s -> linked s.
Proof.
  intros Hv Hrun. pose proof (started_kept fd master Hv) as Hk.
  assert (linked (started fd master)) as Hl.
  { split; try done. intros _. by split; [|right]. }
  revert Hk Hl. induction Hrun as [|x y z Hxy _ IH]; [done|]. intros Hk Hl.
  apply IH; [by eapply step_kept|by eapply step_linked].
Qed.
