(* ===== verification/Exit.v ===== *)
(** * The end of the process
    (src/server.cpp, [stop], [run], the destructor; src/main.cpp)

    The theorems on the threads of Lifecycle.v, from the invariants of
    Shutdown.v: every socket is closed exactly once, by its owner; once a stop
    has begun the threads bring the process to its end, whatever happens around
    them, unless a [send] kills it; and two examples of how a stop goes wrong. *)

From stdpp Require Import base option list gmap relations.
From Stdlib Require Import ZArith Lia.
From S2P Require Import Prelude Lifecycle Shutdown.

(** ** A measure of the work that is left *)

Definition main_rank (m : MainPoint) : nat :=
  match m with
  | MRun => receive_buffer_size + 20 | MReap => 13 | MPoll => 12 | MAccept | MStart _ _ => 11 | MCheck => 10
  | MStop => 9 | MInStop => 8 | MRequestStop => 7 | MJoinWaiter => 6 | MDestroy => 5
  | MInDestroy => 4 | MClose => 3 | MJoinReplication => 2 | MExited => 0
  end.

Definition waiter_rank (w : WaiterPoint) : nat :=
  match w with WWaiting => 3 | WStop => 2 | WInStop => 1 | WDone => 0 end.

(** [n] connections are in the list. *)
Definition stop_rank (n : nat) (p : StopPoint) : nat :=
  match p with
  | AtExchange => 1
  | AtShutdownListening => 12 + 3 * n
  | AtStopReplication => 11 + 3 * n
  | AtSignal i _ => 10 + 3 * (n - i)
  | AtShutdown i _ _ => 9 + 3 * (n - i)
  | AtFinishedCheck i _ => 8 + 3 * (n - i)
  | AtUnregister _ => 6
  | AtJoin => 5
  | AtJoinReplication => 4
  end.

Definition worker_rank (w : ConnectionWorker) : nat :=
  match stage w with
  | Starting => 8 | Registered => 7 | Serving _ => 6 | Returned => 4
  | Exchanged _ => 3 | ClosedSocket => 2 | Ended => 0
  end.

Definition workers_rank (l : list ConnectionWorker) : nat := foldr (fun w n => worker_rank w + n)%nat 0%nat l.

Definition replication_rank (t : option ReplicationThread) : nat :=
  match t with
  | None => 0
  | Some (mkReplicationThread _ true _) => 1
  | Some (mkReplicationThread false false _) => receive_buffer_size + 5
  | Some (mkReplicationThread true false (Reading | Blocked)) => 2
  | Some (mkReplicationThread true false (Applying n | Replying n)) => n + 3
  end.

Definition stop_left (l : list ConnectionWorker) (holder : option (StopCaller * StopPoint)) : nat :=
  match holder with
  | None => 0
  | Some (_, p) => stop_rank (length l) p
  end.

Definition work_left (s : ServerState) : nat :=
  3 * main_rank (main_thread s) + 3 * waiter_rank (waiter_thread s) +
  stop_left (_connection_workers s) (stopper s) + workers_rank (_connection_workers s) +
  replication_rank (_replication_thread s).

Lemma workers_rank_cons w l : workers_rank (w :: l) = (worker_rank w + workers_rank l)%nat.
Proof. done. Qed.

Lemma workers_rank_insert i w w' l :
  l !! i = Some w ->
  (workers_rank (<[i := w']> l) + worker_rank w = workers_rank l + worker_rank w')%nat.
Proof.
  revert i. induction l as [|x l IH]; intros [|i] Hi; [done..| |].
  - injection Hi as ->. cbn. lia.
  - pose proof (IH i Hi). change (<[S i := w']> (x :: l)) with (x :: <[i := w']> l).
    rewrite !workers_rank_cons. lia.
Qed.

Lemma workers_rank_filter P `{forall w : ConnectionWorker, Decision (P w)} l :
  (workers_rank (filter P l) <= workers_rank l)%nat.
Proof.
  induction l as [|w l IH]; [done|]. rewrite filter_cons.
  case_decide; rewrite !workers_rank_cons; lia.
Qed.

(** *** Each step leaves less *)

(** A thread that is told to stop has less left to do. *)
Lemma told_rank e p :
  is_blocked p = false -> (commands_left p <= receive_buffer_size)%nat ->
  (replication_rank (Some (mkReplicationThread true e p)) <= receive_buffer_size + 4)%nat /\
  (replication_rank (Some (mkReplicationThread true e p)) <=
   replication_rank (Some (mkReplicationThread false e p)))%nat.
Proof. destruct e, p; cbn [replication_rank commands_left is_blocked]; (done || lia). Qed.

(** Open [work_left], but no rank. *)
Ltac open_work := unfold work_left;
  cbn [main_thread waiter_thread stopper _connection_workers _replication_thread set_main set_waiter
    set_stopper set_workers set_worker set_replication_thread set_waiter_stop set_unregistered
    set_stopping set_server_fd set_master_fd].

Lemma stop_left_mono l l' h : (length l' <= length l)%nat -> (stop_left l' h <= stop_left l h)%nat.
Proof. intros Hle. destruct h as [[c []]|]; cbn; lia. Qed.

(** The main thread goes on. *)
Lemma move_works m s :
  (main_rank m < main_rank (main_thread s))%nat -> _stopping s = true ->
  (work_left (set_main m s) < work_left s)%nat /\ _stopping (set_main m s) = true.
Proof. intros Hlt Hp. split; [|done]. open_work. lia. Qed.

Lemma main_works s s' :
  main_step s = Some s' -> linked s -> _stopping s = true ->
  (work_left s' < work_left s)%nat /\ _stopping s' = true.
Proof.
  intros Hstep Hl Hp. unfold main_step in Hstep.
  destruct (main_thread s) eqn:Hm; repeat case_match; simplify_eq;
    try (apply move_works; [rewrite Hm; cbn; lia|done]).
  - unfold start_replication. case_match; [|by apply move_works; [rewrite Hm; cbn; lia|]].
    split; [|done]. open_work. rewrite Hm. cbn [main_rank replication_rank]. lia.
  - split; [|done]. unfold reap_completed_connections. open_work. rewrite Hm. cbn [main_rank].
    pose proof (workers_rank_filter (fun w => finished w = false) (_connection_workers s)).
    pose proof (stop_left_mono (_connection_workers s)
      (filter (fun w => finished w = false) (_connection_workers s)) (stopper s)
      (length_filter _ _)). lia.
  - unfold start_connection. rewrite Hp.
    destruct (close_fd_rest (ClientSocket id) fd s) as (ds & b & ->).
    split; [|done]. open_work. cbn [set_bad_close set_descriptors main_thread waiter_thread stopper
      _connection_workers _replication_thread]. rewrite Hm. cbn [main_rank]. lia.
  - split; [|done]. open_work. rewrite Hm. match goal with E : stopper s = None |- _ => rewrite E end.
    cbn [main_rank stop_left stop_rank]. lia.
  - split; [|done]. open_work. rewrite Hm. cbn [main_rank]. lia.
  - split; [|done]. open_work. rewrite Hm. match goal with E : stopper s = None |- _ => rewrite E end.
    cbn [main_rank stop_left stop_rank]. lia.
  - destruct (close_sockets_outline s) as (Hst & E1 & E2 & E3 & _ & E4).
    split; [|cbn; congruence]. open_work. rewrite Hm, E1, E2, E3, E4. cbn [main_rank]. lia.
  - split; [|done]. open_work. rewrite Hm. cbn [main_rank replication_rank]. lia.
  - split; [|done]. open_work. rewrite Hm.
    match goal with E : _replication_thread s = Some ?t |- _ =>
      rewrite E; destruct (stream_flows _ Hl t E) as [Hb Hn]; destruct t as [[] [] p] end;
      simplify_eq. destruct (told_rank false p Hb Hn) as [Hle _]. revert Hle. cbn [replication_point].
    unfold replication_rank at 3. lia.
Qed.

Lemma leave_works caller p s s0 :
  control s -> stopper s = Some (caller, p) -> _stopping s = true ->
  (exists t, s0 = set_replication_thread t s /\
    (replication_rank t <= replication_rank (_replication_thread s))%nat) \/ s0 = s ->
  (work_left (leave_stop caller s0) < work_left s)%nat /\ _stopping (leave_stop caller s0) = true.
Proof.
  intros Hc Hst Hp Hs0.
  assert (control s0 /\ stopper s0 = Some (caller, p) /\ _stopping s0 = true /\
    (work_left s0 <= work_left s)%nat) as (Hc0 & Hst0 & Hp0 & Hle).
  { destruct Hs0 as [(t & -> & Ht)| ->]; [|done]. split; [done|]. split; [done|]. split; [done|].
    open_work. lia. }
  destruct (leave_stop_main _ _ _ Hc0 Hst0) as [(-> & Hw & ->)|(-> & m & m' & Hm & Hcases & ->)];
    (split; [|done]); (eapply Nat.lt_le_trans; [|exact Hle]); open_work; rewrite Hst0.
  - rewrite Hw. cbn [waiter_rank stop_left]. lia.
  - rewrite Hm. cbn [stop_left]. destruct Hcases as [[-> ->]|[-> ->]]; cbn [main_rank]; lia.
Qed.

(** A stop goes on. *)
Lemma point_works caller p p' s s0 :
  stopper s = Some (caller, p) -> _stopping s0 = true -> main_thread s0 = main_thread s ->
  waiter_thread s0 = waiter_thread s ->
  length (_connection_workers s0) = length (_connection_workers s) ->
  workers_rank (_connection_workers s0) = workers_rank (_connection_workers s) ->
  (replication_rank (_replication_thread s0) <= replication_rank (_replication_thread s))%nat ->
  (stop_rank (length (_connection_workers s)) p' < stop_rank (length (_connection_workers s)) p)%nat ->
  (work_left (set_stopper (Some (caller, p')) s0) < work_left s)%nat /\
  _stopping (set_stopper (Some (caller, p')) s0) = true.
Proof.
  intros Hst Hp Hm Hw Hlen Hrank Hr Hlt. split; [|done]. open_work. rewrite Hm, Hw, Hst, Hrank.
  cbn [stop_left]. rewrite Hlen. lia.
Qed.

Lemma stop_replication_rank s :
  linked s -> (replication_rank (_replication_thread (stop_replication s)) <=
   replication_rank (_replication_thread s))%nat /\ _stopping (stop_replication s) = _stopping s /\
  waiter_thread (stop_replication s) = waiter_thread s.
Proof.
  intros Hl.
  unfold stop_replication. destruct (_replication_thread s) as [t|] eqn:Hr; [|by rewrite Hr].
  set (t' := mkReplicationThread true (replication_ended t) (replication_point t)).
  set (s1 := set_replication_thread (Some t') s).
  assert (replication_rank (Some t') <= replication_rank (Some t))%nat as Hle.
  { destruct (stream_flows _ Hl t Hr) as [Hb Hn]. unfold t'. destruct t as [[] e p]; [done|].
    by apply told_rank. }
  destruct (_master_fd s1) as [m|]; [|done].
  by destruct (shutdown_rest m s1) as (ds & -> & _).
Qed.

Lemma stop_works s s' :
  stop_step s = Some s' -> control s -> linked s -> _stopping s = true ->
  (work_left s' < work_left s)%nat /\ _stopping s' = true.
Proof.
  intros Hstep Hc Hl Hp. unfold stop_step, stop_connection_workers_step in Hstep.
  destruct (stopper s) as [[caller p]|] eqn:Hst; [|done].
  destruct p as [| | |i ids|i fd ids|i ids|ids| |].
  - rewrite Hp in Hstep. injection Hstep as <-. apply (leave_works _ _ s s Hc Hst Hp). by right.
  - injection Hstep as <-. eapply point_works; [exact Hst|..];
      try (case_match; [destruct (shutdown_rest (_server_fd s) s) as (ds & -> & _)|]; done).
    cbn [stop_rank]. lia.
  - injection Hstep as <-. destruct (stop_replication_rank s Hl) as (Hr & Hp' & Hw').
    destruct (stop_replication_workers s) as (Hw & _ & Hm).
    eapply point_works; [exact Hst|congruence|done|done|by rewrite Hw|by rewrite Hw|done|].
    cbn [stop_rank]. lia.
  - destruct (_connection_workers s !! i) as [w|] eqn:Hi; injection Hstep as <-;
      (eapply point_works; [exact Hst|done|done|done|..]); try done.
    + apply length_insert.
    + cbn [_connection_workers set_worker set_workers]. pose proof (workers_rank_insert i w
        (mkWorker (client_id w) (socket_fd w) (finished w) true (stage w)) _ Hi) as Heq.
      unfold worker_rank in Heq. cbn [stage] in Heq. lia.
    + apply lookup_lt_Some in Hi. cbn [stop_rank]. lia.
    + cbn [stop_rank]. lia.
  - injection Hstep as <-. eapply point_works; [exact Hst|..];
      try (case_match; [destruct (shutdown_rest fd s) as (ds & -> & _)|]; done).
    cbn [stop_rank]. lia.
  - destruct (_connection_workers s !! i) as [w|] eqn:Hi; [|done]. injection Hstep as <-.
    eapply point_works; try done. apply lookup_lt_Some in Hi. cbn [stop_rank]. lia.
  - injection Hstep as <-. eapply point_works; try done. cbn [stop_rank]. lia.
  - case_match; [|done]. injection Hstep as <-. split; [|done]. open_work. rewrite Hst.
    cbn [stop_left stop_rank]. unfold workers_rank at 1. cbn [foldr]. lia.
  - destruct (_replication_thread s) as [t|] eqn:Hr.
    + case_match; [|done]. injection Hstep as <-. apply (leave_works _ _ s _ Hc Hst Hp). left.
      exists None. split; [done|]. apply Nat.le_0_l.
    + injection Hstep as <-. apply (leave_works _ _ s s Hc Hst Hp). by right.
Qed.

(** A connection goes on. *)
Lemma worker_moves k i w w' s s0 :
  _connection_workers s !! i = Some w ->
  main_thread s0 = main_thread s -> waiter_thread s0 = waiter_thread s -> stopper s0 = stopper s ->
  _replication_thread s0 = _replication_thread s -> _stopping s0 = true ->
  _connection_workers s0 = <[i := w']> (_connection_workers s) ->
  (k + worker_rank w' <= worker_rank w)%nat ->
  (k + work_left s0 <= work_left s)%nat /\ _stopping s0 = true.
Proof.
  intros Hi Hm Hw Hst Hr Hp Hws Hle. split; [|done]. unfold work_left. rewrite Hm, Hw, Hst, Hr, Hws.
  pose proof (workers_rank_insert i w w' _ Hi). unfold stop_left. rewrite length_insert. lia.
Qed.

Lemma replication_works s s' :
  replication_step s = Some s' -> _stopping s = true ->
  (work_left s' < work_left s)%nat /\ _stopping s' = true.
Proof.
  intros Hstep Hp. unfold replication_step in Hstep.
  destruct (_replication_thread s) as [[[] [] p]|] eqn:Hr; try done.
  destruct p as [|n|n|]; repeat case_match; simplify_eq; (split; [|done]);
    unfold end_replication, replication_at; open_work; rewrite Hr; cbn [replication_rank]; lia.
Qed.

Lemma thread_works s s' :
  thread_step s s' -> control s -> linked s -> _stopping s = true ->
  (work_left s' < work_left s)%nat /\ _stopping s' = true.
Proof.
  intros [Hstep|Hstep|Hstep|i Hstep|Hstep] Hc Hl Hp.
  - by apply main_works.
  - unfold waiter_step in Hstep. destruct (waiter_thread s) eqn:Hw; repeat case_match; simplify_eq;
      (split; [|done]); open_work; rewrite Hw; cbn [waiter_rank]; [lia|].
    match goal with E : stopper s = None |- _ => rewrite E end. cbn [stop_left stop_rank]. lia.
  - by apply stop_works.
  - unfold worker_step, leave_service in Hstep. apply bind_Some in Hstep as (w & Hi & Hstep).
    destruct (stage w) as [| |[]| |fd| |] eqn:Hst; repeat case_match; simplify_eq;
      try (destruct (close_fd_rest (ClientSocket (client_id w)) fd
        (set_worker i (move_worker ClosedSocket w) s)) as (ds & b & Heq); rewrite Heq in * );
      (eapply (worker_moves 1 i w); [exact Hi|done|done|done|done|exact Hp|reflexivity|];
       unfold worker_rank; cbn [stage move_worker]; rewrite Hst; lia).
  - by apply replication_works.
Qed.

(** *** What happens outside leaves no more *)

Lemma event_works e s s' :
  event_step e s = Some s' -> _stopping s = true ->
  (work_left s' <= work_left s)%nat /\ _stopping s' = true.
Proof.
  unfold event_step, serving_event, leave_service. intros Hstep Hp.
  destruct e as [outcome|fd|interrupted| | |i|i|i|i|i|i|point| | |].
  6-11: (apply bind_Some in Hstep as (w & Hi & Hstep); destruct (stage w) as [| |[]| | | |] eqn:Hst;
    try done; repeat case_match; simplify_eq;
    (eapply (worker_moves 0 i w); [exact Hi|done|done|done|done|exact Hp|reflexivity|];
     unfold worker_rank; cbn [stage move_worker]; rewrite Hst; lia)).
  6-9: (repeat case_match; simplify_eq; (split; [|done]); unfold replication_at; open_work;
    match goal with E : _replication_thread _ = _ |- _ => rewrite E end; cbn [replication_rank];
    repeat case_match; simplify_eq; lia).
  - destruct (main_thread s) eqn:Hm; simplify_eq. split; [|done]. open_work. rewrite Hm.
    destruct outcome as [[]| |[] []]; cbn [after_poll main_rank]; lia.
  - destruct (main_thread s) eqn:Hm; simplify_eq. case_match; simplify_eq. split; [|done]. open_work.
    cbn [set_next_client_id set_descriptors main_thread waiter_thread stopper _connection_workers
      _replication_thread]. rewrite Hm. cbn [main_rank]. lia.
  - destruct (main_thread s) eqn:Hm; simplify_eq. split; [|done]. open_work. rewrite Hm.
    destruct interrupted; cbn [main_rank]; lia.
  - destruct (waiter_thread s) eqn:Hw; simplify_eq. split; [|done]. open_work. rewrite Hw.
    cbn [waiter_rank]. lia.
  - destruct (waiter_thread s) eqn:Hw; simplify_eq. split; [|done]. open_work. rewrite Hw.
    cbn [waiter_rank]. lia.
Qed.

(** ** Somebody can always go on *)

Lemma unfinished_worker l :
  forallb finished l = false -> exists i w, l !! i = Some w /\ finished w = false.
Proof.
  induction l as [|x l IH]; [done|]. cbn. destruct (finished x) eqn:Hx.
  - intros Hl. destruct (IH Hl) as (i & w & Hi & Hw). by exists (S i), w.
  - intros _. by exists 0%nat, x.
Qed.

(** A connection that is joined and has not ended can go on. *)
Lemma joined_goes_on caller i w s :
  kept s -> stopper s = Some (caller, AtJoin) -> _connection_workers s !! i = Some w ->
  finished w = false -> exists s', worker_step i s = Some s'.
Proof.
  intros Hk Hst Hi Hf. destruct (kept_told _ Hk _ _ Hst) as [Hin _].
  destruct (Hin i w Hi) as [[Hq Hl] Hu]. pose proof (worker_at _ _ _ (kept_sound _ Hk) Hi) as Hok.
  unfold worker_step. rewrite Hi. cbn [mbind option_bind]. unfold worker_ok, live, serving in *.
  destruct (stage w) as [| |[]| | | |]; rewrite ?Hq, ?Hl by done; try (by eexists); [|congruence].
  rewrite bool_decide_true by auto. by eexists.
Qed.

Lemma stop_goes_on caller p s :
  kept s -> linked s -> _stopping s = true -> stopper s = Some (caller, p) ->
  exists s', thread_step s s'.
Proof.
  intros Hk Hl Hp Hst.
  assert (forall s', stop_step s = Some s' -> exists s', thread_step s s') as Hstop.
  { intros s' Hs'. exists s'. by apply stop_steps. }
  unfold stop_step, stop_connection_workers_step in Hstop. rewrite Hst, Hp in Hstop.
  destruct p as [| | |i ids|i fd ids|i ids|ids| |]; try (exact (Hstop _ eq_refl)).
  - destruct (_connection_workers s !! i); exact (Hstop _ eq_refl).
  - destruct (kept_told _ Hk _ _ Hst) as [_ Hr]. cbn in Hr.
    apply lookup_lt_is_Some in Hr as [w Hw]. rewrite Hw in Hstop. exact (Hstop _ eq_refl).
  - destruct (forallb finished (_connection_workers s)) eqn:Hall; [exact (Hstop _ eq_refl)|].
    destruct (unfinished_worker _ Hall) as (i & w & Hi & Hf).
    destruct (joined_goes_on _ _ _ _ Hk Hst Hi Hf) as [s' Hs']. exists s'. by apply (worker_steps _ _ i).
  - destruct (_replication_thread s) as [t|] eqn:Hr; [|exact (Hstop _ eq_refl)].
    destruct (replication_ended t) eqn:He; [exact (Hstop _ eq_refl)|].
    destruct (replication_told _ Hl t) as [Hq (m & Hm & Hshut)];
      [unfold after_replication; by rewrite Hst|done|].
    destruct (stream_flows _ Hl t Hr) as [Hflow _]. destruct t as [b e p]. cbn in He, Hq, Hflow. subst.
    destruct p as [|[|n]|n|]; try done; eexists; apply replication_steps; unfold replication_step;
      by rewrite Hr, ?Hm, ?Hshut.
Qed.

Lemma somebody_goes_on s :
  kept s -> linked s -> _stopping s = true -> main_thread s <> MExited -> exists s', thread_step s s'.
Proof.
  intros Hk Hl Hp Hex. destruct (stopper s) as [[caller p]|] eqn:Hst; [by eapply stop_goes_on|].
  pose proof (kept_control _ Hk) as [Hmain Hwaiter]. rewrite Hst in Hmain, Hwaiter.
  pose proof (kept_staged _ Hk) as Hs.
  assert (forall s', main_step s = Some s' -> exists s', thread_step s s') as Hgo.
  { intros s' Hs'. exists s'. by apply main_steps. }
  unfold main_step, connections_locked in Hgo. rewrite Hst in Hgo.
  destruct (main_thread s) eqn:Hm; try (exact (Hgo _ eq_refl)).
  - rewrite (listening_shut _ Hl Hp) in Hgo; [exact (Hgo _ eq_refl)|unfold after_listening; by rewrite Hst|
      by rewrite Hm].
  - by specialize (proj2 Hmain (or_introl eq_refl)).
  - destruct (waiter_thread s) eqn:Hw; [| | |exact (Hgo _ eq_refl)].
    + pose proof (asked_waiter _ Hs) as Ha. rewrite Hm in Ha. eexists. apply waiter_steps.
      unfold waiter_step. by rewrite Hw, (Ha eq_refl).
    + eexists. apply waiter_steps. unfold waiter_step. by rewrite Hw, Hst.
    + by specialize (proj2 Hwaiter eq_refl).
  - by specialize (proj2 Hmain (or_intror eq_refl)).
  - rewrite (replication_over _ Hl Hp) in Hgo; [exact (Hgo _ eq_refl)|unfold halted, busy; by rewrite Hst].
  - done.
Qed.

(** Nothing is left when the process has ended. *)
Lemma exited_clean s :
  kept s -> main_thread s = MExited ->
  descriptors s = ∅ /\ _connection_workers s = [] /\ _replication_thread s = None.
Proof.
  intros [Hs [Hmain Hwaiter] _ Hstg _] Hex.
  pose proof (late_stopping _ Hstg) as Hp. pose proof (alone_waiter _ Hstg) as Ha.
  pose proof (closed_descriptors _ Hstg) as Hcd. rewrite Hex in Hp, Ha, Hcd, Hmain.
  specialize (Hp eq_refl). rewrite (Ha eq_refl) in Hwaiter. destruct Hcd as [Hf Hm].
  assert (stopper s = None) as Hst.
  { destruct (stopper s) as [[[] p]|]; [|by specialize (proj1 Hwaiter eq_refl)|done].
    by destruct (proj1 Hmain eq_refl). }
  pose proof (quiet_empty _ Hstg Hp) as Hw. unfold quiet in Hw. rewrite Hst in Hw.
  split; [|split; [by apply Hw|by apply (exited_alone _ Hstg)]].
  destruct Hs as [(_ & Hmap & _) _]. apply (fmap_empty_inv owner). rewrite <- Hmap.
  unfold owns, own_sockets. rewrite (proj2 (Z.leb_gt 0 _) Hf), Hm, Hex, (Hw eq_refl). done.
Qed.

(** And no thread goes on. *)
Lemma exited_stuck s : kept s -> main_thread s = MExited -> forall s', ~ thread_step s s'.
Proof.
  intros Hk Hex s'. destruct (exited_clean _ Hk Hex) as (_ & Hw & Hr).
  destruct Hk as [_ [Hmain Hwaiter] _ Hstg _]. rewrite Hex in Hmain.
  pose proof (alone_waiter _ Hstg) as Ha. rewrite Hex in Ha. specialize (Ha eq_refl).
  rewrite Ha in Hwaiter. intros [Hstep|Hstep|Hstep|i Hstep|Hstep].
  - unfold main_step in Hstep. by rewrite Hex in Hstep.
  - unfold waiter_step in Hstep. by rewrite Ha in Hstep.
  - unfold stop_step in Hstep. destruct (stopper s) as [[[] pt]|]; [|by specialize (proj1 Hwaiter eq_refl)|done].
    by destruct (proj1 Hmain eq_refl).
  - unfold worker_step in Hstep. by rewrite Hw in Hstep.
  - unfold replication_step in Hstep. by rewrite Hr in Hstep.
Qed.

(** ** The process

    No [send] of the program is told not to raise SIGPIPE, and nothing blocks or
    ignores that signal: a [send] to a client or a master that has reset its
    connection, or on a socket that [stop] has shut down, kills the process. *)

Inductive Process := Running (s : ServerState) | Killed.

Definition sends (w : ConnectionWorker) : bool :=
  match stage w with Serving Sending => true | _ => false end.

Definition replies (t : ReplicationThread) : bool :=
  match t with mkReplicationThread _ false (Replying _) => true | _ => false end.

(** A thread is in a [send]. *)
Definition sending (s : ServerState) : bool :=
  existsb sends (_connection_workers s) ||
  match _replication_thread s with Some t => replies t | None => false end.

(** A step of the process, and whether one of its threads makes it. *)
Inductive process_step (unruly : bool) : bool -> Process -> Process -> Prop :=
| own_step s s' : thread_step s s' -> process_step unruly true (Running s) (Running s')
| outside_step e s s' :
    timely unruly e s -> event_step e s = Some s' ->
    process_step unruly false (Running s) (Running s')
| broken_pipe s : sending s = true -> process_step unruly false (Running s) Killed.

(** A run in which the threads make [n] steps. *)
Inductive runs (unruly : bool) : nat -> Process -> Process -> Prop :=
| runs_nil p : runs unruly 0 p p
| runs_step own n p q r :
    process_step unruly own p q -> runs unruly n q r ->
    runs unruly (if own then S n else n) p r.

(** Nothing is left of the server. *)
Definition gone (s : ServerState) : Prop :=
  descriptors s = ∅ /\ _connection_workers s = [] /\ _replication_thread s = None.

(** What the threads do, they do not have left to do. *)
Lemma runs_work n s p :
  runs false n (Running s) p -> kept s -> linked s -> _stopping s = true ->
  match p with
  | Running s' => kept s' /\ linked s' /\ _stopping s' = true /\ (n + work_left s' <= work_left s)%nat
  | Killed => (n <= work_left s)%nat /\
      exists s', runs false n (Running s) (Running s') /\ sending s' = true
  end.
Proof.
  remember (Running s) as p0 eqn:Hp0. intros Hruns. revert s Hp0.
  induction Hruns as [p|own n p0 q r Hstep Hruns IH]; intros s -> Hk Hl Hp.
  { split; [done|]. split; [done|]. split; [done|]. lia. }
  assert (forall s', q = Running s' -> server_step false s s' -> _stopping s' = true ->
    ((if own then 1 else 0) + work_left s' <= work_left s)%nat ->
    match r with
    | Running s2 => kept s2 /\ linked s2 /\ _stopping s2 = true /\
        ((if own then S n else n) + work_left s2 <= work_left s)%nat
    | Killed => ((if own then S n else n) <= work_left s)%nat /\
        exists s2, runs false (if own then S n else n) (Running s) (Running s2) /\ sending s2 = true
    end) as Hgo.
  { intros s' -> Hserver Hp' Hle.
    specialize (IH s' eq_refl (step_kept _ _ _ Hserver Hk) (step_linked _ _ Hserver Hk Hl) Hp').
    destruct r as [s2|].
    - destruct IH as (? & ? & ? & Hle2). split; [done|]. split; [done|]. split; [done|].
      destruct own; lia.
    - destruct IH as (Hle2 & s2 & Hr & Hs2). split; [destruct own; lia|]. exists s2.
      split; [by eapply runs_step|done]. }
  inversion Hstep as [s0 s' Hthread|e s0 s' Htime Hevent|s0 Hsend]; subst.
  - destruct (thread_works _ _ Hthread (kept_control _ Hk) Hl Hp) as [Hlt Hp'].
    apply (Hgo s' eq_refl); [by left|done|exact Hlt].
  - destruct (event_works _ _ _ Hevent Hp) as [Hle Hp'].
    apply (Hgo s' eq_refl); [by eapply server_event|done|exact Hle].
  - inversion Hruns as [|? ? ? ? ? Hbad]; subst; [|by inversion Hbad].
    split; [lia|]. exists s. split; [constructor|done].
Qed.

(** ** Schedules *)

(** Who goes next, or what happens. *)
Inductive Choice :=
| MainGoes
| WaiterGoes
| StopGoes
| WorkerGoes (i : nat)
| ReplicationGoes
| Happens (e : Event).

Definition choose (c : Choice) (s : ServerState) : option ServerState :=
  match c with
  | MainGoes => main_step s
  | WaiterGoes => waiter_step s
  | StopGoes => stop_step s
  | WorkerGoes i => worker_step i s
  | ReplicationGoes => replication_step s
  | Happens e => event_step e s
  end.

(** The events of a schedule that are on time. *)
Definition on_time (c : Choice) (s : ServerState) : bool :=
  match c with
  | Happens SignalArrives => bool_decide (main_thread s <> MRun) || bool_decide (_master_fd s = None)
  | Happens StreamBlocks => false
  | _ => true
  end.

Fixpoint run_schedule (unruly : bool) (schedule : list Choice) (s : ServerState)
    : option ServerState :=
  match schedule with
  | [] => Some s
  | c :: rest =>
      if unruly || on_time c s then s' ← choose c s; run_schedule unruly rest s' else None
  end.

Lemma choose_step unruly c s s' :
  unruly || on_time c s = true -> choose c s = Some s' -> server_step unruly s s'.
Proof.
  intros Ht Hc. destruct c as [| | |i| |e]; cbn in Hc.
  - by apply server_thread, main_steps.
  - by apply server_thread, waiter_steps.
  - by apply server_thread, stop_steps.
  - by apply server_thread, (worker_steps _ _ i).
  - by apply server_thread, replication_steps.
  - apply (server_event _ _ _ e); [|done]. unfold timely. destruct unruly; [by left|]. right. cbn in Ht.
    destruct e; try done; try (by split; [left|]). split; [|done]. right.
    apply orb_true_iff in Ht as [Ht|Ht]; apply bool_decide_eq_true in Ht; auto.
Qed.

Lemma run_schedule_steps unruly schedule s s' :
  run_schedule unruly schedule s = Some s' -> rtc (server_step unruly) s s'.
Proof.
  revert s. induction schedule as [|c rest IH]; intros s Hrun; cbn in Hrun; [by injection Hrun as ->|].
  destruct (unruly || on_time c s) eqn:Ht; [|done].
  apply bind_Some in Hrun as (s1 & Hc & Hrest). eapply rtc_l; [by eapply choose_step|by apply IH].
Qed.

(** ** Properties *)

(** C13: every socket is closed once, by its owner.  Whatever the clients, the
    master, the signals and the scheduler do, no thread closes a socket that is
    not open or not its own: each open socket is that of the listener, of the
    link to the master, of the connection being accepted or of one connection
    whose thread has yet to close it.  When the process has ended none is open
    and no thread is left. *)
Theorem sockets_closed_once (unruly : bool) (fd : Z) (master : option Z) (s : ServerState) :
  valid_start fd master -> rtc (server_step unruly) (started fd master) s ->
  bad_close s = false /\ NoDup (owns s).*1 /\
  (forall x o, (x, o) ∈ owns s <-> exists b, descriptors s !! x = Some (mkDescriptor o b)) /\
  (main_thread s = MExited ->
   descriptors s = ∅ /\ _connection_workers s = [] /\ _replication_thread s = None).
Proof.
  intros Hv Hrun. pose proof (reachable_kept _ _ _ _ Hv Hrun) as Hk.
  pose proof (kept_sound _ Hk) as [Ha _]. pose proof Ha as (Hnd & _ & _ & Hbad).
  split; [exact Hbad|]. split; [exact Hnd|].
  split; [intros x o; by apply owned_descriptor|]. by apply exited_clean.
Qed.

(** C11: a stop completes or is cut short by SIGPIPE.  Once [stop] has begun, by
    a signal or after a failure of the listening socket, and whatever the clients,
    the master and the scheduler do from then on, the threads make at most
    [work_left] steps of their own.  At every moment of such a run, either the
    process has ended with every socket closed and every thread joined, or some
    thread has a step to make that waits for no client, no master and no other
    thread; or the process was killed, and then a thread was in a [send].  The
    signal is taken to come after [run] has started the thread of a replica, and
    the stream of the master to hold no command that waits for data. *)
Theorem shutdown_completes (fd : Z) (master : option Z) (s : ServerState) (n : nat) (p : Process) :
  valid_start fd master -> rtc (server_step false) (started fd master) s -> _stopping s = true ->
  runs false n (Running s) p ->
  (n <= work_left s)%nat /\
  match p with
  | Running s' =>
      if decide (main_thread s' = MExited) then gone s' /\ forall s'', ~ thread_step s' s''
      else exists s'', thread_step s' s''
  | Killed => exists s', runs false n (Running s) (Running s') /\ sending s' = true
  end.
Proof.
  intros Hv Hreach Hp Hruns. pose proof (reachable_kept _ _ _ _ Hv Hreach) as Hk.
  pose proof (reachable_linked _ _ _ Hv Hreach) as Hl.
  pose proof (runs_work _ _ _ Hruns Hk Hl Hp) as Hwork. destruct p as [s'|]; [|done].
  destruct Hwork as (Hk' & Hl' & Hp' & Hle). split; [lia|]. case_decide as Hex.
  - split; [by apply exited_clean|by apply exited_stuck].
  - by apply somebody_goes_on.
Qed.

(** Without a client, all the points of a stop. *)
Definition stop_points : list Choice := repeat StopGoes 7.

(** A replica gets its signal before [run] has begun. *)
Definition early_schedule : list Choice :=
  [Happens SignalArrives; WaiterGoes] ++ stop_points ++
  [MainGoes; Happens (StreamMoves Reading); MainGoes; MainGoes; StopGoes; MainGoes; MainGoes; MainGoes; StopGoes; MainGoes; MainGoes].

(** A signal that comes too early.  When a replica is told to stop before [run]
    has started the thread that follows the master, [stop] does not see that
    thread: if [stop] has returned by the time it is started, nobody shuts its
    socket down, and the destructor joins it.  When the thread is in [recv] by
    then, the process waits, with every socket closed and no thread able to go
    on, until the master sends something or leaves. *)
Example early_signal_hangs :
  exists s, rtc (server_step true) (started 3 (Some 4)) s /\ main_thread s = MJoinReplication /\
    _replication_thread s = Some (mkReplicationThread true false Reading) /\ descriptors s = ∅ /\
    (forall s', ~ thread_step s s') /\
    forall e s', event_step e s = Some s' -> e = MasterLeaves.
Proof.
  destruct (run_schedule true early_schedule (started 3 (Some 4))) as [s|] eqn:Hrun;
    [|by vm_compute in Hrun].
  exists s. split; [by eapply run_schedule_steps|]. vm_compute in Hrun. injection Hrun as <-.
  split; [done|]. split; [done|]. split; [done|]. split.
  - intros s' [Hstep|Hstep|Hstep|i Hstep|Hstep]; by vm_compute in Hstep.
  - intros e s' Hstep. destruct e; try done; by vm_compute in Hstep.
Qed.

(** ** Witnesses *)

(** A client blocks in the processor, a second one has just been accepted, and
    a signal arrives; the stop has reached the connections. *)
Definition busy_schedule : list Choice :=
  [MainGoes; MainGoes; MainGoes; Happens (PollReturns (PollReady false true));
   Happens (AcceptReturns 5); MainGoes; WorkerGoes 0; WorkerGoes 0; Happens (ClientSends 0);
   MainGoes; MainGoes; Happens (PollReturns (PollReady false true)); Happens (AcceptReturns 6);
   Happens SignalArrives; WaiterGoes; StopGoes; StopGoes; StopGoes; StopGoes].

(** The rest of that run. *)
Definition closing_schedule : list Choice :=
  [StopGoes; StopGoes; StopGoes; MainGoes; StopGoes] ++
  [WorkerGoes 0; WorkerGoes 0; WorkerGoes 0; WorkerGoes 0; ReplicationGoes] ++
  [StopGoes; StopGoes; MainGoes; MainGoes; StopGoes; MainGoes; MainGoes; MainGoes; StopGoes;
   MainGoes; MainGoes].

Example closing_ex :
  (s ← run_schedule false (busy_schedule ++ closing_schedule) (started 3 (Some 4));
   Some (main_thread s, bool_decide (descriptors s = ∅), _connection_workers s)) =
  Some (MExited, true, []).
Proof. vm_compute. reflexivity. Qed.

(** A client is being answered when [stop] shuts its socket down. *)
Definition answered_schedule : list Choice :=
  [MainGoes; MainGoes; MainGoes; Happens (PollReturns (PollReady false true));
   Happens (AcceptReturns 5); MainGoes; WorkerGoes 0; WorkerGoes 0; Happens (ClientSends 0);
   Happens (ClientAnswered 0); Happens SignalArrives; WaiterGoes] ++ repeat StopGoes 5.

Example stop_kills_sender :
  exists s, rtc (server_step false) (started 3 None) s /\ fd_shut 5 s = true /\
    _stopping s = true /\ runs false 0 (Running s) Killed.
Proof.
  destruct (run_schedule false answered_schedule (started 3 None)) as [s|] eqn:Hrun;
    [|by vm_compute in Hrun].
  exists s. split; [by eapply run_schedule_steps|]. vm_compute in Hrun. injection Hrun as <-.
  split; [done|]. split; [done|].
  eapply (runs_step false false 0); [|constructor]. by apply broken_pipe.
Qed.

Lemma shutdown_completes_witness :
  exists s, rtc (server_step false) (started 3 (Some 4)) s /\
    main_thread s = MStart 6 2 /\ (stage <$> _connection_workers s) = [Serving Waiting] /\
    forall n p, runs false n (Running s) p -> (n <= work_left s)%nat /\
      match p with
      | Running s' => main_thread s' <> MExited -> exists s'', thread_step s' s''
      | Killed => exists s', sending s' = true
      end.
Proof.
  destruct (run_schedule false busy_schedule (started 3 (Some 4))) as [s|] eqn:Hrun;
    [|exfalso; vm_compute in Hrun; discriminate].
  assert (rtc (server_step false) (started 3 (Some 4)) s) as Hreach
    by exact (run_schedule_steps _ _ _ _ Hrun).
  assert (main_thread s = MStart 6 2 /\ (stage <$> _connection_workers s) = [Serving Waiting] /\
    _stopping s = true) as (Hm & Hw & Hp).
  { vm_compute in Hrun. injection Hrun as <-. repeat split. }
  assert (valid_start 3 (Some 4)) as Hv by (repeat split; lia).
  exists s. split; [exact Hreach|]. split; [exact Hm|]. split; [exact Hw|]. intros n p Hruns.
  destruct (shutdown_completes 3 (Some 4) s n p Hv Hreach Hp Hruns) as [Hn Hend].
  split; [exact Hn|]. destruct p as [s'|].
  - intros Hex. destruct (decide (main_thread s' = MExited)) as [Heq|_]; [by destruct Hex|exact Hend].
  - destruct Hend as (s' & _ & Hs'). by exists s'.
Defined.

Lemma sockets_closed_once_witness :
  exists s, rtc (server_step false) (started 3 (Some 4)) s /\ bad_close s = false /\
    (5, ClientSocket 1) ∈ owns s.
Proof.
  destruct (run_schedule false busy_schedule (started 3 (Some 4))) as [s|] eqn:Hrun;
    [|exfalso; vm_compute in Hrun; discriminate].
  assert (rtc (server_step false) (started 3 (Some 4)) s) as Hreach
    by exact (run_schedule_steps _ _ _ _ Hrun).
  assert (valid_start 3 (Some 4)) as Hv by (repeat split; lia).
  destruct (sockets_closed_once false 3 (Some 4) s Hv Hreach) as (Hb & _ & Ho & _).
  exists s. split; [exact Hreach|]. split; [exact Hb|]. apply Ho.
  vm_compute in Hrun. injection Hrun as <-. exists false. vm_compute. reflexivity.
Defined.
