(* ===== verification/Main.v ===== *)
(** * The program (src/main.cpp; src/server.cpp, [setup_server],
    [connect_to_master], [setup_replication])

    What happens before the server runs: the arguments, the data on disk, the
    listening socket and the link to the master, each of which can end the
    program.  Then the threads of Lifecycle.v take over. *)

From stdpp Require Import base option list gmap strings relations.
From Stdlib Require Import ZArith Lia.
From S2P Require Import Prelude CharConv Environment Config Rdb Aof.
From S2P Require Import StateMonad ProcessorState Processor ProcessorRun Promises Server Lifecycle Shutdown Exit.

(** ** The sockets of a start *)

(** What the calls of [setup_server] answer; a failed [socket] is negative. *)
Record ListenCalls := mkListenCalls {
  socket_result : Z;
  setsockopt_ok : bool;
  bind_ok : bool;
  listen_ok : bool;
}.

(** What [getaddrinfo] answers: an error, or the addresses with what [socket]
    and [connect] answer for each. *)
Definition MasterLookup : Type := expected (list (Z * bool)) string.

(** The server once it is constructed. *)
Definition constructed_server : ServerState :=
  mkServer 1 (-1) None None false [] ∅ false ∅ MRun WWaiting false None.

Definition open_fd (o : Owner) (fd : Z) (s : ServerState) : ServerState :=
  set_descriptors (<[fd := mkDescriptor o false]> (descriptors s)) s.

(** The listening socket is given up. *)
Definition abandon_listening (s : ServerState) : ServerState :=
  set_server_fd (-1) (close_fd Listening (_server_fd s) s).

Definition setup_server (calls : ListenCalls) (s : ServerState) : expected unit string * ServerState :=
  let s := set_server_fd (socket_result calls) s in
  if _server_fd s <? 0 then (Unexpected "Failed to create server socket", s) else
  let s := open_fd Listening (_server_fd s) s in
  if negb (setsockopt_ok calls) then (Unexpected "setsockopt failed", abandon_listening s) else
  if negb (bind_ok calls) then (Unexpected "Failed to bind to port 6379", abandon_listening s) else
  if negb (listen_ok calls) then (Unexpected "listen failed", abandon_listening s) else
  (Expected tt, s).

(** The loop over the addresses. *)
Fixpoint connect_loop (addresses : list (Z * bool)) (s : ServerState) : Z * ServerState :=
  match addresses with
  | [] => (-1, s)
  | (candidate_fd, connected) :: rest =>
      if candidate_fd <? 0 then connect_loop rest s else
      let s := open_fd MasterLink candidate_fd s in
      if connected : bool then (candidate_fd, s)
      else connect_loop rest (close_fd MasterLink candidate_fd s)
  end.

Definition connect_to_master (config : ReplicaConfig) (lookup : MasterLookup) (s : ServerState)
    : expected Z string * ServerState :=
  match lookup with
  | Unexpected message => (Unexpected ("Failed to resolve master address: " +:+ message), s)
  | Expected addresses =>
      let '(master_fd, s) := connect_loop addresses s in
      if master_fd <? 0
      then (Unexpected ("Failed to connect to master " +:+ host config +:+ ":" +:+
              to_string (replica_port config)), s)
      else (Expected master_fd, s)
  end.

Definition setup_replication (config : ServerConfig) (lookup : MasterLookup) (s : ServerState)
    : expected unit string * ServerState :=
  match replica_of config with
  | None => (Expected tt, s)
  | Some replica =>
      let '(master_fd, s) := connect_to_master replica lookup s in
      match master_fd with
      | Unexpected e => (Unexpected e, s)
      | Expected fd => (Expected tt, set_master_fd (Some fd) s)
      end
  end.

(** The destructor of a server that has not run: there is no thread to stop. *)
Definition destroy (s : ServerState) : ServerState :=
  let s := set_stopping true s in
  close_sockets (if 0 <=? _server_fd s then shutdown_fd (_server_fd s) s else s).

(** ** [main] *)

Inductive MainResult :=
(** The exit code, the line on the standard error, and the server destroyed. *)
| Exits (code : Z) (line : string) (server : option ServerState)
(** [run] is called, with the waiter for signals under way. *)
| Serves (processor : ProcessorState) (server : ServerState).

Section Main.
Context `{Clock, HashOrder, Kernel, Crypto, FileSystem, VectorMemory, DirectoryInfo}.

(** The processor [TcpServer] constructs. *)
Definition fresh_processor (config : ServerConfig) (id : string) : ProcessorState :=
  initial_state (replica_of config) (rdb_config config) (aof_config config)
    (default_user_password_hash config) id.

(** [None] when the start from the data does not return. *)
Definition main (mask_error : option string) (args : list string) (id : string) (rdb : FileState)
    (calls : ListenCalls) (lookup : MasterLookup) : option MainResult :=
  match mask_error with
  | Some message => Some (Exits 1 ("Failed to configure shutdown signals: " +:+ message) None)
  | None =>
      match parse_arguments args with
      | Unexpected e => Some (Exits 1 e None)
      | Expected config =>
          '(persistence, processor) ← initialize_persistence config rdb (fresh_processor config id);
          match persistence with
          | Unexpected e => Some (Exits 1 e (Some (destroy constructed_server)))
          | Expected _ =>
              let '(listening, server) := setup_server calls constructed_server in
              match listening with
              | Unexpected e => Some (Exits 1 e (Some (destroy server)))
              | Expected _ =>
                  let '(replication, server) := setup_replication config lookup server in
                  match replication with
                  | Unexpected e => Some (Exits 1 e (Some (destroy server)))
                  | Expected _ => Some (Serves processor server)
                  end
              end
          end
      end
  end.
End Main.

(** ** Facts *)

(** [socket] does not answer with the number of the listening socket while that
    one is open. *)
Definition valid_lookup (calls : ListenCalls) (lookup : MasterLookup) : Prop :=
  match lookup with
  | Unexpected _ => True
  | Expected addresses => Forall (fun a => a.1 <> socket_result calls) addresses
  end.

Definition listening_on (fd : Z) : ServerState := started fd None.

Lemma setup_server_spec calls :
  match setup_server calls constructed_server with
  | (Expected _, s) => 0 <= socket_result calls /\ s = listening_on (socket_result calls)
  | (Unexpected _, s) => _server_fd s < 0 /\ _master_fd s = None /\ descriptors s = ∅ /\
      bad_close s = false
  end.
Proof.
  unfold setup_server. cbn [_server_fd set_server_fd].
  destruct (Z.ltb_spec (socket_result calls) 0) as [Hneg|Hpos]; [done|].
  assert (let s := abandon_listening (open_fd Listening (socket_result calls)
      (set_server_fd (socket_result calls) constructed_server)) in
    _server_fd s < 0 /\ _master_fd s = None /\ descriptors s = ∅ /\ bad_close s = false) as Hclosed.
  { cbn zeta. unfold abandon_listening. rewrite (close_owned _ _ _ false) by apply lookup_insert_eq.
    cbn. rewrite delete_insert_eq. by rewrite delete_empty. }
  destruct (negb (setsockopt_ok calls)); [done|]. destruct (negb (bind_ok calls)); [done|].
  by destruct (negb (listen_ok calls)).
Qed.

(** The candidates that fail are closed before the next is opened. *)
Lemma connect_loop_spec addresses fd :
  Forall (fun a => a.1 <> fd) addresses ->
  let '(master, s) := connect_loop addresses (listening_on fd) in
  if master <? 0 then s = listening_on fd
  else master <> fd /\ s = open_fd MasterLink master (listening_on fd).
Proof.
  induction 1 as [|[candidate connected] rest Hne _ IH]; [done|]. cbn [connect_loop].
  destruct (Z.ltb_spec candidate 0) as [Hneg|Hpos]; [done|]. cbn in Hne. destruct connected.
  - by rewrite (proj2 (Z.ltb_ge _ _) Hpos).
  - rewrite (close_owned _ _ _ false) by apply lookup_insert_eq.
    change (set_descriptors (delete candidate _) _) with
      (set_descriptors (delete candidate (<[candidate := mkDescriptor MasterLink false]>
        (descriptors (listening_on fd)))) (listening_on fd)).
    rewrite delete_insert_id; [exact IH|]. cbn. by apply lookup_singleton_ne.
Qed.

(** A server that has not run closes all it has opened. *)
Lemma destroy_listening fd : 0 <= fd ->
  descriptors (destroy (listening_on fd)) = ∅ /\ bad_close (destroy (listening_on fd)) = false.
Proof.
  intros Hfd. unfold destroy, close_sockets. cbn. rewrite (proj2 (Z.leb_le _ _) Hfd).
  unfold shutdown_fd. cbn. rewrite lookup_singleton_eq. cbn. rewrite (proj2 (Z.leb_le _ _) Hfd).
  rewrite (close_owned _ _ _ true); [|cbn; apply lookup_insert_eq]. cbn.
  by rewrite insert_singleton_eq, delete_singleton_eq.
Qed.

Lemma destroy_closed s :
  _server_fd s < 0 -> _master_fd s = None -> descriptors s = ∅ -> bad_close s = false ->
  descriptors (destroy s) = ∅ /\ bad_close (destroy s) = false.
Proof.
  intros Hfd Hm Hd Hb. unfold destroy, close_sockets. cbn. rewrite (proj2 (Z.leb_gt 0 _) Hfd). cbn.
  rewrite (proj2 (Z.leb_gt 0 _) Hfd). cbn. by rewrite Hm.
Qed.

(** The replica's link, or none. *)
Lemma setup_replication_spec config calls lookup :
  valid_lookup calls lookup -> 0 <= socket_result calls ->
  match setup_replication config lookup (listening_on (socket_result calls)) with
  | (Expected _, s) => exists master, valid_start (socket_result calls) master /\
      s = started (socket_result calls) master /\ (master = None <-> replica_of config = None)
  | (Unexpected _, s) => s = listening_on (socket_result calls)
  end.
Proof.
  intros Hv Hfd. unfold setup_replication. destruct (replica_of config) as [replica|]; [|by exists None].
  unfold connect_to_master. destruct lookup as [addresses|e]; [|done]. cbn in Hv.
  pose proof (connect_loop_spec _ _ Hv) as Hloop.
  destruct (connect_loop addresses (listening_on (socket_result calls))) as [master s].
  destruct (Z.ltb_spec master 0) as [Hneg|Hpos]; [done|]. destruct Hloop as [Hne ->].
  exists (Some master). split; [done|]. split; [|done]. unfold started, open_fd, listening_on. cbn.
  unfold set_master_fd, set_descriptors. cbn. f_equal. by apply insert_insert_ne.
Qed.

(** ** Properties *)

(** C22: a start either fails cleanly or serves.  The program exits with code 1
    after the first phase that fails (the signal mask, the arguments, the data
    on disk, the listening socket, the link to the master), with the message of
    that phase and every socket it had opened closed, each once.  Otherwise the
    arguments and the data were accepted and [run] gets a server that listens,
    linked to its master exactly when it is a replica; and whenever that run
    comes to its end, nothing is left open. *)
Theorem start_fails_cleanly_or_serves `{Clock, HashOrder, Kernel, Crypto, FileSystem, VectorMemory,
    DirectoryInfo} (mask_error : option string) (args : list string) (id : string)
    (rdb : FileState) (calls : ListenCalls) (lookup : MasterLookup) (result : MainResult) :
  main mask_error args id rdb calls lookup = Some result -> valid_lookup calls lookup ->
  match result with
  | Exits code line server =>
      code = 1 /\
      (mask_error = None ->
       match parse_arguments args with
       | Unexpected e => line = e /\ server = None
       | Expected config =>
           exists s, server = Some s /\ descriptors s = ∅ /\ bad_close s = false /\
           exists r p, initialize_persistence config rdb (fresh_processor config id) = Some (r, p) /\
             match r, setup_server calls constructed_server with
             | Unexpected e, _ | Expected _, (Unexpected e, _) => line = e
             | Expected _, (Expected _, listening) =>
                 (setup_replication config lookup listening).1 = Unexpected line
             end
       end)
  | Serves processor server =>
      mask_error = None /\ exists config fd master,
        parse_arguments args = Expected config /\
        initialize_persistence config rdb (fresh_processor config id) = Some (Expected tt, processor) /\
        valid_start fd master /\ server = started fd master /\
        (master = None <-> replica_of config = None) /\
        forall unruly s, rtc (server_step unruly) server s -> main_thread s = MExited ->
          descriptors s = ∅ /\ bad_close s = false
  end.
Proof.
  intros Hmain Hv. unfold main in Hmain.
  destruct mask_error as [message|]; [by injection Hmain as <-|].
  destruct (parse_arguments args) as [config|e] eqn:Hargs; [|by injection Hmain as <-].
  apply bind_Some in Hmain as ([persistence processor] & Hpers & Hmain).
  destruct persistence as [[]|e]; cbn zeta beta iota in Hmain.
  2: { injection Hmain as <-. split; [done|]. intros _.
    exists (destroy constructed_server). split; [done|]. split; [done|]. split; [done|].
    by do 2 eexists. }
  pose proof (setup_server_spec calls) as Hsetup.
  destruct (setup_server calls constructed_server) as [[[]|e] listening] eqn:Hlisten.
  2: { injection Hmain as <-. destruct Hsetup as (Hfd & Hm & Hd & Hb).
    destruct (destroy_closed _ Hfd Hm Hd Hb) as [Hd' Hb'].
    split; [done|]. intros _. exists (destroy listening). split; [done|].
    split; [done|]. split; [done|]. by do 2 eexists. }
  destruct Hsetup as [Hfd ->]. pose proof (setup_replication_spec config calls lookup Hv Hfd) as Hlink.
  destruct (setup_replication config lookup (listening_on (socket_result calls)))
    as [[[]|e] server] eqn:Hrep; injection Hmain as <-.
  - destruct Hlink as (master & Hstart & -> & Hiff). split; [done|].
    exists config, (socket_result calls), master. split_and!; try done.
    intros unruly s Hrun Hex. pose proof (reachable_kept _ _ _ _ Hstart Hrun) as Hk.
    split; [by apply exited_clean|]. by destruct (kept_sound _ Hk) as [(_ & _ & _ & ?) _].
  - subst server. destruct (destroy_listening _ Hfd) as [Hd' Hb']. split; [done|].
    intros _. exists (destroy (listening_on (socket_result calls))).
    split; [done|]. split; [done|]. split; [done|]. do 2 eexists. by split.
Qed.

(** ** Witness *)

Section Witness.
#[local] Existing Instance millisecond_clock.
#[local] Existing Instance insertion_order.
#[local] Existing Instance perfect_kernel.
#[local] Existing Instance sample_crypto.
#[local] Existing Instance sample_directories.

Definition empty_disk : FileSystem := {|
  make_directories _ := None;
  file_exists _ := Expected false;
  read_text _ := CannotOpen;
  write_text _ _ := Written;
  open_append _ := Expected EmptyString;
|}.
#[local] Existing Instance empty_disk.

Definition ample_memory : VectorMemory := fun _ => true.
#[local] Existing Instance ample_memory.

(** The first address of the master does not answer, the second does, with the
    number of the first. *)
Definition sample_calls (listen_ok : bool) : ListenCalls := mkListenCalls 3 true true listen_ok.
Definition sample_lookup : MasterLookup := Expected [(4, false); (4, true)].

#[local] Notation sample_start listen_ok :=
  (main None ["--replicaof"; "localhost 6379"] "0123456789abcdef" Missing (sample_calls listen_ok)
    sample_lookup).

(** The line of an exit, nothing when the server serves. *)
Definition exit_line (result : option MainResult) : option string :=
  match result with Some (Exits _ line _) => Some line | _ => None end.

Lemma sample_lines :
  exit_line (sample_start true) = None /\ is_Some (sample_start true) /\
  exit_line (sample_start false) = Some "listen failed".
Proof. vm_compute. split; [reflexivity|]. split; [eexists|]; reflexivity. Qed.

Lemma sample_arguments :
  exists config, parse_arguments ["--replicaof"; "localhost 6379"] = Expected config /\
    replica_of config <> None.
Proof. eexists. split; [vm_compute; reflexivity|discriminate]. Qed.

Lemma sample_lookup_valid b : valid_lookup (sample_calls b) sample_lookup.
Proof. repeat constructor; discriminate. Qed.

Lemma start_fails_cleanly_or_serves_witness :
  (exists processor fd master, sample_start true = Some (Serves processor (started fd master)) /\
    valid_start fd master /\ master <> None) /\
  exists s, sample_start false = Some (Exits 1 "listen failed" (Some s)) /\ descriptors s = ∅.
Proof.
  destruct sample_lines as (Hserves & [result Hresult] & Hfails).
  destruct sample_arguments as (config & Hargs & Hreplica). split.
  - rewrite Hresult in Hserves.
    pose proof (start_fails_cleanly_or_serves _ _ _ _ _ _ _ Hresult (sample_lookup_valid true)) as Hmain.
    destruct result as [code line server|processor server]; [discriminate Hserves|].
    destruct Hmain as (_ & config' & fd & master & Hargs' & _ & Hstart & -> & Hiff & _).
    exists processor, fd, master. split; [exact Hresult|]. split; [exact Hstart|].
    intros Hnone. apply Hiff in Hnone. rewrite Hargs in Hargs'. injection Hargs' as <-.
    exact (Hreplica Hnone).
  - destruct (sample_start false) as [result'|] eqn:Hresult'; [|discriminate Hfails].
    destruct result' as [code line server|processor server]; [|discriminate Hfails].
    injection Hfails as ->.
    pose proof (start_fails_cleanly_or_serves _ _ _ _ _ _ _ Hresult' (sample_lookup_valid false))
      as [-> Hclean].
    specialize (Hclean eq_refl). rewrite Hargs in Hclean. destruct Hclean as (s & -> & Hd & _).
    exists s. split; [reflexivity|exact Hd].
Defined.
End Witness.
